(* ===== verification/_CoqProject ===== *)
-Q . S2P
Prelude.v
Enums.v
Identity.v
Error.v
Float64.v
Domain.v
Lifecycle.v
Conflict.v
Codec.v
Serialize.v
Reading.v
Protocol.v
State.v
Samples.v
Eligibility.v
Ranking.v
Schedule.v
Helpers.v
Rounds.v
Ports.v
Operations.v
Safety.v
RecordInvariant.v
Guarantees.v
Drain.v
Evidence.v
Requests.v
PropertyTests.v
Starvation.v
Refinement.v
Persistence.v
Typing.v
Coordinator.v
Lifetimes.v
Worker.v
System.v
Server.v
Threads.v
Broadcast.v
EndToEnd.v
CudaExecutor.v
Programs.v
GatingProof.v
CudaWorker.v
CommandLine.v
IntegratedProof.v
