(* ===== verification/Prelude.v ===== *)
(** * Collective Scheduler: the verification development

    The program (src/, C++20) decides which collective operations of a cluster
    may run.  Clients publish evidence (participants, plans, dependencies,
    reservations, congestion, capacity) and submit requests; a scheduling round
    derives each request's readiness from the evidence, ranks the eligible ones,
    selects a set that may run together and issues grants; a grant is handed to
    the fabric, and a worker completes it.  A coordinator process exposes the
    scheduler over sockets, workers talk to it, and the durable part of the state
    goes to a file.

    Reading order.  Every definition names the code it follows; definitions keep
    the source's names.

    - Prelude: outcomes of calls ([result]: a value or a thrown error), the
      state-and-exception monad [M] in which every stateful operation is written
      (a throw keeps the state reached), record update notation, 64-bit
      arithmetic with its wrap-around, loops that update a map.
    - Enums, Identity, Error, Float64, Domain: enums.hpp, identity.hpp /
      domains.hpp (saturating increments), error.hpp, [double] as IEEE binary64
      bit patterns, and the plain structs with their default initializers.
    - Lifecycle, Conflict: the transition table of lifecycle.hpp and the conflict
      classification of conflict.cpp.
    - Codec, Serialize, Reading: PersistenceWriter and PersistenceReader on lists
      of bytes, the serialize_x / deserialize_x pairs, and the deserializers on
      bytes of which nothing is known.
    - Protocol: the framed wire protocol of protocol.cpp and the receive loop
      that Coordinator and Worker share.
    - State: Scheduler::Impl as the record [Impl]; hash maps are [gmap]s, and
      wherever the code iterates one, the order is an argument ([ord], [gord]).
    - Eligibility, Ranking, Schedule: validate_request, compute_readiness,
      hard_eligible, revalidate_grant; the ranking factors and the comparator;
      Impl::schedule as [schedule_round].
    - Ports, Operations: the three port classes as a typeclass over the outside
      world, and the public interface of Scheduler.  One critical section of the
      lock is one definition: handoff is [handoff_begin], the call of the fabric,
      [handoff_finish].
    - Persistence: serializeState, deserializeState, save and restore.
    - Helpers: the send loop, ReadinessResult, the pseudo-random generator, and
      what the headers define beside it.
    - Drain, PropertyTests, Starvation: the loop of test_property.cpp that schedules,
      hands over and completes until nothing is left, the schedulers it is run on,
      and the starvation test of test_semantics.cpp.
    - Coordinator, Worker, System: the message handler and session of
      coordinator.cpp, the process of worker.cpp, and the two together.
    - Lifetimes: processes of the coordinator one after the other, with saves,
      crashes and restarts between them.
    - Server, Threads, Broadcast: the coordinator process, its accept loop and
      session threads interleaved message by message; the same with every handler
      in its atomic pieces; and what the broadcast of grants sends then.
    - EndToEnd: the process against the scheduler's machine.
    - CommandLine: the options of the executables and the socket calls before
      their loops (coordinator_main.cpp, worker.cpp).
    - CudaExecutor, CudaWorker: the CUDA workload of cuda_executor.cu over a class
      of runtime operations, any of which may fail (what the runtime documents is
      a second class), and the worker process that runs it.
    - Programs, GatingProof, IntegratedProof: the consumer, the example, the
      inspection tool and the benchmark; schedule_gating_proof.cpp; the driver
      integrated_cuda_proof.cpp over a class of system calls, with a testbed of
      the coordinator and CUDA worker models as its instance.
    - Samples: the concrete states the witnesses evaluate.

    What is proved.

    - Rounds: a round never throws, selects a safe, bounded and maximal set,
      issues valid grants, charges fairness to the candidates, does not depend on
      the iteration order, and makes progress.
    - Drain, PropertyTests: repeated rounds with hand-off and completion serve, once
      each, exactly the collectives that can start, and end; every seed of the
      property tests is such a case.
    - Starvation: what ranks first and is not blocked is granted; a collective
      promoted after max_bypass_count bypasses can still be outbid by priority.
    - Safety, Guarantees: the operations as the transition relation [step] over
      [Impl], its invariant [wf], and what holds along all runs: a grant completes
      at most once, cancellation, fencing, a new epoch and a new incarnation
      withdraw grants for good, outcomes are final.  Interleavings are the runs
      of [step].
    - Refinement: the scheduler implements a specification with one rule for
      granting; two collectives never hold the same grant.
    - Evidence, Requests, Eligibility: publishing is monotone; submit, supersede,
      validation, eligibility and revalidation on every branch.  What comments and
      fields of the code announce and no verdict looks at is proved beside them:
      provenance, fresh capacity and execution authority; the policy's own overlap
      settings (Rounds); plans and reservations at completion (Guarantees).
    - RecordInvariant, Typing: an interface for invariants of all records, and its
      instance that keeps every computed number of the counters and records within
      its C++ type; a saved state is restored by a policy with room for it.
    - Codec to Protocol, Persistence: round trips, detection of any changed byte,
      independence of how a stream is cut, bounds and termination of the readers,
      what a restart keeps and that nothing restored runs by itself.
    - Lifetimes: across any number of saves, crashes and restarts an outcome once
      saved is final, work restored from a file runs only after it is superseded,
      and grants of earlier processes are rejected, while the ids handed out since
      the last save are handed out again.
    - Coordinator, Worker, System: messages are scheduler calls; a session is the
      handling of the messages sent; the coordinator never completes anything,
      since it never hands a grant over.
    - Server: under every interleaving of the threads each connection's messages
      are handled in order, each once, descriptors reused or not.
    - Threads, Broadcast: handlers that run at the same time, piece by piece, are
      serializable for the scheduler, the flag and the sessions (a simulation of
      the process by that of Server), but not for the save file, which two savers
      can ruin; every grant sent out was issued, though it may have been fenced
      since.
    - EndToEnd: whatever clients send and however the threads interleave, what
      the process does to its scheduler is a run of [step], so every theorem on
      runs and reachable states is one on the process.
    - CudaExecutor, CudaWorker: on every device that behaves as documented, in any
      order of its threads, the workload computes what the CPU computes and frees
      what it allocated when the runtime recorded no error, and reports parity
      only with the right sum when it did; nothing is said of the memory the
      device reports in use.  The worker reports every workload as completed.
    - CommandLine: printed options are read back, and the processes start with
      them.  Programs, GatingProof, IntegratedProof: the programs do what they
      announce for all iteration orders; the verdict of the gating proof is the
      device's results and readings; that of the integrated driver is not.

    Fuel.  Two loops are not structural.  [decode_loop] runs on the length of the
    buffer, and every frame takes 28 bytes ([Protocol.decoding_ends]); [read_loop]
    runs on the bytes left, and every element takes at least one
    ([Reading.vector_loop_ends]).  Both theorems say that more fuel changes
    nothing.  All other loops recurse on a list or fold over a map's keys.

    Conventions.  Integers are [Z] with the wrap-around written out.  An indexing
    past the end of participant_gens, undefined in C++, reads no generation
    ([Eligibility.bindings_of]); Typing shows that no submitted request leads
    there.  The counters of ids saturate; the steps that take from them ask for
    room, as in [Safety.step].  [std::optional], [std::set] and shared pointers
    are [option], [gset] and the port typeclass.

    Not modelled: the sockets and files themselves (what accept and recv return
    is an argument; opening the save file succeeds), frames that ::send takes in
    parts while another thread sends to the same socket, a crash in the middle of
    a save (a save is one step; Lifetimes shows only that an interrupted one
    leaves nothing to restore), the reason strings of conflicts, std::hash,
    elapsed time, how Windows starts and kills processes, and the test programs
    other than those named, whose checks on samples the theorems state in
    general. *)
From stdpp Require Export base tactics gmap sets list strings sorting.
From Stdlib Require Export ZArith Lia.

#[global] Open Scope Z_scope.

(** * Error values and the state-and-exception monad *)

(** The outcome of a C++ call: it returns a value or throws. *)
Inductive result (E A : Type) : Type :=
  | Ok (a : A)
  | Throw (e : E).
Arguments Ok {E A} a.
Arguments Throw {E A} e.

#[export] Instance result_ret {E} : MRet (result E) := fun A a => Ok a.
#[export] Instance result_bind {E} : MBind (result E) := fun A B f m =>
  match m with Ok a => f a | Throw e => Throw e end.
#[export] Instance result_eq_dec {E A} `{EqDecision E, EqDecision A} : EqDecision (result E A).
Proof. solve_decision. Defined.

(** [if (b) throw e;]. *)
Definition throw_if {E} (b : bool) (e : E) : result E unit :=
  if b then Throw e else Ok tt.

Definition is_ok {E A} (r : result E A) : bool :=
  match r with Ok _ => true | Throw _ => false end.

Lemma forallb_Forall {A} (f : A -> bool) l : forallb f l = true <-> Forall (fun x => f x = true) l.
Proof.
  induction l as [|x l IH]; simpl; [by split|]. by rewrite andb_true_iff, Forall_cons, IH.
Qed.
Lemma Forall2_impl_l {A B} (P Q : A -> B -> Prop) l k :
  Forall2 P l k -> (forall x y, x ∈ l -> P x y -> Q x y) -> Forall2 Q l k.
Proof.
  intros H HQ. induction H as [|x y l k Hxy H IH]; [constructor|]. constructor.
  - apply HQ; [left|done].
  - apply IH. intros x' y' Hin. apply HQ. by right.
Qed.
Lemma throw_if_bind_ok {E A} b (e : E) (m : unit -> result E A) a :
  (throw_if b e ≫= m) = Ok a <-> b = false /\ m tt = Ok a.
Proof. unfold throw_if. destruct b; simpl; naive_solver. Qed.
Lemma result_bind_ok {E A B} (m : result E A) (f : A -> result E B) b :
  (m ≫= f) = Ok b <-> exists a, m = Ok a /\ f a = Ok b.
Proof. destruct m; simpl; naive_solver. Qed.

(** A C++ member function that mutates the object [S] and may throw.  The
    mutations made before the throw stay, so the state is outside the result. *)
Definition M (E S A : Type) : Type := S -> result E A * S.
#[export] Instance M_ret {E S} : MRet (M E S) := fun A a s => (Ok a, s).
#[export] Instance M_bind {E S} : MBind (M E S) := fun A B f m s =>
  match m s with
  | (Ok a, s') => f a s'
  | (Throw e, s') => (Throw e, s')
  end.
Definition throw {E S A} (e : E) : M E S A := fun s => (Throw e, s).
Definition get_state {E S} : M E S S := fun s => (Ok s, s).
Definition put_state {E S} (s : S) : M E S unit := fun _ => (Ok tt, s).
Definition lift {E S A} (r : result E A) : M E S A := fun s => (r, s).
(** The state a call leaves behind, and its result. *)
Definition exec {E S A} (m : M E S A) (s : S) : S := snd (m s).
Definition eval {E S A} (m : M E S A) (s : S) : result E A := fst (m s).

(** Running a sequence one step at a time. *)
Lemma bind_ok {E S A B} (m : M E S A) (f : A -> M E S B) s a s' :
  m s = (Ok a, s') -> (m ≫= f) s = f a s'.
Proof. unfold mbind, M_bind. by intros ->. Qed.
Lemma bind_throw {E S A B} (m : M E S A) (f : A -> M E S B) s e s' :
  m s = (Throw e, s') -> (m ≫= f) s = (Throw e, s').
Proof. unfold mbind, M_bind. by intros ->. Qed.
Lemma bind_get {E S B} (f : S -> M E S B) s : (get_state ≫= f) s = f s s.
Proof. reflexivity. Qed.
Lemma bind_put {E S B} (f : unit -> M E S B) s s' : (put_state s' ≫= f) s = f tt s'.
Proof. reflexivity. Qed.

Lemma bind_lift {E S A B} (r : result E A) (f : A -> M E S B) s :
  (lift r ≫= f) s = match r with Ok a => f a s | Throw e => (Throw e, s) end.
Proof. by destruct r. Qed.

(** [for (x : l) body]. *)
Fixpoint mfor {E S A} (body : A -> M E S unit) (l : list A) : M E S unit :=
  match l with
  | [] => mret tt
  | x :: l => body x ≫= fun _ => mfor body l
  end.

(** * Functional record update *)

(** [r <| f := v |>] is [r] with the field [f] replaced.  A record type opts in
    with an instance of [Eta], its eta-expansion; the setters are computed. *)
Class Eta (R : Type) := eta : R -> R.
Class Setter {R T : Type} (proj : R -> T) := set : (T -> T) -> R -> R.
Arguments set {R T} proj {_} f r.

Ltac mk_setter proj :=
  lazymatch type of proj with
  | ?R -> ?T =>
      let inst := constr:(_ : Eta R) in
      let body := eval hnf in inst in
      let res := constr:(fun (f : T -> T) (r : R) =>
        ltac:(let b := eval cbv beta in (body r) in
              let p := eval pattern (proj r) in b in
              lazymatch p with
              | ?h _ => let t := eval cbv beta in (h (f (proj r))) in exact t
              end)) in
      exact res
  end.
#[export] Hint Extern 1 (Setter ?p) => mk_setter p : typeclass_instances.

Declare Scope update_scope.
Delimit Scope update_scope with update.
#[global] Open Scope update_scope.
Notation "r <| f := v |>" := (set f (fun _ => v) r)
  (at level 12, left associativity, f at level 11, v at level 200) : update_scope.
Notation "r <| f ::= g |>" := (set f g r)
  (at level 12, left associativity, f at level 11, g at level 200) : update_scope.

(** * Machine integers *)

(** [std::uint64_t] and [std::size_t] (64 bits) are [Z] with the wrap-around
    written out; [u64 z] says that [z] is such a value. *)
Definition U64_MAX : Z := 2 ^ 64 - 1.
Definition u64 (z : Z) : Prop := 0 <= z < 2 ^ 64.
Definition u32 (z : Z) : Prop := 0 <= z < 2 ^ 32.
Definition i32 (z : Z) : Prop := - 2 ^ 31 <= z < 2 ^ 31.
Definition u8 (z : Z) : Prop := 0 <= z < 256.
Definition wrap64 (z : Z) : Z := z mod 2 ^ 64.
Definition wrap32 (z : Z) : Z := z mod 2 ^ 32.
Definition add64 (a b : Z) : Z := wrap64 (a + b).
Definition sub64 (a b : Z) : Z := wrap64 (a - b).
Definition mul64 (a b : Z) : Z := wrap64 (a * b).

Lemma wrap64_small z : u64 z -> wrap64 z = z.
Proof. apply Z.mod_small. Qed.
Lemma wrap64_u64 z : u64 (wrap64 z).
Proof. apply Z.mod_pos_bound. lia. Qed.
Lemma add64_small a b : u64 a -> 0 <= b -> a + b <= U64_MAX -> add64 a b = a + b.
Proof. unfold U64_MAX, add64. intros. apply wrap64_small. unfold u64 in *. lia. Qed.

Lemma u64_testbit z k : u64 z -> 64 <= k -> Z.testbit z k = false.
Proof. intros Hz Hk. rewrite <- (wrap64_small z Hz). apply Z.mod_pow2_bits_high. lia. Qed.
Lemma u64_of_testbit z : 0 <= z -> (forall k, 64 <= k -> Z.testbit z k = false) -> u64 z.
Proof.
  intros Hz Hk. assert (z = wrap64 z) as ->; [|apply wrap64_u64].
  apply Z.bits_inj'. intros k H0. unfold wrap64. destruct (Z.lt_ge_cases k 64).
  - by rewrite Z.mod_pow2_bits_low.
  - rewrite Hk by done. by rewrite Z.mod_pow2_bits_high by lia.
Qed.
Lemma lxor_u64 a b : u64 a -> u64 b -> u64 (Z.lxor a b).
Proof.
  intros Ha Hb. apply u64_of_testbit.
  - apply Z.lxor_nonneg. unfold u64 in *. lia.
  - intros k Hk. by rewrite Z.lxor_spec, !u64_testbit.
Qed.

(** Facts that a value is in the range of its machine type. *)
Create HintDb ranges.
Lemma add64_u64 a b : u64 (add64 a b).
Proof. apply wrap64_u64. Qed.
#[export] Hint Resolve wrap64_u64 add64_u64 lxor_u64 : ranges.

(** * Sorting *)

(** [std::stable_sort] (and [std::sort], whose result is the same for the total
    orders it is used with): insertion from the back keeps equal elements in
    their order. *)
Fixpoint insert_before {A} (lt : A -> A -> bool) (x : A) (l : list A) : list A :=
  match l with
  | [] => [x]
  | y :: l' => if lt y x then y :: insert_before lt x l' else x :: y :: l'
  end.
Fixpoint stable_sort {A} (lt : A -> A -> bool) (l : list A) : list A :=
  match l with
  | [] => []
  | x :: l' => insert_before lt x (stable_sort lt l')
  end.

(** [v.erase(std::unique(v.begin(), v.end()), v.end())]: of each run of equal
    elements the first stays. *)
Fixpoint unique {A} `{EqDecision A} (l : list A) : list A :=
  match l with
  | [] => []
  | x :: l' =>
      match l' with
      | y :: _ => if decide (x = y) then unique l' else x :: unique l'
      | [] => [x]
      end
  end.

(** The [sort_unique] helpers of deterministic.hpp, over the element's [<]. *)
Definition sort_unique {A} `{EqDecision A} (lt : A -> A -> bool) (l : list A) : list A :=
  unique (stable_sort lt l).

(** A boolean [<] that is a strict total order. *)
Class StrictTotal {A} (lt : A -> A -> bool) := {
  lt_irrefl x : lt x x = false;
  lt_trans x y z : lt x y = true -> lt y z = true -> lt x z = true;
  lt_total x y : lt x y = true \/ x = y \/ lt y x = true;
}.

Lemma insert_before_perm {A} lt (x : A) l : insert_before lt x l ≡ₚ x :: l.
Proof.
  induction l as [|y l IH]; simpl; [done|].
  destruct (lt y x); [|done]. rewrite IH. apply Permutation_swap.
Qed.
Lemma stable_sort_perm {A} lt (l : list A) : stable_sort lt l ≡ₚ l.
Proof. induction l as [|x l IH]; simpl; [done|]. by rewrite insert_before_perm, IH. Qed.

Section sort_on.
(** Sorting a list whose elements satisfy [P], on which [lt] is a strict total
    order: the result is the sorted list, whatever the order of the input. *)
Context {A : Type} (lt : A -> A -> bool) (P : A -> Prop).
Context (Ptrans : forall x y z, P x -> P y -> P z ->
           lt x y = true -> lt y z = true -> lt x z = true).
Context (Ptotal : forall x y, P x -> P y -> lt x y = true \/ x = y \/ lt y x = true).
Context (Pirrefl : forall x, P x -> lt x x = false).

Definition le_of (x y : A) : Prop := x = y \/ lt x y = true.

Lemma insert_before_sorted x l :
  P x -> Forall P l -> StronglySorted le_of l -> StronglySorted le_of (insert_before lt x l).
Proof.
  intros Px Pl. induction 1 as [|y l Hs IH Hy]; simpl; [repeat constructor|].
  apply Forall_cons in Pl as [Py Pl]. destruct (lt y x) eqn:E.
  - constructor; [auto|]. rewrite insert_before_perm. constructor; [by right|done].
  - assert (Hxy : le_of x y).
    { destruct (Ptotal x y Px Py) as [?|[?|?]]; [by right|by left|congruence]. }
    constructor; [by constructor|]. constructor; [done|].
    rewrite Forall_forall in Hy, Pl |- *. intros z Hz. destruct (Hy z Hz) as [<-|Hyz]; [done|].
    destruct Hxy as [->|Hxy]; [by right|]. right. eauto.
Qed.

Lemma stable_sort_sorted l : Forall P l -> StronglySorted le_of (stable_sort lt l).
Proof.
  induction 1 as [|x l Px Pl IH]; simpl; [constructor|].
  apply insert_before_sorted; [done| |done]. by rewrite stable_sort_perm.
Qed.

Lemma sorted_perm_unique l1 l2 :
  Forall P l1 -> StronglySorted le_of l1 -> StronglySorted le_of l2 -> l1 ≡ₚ l2 -> l1 = l2.
Proof.
  intros Pl Hs1. revert l2. induction Hs1 as [|x l1 Hs1 IH Hx]; intros l2 Hs2 Hp.
  { apply Permutation_nil in Hp. done. }
  apply Forall_cons in Pl as [Px Pl].
  destruct Hs2 as [|y l2 Hs2 Hy]; [by symmetry in Hp; apply Permutation_nil_cons in Hp|].
  assert (P y) as Py.
  { assert (y ∈ x :: l1) as Hin by (rewrite Hp; left). apply elem_of_cons in Hin as [->|?]; [done|].
    rewrite Forall_forall in Pl. auto. }
  assert (x = y) as <-.
  { assert (y ∈ x :: l1) as Hyin by (rewrite Hp; left).
    assert (x ∈ y :: l2) as Hxin by (rewrite <- Hp; left).
    rewrite Forall_forall in Hx, Hy.
    apply elem_of_cons in Hyin as [->|Hyin]; [done|].
    apply elem_of_cons in Hxin as [->|Hxin]; [done|].
    destruct (Hx _ Hyin) as [?|H1]; [done|]. destruct (Hy _ Hxin) as [?|H2]; [done|].
    pose proof (Ptrans x y x Px Py Px H1 H2) as Hxx. by rewrite (Pirrefl x Px) in Hxx. }
  f_equal. apply IH; [done..|]. by eapply Permutation_cons_inv.
Qed.

Lemma stable_sort_unique l1 l2 :
  Forall P l1 -> l1 ≡ₚ l2 -> stable_sort lt l1 = stable_sort lt l2.
Proof.
  intros Pl Hp. apply sorted_perm_unique.
  - by rewrite stable_sort_perm.
  - by apply stable_sort_sorted.
  - apply stable_sort_sorted. by rewrite <- Hp.
  - by rewrite !stable_sort_perm.
Qed.
End sort_on.

Section sort_total.
Context {A : Type} (lt : A -> A -> bool) `{!StrictTotal lt} `{EqDecision A}.

Lemma stable_sort_total_sorted l : StronglySorted (le_of lt) (stable_sort lt l).
Proof.
  apply (stable_sort_sorted lt (fun _ => True)); try by intros; eauto using lt_trans, lt_total.
  by apply Forall_forall.
Qed.
Lemma stable_sort_total_unique l1 l2 : l1 ≡ₚ l2 -> stable_sort lt l1 = stable_sort lt l2.
Proof.
  apply (stable_sort_unique lt (fun _ => True));
    try by intros; eauto using lt_trans, lt_total, lt_irrefl.
  by apply Forall_forall.
Qed.

Lemma elem_of_unique (l : list A) x : x ∈ unique l <-> x ∈ l.
Proof.
  induction l as [|y l IH]; simpl; [done|]. destruct l as [|z l]; [done|].
  case_decide as E; [subst; rewrite IH|rewrite elem_of_cons, IH]; rewrite !elem_of_cons; tauto.
Qed.
Lemma unique_length (l : list A) : (length (unique l) <= length l)%nat.
Proof.
  induction l as [|y l IH]; simpl; [done|]. destruct l as [|z l]; [done|].
  case_decide; simpl in *; lia.
Qed.
(** [lt]-sorted without repetition. *)
Lemma unique_sorted l :
  StronglySorted (le_of lt) l -> StronglySorted (fun x y => lt x y = true) (unique l).
Proof.
  induction 1 as [|x l Hs IH Hx]; simpl; [constructor|].
  destruct l as [|y l]; [repeat constructor|]. case_decide as E; [done|].
  rewrite Forall_forall in Hx. constructor; [done|]. apply Forall_forall. intros z Hz.
  rewrite elem_of_unique in Hz. destruct (Hx y) as [?|Hxy]; [left|done|].
  apply elem_of_cons in Hz as [->|Hz]; [done|].
  apply StronglySorted_inv in Hs as [_ Hs]. rewrite Forall_forall in Hs.
  destruct (Hs z Hz) as [<-|?]; [done|]. eauto using lt_trans.
Qed.

Lemma sort_unique_sorted l : StronglySorted (fun x y => lt x y = true) (sort_unique lt l).
Proof. apply unique_sorted, stable_sort_total_sorted. Qed.
Lemma elem_of_sort_unique l x : x ∈ sort_unique lt l <-> x ∈ l.
Proof. unfold sort_unique. by rewrite elem_of_unique, stable_sort_perm. Qed.
Lemma strictly_sorted_NoDup (l : list A) :
  StronglySorted (fun x y => lt x y = true) l -> NoDup l.
Proof.
  induction 1 as [|x l Hs IH Hx]; constructor; [|done]. intros Hin.
  rewrite Forall_forall in Hx. specialize (Hx x Hin). by rewrite lt_irrefl in Hx.
Qed.
Lemma sort_unique_NoDup l : NoDup (sort_unique lt l).
Proof. apply strictly_sorted_NoDup, sort_unique_sorted. Qed.

Lemma unique_NoDup (l : list A) : NoDup l -> unique l = l.
Proof.
  induction 1 as [|x l Hx Hl IH]; simpl; [done|]. destruct l as [|y l]; [done|].
  rewrite decide_False by (intros ->; apply Hx; left). by f_equal.
Qed.
(** The size test of [validate_request]: sorting and de-duplicating keeps the
    length exactly when there was no duplicate. *)
Lemma sort_unique_length l : length (sort_unique lt l) = length l <-> NoDup l.
Proof.
  split.
  - intros Hlen. assert (sort_unique lt l ≡ₚ l) as <-; [|apply sort_unique_NoDup].
    apply submseteq_length_Permutation; [|lia].
    apply NoDup_submseteq; [apply sort_unique_NoDup|]. intros x. apply elem_of_sort_unique.
  - intros Hnd. unfold sort_unique. rewrite unique_NoDup; by rewrite stable_sort_perm.
Qed.
End sort_total.

(** * Comparison functions *)

(** A three-way comparison that is a total preorder. *)
Class TotalPreorderCompare {A} (c : A -> A -> comparison) := {
  compare_antisym x y : c y x = CompOpp (c x y);
  compare_lt_trans x y z : c x y = Lt -> c y z = Lt -> c x z = Lt;
  compare_eq_l x y z : c x y = Eq -> c x z = c y z;
}.
(** Compare by a key, in the opposite direction, lexicographically. *)
Definition compare_on {A B} (f : A -> B) (c : B -> B -> comparison) (x y : A) : comparison :=
  c (f x) (f y).
Definition compare_down {A} (c : A -> A -> comparison) (x y : A) : comparison := c y x.
Definition compare_lex {A} (c d : A -> A -> comparison) (x y : A) : comparison :=
  match c x y with Eq => d x y | r => r end.
Fixpoint compare_list {A} (c : A -> A -> comparison) (l m : list A) : comparison :=
  match l, m with
  | [], [] => Eq
  | [], _ :: _ => Lt
  | _ :: _, [] => Gt
  | x :: l, y :: m => match c x y with Eq => compare_list c l m | r => r end
  end.

Section compare.
Context {A : Type} (c : A -> A -> comparison) `{!TotalPreorderCompare c}.

Lemma compare_refl x : c x x = Eq.
Proof. pose proof (compare_antisym (c := c) x x) as H. by destruct (c x x). Qed.
Lemma compare_eq_r x y z : c x y = Eq -> c z x = c z y.
Proof.
  intros H. rewrite (compare_antisym (c := c) x z), (compare_antisym (c := c) y z).
  by rewrite (compare_eq_l (c := c) x y z).
Qed.
Lemma compare_gt_lt x y : c x y = Gt <-> c y x = Lt.
Proof. rewrite (compare_antisym (c := c) x y). by destruct (c x y). Qed.

#[export] Instance compare_down_total : TotalPreorderCompare (compare_down c).
Proof.
  unfold compare_down. split; intros.
  - apply (compare_antisym (c := c)).
  - by eapply (compare_lt_trans (c := c)).
  - symmetry. by apply compare_eq_r.
Qed.
#[export] Instance compare_on_total {B} (f : B -> A) : TotalPreorderCompare (compare_on f c).
Proof.
  unfold compare_on. split; intros.
  - apply (compare_antisym (c := c)).
  - by eapply (compare_lt_trans (c := c)).
  - by apply (compare_eq_l (c := c)).
Qed.
#[export] Instance compare_lex_total d `{!TotalPreorderCompare d} :
  TotalPreorderCompare (compare_lex c d).
Proof.
  unfold compare_lex. split; intros x y.
  - rewrite (compare_antisym (c := c) x y). destruct (c x y); simpl; try done.
    apply (compare_antisym (c := d)).
  - intros z. destruct (c x y) eqn:E1; [|destruct (c y z) eqn:E2|]; try done; intros H1 H2.
    + rewrite (compare_eq_l (c := c) _ _ z E1). destruct (c y z); try done.
      by eapply (compare_lt_trans (c := d)).
    + by rewrite <- (compare_eq_r _ _ x E2), E1.
    + by rewrite (compare_lt_trans (c := c) x y z).
  - intros z. destruct (c x y) eqn:E; try done. intros H.
    rewrite (compare_eq_l (c := c) _ _ z E). destruct (c y z); try done.
    by apply (compare_eq_l (c := d)).
Qed.
#[export] Instance compare_list_total : TotalPreorderCompare (compare_list c).
Proof.
  split.
  - induction x as [|x l IH]; intros [|y m]; simpl; try done.
    rewrite (compare_antisym (c := c) x y). destruct (c x y); simpl; auto.
  - induction x as [|x l IH]; intros [|y m] [|z n]; simpl; try done.
    destruct (c x y) eqn:E1; [|destruct (c y z) eqn:E2|]; try done; intros H1 H2.
    + rewrite (compare_eq_l (c := c) _ _ z E1). destruct (c y z); eauto.
    + by rewrite <- (compare_eq_r _ _ x E2), E1.
    + by rewrite (compare_lt_trans (c := c) x y z).
  - induction x as [|x l IH]; intros [|y m] [|z n]; simpl; try done.
    destruct (c x y) eqn:E; try done. intros H.
    rewrite (compare_eq_l (c := c) _ _ z E). destruct (c y z); auto.
Qed.
End compare.
#[export] Instance Zcompare_total : TotalPreorderCompare Z.compare.
Proof.
  split; intros x y.
  - apply Z.compare_antisym.
  - intros z. rewrite !Z.compare_lt_iff. lia.
  - intros z H. by apply Z.compare_eq_iff in H as ->.
Qed.

(** The element order of [std::vector<std::string>]: [std::string::operator<]
    compares the bytes as unsigned characters. *)
Fixpoint string_ltb (a b : string) : bool :=
  match a, b with
  | EmptyString, EmptyString => false
  | EmptyString, String _ _ => true
  | String _ _, EmptyString => false
  | String c a', String d b' =>
      if (Ascii.nat_of_ascii c <? Ascii.nat_of_ascii d)%nat then true
      else if (Ascii.nat_of_ascii d <? Ascii.nat_of_ascii c)%nat then false
      else string_ltb a' b'
  end.

Lemma nat_of_ascii_inj c d : Ascii.nat_of_ascii c = Ascii.nat_of_ascii d -> c = d.
Proof. intros E. by rewrite <- (Ascii.ascii_nat_embedding c), E, Ascii.ascii_nat_embedding. Qed.

#[export] Instance string_ltb_total : StrictTotal string_ltb.
Proof.
  split.
  - induction x as [|c x IH]; simpl; [done|]. by rewrite Nat.ltb_irrefl.
  - induction x as [|c x IH]; intros [|d y] [|e z]; simpl; try done.
    repeat case_match; try done; rewrite ?Nat.ltb_lt, ?Nat.ltb_ge in *; try lia; eauto.
  - induction x as [|c x IH]; intros [|d y]; simpl; try auto.
    repeat case_match; rewrite ?Nat.ltb_lt, ?Nat.ltb_ge in *; try auto; try lia.
    rewrite (nat_of_ascii_inj c d) by lia. destruct (IH y) as [|[<-|]]; auto.
Qed.

(** * Updating a map along a list of keys *)
Section update_along.
Context {K A : Type} `{Countable K} (f : K -> A -> A) (d : A).

(** [for (k : l) m\[k\] = f(k, m\[k\]);]. *)
Definition update_along (l : list K) (m : gmap K A) : gmap K A :=
  foldl (fun m k => <[k := f k (default d (m !! k))]> m) m l.

Lemma update_along_lookup l m k : NoDup l ->
  update_along l m !! k = if decide (k ∈ l) then Some (f k (default d (m !! k))) else m !! k.
Proof.
  intros Hl. revert m. induction Hl as [|k' l Hk Hl IH]; intros m.
  { rewrite decide_False; [done|apply not_elem_of_nil]. }
  cbn [update_along foldl]. fold (update_along l (<[k' := f k' (default d (m !! k'))]> m)).
  rewrite IH. destruct (decide (k = k')) as [->|Hne].
  - rewrite decide_False, decide_True, lookup_insert_eq by (done || left). done.
  - rewrite lookup_insert_ne by done. destruct (decide (k ∈ l)).
    + rewrite decide_True; [done|by right].
    + rewrite decide_False; [done|]. rewrite elem_of_cons. naive_solver.
Qed.
(** The order of the keys does not matter. *)
Lemma update_along_perm l1 l2 m : NoDup l1 -> l1 ≡ₚ l2 -> update_along l1 m = update_along l2 m.
Proof.
  intros Hl Hp. assert (NoDup l2) as Hl2 by by rewrite <- Hp.
  apply map_eq. intros k. rewrite !update_along_lookup by done.
  destruct (decide (k ∈ l1)) as [Hk|Hk].
  - by rewrite decide_True by (by rewrite <- Hp).
  - by rewrite decide_False by (by rewrite <- Hp).
Qed.
End update_along.
Lemma update_along_cons {K A} `{Countable K} (f : K -> A -> A) d k l m :
  update_along f d (k :: l) m = update_along f d l (<[k := f k (default d (m !! k))]> m).
Proof. reflexivity. Qed.
Lemma update_along_ext {K A} `{Countable K} (f g : K -> A -> A) d l m :
  (forall k a, f k a = g k a) -> update_along f d l m = update_along g d l m.
Proof.
  intros E. revert m. induction l as [|k l IH]; intros m; [done|].
  by rewrite !update_along_cons, E, IH.
Qed.
