(* ===== verification/Enums.v ===== *)
(** * Enums: the enumerations of include/collective_scheduler/enums.hpp

    One Module per [enum class], with the source's enumerators in their order
    and its [name_of] overload.  Every C++ enum here has the fixed underlying
    type [std::uint8_t], so a [static_cast] from a byte yields a value for each
    of the 256 bytes, named by an enumerator or not.  The enumerations that the
    codec reads from bytes therefore carry a constructor [other] for the byte
    values without an enumerator; [to_u8] and [of_u8] are the two casts. *)
From S2P Require Import Prelude.

(** The two casts of an enumeration that is serialized as one byte.  [enum_ok v]
    says that [v] is a value the C++ type can hold, written canonically (an
    [other] byte is not the number of an enumerator). *)
Class EnumU8 (T : Type) := {
  to_u8 : T -> Z;
  of_u8 : Z -> T;
  to_of_u8 z : to_u8 (of_u8 z) = z;
}.
Definition enum_ok {T} `{EnumU8 T} (v : T) : Prop :=
  of_u8 (to_u8 v) = v /\ 0 <= to_u8 v < 256.

Ltac enum_casts := let z := fresh "z" in intros z;
  repeat match goal with
  | |- context [if ?b then _ else _] => destruct b eqn:?
  end; try reflexivity; symmetry; apply Z.eqb_eq; assumption.

Module ProvenanceStatus.
Inductive t : Set :=
  | REAL
  | MEASURED
  | REPORTED
  | DERIVED
  | ESTIMATED
  | FORECAST
  | SYNTHETIC
  | UNKNOWN
  | other (byte : Z).
#[export] Instance t_eq_dec : EqDecision t.
Proof. solve_decision. Defined.
Definition name_of (v : t) : string :=
  match v with
  | REAL => "REAL"
  | MEASURED => "MEASURED"
  | REPORTED => "REPORTED"
  | DERIVED => "DERIVED"
  | ESTIMATED => "ESTIMATED"
  | FORECAST => "FORECAST"
  | SYNTHETIC => "SYNTHETIC"
  | UNKNOWN => "UNKNOWN"
  | other _ => "UNKNOWN"
  end.
Definition to_byte (v : t) : Z :=
  match v with
  | REAL => 0
  | MEASURED => 1
  | REPORTED => 2
  | DERIVED => 3
  | ESTIMATED => 4
  | FORECAST => 5
  | SYNTHETIC => 6
  | UNKNOWN => 7
  | other byte => byte
  end.
Definition of_byte (z : Z) : t :=
  if z =? 0 then REAL else
  if z =? 1 then MEASURED else
  if z =? 2 then REPORTED else
  if z =? 3 then DERIVED else
  if z =? 4 then ESTIMATED else
  if z =? 5 then FORECAST else
  if z =? 6 then SYNTHETIC else
  if z =? 7 then UNKNOWN else
  other z.
#[export] Program Instance casts : EnumU8 t :=
  {| to_u8 := to_byte; of_u8 := of_byte |}.
Next Obligation. unfold to_byte, of_byte; enum_casts. Qed.
End ProvenanceStatus.

Module CollectiveKind.
Inductive t : Set :=
  | ALL_REDUCE
  | ALL_GATHER
  | REDUCE_SCATTER
  | BROADCAST
  | REDUCE
  | GATHER
  | SCATTER
  | ALL_TO_ALL
  | BARRIER
  | CUSTOM
  | UNKNOWN
  | other (byte : Z).
#[export] Instance t_eq_dec : EqDecision t.
Proof. solve_decision. Defined.
Definition name_of (v : t) : string :=
  match v with
  | ALL_REDUCE => "ALL_REDUCE"
  | ALL_GATHER => "ALL_GATHER"
  | REDUCE_SCATTER => "REDUCE_SCATTER"
  | BROADCAST => "BROADCAST"
  | REDUCE => "REDUCE"
  | GATHER => "GATHER"
  | SCATTER => "SCATTER"
  | ALL_TO_ALL => "ALL_TO_ALL"
  | BARRIER => "BARRIER"
  | CUSTOM => "CUSTOM"
  | UNKNOWN => "UNKNOWN"
  | other _ => "UNKNOWN"
  end.
Definition to_byte (v : t) : Z :=
  match v with
  | ALL_REDUCE => 0
  | ALL_GATHER => 1
  | REDUCE_SCATTER => 2
  | BROADCAST => 3
  | REDUCE => 4
  | GATHER => 5
  | SCATTER => 6
  | ALL_TO_ALL => 7
  | BARRIER => 8
  | CUSTOM => 9
  | UNKNOWN => 10
  | other byte => byte
  end.
Definition of_byte (z : Z) : t :=
  if z =? 0 then ALL_REDUCE else
  if z =? 1 then ALL_GATHER else
  if z =? 2 then REDUCE_SCATTER else
  if z =? 3 then BROADCAST else
  if z =? 4 then REDUCE else
  if z =? 5 then GATHER else
  if z =? 6 then SCATTER else
  if z =? 7 then ALL_TO_ALL else
  if z =? 8 then BARRIER else
  if z =? 9 then CUSTOM else
  if z =? 10 then UNKNOWN else
  other z.
#[export] Program Instance casts : EnumU8 t :=
  {| to_u8 := to_byte; of_u8 := of_byte |}.
Next Obligation. unfold to_byte, of_byte; enum_casts. Qed.
End CollectiveKind.

Module Readiness.
Inductive t : Set :=
  | READY
  | WAITING_DEPENDENCY
  | WAITING_PARTICIPANT
  | WAITING_COMMUNICATION_PLAN
  | WAITING_RESERVATION
  | WAITING_RESOURCE
  | WAITING_CAPACITY
  | BLOCKED_CONGESTION
  | BLOCKED_POLICY
  | REVALIDATION_REQUIRED
  | STALE
  | UNKNOWN.
#[export] Instance t_eq_dec : EqDecision t.
Proof. solve_decision. Defined.
Definition name_of (v : t) : string :=
  match v with
  | READY => "READY"
  | WAITING_DEPENDENCY => "WAITING_DEPENDENCY"
  | WAITING_PARTICIPANT => "WAITING_PARTICIPANT"
  | WAITING_COMMUNICATION_PLAN => "WAITING_COMMUNICATION_PLAN"
  | WAITING_RESERVATION => "WAITING_RESERVATION"
  | WAITING_RESOURCE => "WAITING_RESOURCE"
  | WAITING_CAPACITY => "WAITING_CAPACITY"
  | BLOCKED_CONGESTION => "BLOCKED_CONGESTION"
  | BLOCKED_POLICY => "BLOCKED_POLICY"
  | REVALIDATION_REQUIRED => "REVALIDATION_REQUIRED"
  | STALE => "STALE"
  | UNKNOWN => "UNKNOWN"
  end.
End Readiness.

Module ConflictSeverity.
Inductive t : Set :=
  | NONE
  | LOW
  | MEDIUM
  | HIGH
  | FATAL.
#[export] Instance t_eq_dec : EqDecision t.
Proof. solve_decision. Defined.
Definition name_of (v : t) : string :=
  match v with
  | NONE => "NONE"
  | LOW => "LOW"
  | MEDIUM => "MEDIUM"
  | HIGH => "HIGH"
  | FATAL => "FATAL"
  end.
End ConflictSeverity.

Module ConflictClassification.
Inductive t : Set :=
  | NO_CONFLICT
  | PARTICIPANT_CONFLICT
  | RESOURCE_CONFLICT
  | LINK_CONFLICT
  | BANDWIDTH_CONFLICT
  | RESERVATION_CONFLICT
  | DEPENDENCY_CONFLICT
  | POLICY_CONFLICT
  | UNKNOWN.
#[export] Instance t_eq_dec : EqDecision t.
Proof. solve_decision. Defined.
Definition name_of (v : t) : string :=
  match v with
  | NO_CONFLICT => "NO_CONFLICT"
  | PARTICIPANT_CONFLICT => "PARTICIPANT_CONFLICT"
  | RESOURCE_CONFLICT => "RESOURCE_CONFLICT"
  | LINK_CONFLICT => "LINK_CONFLICT"
  | BANDWIDTH_CONFLICT => "BANDWIDTH_CONFLICT"
  | RESERVATION_CONFLICT => "RESERVATION_CONFLICT"
  | DEPENDENCY_CONFLICT => "DEPENDENCY_CONFLICT"
  | POLICY_CONFLICT => "POLICY_CONFLICT"
  | UNKNOWN => "UNKNOWN"
  end.
End ConflictClassification.

Module OverlapMode.
Inductive t : Set :=
  | EXCLUSIVE
  | OVERLAP_ALLOWED
  | OVERLAP_LIMITED
  | SERIALIZE
  | UNKNOWN
  | other (byte : Z).
#[export] Instance t_eq_dec : EqDecision t.
Proof. solve_decision. Defined.
Definition name_of (v : t) : string :=
  match v with
  | EXCLUSIVE => "EXCLUSIVE"
  | OVERLAP_ALLOWED => "OVERLAP_ALLOWED"
  | OVERLAP_LIMITED => "OVERLAP_LIMITED"
  | SERIALIZE => "SERIALIZE"
  | UNKNOWN => "UNKNOWN"
  | other _ => "UNKNOWN"
  end.
Definition to_byte (v : t) : Z :=
  match v with
  | EXCLUSIVE => 0
  | OVERLAP_ALLOWED => 1
  | OVERLAP_LIMITED => 2
  | SERIALIZE => 3
  | UNKNOWN => 4
  | other byte => byte
  end.
Definition of_byte (z : Z) : t :=
  if z =? 0 then EXCLUSIVE else
  if z =? 1 then OVERLAP_ALLOWED else
  if z =? 2 then OVERLAP_LIMITED else
  if z =? 3 then SERIALIZE else
  if z =? 4 then UNKNOWN else
  other z.
#[export] Program Instance casts : EnumU8 t :=
  {| to_u8 := to_byte; of_u8 := of_byte |}.
Next Obligation. unfold to_byte, of_byte; enum_casts. Qed.
End OverlapMode.

Module LifecycleState.
Inductive t : Set :=
  | DECLARED
  | WAITING
  | READY
  | ELIGIBLE
  | QUEUED
  | GRANTED
  | DISPATCHING
  | ACTIVE
  | DRAINING
  | COMPLETED
  | CANCELLED
  | FAILED
  | REVALIDATION_REQUIRED
  | SUPERSEDED
  | STALE
  | RETIRED
  | other (byte : Z).
#[export] Instance t_eq_dec : EqDecision t.
Proof. solve_decision. Defined.
Definition name_of (v : t) : string :=
  match v with
  | DECLARED => "DECLARED"
  | WAITING => "WAITING"
  | READY => "READY"
  | ELIGIBLE => "ELIGIBLE"
  | QUEUED => "QUEUED"
  | GRANTED => "GRANTED"
  | DISPATCHING => "DISPATCHING"
  | ACTIVE => "ACTIVE"
  | DRAINING => "DRAINING"
  | COMPLETED => "COMPLETED"
  | CANCELLED => "CANCELLED"
  | FAILED => "FAILED"
  | REVALIDATION_REQUIRED => "REVALIDATION_REQUIRED"
  | SUPERSEDED => "SUPERSEDED"
  | STALE => "STALE"
  | RETIRED => "RETIRED"
  | other _ => "RETIRED"
  end.
Definition to_byte (v : t) : Z :=
  match v with
  | DECLARED => 0
  | WAITING => 1
  | READY => 2
  | ELIGIBLE => 3
  | QUEUED => 4
  | GRANTED => 5
  | DISPATCHING => 6
  | ACTIVE => 7
  | DRAINING => 8
  | COMPLETED => 9
  | CANCELLED => 10
  | FAILED => 11
  | REVALIDATION_REQUIRED => 12
  | SUPERSEDED => 13
  | STALE => 14
  | RETIRED => 15
  | other byte => byte
  end.
Definition of_byte (z : Z) : t :=
  if z =? 0 then DECLARED else
  if z =? 1 then WAITING else
  if z =? 2 then READY else
  if z =? 3 then ELIGIBLE else
  if z =? 4 then QUEUED else
  if z =? 5 then GRANTED else
  if z =? 6 then DISPATCHING else
  if z =? 7 then ACTIVE else
  if z =? 8 then DRAINING else
  if z =? 9 then COMPLETED else
  if z =? 10 then CANCELLED else
  if z =? 11 then FAILED else
  if z =? 12 then REVALIDATION_REQUIRED else
  if z =? 13 then SUPERSEDED else
  if z =? 14 then STALE else
  if z =? 15 then RETIRED else
  other z.
#[export] Program Instance casts : EnumU8 t :=
  {| to_u8 := to_byte; of_u8 := of_byte |}.
Next Obligation. unfold to_byte, of_byte; enum_casts. Qed.
End LifecycleState.

Module QueueClass.
Inductive t : Set :=
  | LATENCY_CRITICAL
  | DEADLINE
  | STANDARD
  | THROUGHPUT
  | BACKGROUND
  | RECOVERY
  | CHECKPOINT
  | CONTROL
  | other (byte : Z).
#[export] Instance t_eq_dec : EqDecision t.
Proof. solve_decision. Defined.
Definition name_of (v : t) : string :=
  match v with
  | LATENCY_CRITICAL => "LATENCY_CRITICAL"
  | DEADLINE => "DEADLINE"
  | STANDARD => "STANDARD"
  | THROUGHPUT => "THROUGHPUT"
  | BACKGROUND => "BACKGROUND"
  | RECOVERY => "RECOVERY"
  | CHECKPOINT => "CHECKPOINT"
  | CONTROL => "CONTROL"
  | other _ => "STANDARD"
  end.
Definition to_byte (v : t) : Z :=
  match v with
  | LATENCY_CRITICAL => 0
  | DEADLINE => 1
  | STANDARD => 2
  | THROUGHPUT => 3
  | BACKGROUND => 4
  | RECOVERY => 5
  | CHECKPOINT => 6
  | CONTROL => 7
  | other byte => byte
  end.
Definition of_byte (z : Z) : t :=
  if z =? 0 then LATENCY_CRITICAL else
  if z =? 1 then DEADLINE else
  if z =? 2 then STANDARD else
  if z =? 3 then THROUGHPUT else
  if z =? 4 then BACKGROUND else
  if z =? 5 then RECOVERY else
  if z =? 6 then CHECKPOINT else
  if z =? 7 then CONTROL else
  other z.
#[export] Program Instance casts : EnumU8 t :=
  {| to_u8 := to_byte; of_u8 := of_byte |}.
Next Obligation. unfold to_byte, of_byte; enum_casts. Qed.
End QueueClass.

Module PriorityInversionAction.
Inductive t : Set :=
  | REQUEST_PREEMPTION
  | DRAIN_CURRENT
  | DEFER_NEW_CONFLICTING_WORK
  | WAIT
  | NO_ACTION.
#[export] Instance t_eq_dec : EqDecision t.
Proof. solve_decision. Defined.
Definition name_of (v : t) : string :=
  match v with
  | REQUEST_PREEMPTION => "REQUEST_PREEMPTION"
  | DRAIN_CURRENT => "DRAIN_CURRENT"
  | DEFER_NEW_CONFLICTING_WORK => "DEFER_NEW_CONFLICTING_WORK"
  | WAIT => "WAIT"
  | NO_ACTION => "NO_ACTION"
  end.
End PriorityInversionAction.

Module FairnessClass.
Inductive t : Set :=
  | DEFAULT
  | PROTECTED
  | BEST_EFFORT
  | other (byte : Z).
#[export] Instance t_eq_dec : EqDecision t.
Proof. solve_decision. Defined.
Definition name_of (v : t) : string :=
  match v with
  | DEFAULT => "DEFAULT"
  | PROTECTED => "PROTECTED"
  | BEST_EFFORT => "BEST_EFFORT"
  | other _ => "DEFAULT"
  end.
Definition to_byte (v : t) : Z :=
  match v with
  | DEFAULT => 0
  | PROTECTED => 1
  | BEST_EFFORT => 2
  | other byte => byte
  end.
Definition of_byte (z : Z) : t :=
  if z =? 0 then DEFAULT else
  if z =? 1 then PROTECTED else
  if z =? 2 then BEST_EFFORT else
  other z.
#[export] Program Instance casts : EnumU8 t :=
  {| to_u8 := to_byte; of_u8 := of_byte |}.
Next Obligation. unfold to_byte, of_byte; enum_casts. Qed.
End FairnessClass.

Module DependencyKind.
Inductive t : Set :=
  | TENSOR_READY
  | PREDECESSOR_COMPLETED
  | EXECUTION_PHASE_COMPLETE
  | CHECKPOINT_READY
  | MODEL_STAGE_READY
  | TIMER
  | CUSTOM
  | UNKNOWN
  | other (byte : Z).
#[export] Instance t_eq_dec : EqDecision t.
Proof. solve_decision. Defined.
Definition name_of (v : t) : string :=
  match v with
  | TENSOR_READY => "TENSOR_READY"
  | PREDECESSOR_COMPLETED => "PREDECESSOR_COMPLETED"
  | EXECUTION_PHASE_COMPLETE => "EXECUTION_PHASE_COMPLETE"
  | CHECKPOINT_READY => "CHECKPOINT_READY"
  | MODEL_STAGE_READY => "MODEL_STAGE_READY"
  | TIMER => "TIMER"
  | CUSTOM => "CUSTOM"
  | UNKNOWN => "UNKNOWN"
  | other _ => "UNKNOWN"
  end.
Definition to_byte (v : t) : Z :=
  match v with
  | TENSOR_READY => 0
  | PREDECESSOR_COMPLETED => 1
  | EXECUTION_PHASE_COMPLETE => 2
  | CHECKPOINT_READY => 3
  | MODEL_STAGE_READY => 4
  | TIMER => 5
  | CUSTOM => 6
  | UNKNOWN => 7
  | other byte => byte
  end.
Definition of_byte (z : Z) : t :=
  if z =? 0 then TENSOR_READY else
  if z =? 1 then PREDECESSOR_COMPLETED else
  if z =? 2 then EXECUTION_PHASE_COMPLETE else
  if z =? 3 then CHECKPOINT_READY else
  if z =? 4 then MODEL_STAGE_READY else
  if z =? 5 then TIMER else
  if z =? 6 then CUSTOM else
  if z =? 7 then UNKNOWN else
  other z.
#[export] Program Instance casts : EnumU8 t :=
  {| to_u8 := to_byte; of_u8 := of_byte |}.
Next Obligation. unfold to_byte, of_byte; enum_casts. Qed.
End DependencyKind.

Module ReservationStrength.
Inductive t : Set :=
  | HARD
  | SOFT
  | NONE
  | other (byte : Z).
#[export] Instance t_eq_dec : EqDecision t.
Proof. solve_decision. Defined.
Definition name_of (v : t) : string :=
  match v with
  | HARD => "HARD"
  | SOFT => "SOFT"
  | NONE => "NONE"
  | other _ => "NONE"
  end.
Definition to_byte (v : t) : Z :=
  match v with
  | HARD => 0
  | SOFT => 1
  | NONE => 2
  | other byte => byte
  end.
Definition of_byte (z : Z) : t :=
  if z =? 0 then HARD else
  if z =? 1 then SOFT else
  if z =? 2 then NONE else
  other z.
#[export] Program Instance casts : EnumU8 t :=
  {| to_u8 := to_byte; of_u8 := of_byte |}.
Next Obligation. unfold to_byte, of_byte; enum_casts. Qed.
End ReservationStrength.

Module SchedulingFactorKind.
Inductive t : Set :=
  | EXTERNAL_PRIORITY
  | DEADLINE_SLACK
  | AGE
  | FAIRNESS_DEFICIT
  | STARVATION_RISK
  | EXPECTED_DURATION
  | CONGESTION_PENALTY
  | RESERVATION_FIT
  | COMMUNICATION_COST
  | RESOURCE_FOOTPRINT
  | PARTICIPANT_AVAILABILITY
  | OVERLAP_BENEFIT
  | FAILURE_RETRY_COST
  | RECOVERY_IMPORTANCE
  | POLICY_CLASS
  | POLICY_WEIGHT.
#[export] Instance t_eq_dec : EqDecision t.
Proof. solve_decision. Defined.
Definition name_of (v : t) : string :=
  match v with
  | EXTERNAL_PRIORITY => "EXTERNAL_PRIORITY"
  | DEADLINE_SLACK => "DEADLINE_SLACK"
  | AGE => "AGE"
  | FAIRNESS_DEFICIT => "FAIRNESS_DEFICIT"
  | STARVATION_RISK => "STARVATION_RISK"
  | EXPECTED_DURATION => "EXPECTED_DURATION"
  | CONGESTION_PENALTY => "CONGESTION_PENALTY"
  | RESERVATION_FIT => "RESERVATION_FIT"
  | COMMUNICATION_COST => "COMMUNICATION_COST"
  | RESOURCE_FOOTPRINT => "RESOURCE_FOOTPRINT"
  | PARTICIPANT_AVAILABILITY => "PARTICIPANT_AVAILABILITY"
  | OVERLAP_BENEFIT => "OVERLAP_BENEFIT"
  | FAILURE_RETRY_COST => "FAILURE_RETRY_COST"
  | RECOVERY_IMPORTANCE => "RECOVERY_IMPORTANCE"
  | POLICY_CLASS => "POLICY_CLASS"
  | POLICY_WEIGHT => "POLICY_WEIGHT"
  end.
End SchedulingFactorKind.

Module RejectionReason.
Inductive t : Set :=
  | NONE
  | STALE_COLLECTIVE_GENERATION
  | STALE_PARTICIPANT_GENERATION
  | MISSING_PARTICIPANT
  | UNSATISFIED_DEPENDENCY
  | INVALID_COMMUNICATION_PLAN
  | INVALID_RESERVATION
  | INSUFFICIENT_CAPACITY
  | CAPABILITY_MISMATCH
  | UNHEALTHY
  | NO_EXECUTION_AUTHORITY
  | INVALID_SCHEDULING_WINDOW
  | EXCLUSION_POLICY
  | HARD_CONGESTION_CEILING
  | STALE_COORDINATOR_EPOCH
  | CANCELLED
  | SUPERSEDED
  | REVALIDATION_REQUIRED
  | STALE_GRANT
  | MALFORMED_REQUEST
  | RESOURCE_CONFLICT
  | UNKNOWN.
#[export] Instance t_eq_dec : EqDecision t.
Proof. solve_decision. Defined.
Definition name_of (v : t) : string :=
  match v with
  | NONE => "NONE"
  | STALE_COLLECTIVE_GENERATION => "STALE_COLLECTIVE_GENERATION"
  | STALE_PARTICIPANT_GENERATION => "STALE_PARTICIPANT_GENERATION"
  | MISSING_PARTICIPANT => "MISSING_PARTICIPANT"
  | UNSATISFIED_DEPENDENCY => "UNSATISFIED_DEPENDENCY"
  | INVALID_COMMUNICATION_PLAN => "INVALID_COMMUNICATION_PLAN"
  | INVALID_RESERVATION => "INVALID_RESERVATION"
  | INSUFFICIENT_CAPACITY => "INSUFFICIENT_CAPACITY"
  | CAPABILITY_MISMATCH => "CAPABILITY_MISMATCH"
  | UNHEALTHY => "UNHEALTHY"
  | NO_EXECUTION_AUTHORITY => "NO_EXECUTION_AUTHORITY"
  | INVALID_SCHEDULING_WINDOW => "INVALID_SCHEDULING_WINDOW"
  | EXCLUSION_POLICY => "EXCLUSION_POLICY"
  | HARD_CONGESTION_CEILING => "HARD_CONGESTION_CEILING"
  | STALE_COORDINATOR_EPOCH => "STALE_COORDINATOR_EPOCH"
  | CANCELLED => "CANCELLED"
  | SUPERSEDED => "SUPERSEDED"
  | REVALIDATION_REQUIRED => "REVALIDATION_REQUIRED"
  | STALE_GRANT => "STALE_GRANT"
  | MALFORMED_REQUEST => "MALFORMED_REQUEST"
  | RESOURCE_CONFLICT => "RESOURCE_CONFLICT"
  | UNKNOWN => "UNKNOWN"
  end.
End RejectionReason.

(** The instances of the enumerations, without their constructor names. *)
#[export] Existing Instance ProvenanceStatus.t_eq_dec.
#[export] Existing Instance ProvenanceStatus.casts.
#[export] Existing Instance CollectiveKind.t_eq_dec.
#[export] Existing Instance CollectiveKind.casts.
#[export] Existing Instance Readiness.t_eq_dec.
#[export] Existing Instance ConflictSeverity.t_eq_dec.
#[export] Existing Instance ConflictClassification.t_eq_dec.
#[export] Existing Instance OverlapMode.t_eq_dec.
#[export] Existing Instance OverlapMode.casts.
#[export] Existing Instance LifecycleState.t_eq_dec.
#[export] Existing Instance LifecycleState.casts.
#[export] Existing Instance QueueClass.t_eq_dec.
#[export] Existing Instance QueueClass.casts.
#[export] Existing Instance PriorityInversionAction.t_eq_dec.
#[export] Existing Instance FairnessClass.t_eq_dec.
#[export] Existing Instance FairnessClass.casts.
#[export] Existing Instance DependencyKind.t_eq_dec.
#[export] Existing Instance DependencyKind.casts.
#[export] Existing Instance ReservationStrength.t_eq_dec.
#[export] Existing Instance ReservationStrength.casts.
#[export] Existing Instance SchedulingFactorKind.t_eq_dec.
#[export] Existing Instance RejectionReason.t_eq_dec.
