(* ===== verification/Identity.v ===== *)
(** * Identity: the tagged identifiers and generations of identity.hpp and domains.hpp

    [Id tag] and [Gen tag] are distinct types for every domain tag, so that an
    identifier of one domain cannot stand for one of another.  Both hold an
    unsigned 64-bit counter whose value 0 means "unset"; the comparison
    operators compare the counters and the increment saturates. *)
From S2P Require Import Prelude.

(** The identity domains ([CS_ID]). *)
Inductive IdTag : Set :=
  | CollectiveId_tag
  | CollectiveRequestId_tag
  | CollectiveScheduleId_tag
  | CollectiveGrantId_tag
  | CollectiveExecutionId_tag
  | CollectiveGroupId_tag
  | ParticipantId_tag
  | ParticipantGroupId_tag
  | CommunicationPlanId_tag
  | FlowId_tag
  | DependencyId_tag
  | ResourceId_tag
  | LinkId_tag
  | PathId_tag
  | DeviceId_tag
  | NodeId_tag
  | NicId_tag
  | MemoryDomainId_tag
  | WorkloadId_tag
  | ExecutionId_tag
  | WorkerId_tag
  | WorkerBootId_tag
  | SourceId_tag
  | SourceBootId_tag.

(** The generation and epoch domains ([CS_GEN]). *)
Inductive GenTag : Set :=
  | CollectiveGeneration_tag
  | CollectiveRequestGeneration_tag
  | CollectiveScheduleGeneration_tag
  | CollectiveGrantGeneration_tag
  | CollectiveExecutionGeneration_tag
  | CollectiveGroupGeneration_tag
  | ParticipantGeneration_tag
  | ParticipantGroupGeneration_tag
  | CommunicationPlanGeneration_tag
  | FlowGeneration_tag
  | DependencyGeneration_tag
  | ResourceGeneration_tag
  | LinkGeneration_tag
  | PathGeneration_tag
  | DeviceGeneration_tag
  | NodeGeneration_tag
  | NicGeneration_tag
  | MemoryDomainGeneration_tag
  | CapacityGeneration_tag
  | ReservationGeneration_tag
  | CongestionGeneration_tag
  | TopologyGeneration_tag
  | CapabilityGeneration_tag
  | HealthGeneration_tag
  | WorkloadGeneration_tag
  | ExecutionGeneration_tag
  | PolicyGeneration_tag
  | PriorityGeneration_tag
  | SloGeneration_tag
  | FairnessGeneration_tag
  | QueueGeneration_tag
  | CoordinatorEpoch_tag
  | AuthorityGeneration_tag
  | RecoveryGeneration_tag
  | RevalidationGeneration_tag.

(** [template <typename Tag> struct Id]. *)
Record Id (tag : IdTag) : Set := mkId { id_value : Z }.
Arguments mkId {tag} id_value.
Arguments id_value {tag} _.

(** [template <typename Tag> struct Gen]. *)
Record Gen (tag : GenTag) : Set := mkGen { gen_value : Z }.
Arguments mkGen {tag} gen_value.
Arguments gen_value {tag} _.

Abbreviation CollectiveId := (Id CollectiveId_tag).
Abbreviation CollectiveRequestId := (Id CollectiveRequestId_tag).
Abbreviation CollectiveScheduleId := (Id CollectiveScheduleId_tag).
Abbreviation CollectiveGrantId := (Id CollectiveGrantId_tag).
Abbreviation CollectiveExecutionId := (Id CollectiveExecutionId_tag).
Abbreviation CollectiveGroupId := (Id CollectiveGroupId_tag).
Abbreviation ParticipantId := (Id ParticipantId_tag).
Abbreviation ParticipantGroupId := (Id ParticipantGroupId_tag).
Abbreviation CommunicationPlanId := (Id CommunicationPlanId_tag).
Abbreviation FlowId := (Id FlowId_tag).
Abbreviation DependencyId := (Id DependencyId_tag).
Abbreviation ResourceId := (Id ResourceId_tag).
Abbreviation LinkId := (Id LinkId_tag).
Abbreviation PathId := (Id PathId_tag).
Abbreviation DeviceId := (Id DeviceId_tag).
Abbreviation NodeId := (Id NodeId_tag).
Abbreviation NicId := (Id NicId_tag).
Abbreviation MemoryDomainId := (Id MemoryDomainId_tag).
Abbreviation WorkloadId := (Id WorkloadId_tag).
Abbreviation ExecutionId := (Id ExecutionId_tag).
Abbreviation WorkerId := (Id WorkerId_tag).
Abbreviation WorkerBootId := (Id WorkerBootId_tag).
Abbreviation SourceId := (Id SourceId_tag).
Abbreviation SourceBootId := (Id SourceBootId_tag).
Abbreviation CollectiveGeneration := (Gen CollectiveGeneration_tag).
Abbreviation CollectiveRequestGeneration := (Gen CollectiveRequestGeneration_tag).
Abbreviation CollectiveScheduleGeneration := (Gen CollectiveScheduleGeneration_tag).
Abbreviation CollectiveGrantGeneration := (Gen CollectiveGrantGeneration_tag).
Abbreviation CollectiveExecutionGeneration := (Gen CollectiveExecutionGeneration_tag).
Abbreviation CollectiveGroupGeneration := (Gen CollectiveGroupGeneration_tag).
Abbreviation ParticipantGeneration := (Gen ParticipantGeneration_tag).
Abbreviation ParticipantGroupGeneration := (Gen ParticipantGroupGeneration_tag).
Abbreviation CommunicationPlanGeneration := (Gen CommunicationPlanGeneration_tag).
Abbreviation FlowGeneration := (Gen FlowGeneration_tag).
Abbreviation DependencyGeneration := (Gen DependencyGeneration_tag).
Abbreviation ResourceGeneration := (Gen ResourceGeneration_tag).
Abbreviation LinkGeneration := (Gen LinkGeneration_tag).
Abbreviation PathGeneration := (Gen PathGeneration_tag).
Abbreviation DeviceGeneration := (Gen DeviceGeneration_tag).
Abbreviation NodeGeneration := (Gen NodeGeneration_tag).
Abbreviation NicGeneration := (Gen NicGeneration_tag).
Abbreviation MemoryDomainGeneration := (Gen MemoryDomainGeneration_tag).
Abbreviation CapacityGeneration := (Gen CapacityGeneration_tag).
Abbreviation ReservationGeneration := (Gen ReservationGeneration_tag).
Abbreviation CongestionGeneration := (Gen CongestionGeneration_tag).
Abbreviation TopologyGeneration := (Gen TopologyGeneration_tag).
Abbreviation CapabilityGeneration := (Gen CapabilityGeneration_tag).
Abbreviation HealthGeneration := (Gen HealthGeneration_tag).
Abbreviation WorkloadGeneration := (Gen WorkloadGeneration_tag).
Abbreviation ExecutionGeneration := (Gen ExecutionGeneration_tag).
Abbreviation PolicyGeneration := (Gen PolicyGeneration_tag).
Abbreviation PriorityGeneration := (Gen PriorityGeneration_tag).
Abbreviation SloGeneration := (Gen SloGeneration_tag).
Abbreviation FairnessGeneration := (Gen FairnessGeneration_tag).
Abbreviation QueueGeneration := (Gen QueueGeneration_tag).
Abbreviation CoordinatorEpoch := (Gen CoordinatorEpoch_tag).
Abbreviation AuthorityGeneration := (Gen AuthorityGeneration_tag).
Abbreviation RecoveryGeneration := (Gen RecoveryGeneration_tag).
Abbreviation RevalidationGeneration := (Gen RevalidationGeneration_tag).

(** ** Operations *)
Section ids.
Context {tag : IdTag}.
Implicit Types a b : Id tag.

(** [null()]. *)
Definition id_null a : bool := id_value a =? 0.
(** [operator<]. *)
Definition id_ltb a b : bool := id_value a <? id_value b.
(** [operator++]: saturates at the largest counter. *)
Definition id_incr a : Id tag :=
  if id_value a <? U64_MAX then mkId (id_value a + 1) else a.

#[global] Instance Id_eq_dec : EqDecision (Id tag).
Proof. solve_decision. Defined.
#[global] Instance Id_countable : Countable (Id tag).
Proof. apply (inj_countable' id_value mkId). by intros []. Defined.

Lemma id_eq a b : id_value a = id_value b -> a = b.
Proof. destruct a, b; simpl. congruence. Qed.
#[global] Instance id_ltb_total : StrictTotal id_ltb.
Proof.
  unfold id_ltb. split; intros *; rewrite ?Z.ltb_lt, ?Z.ltb_irrefl; try lia.
  destruct (Z.lt_trichotomy (id_value x) (id_value y)) as [|[|]]; auto using id_eq.
Qed.
Lemma id_incr_u64 a : u64 (id_value a) -> u64 (id_value (id_incr a)).
Proof. unfold id_incr, u64, U64_MAX. case_match; rewrite ?Z.ltb_lt in *; simpl; lia. Qed.
Lemma id_incr_value a :
  id_value a < U64_MAX -> id_value (id_incr a) = id_value a + 1.
Proof. unfold id_incr. intros H. by rewrite (proj2 (Z.ltb_lt _ _) H). Qed.
Lemma id_incr_le a : id_value a <= id_value (id_incr a).
Proof. unfold id_incr. case_match; simpl; lia. Qed.
End ids.

Section gens.
Context {tag : GenTag}.
Implicit Types a b : Gen tag.

Definition gen_null a : bool := gen_value a =? 0.
Definition gen_ltb a b : bool := gen_value a <? gen_value b.
Definition gen_incr a : Gen tag :=
  if gen_value a <? U64_MAX then mkGen (gen_value a + 1) else a.

#[global] Instance Gen_eq_dec : EqDecision (Gen tag).
Proof. solve_decision. Defined.
#[global] Instance Gen_countable : Countable (Gen tag).
Proof. apply (inj_countable' gen_value mkGen). by intros []. Defined.

Lemma gen_incr_u64 a : u64 (gen_value a) -> u64 (gen_value (gen_incr a)).
Proof. unfold gen_incr, u64, U64_MAX. case_match; rewrite ?Z.ltb_lt in *; simpl; lia. Qed.
Lemma gen_eq a b : gen_value a = gen_value b -> a = b.
Proof. destruct a, b; simpl. congruence. Qed.
Lemma gen_eqb_eq a b : (gen_value a =? gen_value b) = true <-> a = b.
Proof. rewrite Z.eqb_eq. split; [apply gen_eq|by intros ->]. Qed.
Lemma gen_eqb_neq a b : (gen_value a =? gen_value b) = false <-> a <> b.
Proof. rewrite <- gen_eqb_eq. destruct (_ =? _); naive_solver. Qed.
(** A generation that may be missing equals [b]. *)
Definition gen_is (o : option (Gen tag)) (b : Gen tag) : bool :=
  match o with Some a => gen_value b =? gen_value a | None => false end.
Lemma gen_is_eq o b : gen_is o b = true <-> o = Some b.
Proof. destruct o as [a|]; [|done]. simpl. rewrite gen_eqb_eq. naive_solver. Qed.
End gens.
#[export] Hint Resolve id_incr_u64 gen_incr_u64 : ranges.
