(* ===== verification/Error.v ===== *)
(** * Error: the exceptions of include/collective_scheduler/error.hpp *)
From S2P Require Import Prelude Enums.

Module ErrorCode.
Inductive t : Set :=
  | OK
  | INVALID_ARGUMENT
  | MALFORMED_REQUEST
  | ARITHMETIC_OVERFLOW
  | OUT_OF_BOUNDS
  | DUPLICATE_IDENTIFIER
  | STALE_AUTHORITY
  | ILLEGAL_TRANSITION
  | NOT_FOUND
  | ALREADY_PRESENT
  | CONCURRENT_MODIFICATION
  | PERSISTENCE_CORRUPTION
  | PERSISTENCE_UNSUPPORTED_VERSION
  | PROTOCOL_ERROR
  | RESOURCE_EXHAUSTED
  | BAD_STATE
  | INTERNAL.
#[export] Instance t_eq_dec : EqDecision t.
Proof. solve_decision. Defined.
End ErrorCode.
#[export] Existing Instance ErrorCode.t_eq_dec.

(** [class scheduler_error]: the code, the rejecting reason and the message. *)
Record scheduler_error : Set := mk_scheduler_error {
  code : ErrorCode.t;
  rejection_reason : RejectionReason.t;
  what : string;
}.
#[export] Instance scheduler_error_eq_dec : EqDecision scheduler_error.
Proof. solve_decision. Defined.

(** The constructor that the [throw_*] helpers use leaves the reason at its
    default [NONE]. *)
Definition error_of (c : ErrorCode.t) (msg : string) : scheduler_error :=
  mk_scheduler_error c RejectionReason.NONE msg.

Definition throw_invalid (msg : string) : scheduler_error :=
  error_of ErrorCode.INVALID_ARGUMENT msg.
Definition throw_malformed (msg : string) : scheduler_error :=
  error_of ErrorCode.MALFORMED_REQUEST msg.
Definition throw_overflow (msg : string) : scheduler_error :=
  error_of ErrorCode.ARITHMETIC_OVERFLOW msg.
Definition throw_bounds (msg : string) : scheduler_error :=
  error_of ErrorCode.OUT_OF_BOUNDS msg.
Definition throw_transition (msg : string) : scheduler_error :=
  error_of ErrorCode.ILLEGAL_TRANSITION msg.

(** The outcome of a call that may throw a [scheduler_error]. *)
Abbreviation res := (result scheduler_error).
