(* ===== verification/Float64.v ===== *)
(** * Float64: the C++ [double]

    A [double] is its IEEE 754 binary64 bit pattern, so that [std::bit_cast] to
    [std::uint64_t] (the codec's f64) is the identity on bits and NaN payloads
    are kept.  Arithmetic and comparison go through the Standard Library's
    executable specification [SpecFloat] (precision 53, [emax] 1024, round to
    nearest even).  A NaN made by arithmetic is the quiet NaN with no payload:
    the program only compares and stores such values. *)
From S2P Require Import Prelude.
From Stdlib Require Import SpecFloat.

Record double : Set := mkDouble { bits : Z }.
#[export] Instance double_eq_dec : EqDecision double.
Proof. solve_decision. Defined.

Definition double_ok (d : double) : Prop := u64 (bits d).

(** ** Bit patterns and specification floats *)
Definition decode (d : double) : spec_float :=
  let s := Z.testbit (bits d) 63 in
  let e := Z.land (Z.shiftr (bits d) 52) 2047 in
  let m := Z.land (bits d) (2 ^ 52 - 1) in
  if e =? 2047 then (if m =? 0 then S754_infinity s else S754_nan)
  else if e =? 0 then
    match m with Zpos p => S754_finite s p (-1074) | _ => S754_zero s end
  else
    match m + 2 ^ 52 with Zpos p => S754_finite s p (e - 1075) | _ => S754_nan end.

Definition sign_bit (s : bool) : Z := if s then 2 ^ 63 else 0.
Definition encode (f : spec_float) : double :=
  mkDouble
    match f with
    | S754_zero s => sign_bit s
    | S754_infinity s => sign_bit s + 2047 * 2 ^ 52
    | S754_nan => 4095 * 2 ^ 51
    | S754_finite s m e =>
        if Zpos m <? 2 ^ 52 then sign_bit s + Zpos m
        else sign_bit s + (e + 1075) * 2 ^ 52 + (Zpos m - 2 ^ 52)
    end.

(** ** Arithmetic *)
Definition lift2 (op : spec_float -> spec_float -> spec_float) (a b : double) : double :=
  encode (op (decode a) (decode b)).
Definition dadd : double -> double -> double := lift2 (SFadd 53 1024).
Definition dsub : double -> double -> double := lift2 (SFsub 53 1024).
Definition dmul : double -> double -> double := lift2 (SFmul 53 1024).
Definition ddiv : double -> double -> double := lift2 (SFdiv 53 1024).
(** Unary minus flips the sign bit. *)
Definition dneg (a : double) : double := mkDouble (Z.lxor (bits a) (2 ^ 63)).
(** [static_cast<double>] of an integer: rounded to nearest even. *)
Definition of_int (n : Z) : double := encode (binary_normalize 53 1024 n 0 false).

(** ** Comparison and classification *)
Definition dcompare (a b : double) : option comparison := SFcompare (decode a) (decode b).
Definition dlt (a b : double) : bool := SFltb (decode a) (decode b).
Definition dle (a b : double) : bool := SFleb (decode a) (decode b).
Definition deq (a b : double) : bool := SFeqb (decode a) (decode b).
Definition dgt (a b : double) : bool := dlt b a.
Definition dge (a b : double) : bool := dle b a.
(** [a != b]. *)
Definition dne (a b : double) : bool := negb (deq a b).
Definition isnan (a : double) : bool :=
  match decode a with S754_nan => true | _ => false end.
Definition isfinite (a : double) : bool :=
  match decode a with S754_nan | S754_infinity _ => false | _ => true end.

(** ** Literals of the source *)
Definition d0 : double := of_int 0.
Definition d1 : double := of_int 1.
Definition d1000 : double := of_int 1000.
Definition d100 : double := of_int 100.
(** 1e9 *)
Definition d1e9 : double := of_int 1000000000.
(** 0.5 *)
Definition d_half : double := mkDouble 0x3fe0000000000000.
(** 0.05, the nearest binary64 *)
Definition d_0_05 : double := mkDouble 0x3fa999999999999a.

Example decode_half : decode d_half = decode (ddiv d1 (of_int 2)).
Proof. vm_compute. reflexivity. Qed.
Example decode_0_05 : d_0_05 = ddiv (of_int 5) d100.
Proof. vm_compute. reflexivity. Qed.
Example one_third : ddiv d1 (of_int 3) = mkDouble 0x3fd5555555555555.
Proof. vm_compute. reflexivity. Qed.
Example nan_unordered : let n := ddiv d0 d0 in (dlt n d1, dlt d1 n, dne n n) = (false, false, true).
Proof. vm_compute. reflexivity. Qed.

(** ** The order *)

(** A key that orders the non-NaN values as integers triples are ordered. *)
Definition sf_key (f : spec_float) : Z * Z * Z :=
  match f with
  | S754_zero _ | S754_nan => (0, 0, 0)
  | S754_infinity s => (if s then -2 else 2, 0, 0)
  | S754_finite s m e => if s then (-1, - e, - Zpos m) else (1, e, Zpos m)
  end.
Definition key_compare (a b : Z * Z * Z) : comparison :=
  match Z.compare a.1.1 b.1.1 with
  | Eq => match Z.compare a.1.2 b.1.2 with
          | Eq => Z.compare a.2 b.2
          | c => c
          end
  | c => c
  end.

Lemma SFcompare_key x y : x <> S754_nan -> y <> S754_nan ->
  SFcompare x y = Some (key_compare (sf_key x) (sf_key y)).
Proof.
  intros Hx Hy. destruct x as [sx|sx| |sx mx ex]; [..|congruence|]; destruct y as [sy|sy| |sy my ey];
    try congruence; try (destruct sx); try (destruct sy); try reflexivity.
  unfold key_compare, SFcompare, sf_key; cbn [fst snd].
  change (Z.neg mx) with (- Zpos mx); change (Z.neg my) with (- Zpos my).
  rewrite ?Z.compare_opp; cbn [Z.compare]; try change (Pos.compare_cont Eq mx my) with (mx ?= my)%positive.
  rewrite (Z.compare_antisym ex ey), (Pos.compare_antisym mx my). by destruct (ex ?= ey).
Qed.

Lemma key_compare_eq a b : key_compare a b = Eq <-> a = b.
Proof.
  split; [|intros ->; unfold key_compare; by rewrite !Z.compare_refl].
  destruct a as [[a1 a2] a3], b as [[b1 b2] b3]. unfold key_compare; cbn [fst snd].
  by destruct (Z.compare_spec a1 b1), (Z.compare_spec a2 b2), (Z.compare_spec a3 b3); subst.
Qed.
Lemma key_compare_antisym a b : key_compare b a = CompOpp (key_compare a b).
Proof.
  unfold key_compare.
  rewrite (Z.compare_antisym a.1.1), (Z.compare_antisym a.1.2), (Z.compare_antisym a.2).
  destruct (a.1.1 ?= b.1.1), (a.1.2 ?= b.1.2), (a.2 ?= b.2); reflexivity.
Qed.
Lemma key_compare_lt_trans a b c :
  key_compare a b = Lt -> key_compare b c = Lt -> key_compare a c = Lt.
Proof.
  destruct a as [[a1 a2] a3], b as [[b1 b2] b3], c as [[c1 c2] c3].
  unfold key_compare; cbn [fst snd]. intros H1 H2.
  destruct (Z.compare_spec a1 b1), (Z.compare_spec b1 c1); try done; subst.
  - rewrite Z.compare_refl.
    destruct (Z.compare_spec a2 b2), (Z.compare_spec b2 c2); try done; subst.
    + rewrite Z.compare_refl. rewrite Z.compare_lt_iff in *. lia.
    + by rewrite (proj2 (Z.compare_lt_iff _ _)).
    + by rewrite (proj2 (Z.compare_lt_iff _ _)).
    + by rewrite (proj2 (Z.compare_lt_iff a2 c2)) by lia.
  - by rewrite (proj2 (Z.compare_lt_iff _ _)).
  - by rewrite (proj2 (Z.compare_lt_iff _ _)).
  - by rewrite (proj2 (Z.compare_lt_iff a1 c1)) by lia.
Qed.

(** ** Sums are doubles again

    The significand and exponent that [encode] packs into 64 bits. *)
Definition sf_ok (f : spec_float) : Prop :=
  match f with S754_finite _ m e => Zpos m < 2 ^ 53 /\ -1074 <= e <= 971 | _ => True end.

Lemma encode_ok f : sf_ok f -> double_ok (encode f).
Proof.
  unfold double_ok, encode, u64, sign_bit. destruct f as [s|s| |s m e]; cbn [bits sf_ok];
    [by destruct s|by destruct s|done|]. intros [Hm He].
  destruct (Z.ltb_spec (Zpos m) (2 ^ 52)); destruct s; lia.
Qed.
Lemma decode_ok d : sf_ok (decode d).
Proof.
  unfold decode. cbv zeta. set (m := Z.land (bits d) _). set (e := Z.land (Z.shiftr _ _) _).
  assert (0 <= m < 2 ^ 52) as Hm.
  { unfold m. change (2 ^ 52 - 1) with (Z.ones 52). rewrite Z.land_ones by lia. apply Z.mod_pos_bound. lia. }
  assert (0 <= e < 2 ^ 11) as He.
  { unfold e. change 2047 with (Z.ones 11). rewrite Z.land_ones by lia. apply Z.mod_pos_bound. lia. }
  destruct (Z.eqb_spec e 2047); [by destruct (m =? 0)|]. destruct (Z.eqb_spec e 0).
  - destruct m; cbn [sf_ok]; [done|lia|done].
  - destruct (m + 2 ^ 52) eqn:E; cbn [sf_ok]; [done|lia|done].
Qed.

Lemma digits2_bound p : Zpos p < 2 ^ Zpos (digits2_pos p).
Proof.
  induction p as [p IH|p IH|]; cbn [digits2_pos]; rewrite ?Pos2Z.inj_succ, ?Z.pow_succ_r by lia; lia.
Qed.
Lemma shr_1_m r : 0 <= shr_m r -> shr_m (shr_1 r) = shr_m r / 2.
Proof. destruct r as [m a b]. destruct m as [|[p|p|]|p]; cbn [shr_1 shr_m]; intros H; try done;
    [apply (Z.div_unique _ _ _ 1); lia|apply (Z.div_unique _ _ _ 0); lia]. Qed.
Lemma shr_iter_m p r : 0 <= shr_m r -> shr_m (SpecFloat.iter_pos shr_1 p r) = shr_m r / 2 ^ Zpos p.
Proof.
  revert r. induction p as [p IH|p IH|]; intros r Hr; cbn [SpecFloat.iter_pos].
  - assert (0 <= shr_m (shr_1 r)) as H1 by (rewrite shr_1_m by done; apply Z.div_pos; lia).
    rewrite IH, IH, shr_1_m by (rewrite ?IH by done; try apply Z.div_pos; lia).
    rewrite !Z.div_div by lia. f_equal. replace (Zpos p~1) with (1 + (Zpos p + Zpos p)) by lia.
    rewrite !Z.pow_add_r by lia. lia.
  - rewrite IH, IH by (rewrite ?IH by done; try apply Z.div_pos; lia).
    rewrite Z.div_div by lia. f_equal. replace (Zpos p~0) with (Zpos p + Zpos p) by lia.
    rewrite Z.pow_add_r by lia. lia.
  - by apply shr_1_m.
Qed.
Lemma shr_fexp_ok m e l : 0 <= m ->
  0 <= shr_m (shr_fexp 53 1024 m e l).1 < 2 ^ 53 /\ -1074 <= (shr_fexp 53 1024 m e l).2.
Proof.
  intros Hm. unfold shr_fexp, fexp, emin. change (3 - 1024 - 53) with (-1074).
  set (n := Z.max _ _ - e).
  assert (shr_m (shr_record_of_loc m l) = m) as El by (by destruct l as [|[]]).
  assert (m < 2 ^ Zdigits2 m /\ 0 <= Zdigits2 m) as [Hd Hd0].
  { destruct m as [|p|p]; cbn [Zdigits2]; [done|split; [apply digits2_bound|lia]|done]. }
  unfold shr. destruct n as [|p|p] eqn:En; cbn [fst snd]; rewrite ?El.
  1, 3: split; [|lia]; split; [done|]; eapply Z.lt_le_trans; [exact Hd|]; apply Z.pow_le_mono_r; lia.
  rewrite shr_iter_m by (rewrite El; done). rewrite El. split; [|lia].
  split; [apply Z.div_pos; lia|]. apply Z.div_lt_upper_bound; [lia|].
  rewrite <- Z.pow_add_r by lia. eapply Z.lt_le_trans; [exact Hd|]. apply Z.pow_le_mono_r; lia.
Qed.
Lemma round_nonneg m l : 0 <= m -> 0 <= round_nearest_even m l.
Proof. unfold round_nearest_even. destruct l as [|[]]; try lia. destruct (Z.even m); lia. Qed.
Lemma binary_round_aux_ok s m e l : 0 <= m -> sf_ok (binary_round_aux 53 1024 s m e l).
Proof.
  intros Hm. unfold binary_round_aux.
  destruct (shr_fexp_ok m e l Hm) as [H1 _]. destruct (shr_fexp 53 1024 m e l) as [r e']. cbn [fst snd] in H1.
  pose proof (round_nonneg _ (loc_of_shr_record r) (proj1 H1)) as Hr.
  destruct (shr_fexp_ok _ e' loc_Exact Hr) as [H2 H3]. destruct (shr_fexp _ _ _ e' _) as [r' e'']. cbn [fst snd] in *.
  destruct (shr_m r') as [|p|p]; cbn [sf_ok]; try done.
  destruct (Z.leb_spec e'' (1024 - 53)); cbn [sf_ok]; [lia|done].
Qed.
Lemma binary_normalize_ok m e s : sf_ok (binary_normalize 53 1024 m e s).
Proof.
  unfold binary_normalize, binary_round. destruct m as [|p|p]; cbn [sf_ok]; [done|..];
    destruct (shl_align _ _ _); apply binary_round_aux_ok; lia.
Qed.
Lemma dadd_ok a b : double_ok (dadd a b).
Proof.
  apply encode_ok. pose proof (decode_ok a) as Ha. pose proof (decode_ok b) as Hb. unfold SFadd.
  destruct (decode a) as [[]|[]| |], (decode b) as [[]|[]| |]; try done; apply binary_normalize_ok.
Qed.
Lemma dsub_ok a b : double_ok (dsub a b).
Proof.
  apply encode_ok. pose proof (decode_ok a) as Ha. pose proof (decode_ok b) as Hb. unfold SFsub.
  destruct (decode a) as [[]|[]| |], (decode b) as [[]|[]| |]; try done; apply binary_normalize_ok.
Qed.
#[export] Hint Resolve dadd_ok dsub_ok : ranges.
