(* ===== verification/Domain.v ===== *)
(** * Domain: the records the scheduler keeps and exchanges

    The structs of participant.hpp, plan.hpp, dependency.hpp, reservation.hpp,
    congestion.hpp, capacity.hpp, request.hpp, fairness.hpp, config.hpp,
    overlap.hpp and scheduling.hpp, field by field in the source's order, with
    their default member initializers.  Field names carry a short prefix of the
    struct ([rq_gen] is [CollectiveRequest::gen]). *)
From S2P Require Import Prelude Enums Identity Float64.

(** [Nanoseconds] (time.hpp) is [std::uint64_t]; [LogicalTime] holds one, and
    [advance] wraps. *)
Definition advance (value d : Z) : Z := add64 value d.
Definition saturating_sub (a b : Z) : Z := if a >? b then a - b else 0.

(** [struct Participant] (participant.hpp). *)
Record Participant : Set := mkParticipant {
  p_id : ParticipantId;
  p_gen : ParticipantGeneration;
  p_worker : WorkerId;
  p_worker_boot : WorkerBootId;
  p_source : SourceId;
  p_source_boot : SourceBootId;
  p_device : DeviceId;
  p_node : NodeId;
  p_nic : NicId;
  p_capability_gen : CapabilityGeneration;
  p_health_gen : HealthGeneration;
  p_topology_gen : TopologyGeneration;
  p_process_id : Z;
  p_ready : bool;
  p_readiness_source : ProvenanceStatus.t;
  p_provenance : ProvenanceStatus.t;
}.
#[export] Instance Participant_eta : Eta Participant := fun r =>
  mkParticipant (p_id r) (p_gen r) (p_worker r) (p_worker_boot r) (p_source r) (p_source_boot r) (p_device r) (p_node r) (p_nic r) (p_capability_gen r) (p_health_gen r) (p_topology_gen r) (p_process_id r) (p_ready r) (p_readiness_source r) (p_provenance r).
(** The default member initializers. *)
Definition Participant_default : Participant := {|
  p_id := mkId 0;
  p_gen := mkGen 0;
  p_worker := mkId 0;
  p_worker_boot := mkId 0;
  p_source := mkId 0;
  p_source_boot := mkId 0;
  p_device := mkId 0;
  p_node := mkId 0;
  p_nic := mkId 0;
  p_capability_gen := mkGen 0;
  p_health_gen := mkGen 0;
  p_topology_gen := mkGen 0;
  p_process_id := 0;
  p_ready := false;
  p_readiness_source := ProvenanceStatus.UNKNOWN;
  p_provenance := ProvenanceStatus.UNKNOWN
|}.

(** [struct CommunicationPlan] (plan.hpp). *)
Record CommunicationPlan : Set := mkCommunicationPlan {
  pl_id : CommunicationPlanId;
  pl_gen : CommunicationPlanGeneration;
  pl_kind : CollectiveKind.t;
  pl_topology_gen : TopologyGeneration;
  pl_participants : list ParticipantId;
  pl_flows : list FlowId;
  pl_resources : list ResourceId;
  pl_links : list LinkId;
  pl_paths : list PathId;
  pl_byte_count : Z;
  pl_estimated_bandwidth : double;
  pl_estimated_duration_ns : Z;
  pl_communication_cost : Z;
  pl_provenance : ProvenanceStatus.t;
  pl_valid : bool;
}.
#[export] Instance CommunicationPlan_eta : Eta CommunicationPlan := fun r =>
  mkCommunicationPlan (pl_id r) (pl_gen r) (pl_kind r) (pl_topology_gen r) (pl_participants r) (pl_flows r) (pl_resources r) (pl_links r) (pl_paths r) (pl_byte_count r) (pl_estimated_bandwidth r) (pl_estimated_duration_ns r) (pl_communication_cost r) (pl_provenance r) (pl_valid r).
(** The default member initializers. *)
Definition CommunicationPlan_default : CommunicationPlan := {|
  pl_id := mkId 0;
  pl_gen := mkGen 0;
  pl_kind := CollectiveKind.UNKNOWN;
  pl_topology_gen := mkGen 0;
  pl_participants := [];
  pl_flows := [];
  pl_resources := [];
  pl_links := [];
  pl_paths := [];
  pl_byte_count := 0;
  pl_estimated_bandwidth := d0;
  pl_estimated_duration_ns := 0;
  pl_communication_cost := 0;
  pl_provenance := ProvenanceStatus.SYNTHETIC;
  pl_valid := false
|}.

(** [struct DependencyState] (dependency.hpp). *)
Record DependencyState : Set := mkDependencyState {
  dep_id : DependencyId;
  dep_kind : DependencyKind.t;
  dep_gen : DependencyGeneration;
  dep_satisfied : bool;
  dep_source : ProvenanceStatus.t;
}.
#[export] Instance DependencyState_eta : Eta DependencyState := fun r =>
  mkDependencyState (dep_id r) (dep_kind r) (dep_gen r) (dep_satisfied r) (dep_source r).
(** The default member initializers. *)
Definition DependencyState_default : DependencyState := {|
  dep_id := mkId 0;
  dep_kind := DependencyKind.CUSTOM;
  dep_gen := mkGen 0;
  dep_satisfied := false;
  dep_source := ProvenanceStatus.UNKNOWN
|}.

(** [struct Reservation] (reservation.hpp). *)
Record Reservation : Set := mkReservation {
  rsv_gen : ReservationGeneration;
  rsv_strength : ReservationStrength.t;
  rsv_reserved_bandwidth : double;
  rsv_resources : list ResourceId;
  rsv_links : list LinkId;
  rsv_window_start_ns : Z;
  rsv_window_end_ns : Z;
  rsv_provenance : ProvenanceStatus.t;
  rsv_valid : bool;
}.
#[export] Instance Reservation_eta : Eta Reservation := fun r =>
  mkReservation (rsv_gen r) (rsv_strength r) (rsv_reserved_bandwidth r) (rsv_resources r) (rsv_links r) (rsv_window_start_ns r) (rsv_window_end_ns r) (rsv_provenance r) (rsv_valid r).
(** The default member initializers. *)
Definition Reservation_default : Reservation := {|
  rsv_gen := mkGen 0;
  rsv_strength := ReservationStrength.NONE;
  rsv_reserved_bandwidth := d0;
  rsv_resources := [];
  rsv_links := [];
  rsv_window_start_ns := 0;
  rsv_window_end_ns := 0;
  rsv_provenance := ProvenanceStatus.REPORTED;
  rsv_valid := false
|}.

(** [struct CongestionState] (congestion.hpp). *)
Record CongestionState : Set := mkCongestionState {
  cong_gen : CongestionGeneration;
  cong_utilization : double;
  cong_residual_bandwidth : double;
  cong_is_congested : bool;
  cong_hard_ceiling : bool;
  cong_hard_ceiling_utilization : double;
  cong_backpressure_intent : bool;
  cong_bottlenecks : list LinkId;
  cong_provenance : ProvenanceStatus.t;
}.
#[export] Instance CongestionState_eta : Eta CongestionState := fun r =>
  mkCongestionState (cong_gen r) (cong_utilization r) (cong_residual_bandwidth r) (cong_is_congested r) (cong_hard_ceiling r) (cong_hard_ceiling_utilization r) (cong_backpressure_intent r) (cong_bottlenecks r) (cong_provenance r).
(** The default member initializers. *)
Definition CongestionState_default : CongestionState := {|
  cong_gen := mkGen 0;
  cong_utilization := d0;
  cong_residual_bandwidth := d0;
  cong_is_congested := false;
  cong_hard_ceiling := false;
  cong_hard_ceiling_utilization := d1;
  cong_backpressure_intent := false;
  cong_bottlenecks := [];
  cong_provenance := ProvenanceStatus.REPORTED
|}.

(** [struct CapacityState] (capacity.hpp). *)
Record CapacityState : Set := mkCapacityState {
  cap_gen : CapacityGeneration;
  cap_usable_capacity : double;
  cap_headroom : double;
  cap_confidence : double;
  cap_provenance : ProvenanceStatus.t;
}.
#[export] Instance CapacityState_eta : Eta CapacityState := fun r =>
  mkCapacityState (cap_gen r) (cap_usable_capacity r) (cap_headroom r) (cap_confidence r) (cap_provenance r).
(** The default member initializers. *)
Definition CapacityState_default : CapacityState := {|
  cap_gen := mkGen 0;
  cap_usable_capacity := d0;
  cap_headroom := d0;
  cap_confidence := d0;
  cap_provenance := ProvenanceStatus.REPORTED
|}.

(** [struct DependencyRequirement] (request.hpp). *)
Record DependencyRequirement : Set := mkDependencyRequirement {
  dr_id : DependencyId;
  dr_gen : DependencyGeneration;
  dr_kind : DependencyKind.t;
  dr_provenance : ProvenanceStatus.t;
}.
#[export] Instance DependencyRequirement_eta : Eta DependencyRequirement := fun r =>
  mkDependencyRequirement (dr_id r) (dr_gen r) (dr_kind r) (dr_provenance r).
(** The default member initializers. *)
Definition DependencyRequirement_default : DependencyRequirement := {|
  dr_id := mkId 0;
  dr_gen := mkGen 0;
  dr_kind := DependencyKind.UNKNOWN;
  dr_provenance := ProvenanceStatus.UNKNOWN
|}.

(** [struct ResourceClaim] (request.hpp). *)
Record ResourceClaim : Set := mkResourceClaim {
  rc_resource : ResourceId;
  rc_gen : ResourceGeneration;
  rc_units : double;
  rc_exclusive : bool;
  rc_provenance : ProvenanceStatus.t;
}.
#[export] Instance ResourceClaim_eta : Eta ResourceClaim := fun r =>
  mkResourceClaim (rc_resource r) (rc_gen r) (rc_units r) (rc_exclusive r) (rc_provenance r).
(** The default member initializers. *)
Definition ResourceClaim_default : ResourceClaim := {|
  rc_resource := mkId 0;
  rc_gen := mkGen 0;
  rc_units := d0;
  rc_exclusive := true;
  rc_provenance := ProvenanceStatus.SYNTHETIC
|}.

(** [struct SchedulingWindow] (request.hpp); 0 means unbounded, respectively no deadline. *)
Record SchedulingWindow : Set := mkSchedulingWindow {
  w_earliest_start_ns : Z;
  w_latest_start_ns : Z;
  w_deadline_ns : Z;
  w_expected_duration_ns : Z;
  w_slack_ns : Z;
  w_source : ProvenanceStatus.t;
}.
#[export] Instance SchedulingWindow_eta : Eta SchedulingWindow := fun r =>
  mkSchedulingWindow (w_earliest_start_ns r) (w_latest_start_ns r) (w_deadline_ns r) (w_expected_duration_ns r) (w_slack_ns r) (w_source r).
(** The default member initializers. *)
Definition SchedulingWindow_default : SchedulingWindow := {|
  w_earliest_start_ns := 0;
  w_latest_start_ns := 0;
  w_deadline_ns := 0;
  w_expected_duration_ns := 0;
  w_slack_ns := 0;
  w_source := ProvenanceStatus.REPORTED
|}.

(** [struct ExternalPriority] (request.hpp). *)
Record ExternalPriority : Set := mkExternalPriority {
  prio_value : Z;
  prio_gen : PriorityGeneration;
  prio_authoritative : bool;
}.
#[export] Instance ExternalPriority_eta : Eta ExternalPriority := fun r =>
  mkExternalPriority (prio_value r) (prio_gen r) (prio_authoritative r).
(** The default member initializers. *)
Definition ExternalPriority_default : ExternalPriority := {|
  prio_value := 0;
  prio_gen := mkGen 0;
  prio_authoritative := false
|}.

(** [struct CollectiveRequest] (request.hpp). *)
Record CollectiveRequest : Set := mkCollectiveRequest {
  rq_id : CollectiveRequestId;
  rq_gen : CollectiveRequestGeneration;
  rq_collective : CollectiveId;
  rq_collective_gen : CollectiveGeneration;
  rq_kind : CollectiveKind.t;
  rq_participants : list ParticipantId;
  rq_participant_gens : list ParticipantGeneration;
  rq_payload_bytes : Z;
  rq_per_participant_payload : list Z;
  rq_plan_id : CommunicationPlanId;
  rq_plan_gen : CommunicationPlanGeneration;
  rq_dependencies : list DependencyRequirement;
  rq_resource_claims : list ResourceClaim;
  rq_exclusion_classes : list string;
  rq_priority : ExternalPriority;
  rq_window : SchedulingWindow;
  rq_overlap : OverlapMode.t;
  rq_fairness_class : FairnessClass.t;
  rq_reservation_gen : option ReservationGeneration;
  rq_workload : WorkloadId;
  rq_workload_gen : WorkloadGeneration;
  rq_queue_class : QueueClass.t;
  rq_max_retries : Z;
  rq_retry_count : Z;
  rq_policy_gen : PolicyGeneration;
  rq_provenance : ProvenanceStatus.t;
}.
#[export] Instance CollectiveRequest_eta : Eta CollectiveRequest := fun r =>
  mkCollectiveRequest (rq_id r) (rq_gen r) (rq_collective r) (rq_collective_gen r) (rq_kind r) (rq_participants r) (rq_participant_gens r) (rq_payload_bytes r) (rq_per_participant_payload r) (rq_plan_id r) (rq_plan_gen r) (rq_dependencies r) (rq_resource_claims r) (rq_exclusion_classes r) (rq_priority r) (rq_window r) (rq_overlap r) (rq_fairness_class r) (rq_reservation_gen r) (rq_workload r) (rq_workload_gen r) (rq_queue_class r) (rq_max_retries r) (rq_retry_count r) (rq_policy_gen r) (rq_provenance r).
(** The default member initializers. *)
Definition CollectiveRequest_default : CollectiveRequest := {|
  rq_id := mkId 0;
  rq_gen := mkGen 0;
  rq_collective := mkId 0;
  rq_collective_gen := mkGen 0;
  rq_kind := CollectiveKind.UNKNOWN;
  rq_participants := [];
  rq_participant_gens := [];
  rq_payload_bytes := 0;
  rq_per_participant_payload := [];
  rq_plan_id := mkId 0;
  rq_plan_gen := mkGen 0;
  rq_dependencies := [];
  rq_resource_claims := [];
  rq_exclusion_classes := [];
  rq_priority := ExternalPriority_default;
  rq_window := SchedulingWindow_default;
  rq_overlap := OverlapMode.UNKNOWN;
  rq_fairness_class := FairnessClass.DEFAULT;
  rq_reservation_gen := None;
  rq_workload := mkId 0;
  rq_workload_gen := mkGen 0;
  rq_queue_class := QueueClass.STANDARD;
  rq_max_retries := 0;
  rq_retry_count := 0;
  rq_policy_gen := mkGen 0;
  rq_provenance := ProvenanceStatus.REPORTED
|}.

(** [struct FairnessAccount] (fairness.hpp). *)
Record FairnessAccount : Set := mkFairnessAccount {
  fa_cls : FairnessClass.t;
  fa_observed_grants : Z;
  fa_observed_service : double;
  fa_deficit : double;
  fa_wait_ticks : Z;
  fa_consecutive_bypasses : Z;
  fa_starved : bool;
  fa_target_share : double;
}.
#[export] Instance FairnessAccount_eta : Eta FairnessAccount := fun r =>
  mkFairnessAccount (fa_cls r) (fa_observed_grants r) (fa_observed_service r) (fa_deficit r) (fa_wait_ticks r) (fa_consecutive_bypasses r) (fa_starved r) (fa_target_share r).
(** The default member initializers. *)
Definition FairnessAccount_default : FairnessAccount := {|
  fa_cls := FairnessClass.DEFAULT;
  fa_observed_grants := 0;
  fa_observed_service := d0;
  fa_deficit := d0;
  fa_wait_ticks := 0;
  fa_consecutive_bypasses := 0;
  fa_starved := false;
  fa_target_share := d0
|}.

(** [struct FairnessPolicy] (fairness.hpp). *)
Record FairnessPolicy : Set := mkFairnessPolicy {
  fp_protected_min_share : double;
  fp_aging_growth : double;
  fp_max_bypass_count : Z;
  fp_window_grants : Z;
  fp_starvation_enabled : bool;
}.
#[export] Instance FairnessPolicy_eta : Eta FairnessPolicy := fun r =>
  mkFairnessPolicy (fp_protected_min_share r) (fp_aging_growth r) (fp_max_bypass_count r) (fp_window_grants r) (fp_starvation_enabled r).
(** The default member initializers. *)
Definition FairnessPolicy_default : FairnessPolicy := {|
  fp_protected_min_share := d_0_05;
  fp_aging_growth := d_0_05;
  fp_max_bypass_count := 16;
  fp_window_grants := 64;
  fp_starvation_enabled := true
|}.

(** [struct Bounds] (config.hpp); every field is a [std::size_t]. *)
Record Bounds : Set := mkBounds {
  max_collectives : Z;
  max_participants : Z;
  max_participants_per_collective : Z;
  max_ready_queue_size : Z;
  max_active_grants : Z;
  max_overlap_group : Z;
  max_overlap_group_size : Z;
  max_conflict_edges : Z;
  max_policy_classes : Z;
  max_history_records : Z;
  max_workers : Z;
  max_protocol_payload : Z;
  max_pending_frames : Z;
  max_explanation_size : Z;
  max_paths_per_plan : Z;
  max_dependencies_per_request : Z;
}.
#[export] Instance Bounds_eta : Eta Bounds := fun r =>
  mkBounds (max_collectives r) (max_participants r) (max_participants_per_collective r) (max_ready_queue_size r) (max_active_grants r) (max_overlap_group r) (max_overlap_group_size r) (max_conflict_edges r) (max_policy_classes r) (max_history_records r) (max_workers r) (max_protocol_payload r) (max_pending_frames r) (max_explanation_size r) (max_paths_per_plan r) (max_dependencies_per_request r).
(** The default member initializers. *)
Definition Bounds_default : Bounds := {|
  max_collectives := 100000;
  max_participants := 100000;
  max_participants_per_collective := 4096;
  max_ready_queue_size := 100000;
  max_active_grants := 4096;
  max_overlap_group := 4096;
  max_overlap_group_size := 4096;
  max_conflict_edges := 2000000;
  max_policy_classes := 256;
  max_history_records := 100000;
  max_workers := 4096;
  max_protocol_payload := (16 * 1024 * 1024);
  max_pending_frames := 4096;
  max_explanation_size := 4096;
  max_paths_per_plan := 4096;
  max_dependencies_per_request := 4096
|}.

(** [struct PolicyConfig] (config.hpp). *)
Record PolicyConfig : Set := mkPolicyConfig {
  pol_w_priority : double;
  pol_w_deadline : double;
  pol_w_age : double;
  pol_w_fairness_deficit : double;
  pol_w_starvation_risk : double;
  pol_w_expected_duration : double;
  pol_w_congestion_penalty : double;
  pol_w_reservation_fit : double;
  pol_w_communication_cost : double;
  pol_w_resource_footprint : double;
  pol_w_participant_availability : double;
  pol_fairness_window_grants : Z;
  pol_protected_min_share : double;
  pol_max_bypass_count : Z;
  pol_aging_growth : double;
  pol_minimum_service_interval : Z;
  pol_max_overlap_group : Z;
  pol_overlap_enabled : bool;
  pol_max_epochs_retained : Z;
  pol_bounds : Bounds;
}.
#[export] Instance PolicyConfig_eta : Eta PolicyConfig := fun r =>
  mkPolicyConfig (pol_w_priority r) (pol_w_deadline r) (pol_w_age r) (pol_w_fairness_deficit r) (pol_w_starvation_risk r) (pol_w_expected_duration r) (pol_w_congestion_penalty r) (pol_w_reservation_fit r) (pol_w_communication_cost r) (pol_w_resource_footprint r) (pol_w_participant_availability r) (pol_fairness_window_grants r) (pol_protected_min_share r) (pol_max_bypass_count r) (pol_aging_growth r) (pol_minimum_service_interval r) (pol_max_overlap_group r) (pol_overlap_enabled r) (pol_max_epochs_retained r) (pol_bounds r).
(** The default member initializers. *)
Definition PolicyConfig_default : PolicyConfig := {|
  pol_w_priority := (of_int 100);
  pol_w_deadline := (of_int 200);
  pol_w_age := d1;
  pol_w_fairness_deficit := (of_int 120);
  pol_w_starvation_risk := (of_int 150);
  pol_w_expected_duration := d_half;
  pol_w_congestion_penalty := (of_int 80);
  pol_w_reservation_fit := (of_int 90);
  pol_w_communication_cost := d_half;
  pol_w_resource_footprint := d_half;
  pol_w_participant_availability := (of_int 40);
  pol_fairness_window_grants := 64;
  pol_protected_min_share := d_0_05;
  pol_max_bypass_count := 16;
  pol_aging_growth := d_0_05;
  pol_minimum_service_interval := 1;
  pol_max_overlap_group := 2;
  pol_overlap_enabled := true;
  pol_max_epochs_retained := 16;
  pol_bounds := Bounds_default
|}.

(** [struct OverlapGroup] (overlap.hpp). *)
Record OverlapGroup : Set := mkOverlapGroup {
  og_id : CollectiveGroupId;
  og_gen : CollectiveGroupGeneration;
  og_members : list CollectiveRequestId;
  og_mode : OverlapMode.t;
  og_bound : Z;
}.
#[export] Instance OverlapGroup_eta : Eta OverlapGroup := fun r =>
  mkOverlapGroup (og_id r) (og_gen r) (og_members r) (og_mode r) (og_bound r).
(** The default member initializers. *)
Definition OverlapGroup_default : OverlapGroup := {|
  og_id := mkId 0;
  og_gen := mkGen 0;
  og_members := [];
  og_mode := OverlapMode.UNKNOWN;
  og_bound := 1
|}.

(** [OverlapGroup::normalize]. *)
Definition OverlapGroup_normalize (g : OverlapGroup) : OverlapGroup :=
  g <| og_members ::= sort_unique id_ltb |>.

(** [struct FactorValue] (scheduling.hpp). *)
Record FactorValue : Set := mkFactorValue {
  fv_kind : SchedulingFactorKind.t;
  fv_value : double;
  fv_source : ProvenanceStatus.t;
}.
#[export] Instance FactorValue_eta : Eta FactorValue := fun r =>
  mkFactorValue (fv_kind r) (fv_value r) (fv_source r).
(** The default member initializers. *)
Definition FactorValue_default : FactorValue := {|
  fv_kind := SchedulingFactorKind.EXTERNAL_PRIORITY;
  fv_value := d0;
  fv_source := ProvenanceStatus.DERIVED
|}.

(** [struct EvidenceSnapshot] (scheduling.hpp). *)
Record EvidenceSnapshot : Set := mkEvidenceSnapshot {
  ev_epoch : CoordinatorEpoch;
  ev_collective_gen : CollectiveGeneration;
  ev_request_gen : CollectiveRequestGeneration;
  ev_plan_gen : CommunicationPlanGeneration;
  ev_participant_gen : ParticipantGeneration;
  ev_dependency_gen : DependencyGeneration;
  ev_reservation_gen : ReservationGeneration;
  ev_congestion_gen : CongestionGeneration;
  ev_capacity_gen : CapacityGeneration;
  ev_policy_gen : PolicyGeneration;
  ev_priority_gen : PriorityGeneration;
  ev_fairness_gen : FairnessGeneration;
  ev_topology_gen : TopologyGeneration;
  ev_capability_gen : CapabilityGeneration;
  ev_health_gen : HealthGeneration;
}.
#[export] Instance EvidenceSnapshot_eta : Eta EvidenceSnapshot := fun r =>
  mkEvidenceSnapshot (ev_epoch r) (ev_collective_gen r) (ev_request_gen r) (ev_plan_gen r) (ev_participant_gen r) (ev_dependency_gen r) (ev_reservation_gen r) (ev_congestion_gen r) (ev_capacity_gen r) (ev_policy_gen r) (ev_priority_gen r) (ev_fairness_gen r) (ev_topology_gen r) (ev_capability_gen r) (ev_health_gen r).
(** The default member initializers. *)
Definition EvidenceSnapshot_default : EvidenceSnapshot := {|
  ev_epoch := mkGen 0;
  ev_collective_gen := mkGen 0;
  ev_request_gen := mkGen 0;
  ev_plan_gen := mkGen 0;
  ev_participant_gen := mkGen 0;
  ev_dependency_gen := mkGen 0;
  ev_reservation_gen := mkGen 0;
  ev_congestion_gen := mkGen 0;
  ev_capacity_gen := mkGen 0;
  ev_policy_gen := mkGen 0;
  ev_priority_gen := mkGen 0;
  ev_fairness_gen := mkGen 0;
  ev_topology_gen := mkGen 0;
  ev_capability_gen := mkGen 0;
  ev_health_gen := mkGen 0
|}.

(** [struct RevalidationRequirements] (scheduling.hpp). *)
Record RevalidationRequirements : Set := mkRevalidationRequirements {
  require_fresh_participants : bool;
  require_fresh_plan : bool;
  require_fresh_reservation : bool;
  require_fresh_dependencies : bool;
  require_fresh_congestion : bool;
  require_fresh_capacity : bool;
  require_fresh_execution_authority : bool;
  require_current_epoch : bool;
}.
#[export] Instance RevalidationRequirements_eta : Eta RevalidationRequirements := fun r =>
  mkRevalidationRequirements (require_fresh_participants r) (require_fresh_plan r) (require_fresh_reservation r) (require_fresh_dependencies r) (require_fresh_congestion r) (require_fresh_capacity r) (require_fresh_execution_authority r) (require_current_epoch r).
(** The default member initializers. *)
Definition RevalidationRequirements_default : RevalidationRequirements := {|
  require_fresh_participants := true;
  require_fresh_plan := true;
  require_fresh_reservation := true;
  require_fresh_dependencies := true;
  require_fresh_congestion := true;
  require_fresh_capacity := true;
  require_fresh_execution_authority := true;
  require_current_epoch := true
|}.

(** [struct PriorityInversionEvent] (scheduling.hpp). *)
Record PriorityInversionEvent : Set := mkPriorityInversionEvent {
  pie_holder : CollectiveRequestId;
  pie_requester : CollectiveRequestId;
  pie_action : PriorityInversionAction.t;
  pie_holder_priority : Z;
  pie_requester_priority : Z;
  pie_evidence : EvidenceSnapshot;
}.
#[export] Instance PriorityInversionEvent_eta : Eta PriorityInversionEvent := fun r =>
  mkPriorityInversionEvent (pie_holder r) (pie_requester r) (pie_action r) (pie_holder_priority r) (pie_requester_priority r) (pie_evidence r).
(** The default member initializers. *)
Definition PriorityInversionEvent_default : PriorityInversionEvent := {|
  pie_holder := mkId 0;
  pie_requester := mkId 0;
  pie_action := PriorityInversionAction.NO_ACTION;
  pie_holder_priority := 0;
  pie_requester_priority := 0;
  pie_evidence := EvidenceSnapshot_default
|}.

(** [struct ScheduleDecision] (scheduling.hpp). *)
Record ScheduleDecision : Set := mkScheduleDecision {
  dec_id : CollectiveScheduleId;
  dec_gen : CollectiveScheduleGeneration;
  dec_selected : list CollectiveRequestId;
  dec_overlap_groups : list OverlapGroup;
  dec_grants : list CollectiveGrantId;
  dec_evidence : EvidenceSnapshot;
  dec_revalidation : RevalidationRequirements;
  dec_ranking_factors : list FactorValue;
  dec_fallback : list CollectiveRequestId;
  dec_priority_inversions : list PriorityInversionEvent;
  dec_explanation : string;
}.
#[export] Instance ScheduleDecision_eta : Eta ScheduleDecision := fun r =>
  mkScheduleDecision (dec_id r) (dec_gen r) (dec_selected r) (dec_overlap_groups r) (dec_grants r) (dec_evidence r) (dec_revalidation r) (dec_ranking_factors r) (dec_fallback r) (dec_priority_inversions r) (dec_explanation r).
(** The default member initializers. *)
Definition ScheduleDecision_default : ScheduleDecision := {|
  dec_id := mkId 0;
  dec_gen := mkGen 0;
  dec_selected := [];
  dec_overlap_groups := [];
  dec_grants := [];
  dec_evidence := EvidenceSnapshot_default;
  dec_revalidation := RevalidationRequirements_default;
  dec_ranking_factors := [];
  dec_fallback := [];
  dec_priority_inversions := [];
  dec_explanation := EmptyString
|}.

(** [struct CollectiveGrant] (scheduling.hpp). *)
Record CollectiveGrant : Set := mkCollectiveGrant {
  g_id : CollectiveGrantId;
  g_gen : CollectiveGrantGeneration;
  g_request : CollectiveRequestId;
  g_request_gen : CollectiveRequestGeneration;
  g_collective : CollectiveId;
  g_collective_gen : CollectiveGeneration;
  g_schedule : CollectiveScheduleId;
  g_schedule_gen : CollectiveScheduleGeneration;
  g_participants : list ParticipantId;
  g_participant_gens : list ParticipantGeneration;
  g_plan : CommunicationPlanId;
  g_plan_gen : CommunicationPlanGeneration;
  g_evidence : EvidenceSnapshot;
  g_revalidation : RevalidationRequirements;
  g_workload : WorkloadId;
  g_execution_attempt : ExecutionId;
  g_execution_attempt_gen : ExecutionGeneration;
  g_policy_gen : PolicyGeneration;
  g_active : bool;
  g_terminal : bool;
}.
#[export] Instance CollectiveGrant_eta : Eta CollectiveGrant := fun r =>
  mkCollectiveGrant (g_id r) (g_gen r) (g_request r) (g_request_gen r) (g_collective r) (g_collective_gen r) (g_schedule r) (g_schedule_gen r) (g_participants r) (g_participant_gens r) (g_plan r) (g_plan_gen r) (g_evidence r) (g_revalidation r) (g_workload r) (g_execution_attempt r) (g_execution_attempt_gen r) (g_policy_gen r) (g_active r) (g_terminal r).
(** The default member initializers. *)
Definition CollectiveGrant_default : CollectiveGrant := {|
  g_id := mkId 0;
  g_gen := mkGen 0;
  g_request := mkId 0;
  g_request_gen := mkGen 0;
  g_collective := mkId 0;
  g_collective_gen := mkGen 0;
  g_schedule := mkId 0;
  g_schedule_gen := mkGen 0;
  g_participants := [];
  g_participant_gens := [];
  g_plan := mkId 0;
  g_plan_gen := mkGen 0;
  g_evidence := EvidenceSnapshot_default;
  g_revalidation := RevalidationRequirements_default;
  g_workload := mkId 0;
  g_execution_attempt := mkId 0;
  g_execution_attempt_gen := mkGen 0;
  g_policy_gen := mkGen 0;
  g_active := false;
  g_terminal := false
|}.

(** [enum class GrantAdjudication] (scheduling.hpp). *)
Module GrantAdjudication.
Inductive t : Set :=
  | VALID
  | STALE_GRANT
  | STALE_EVIDENCE
  | CANCELLED
  | SUPERSEDED
  | NOT_ACTIVE
  | ALREADY_TERMINAL
  | EPOCH_MISMATCH
  | UNKNOWN.
#[export] Instance t_eq_dec : EqDecision t.
Proof. solve_decision. Defined.
End GrantAdjudication.
#[export] Existing Instance GrantAdjudication.t_eq_dec.

(** ** Pure helpers of fairness.hpp *)

(** [starvation_pressure]. *)
Definition starvation_pressure (a : FairnessAccount) (p : FairnessPolicy) : double :=
  if negb (fp_starvation_enabled p) then d0 else
  let bypass := of_int (fa_consecutive_bypasses a) in
  let cap := of_int (if fp_max_bypass_count p >? 0 then fp_max_bypass_count p else 1) in
  let frac := ddiv bypass cap in
  let frac := if dgt frac d1 then d1 else frac in
  let deficit_term := fa_deficit a in
  let deficit_term := if dgt deficit_term d1 then d1 else deficit_term in
  let p_pressure := dadd (dmul d_half frac) (dmul d_half deficit_term) in
  if dlt p_pressure d0 then d0 else if dgt p_pressure d1 then d1 else p_pressure.

(** [below_protected_share]. *)
Definition below_protected_share (a : FairnessAccount) (p : FairnessPolicy) : bool :=
  if negb (bool_decide (fa_cls a = FairnessClass.PROTECTED)) then false
  else if fa_observed_grants a >=? fp_window_grants p then false
  else dlt (fa_observed_service a) (fp_protected_min_share p).
