(* ===== verification/Lifecycle.v ===== *)
(** * Lifecycle: the guarded state machine of include/collective_scheduler/lifecycle.hpp

    [class Lifecycle] holds one [LifecycleState]; the model uses the state
    itself.  [can_transition] is the source's table row by row, [transition] the
    guarded assignment.  The theorems of this file say what the table amounts
    to: its terminal states, the states from which a collective can still be
    completed, and that every run of the machine stays inside the table. *)
From S2P Require Import Prelude Enums Error.
Import LifecycleState.

(** [Lifecycle::can_transition]. *)
Definition can_transition (from to : LifecycleState.t) : bool :=
  match from with
  | DECLARED =>
      match to with
      | WAITING | READY | CANCELLED | REVALIDATION_REQUIRED | SUPERSEDED | STALE
      | RETIRED | FAILED => true
      | _ => false
      end
  | WAITING =>
      match to with
      | READY | REVALIDATION_REQUIRED | CANCELLED | SUPERSEDED | STALE | RETIRED
      | FAILED => true
      | _ => false
      end
  | READY =>
      match to with
      | ELIGIBLE | WAITING | REVALIDATION_REQUIRED | CANCELLED | SUPERSEDED | STALE
      | RETIRED | FAILED => true
      | _ => false
      end
  | ELIGIBLE =>
      match to with
      | QUEUED | CANCELLED | REVALIDATION_REQUIRED | SUPERSEDED | STALE | RETIRED
      | FAILED => true
      | _ => false
      end
  | QUEUED =>
      match to with
      | GRANTED | WAITING | CANCELLED | REVALIDATION_REQUIRED | SUPERSEDED | STALE
      | RETIRED | FAILED => true
      | _ => false
      end
  | GRANTED =>
      match to with
      | DISPATCHING | CANCELLED | REVALIDATION_REQUIRED | SUPERSEDED | STALE | RETIRED
      | FAILED => true
      | _ => false
      end
  | DISPATCHING =>
      match to with
      | ACTIVE | CANCELLED | FAILED | REVALIDATION_REQUIRED | SUPERSEDED | STALE
      | RETIRED => true
      | _ => false
      end
  | ACTIVE =>
      match to with
      | COMPLETED | DRAINING | FAILED | CANCELLED | REVALIDATION_REQUIRED | SUPERSEDED
      | STALE | RETIRED => true
      | _ => false
      end
  | DRAINING =>
      match to with
      | COMPLETED | ACTIVE | FAILED | SUPERSEDED | STALE | RETIRED => true
      | _ => false
      end
  | COMPLETED | CANCELLED => match to with RETIRED => true | _ => false end
  | FAILED => match to with REVALIDATION_REQUIRED | RETIRED => true | _ => false end
  | REVALIDATION_REQUIRED =>
      match to with
      | READY | WAITING | CANCELLED | SUPERSEDED | STALE | RETIRED | FAILED => true
      | _ => false
      end
  | SUPERSEDED | STALE => match to with RETIRED => true | _ => false end
  | RETIRED => false
  | other _ => false
  end.

(** [Lifecycle::transition]: the new state, or the exception. *)
Definition transition (state to : LifecycleState.t) : res LifecycleState.t :=
  if can_transition state to then Ok to
  else Throw (throw_transition
    ("illegal lifecycle transition " +:+ name_of state +:+ " -> " +:+ name_of to)).

(** [is_terminal_state] (scheduler.cpp). *)
Definition is_terminal_state (s : LifecycleState.t) : bool :=
  match s with
  | COMPLETED | CANCELLED | SUPERSEDED | STALE | RETIRED => true
  | _ => false
  end.

(** The states that no operation leaves but to supersede the request: the terminal
    ones, and REVALIDATION_REQUIRED, from which the table has transitions that the
    scheduler never takes. *)
Definition dormant (s : LifecycleState.t) : bool :=
  match s with REVALIDATION_REQUIRED => true | _ => is_terminal_state s end.

(** ** Runs of the machine *)

(** [run_of s path s']: the machine goes from [s] to [s'] through the states of
    [path], each entered by a legal transition. *)
Inductive run_of : LifecycleState.t -> list LifecycleState.t -> LifecycleState.t -> Prop :=
  | run_nil s : run_of s [] s
  | run_step s s1 path s' :
      transition s s1 = Ok s1 -> run_of s1 path s' -> run_of s (s1 :: path) s'.

Lemma transition_ok s to s' : transition s to = Ok s' <-> can_transition s to = true /\ s' = to.
Proof. unfold transition. destruct (can_transition s to); naive_solver. Qed.

Lemma transition_throw s to :
  can_transition s to = false -> exists e, transition s to = Throw e /\
    code e = ErrorCode.ILLEGAL_TRANSITION.
Proof. unfold transition. intros ->. eauto. Qed.

(** A terminal state is left only for RETIRED, and RETIRED is never left. *)
Lemma terminal_step s to :
  is_terminal_state s = true -> can_transition s to = true -> s <> RETIRED /\ to = RETIRED.
Proof. intros Hs Hc. destruct s; try discriminate Hs; destruct to; try discriminate Hc; split; congruence. Qed.

Lemma run_terminal s path s' :
  is_terminal_state s = true -> run_of s path s' -> path = [] \/ path = [RETIRED].
Proof.
  intros Hs Hrun. destruct Hrun as [|s s1 path s' Ht Hrun]; [by left|right].
  apply transition_ok in Ht as [Hc _]. destruct (terminal_step _ _ Hs Hc) as [_ ->].
  inversion Hrun as [|? s2 ? ? Ht2]; subst; [done|].
  by apply transition_ok in Ht2 as [Hc2 _].
Qed.

(** The predecessors of the states that matter for execution. *)
Lemma into_granted s : can_transition s GRANTED = true <-> s = QUEUED.
Proof. by destruct s. Qed.
Lemma into_dispatching s : can_transition s DISPATCHING = true <-> s = GRANTED.
Proof. by destruct s. Qed.
Lemma into_active s : can_transition s ACTIVE = true <-> s = DISPATCHING \/ s = DRAINING.
Proof. destruct s; naive_solver. Qed.
Lemma into_completed s : can_transition s COMPLETED = true <-> s = ACTIVE \/ s = DRAINING.
Proof. destruct s; naive_solver. Qed.

(** What a run still has to pass through before it can complete. *)
Definition needed (s : LifecycleState.t) : list LifecycleState.t :=
  match s with
  | QUEUED => [GRANTED; DISPATCHING; ACTIVE; COMPLETED]
  | GRANTED => [DISPATCHING; ACTIVE; COMPLETED]
  | DISPATCHING => [ACTIVE; COMPLETED]
  | ACTIVE | DRAINING => [COMPLETED]
  | COMPLETED => []
  | _ => [QUEUED; GRANTED; DISPATCHING; ACTIVE; COMPLETED]
  end.

Lemma needed_step s s1 :
  can_transition s s1 = true -> s1 = COMPLETED \/ is_terminal_state s1 = false ->
  needed s = s1 :: needed s1 \/ needed s `sublist_of` needed s1.
Proof.
  destruct s; try done; destruct s1; try done; simpl; intros _ Ht; try (by destruct Ht);
    first [by left | right; repeat constructor].
Qed.

Lemma run_needed s path : run_of s path COMPLETED -> needed s `sublist_of` path.
Proof.
  remember COMPLETED as c eqn:Hc. induction 1 as [|s s1 path s' Ht Hrun IH]; [by subst|].
  apply transition_ok in Ht as [Ht _]. specialize (IH Hc). subst s'.
  destruct (decide (s1 = COMPLETED)) as [->|Hn].
  { destruct (needed_step _ _ Ht) as [->|Hs]; [by left|..].
    - by apply sublist_skip.
    - apply sublist_cons. by etrans. }
  destruct (is_terminal_state s1) eqn:Hterm.
  { destruct (run_terminal _ _ _ Hterm Hrun) as [->| ->]; inversion Hrun as [|? ? ? ? H1 H2]; subst; [done|].
    by inversion H2. }
  destruct (needed_step _ _ Ht) as [->|Hs]; [by right|..].
  - by apply sublist_skip.
  - apply sublist_cons. by etrans.
Qed.

(** No completion without a hand-off. *)
Theorem completion_needs_handoff s path :
  is_terminal_state s = false -> s <> QUEUED -> s <> GRANTED -> s <> DISPATCHING ->
  s <> ACTIVE -> s <> DRAINING -> run_of s path COMPLETED ->
  [QUEUED; GRANTED; DISPATCHING; ACTIVE; COMPLETED] `sublist_of` path.
Proof. intros. rewrite <- (run_needed s path) by done. by destruct s. Qed.
Example completion_needs_handoff_witness :
  let path := [READY; ELIGIBLE; QUEUED; GRANTED; DISPATCHING; ACTIVE; COMPLETED] in
  [QUEUED; GRANTED; DISPATCHING; ACTIVE; COMPLETED] `sublist_of` path.
Proof.
  apply (completion_needs_handoff DECLARED); try discriminate; try reflexivity.
  repeat (eapply run_step; [reflexivity|]). apply run_nil.
Defined.
