(* ===== verification/Conflict.v ===== *)
(** * Conflict: footprints and conflict classification (conflict.hpp, conflict.cpp)

    A [Footprint] gathers what a collective occupies; [classify_conflict]
    compares two of them.  The theorems relate the merge loop [set_intersect] to
    set intersection on the sorted-unique vectors that [normalize] produces, and
    characterize when two collectives may not overlap. *)
From S2P Require Import Prelude Enums Identity Float64 Domain.

(** [struct Footprint]. *)
Record Footprint : Set := mkFootprint {
  fpt_participants : list ParticipantId;
  fpt_resources : list ResourceId;
  fpt_links : list LinkId;
  fpt_exclusion_classes : list string;
  fpt_unknown : bool;
}.
#[export] Instance Footprint_eta : Eta Footprint := fun r =>
  mkFootprint (fpt_participants r) (fpt_resources r) (fpt_links r)
    (fpt_exclusion_classes r) (fpt_unknown r).
Definition Footprint_default : Footprint := mkFootprint [] [] [] [] false.

(** [struct ConflictResult] and its predicates; [severity >= HIGH] on the
    enumerators in their order. *)
Record ConflictResult : Set := mkConflictResult {
  classification : ConflictClassification.t;
  severity : ConflictSeverity.t;
  reasons : list string;
}.
Definition severity_rank (s : ConflictSeverity.t) : Z :=
  match s with
  | ConflictSeverity.NONE => 0
  | ConflictSeverity.LOW => 1
  | ConflictSeverity.MEDIUM => 2
  | ConflictSeverity.HIGH => 3
  | ConflictSeverity.FATAL => 4
  end.
Definition has_conflict (r : ConflictResult) : bool :=
  negb (bool_decide (classification r = ConflictClassification.NO_CONFLICT)).
Definition conflict_is_unknown (r : ConflictResult) : bool :=
  bool_decide (classification r = ConflictClassification.UNKNOWN).
Definition forbids_overlap (r : ConflictResult) : bool :=
  match classification r with
  | ConflictClassification.NO_CONFLICT => false
  | ConflictClassification.UNKNOWN => true
  | _ => severity_rank (severity r) >=? severity_rank ConflictSeverity.HIGH
  end.

(** [set_intersect]: the merge walk over two vectors, and its overloads
    [intersect_nonempty]. *)
Fixpoint set_intersect {A} (lt : A -> A -> bool) (a : list A) : list A -> bool :=
  fix go (b : list A) : bool :=
    match a, b with
    | x :: a', y :: b' =>
        if lt x y then set_intersect lt a' b
        else if lt y x then go b'
        else true
    | _, _ => false
    end.

(** [Footprint::normalize]. *)
Definition normalize (f : Footprint) : Footprint :=
  f <| fpt_participants ::= sort_unique id_ltb |>
    <| fpt_resources ::= sort_unique id_ltb |>
    <| fpt_links ::= sort_unique id_ltb |>
    <| fpt_exclusion_classes ::= sort_unique string_ltb |>.

(** [make_footprint]. *)
Definition make_footprint (participants : list ParticipantId)
    (resource_claims : list ResourceClaim) (plan : option CommunicationPlan) : Footprint :=
  let fp := Footprint_default
    <| fpt_participants := participants |>
    <| fpt_resources := rc_resource <$> resource_claims |> in
  let fp := match plan with
    | Some pl =>
        fp <| fpt_resources ::= fun r => r ++ pl_resources pl |>
           <| fpt_links := pl_links pl |>
           <| fpt_unknown := negb (pl_valid pl) |>
    | None => fp <| fpt_unknown := true |>
    end in
  normalize fp.

(** [classify_conflict]. *)
Definition classify_conflict (a b : Footprint) : ConflictResult :=
  if set_intersect id_ltb (fpt_participants a) (fpt_participants b) then
    mkConflictResult ConflictClassification.PARTICIPANT_CONFLICT ConflictSeverity.FATAL
      ["participant overlap"]
  else if set_intersect id_ltb (fpt_resources a) (fpt_resources b) then
    mkConflictResult ConflictClassification.RESOURCE_CONFLICT ConflictSeverity.HIGH
      ["resource overlap"]
  else if set_intersect id_ltb (fpt_links a) (fpt_links b) then
    mkConflictResult ConflictClassification.LINK_CONFLICT ConflictSeverity.HIGH
      ["link overlap"]
  else if set_intersect string_ltb (fpt_exclusion_classes a) (fpt_exclusion_classes b) then
    mkConflictResult ConflictClassification.POLICY_CONFLICT ConflictSeverity.HIGH
      ["exclusion class overlap"]
  else if fpt_unknown a || fpt_unknown b then
    mkConflictResult ConflictClassification.UNKNOWN ConflictSeverity.HIGH
      ["unknown footprint evidence"]
  else mkConflictResult ConflictClassification.NO_CONFLICT ConflictSeverity.NONE [].

(** ** The merge walk *)
Section set_intersect.
Context {A : Type} (lt : A -> A -> bool) `{!StrictTotal lt}.
Abbreviation sorted := (StronglySorted (fun x y => lt x y = true)).

Lemma set_intersect_sound a b : set_intersect lt a b = true -> exists x, x ∈ a /\ x ∈ b.
Proof.
  revert b. induction a as [|x a IHa]; intros b; [by destruct b|].
  induction b as [|y b IHb]; [done|]. cbn [set_intersect].
  destruct (lt x y) eqn:E1.
  { intros (z & ? & ?)%IHa. exists z. split; [by right|done]. }
  destruct (lt y x) eqn:E2.
  { intros (z & ? & ?)%IHb. exists z. split; [done|by right]. }
  intros _. destruct (lt_total (lt := lt) x y) as [|[->|]]; try congruence.
  exists y. split; left.
Qed.

Lemma set_intersect_complete a b x :
  sorted a -> sorted b -> x ∈ a -> x ∈ b -> set_intersect lt a b = true.
Proof.
  intros Ha. revert b. induction Ha as [|u a Ha IHa Hu]; intros b Hb Hxa Hxb.
  { by apply elem_of_nil in Hxa. }
  rewrite Forall_forall in Hu.
  induction Hb as [|v b Hb IHb Hv]; [by apply elem_of_nil in Hxb|].
  rewrite Forall_forall in Hv. cbn [set_intersect].
  apply elem_of_cons in Hxa as Hxa'. apply elem_of_cons in Hxb as Hxb'.
  destruct (lt u v) eqn:E1.
  { apply IHa; [by constructor; [|apply Forall_forall]| |done].
    destruct Hxa' as [->|?]; [|done]. destruct Hxb' as [->|Hin].
    - by rewrite lt_irrefl in E1.
    - specialize (Hv _ Hin). pose proof (lt_trans _ _ _ E1 Hv) as E. by rewrite lt_irrefl in E. }
  destruct (lt v u) eqn:E2; [|done].
  apply IHb. destruct Hxb' as [->|?]; [|done]. destruct Hxa' as [->|Hin].
  - by rewrite lt_irrefl in E2.
  - specialize (Hu _ Hin). pose proof (lt_trans _ _ _ E2 Hu) as E. by rewrite lt_irrefl in E.
Qed.

Lemma set_intersect_spec a b :
  sorted a -> sorted b -> set_intersect lt a b = true <-> exists x, x ∈ a /\ x ∈ b.
Proof.
  intros Ha Hb. split; [apply set_intersect_sound|].
  intros (x & ? & ?). by eapply set_intersect_complete.
Qed.
Lemma set_intersect_false a b :
  sorted a -> sorted b -> set_intersect lt a b = false <-> forall x, x ∈ a -> x ∉ b.
Proof.
  intros Ha Hb. rewrite <- not_true_iff_false, set_intersect_spec by done. naive_solver.
Qed.
Lemma set_intersect_comm a b :
  sorted a -> sorted b -> set_intersect lt a b = set_intersect lt b a.
Proof.
  intros Ha Hb. apply eq_true_iff_eq. rewrite !set_intersect_spec by done. naive_solver.
Qed.
End set_intersect.

(** ** Footprints *)

(** Every vector of the footprint is strictly sorted. *)
Record fpt_wf (f : Footprint) : Prop := {
  wf_participants : StronglySorted (fun x y => id_ltb x y = true) (fpt_participants f);
  wf_resources : StronglySorted (fun x y => id_ltb x y = true) (fpt_resources f);
  wf_links : StronglySorted (fun x y => id_ltb x y = true) (fpt_links f);
  wf_classes : StronglySorted (fun x y => string_ltb x y = true) (fpt_exclusion_classes f);
}.
Lemma normalize_wf f : fpt_wf (normalize f).
Proof. split; simpl; apply sort_unique_sorted, _. Qed.
Lemma make_footprint_wf ps rcs pl : fpt_wf (make_footprint ps rcs pl).
Proof. apply normalize_wf. Qed.

(** Two footprints share an occupied thing, or evidence about one is missing. *)
Definition clash (a b : Footprint) : Prop :=
  (exists p, p ∈ fpt_participants a /\ p ∈ fpt_participants b) \/
  (exists r, r ∈ fpt_resources a /\ r ∈ fpt_resources b) \/
  (exists l, l ∈ fpt_links a /\ l ∈ fpt_links b) \/
  (exists c, c ∈ fpt_exclusion_classes a /\ c ∈ fpt_exclusion_classes b) \/
  fpt_unknown a = true \/ fpt_unknown b = true.

Lemma forbids_overlap_clash a b :
  fpt_wf a -> fpt_wf b -> forbids_overlap (classify_conflict a b) = true <-> clash a b.
Proof.
  intros [] []. unfold classify_conflict, clash.
  rewrite <- !(set_intersect_spec id_ltb), <- (set_intersect_spec string_ltb) by done.
  do 3 (destruct (set_intersect id_ltb _ _); [cbn; tauto|]). destruct (set_intersect string_ltb _ _); [cbn; tauto|].
  destruct (fpt_unknown a), (fpt_unknown b); cbn; intuition discriminate.
Qed.
Lemma classify_conflict_comm a b :
  fpt_wf a -> fpt_wf b -> classify_conflict a b = classify_conflict b a.
Proof.
  intros [] []. unfold classify_conflict.
  rewrite (set_intersect_comm id_ltb (fpt_participants a)), (set_intersect_comm id_ltb (fpt_resources a)),
    (set_intersect_comm id_ltb (fpt_links a)), (set_intersect_comm string_ltb), orb_comm by done.
  done.
Qed.

Lemma make_footprint_participants ps rcs pl p :
  p ∈ fpt_participants (make_footprint ps rcs pl) <-> p ∈ ps.
Proof. destruct pl; simpl; by rewrite elem_of_sort_unique by apply _. Qed.
Lemma make_footprint_resources ps rcs pl r :
  r ∈ fpt_resources (make_footprint ps rcs pl) <->
  r ∈ rc_resource <$> rcs \/ exists p, pl = Some p /\ r ∈ pl_resources p.
Proof.
  destruct pl; simpl; rewrite elem_of_sort_unique by apply _; [rewrite elem_of_app|]; naive_solver.
Qed.
Lemma make_footprint_links ps rcs pl l :
  l ∈ fpt_links (make_footprint ps rcs pl) <-> exists p, pl = Some p /\ l ∈ pl_links p.
Proof.
  destruct pl; simpl; rewrite ?elem_of_sort_unique by apply _; [naive_solver|].
  split; [by intros ?%elem_of_nil|naive_solver].
Qed.
(** The exclusion classes of the request do not reach the footprint. *)
Lemma make_footprint_classes ps rcs pl : fpt_exclusion_classes (make_footprint ps rcs pl) = [].
Proof. by destruct pl. Qed.
Lemma make_footprint_unknown ps rcs pl :
  fpt_unknown (make_footprint ps rcs pl) = true <-> forall p, pl = Some p -> pl_valid p = false.
Proof.
  destruct pl as [p|]; simpl; [|naive_solver]. rewrite negb_true_iff. naive_solver.
Qed.

(** ** Classification *)

Definition shares {A} (l m : list A) : Prop := exists x, x ∈ l /\ x ∈ m.
(** What each class says: the first kind of thing the two share. *)
Definition classified (a b : Footprint) (c : ConflictClassification.t) : Prop :=
  let ps := shares (fpt_participants a) (fpt_participants b) in
  let rs := shares (fpt_resources a) (fpt_resources b) in
  let ls := shares (fpt_links a) (fpt_links b) in
  let cs := shares (fpt_exclusion_classes a) (fpt_exclusion_classes b) in
  let unknown := fpt_unknown a = true \/ fpt_unknown b = true in
  match c with
  | ConflictClassification.PARTICIPANT_CONFLICT => ps
  | ConflictClassification.RESOURCE_CONFLICT => ~ ps /\ rs
  | ConflictClassification.LINK_CONFLICT => ~ ps /\ ~ rs /\ ls
  | ConflictClassification.POLICY_CONFLICT => ~ ps /\ ~ rs /\ ~ ls /\ cs
  | ConflictClassification.UNKNOWN => ~ ps /\ ~ rs /\ ~ ls /\ ~ cs /\ unknown
  | ConflictClassification.NO_CONFLICT => ~ clash a b
  | _ => False
  end.

(** C28: on footprints as [make_footprint] builds them the classification names
    the first kind of thing the two collectives share, does not depend on their
    order, and forbids overlap exactly when something is shared or unknown. *)
Theorem classify_conflict_spec a b : fpt_wf a -> fpt_wf b ->
  classified a b (classification (classify_conflict a b)) /\
  classify_conflict a b = classify_conflict b a /\
  (forbids_overlap (classify_conflict a b) = true <-> clash a b).
Proof.
  intros Ha Hb. split_and!; [|by apply classify_conflict_comm|by apply forbids_overlap_clash].
  pose proof (forbids_overlap_clash a b Ha Hb) as Hc. revert Hc. destruct Ha, Hb.
  unfold classify_conflict, shares.
  pose proof (set_intersect_spec id_ltb (fpt_participants a) (fpt_participants b)) as Sp.
  pose proof (set_intersect_spec id_ltb (fpt_resources a) (fpt_resources b)) as Sr.
  pose proof (set_intersect_spec id_ltb (fpt_links a) (fpt_links b)) as Sl.
  pose proof (set_intersect_spec string_ltb (fpt_exclusion_classes a) (fpt_exclusion_classes b)) as Sc.
  unfold classified, shares. intros Hc.
  destruct (set_intersect id_ltb (fpt_participants a) (fpt_participants b)); [by apply Sp|].
  destruct (set_intersect id_ltb (fpt_resources a) (fpt_resources b)); [cbn; rewrite <- Sp, <- Sr; done|].
  destruct (set_intersect id_ltb (fpt_links a) (fpt_links b)); [cbn; rewrite <- Sp, <- Sr, <- Sl; done|].
  destruct (set_intersect string_ltb _ _); [cbn; rewrite <- Sp, <- Sr, <- Sl, <- Sc; done|].
  destruct (fpt_unknown a) eqn:Ea; [cbn; rewrite <- Sp, <- Sr, <- Sl, <- Sc; auto 6|].
  destruct (fpt_unknown b) eqn:Eb; [cbn; rewrite <- Sp, <- Sr, <- Sl, <- Sc; auto 6|].
  cbn in *. by rewrite <- Hc.
Qed.
Example classify_conflict_spec_witness :
  let a := make_footprint [mkId 2; mkId 1] [] None in
  let b := make_footprint [mkId 3; mkId 2] [] None in
  clash a b /\ classify_conflict a b = classify_conflict b a.
Proof.
  intros a b. destruct (classify_conflict_spec a b (make_footprint_wf _ _ _) (make_footprint_wf _ _ _))
    as (_ & H1 & H2). split; [|exact H1]. apply H2. vm_compute. reflexivity.
Defined.
