(* ===== verification/Codec.v ===== *)
(** * Codec: the binary writer and reader of persistence.hpp / persistence.cpp

    A byte is a [Z] in [0, 256).  The only state of a [PersistenceWriter] is the
    buffer it appends to: a writer operation is the list of bytes it appends, and
    a sequence of calls is their concatenation.  A [PersistenceReader] is a
    record threaded through the state-and-exception monad.  The relation [reads]
    says that a reader operation consumes exactly some bytes and returns a value;
    it composes, and carries the round-trip proofs of Serialize, Persistence and
    Coordinator. *)
From S2P Require Import Prelude Enums Identity Error Float64.

(** ** Little-endian integers *)

(** [for (int i = 0; i < n; ++i) push_back((v >> (8 * i)) & 0xff)]. *)
Fixpoint put_le_from (i : Z) (n : nat) (v : Z) : list Z :=
  match n with
  | O => []
  | S n' => Z.land (Z.shiftr v (8 * i)) 255 :: put_le_from (i + 1) n' v
  end.
Definition put_le (n : nat) (v : Z) : list Z := put_le_from 0 n v.

(** [for (int i = 0; i < n; ++i) v |= p[i] << (8 * i)]. *)
Fixpoint get_le_from (i : Z) (n : nat) (v : Z) (p : list Z) : Z :=
  match n, p with
  | S n', b :: p' => get_le_from (i + 1) n' (Z.lor v (Z.shiftl b (8 * i))) p'
  | _, _ => v
  end.
Definition get_le (n : nat) (p : list Z) : Z := get_le_from 0 n 0 p.

(** ** PersistenceWriter *)
Definition w_u8 (v : Z) : list Z := [v].
Definition w_u16 (v : Z) : list Z := put_le 2 v.
Definition w_u32 (v : Z) : list Z := put_le 4 v.
Definition w_u64 (v : Z) : list Z := put_le 8 v.
Definition w_i32 (v : Z) : list Z := w_u32 (wrap32 v).
Definition w_f64 (v : double) : list Z := w_u64 (bits v).
Definition string_bytes (s : string) : list Z :=
  (fun c => Z.of_nat (Ascii.nat_of_ascii c)) <$> String.list_ascii_of_string s.
Definition w_str (s : string) : list Z :=
  w_u64 (Z.of_nat (length (string_bytes s))) ++ string_bytes s.
(** [id(v.value)] *)
Definition w_id {tag} (v : Id tag) : list Z := w_u64 (id_value v).
Definition w_gen {tag} (v : Gen tag) : list Z := w_u64 (gen_value v).
(** [u8(b ? 1 : 0)] *)
Definition w_bool (b : bool) : list Z := w_u8 (if b then 1 else 0).
(** [u8(static_cast<std::uint8_t>(v))] *)
Definition w_enum {T} `{EnumU8 T} (v : T) : list Z := w_u8 (to_u8 v).
(** [u64(v.size()); for (auto x : v) w(x);] *)
Definition w_vec {A} (w : A -> list Z) (v : list A) : list Z :=
  w_u64 (Z.of_nat (length v)) ++ concat (w <$> v).

(** ** PersistenceReader *)
Record Reader : Set := mkReader {
  rd_buf : list Z;   (* the [len_] bytes at [p_] *)
  rd_pos : Z;        (* [pos_] *)
  rd_max : Z;        (* [max_] *)
}.
#[export] Instance Reader_eta : Eta Reader := fun r => mkReader (rd_buf r) (rd_pos r) (rd_max r).
Definition rd_len (r : Reader) : Z := Z.of_nat (length (rd_buf r)).

(** [PersistenceReader(p, n, max)]. *)
Definition make_reader (p : list Z) (n max : Z) : Reader := mkReader (take (Z.to_nat n) p) 0 max.

Abbreviation R := (M scheduler_error Reader).

Definition need (n : Z) : R unit := fun r =>
  if n >? rd_max r then (Throw (throw_malformed "persistence read exceeds max size"), r)
  else if add64 (rd_pos r) n >? rd_len r then (Throw (throw_malformed "persistence truncation"), r)
  else (Ok tt, r).
(** The [n] bytes at the position, which advances. *)
Definition next_bytes (n : Z) : R (list Z) := fun r =>
  (Ok (take (Z.to_nat n) (drop (Z.to_nat (rd_pos r)) (rd_buf r))), r <| rd_pos := add64 (rd_pos r) n |>).
Definition r_le (n : nat) : R Z :=
  _ ← need (Z.of_nat n); bs ← next_bytes (Z.of_nat n); mret (get_le n bs).
Definition r_u8 : R Z := r_le 1.
Definition r_u16 : R Z := r_le 2.
Definition r_u32 : R Z := r_le 4.
Definition r_u64 : R Z := r_le 8.
(** [static_cast<std::int32_t>(u32())], modulo 2^32 as C++20 defines it. *)
Definition to_i32 (z : Z) : Z := if z <? 2 ^ 31 then z else z - 2 ^ 32.
Definition r_i32 : R Z := v ← r_u32; mret (to_i32 v).
Definition r_f64 : R double := v ← r_u64; mret (mkDouble v).
Definition bytes_string (bs : list Z) : string :=
  String.string_of_list_ascii ((fun b => Ascii.ascii_of_nat (Z.to_nat b)) <$> bs).
(** [if (n > max_) throw_malformed(...)] *)
Definition check_max (n : Z) : R unit := fun r =>
  if n >? rd_max r then (Throw (throw_malformed "persistence string exceeds max"), r)
  else (Ok tt, r).
Definition r_str : R string :=
  n ← r_u64; _ ← check_max n; _ ← need n; bs ← next_bytes n; mret (bytes_string bs).
Definition r_id {tag} : R (Id tag) := v ← r_u64; mret (mkId v).
Definition r_gen {tag} : R (Gen tag) := v ← r_u64; mret (mkGen v).
(** [u8() != 0] *)
Definition r_bool : R bool := v ← r_u8; mret (negb (v =? 0)).
(** [static_cast<T>(u8())] *)
Definition r_enum {T} `{EnumU8 T} : R T := v ← r_u8; mret (of_u8 v).
Definition at_end (r : Reader) : bool := rd_pos r =? rd_len r.
Definition remaining (r : Reader) : Z := sub64 (rd_len r) (rd_pos r).
Definition expect_end : R unit := fun r =>
  if negb (at_end r) then (Throw (throw_malformed "persistence trailing garbage"), r)
  else (Ok tt, r).

(** [for (std::uint64_t i = 0; i < n; ++i) v.push_back(rd())].  The count is read
    from the input and not bounded by the code; every element takes at least one
    byte, so one more step than there are bytes left is fuel enough
    ([vector_loop_ends] in Reading). *)
Fixpoint read_loop {A} (fuel : nat) (n : Z) (rd : R A) : R (list A) :=
  if n <=? 0 then mret [] else
  match fuel with
  | O => throw (throw_malformed "persistence truncation")
  | S fuel' => x ← rd; xs ← read_loop fuel' (n - 1) rd; mret (x :: xs)
  end.
Definition read_vec {A} (n : Z) (rd : R A) : R (list A) := fun r =>
  read_loop (S (Z.to_nat (rd_len r - rd_pos r))) n rd r.
(** [auto n = r.u64(); for (i < n) ...] *)
Definition r_vec {A} (rd : R A) : R (list A) := n ← r_u64; read_vec n rd.

(** [PersistenceReader r(payload...); auto x = rd(r); r.expect_end();]. *)
Definition parse_all {A} (rd : R A) (payload : list Z) : res A :=
  let len := Z.of_nat (length payload) in
  eval (a ← rd; expect_end;; mret a) (make_reader payload len len).

(** ** fnv1a64 (deterministic.hpp) *)
Definition fnv1a64 (data : list Z) (seed : Z) : Z :=
  foldl (fun h b => mul64 (Z.lxor h b) 0x100000001b3) (Z.lxor seed 0x9e3779b97f4a7c15) data.

(** ** Little-endian integers: inversion *)
Lemma put_le_from_length i n v : length (put_le_from i n v) = n.
Proof. revert i. induction n as [|n IH]; intros i; simpl; [done|]. by rewrite IH. Qed.
Lemma put_le_length n v : length (put_le n v) = n.
Proof. apply put_le_from_length. Qed.

Lemma put_le_bytes n v : Forall u8 (put_le n v).
Proof.
  unfold put_le. generalize 0. induction n as [|n IH]; intros i; simpl; constructor; [|done].
  change 255 with (Z.ones 8). rewrite Z.land_ones by lia. unfold u8. apply Z.mod_pos_bound. lia.
Qed.

Lemma byte_testbit v i k : 0 <= i -> 0 <= k ->
  Z.testbit (Z.shiftl (Z.land (Z.shiftr v (8 * i)) 255) (8 * i)) k =
  (8 * i <=? k) && (k <? 8 * (i + 1)) && Z.testbit v k.
Proof.
  intros Hi Hk. change 255 with (Z.ones 8).
  destruct (Z.leb_spec (8 * i) k); simpl; [|by rewrite Z.shiftl_spec_low].
  rewrite Z.shiftl_spec_high, Z.land_spec, Z.shiftr_spec, Z.testbit_ones by lia.
  replace (k - 8 * i + 8 * i) with k by lia.
  rewrite (proj2 (Z.leb_le 0 (k - 8 * i))) by lia.
  destruct (Z.ltb_spec k (8 * (i + 1))), (Z.ltb_spec (k - 8 * i) 8); try lia; simpl;
    by rewrite ?andb_true_r, ?andb_false_r.
Qed.

Lemma get_put_le_from i n v w rest k : 0 <= i -> 0 <= k ->
  Z.testbit (get_le_from i n v (put_le_from i n w ++ rest)) k =
  Z.testbit v k || (8 * i <=? k) && (k <? 8 * (i + Z.of_nat n)) && Z.testbit w k.
Proof.
  revert i v. induction n as [|n IH]; intros i v Hi Hk.
  - cbn [get_le_from put_le_from app].
    destruct (Z.leb_spec (8 * i) k), (Z.ltb_spec k (8 * (i + Z.of_nat 0))); try lia;
      by rewrite ?andb_false_r, orb_false_r.
  - cbn [get_le_from put_le_from app]. rewrite IH, Z.lor_spec, byte_testbit by lia.
    rewrite <- orb_assoc. f_equal.
    destruct (Z.leb_spec (8 * i) k), (Z.ltb_spec k (8 * (i + 1))), (Z.leb_spec (8 * (i + 1)) k),
      (Z.ltb_spec k (8 * (i + 1 + Z.of_nat n))), (Z.ltb_spec k (8 * (i + Z.of_nat (S n))));
      try lia; simpl; by rewrite ?orb_false_r.
Qed.

Lemma get_put_le n w rest : 0 <= w < 2 ^ (8 * Z.of_nat n) -> get_le n (put_le n w ++ rest) = w.
Proof.
  intros Hw. apply Z.bits_inj'. intros k Hk. unfold get_le, put_le.
  rewrite get_put_le_from, Z.bits_0 by lia. cbn [orb].
  rewrite (proj2 (Z.leb_le (8 * 0) k)) by lia. rewrite Z.add_0_l. cbn [andb].
  destruct (Z.ltb_spec k (8 * Z.of_nat n)); [done|]. cbn [andb].
  rewrite <- (Z.mod_small w (2 ^ (8 * Z.of_nat n))) by lia.
  by rewrite Z.mod_pow2_bits_high by lia.
Qed.

(** The little-endian value, as arithmetic. *)
Fixpoint le_value (p : list Z) : Z :=
  match p with [] => 0 | b :: p' => b + 256 * le_value p' end.
Lemma lor_shift_add v b i : 0 <= i -> 0 <= v < 2 ^ i -> 0 <= b -> Z.lor v (Z.shiftl b i) = v + b * 2 ^ i.
Proof.
  intros Hi Hv Hb. rewrite <- Z.shiftl_mul_pow2 by done.
  rewrite Z.add_nocarry_lxor, Z.lxor_lor; [done|..];
    (apply Z.bits_inj'; intros k Hk; rewrite Z.land_spec, Z.bits_0;
     destruct (Z.lt_ge_cases k i);
       [by rewrite Z.shiftl_spec_low, andb_false_r
       |rewrite <- (Z.mod_small v (2 ^ i)) by done; by rewrite Z.mod_pow2_bits_high by lia]).
Qed.
Lemma get_le_from_value i p v q : 0 <= i -> 0 <= v < 2 ^ (8 * i) -> Forall u8 p ->
  get_le_from i (length p) v (p ++ q) = v + 2 ^ (8 * i) * le_value p.
Proof.
  intros Hi Hv Hp. revert i v Hi Hv. induction Hp as [|b p [Hb1 Hb2] Hp IH]; intros i v Hi Hv;
    cbn [get_le_from length app le_value]; [lia|].
  assert (2 ^ (8 * (i + 1)) = 256 * 2 ^ (8 * i)) as E.
  { replace (8 * (i + 1)) with (8 + 8 * i) by lia. by rewrite Z.pow_add_r by lia. }
  rewrite lor_shift_add by lia. rewrite IH; [rewrite E; lia|lia|]. rewrite E. nia.
Qed.
Lemma le_value_inj p p' : length p = length p' -> Forall u8 p -> Forall u8 p' ->
  le_value p = le_value p' -> p = p'.
Proof.
  intros Hl Hp. revert p' Hl. induction Hp as [|b p Hb Hp IH]; intros [|b' p'] Hl Hp' E; try done.
  inversion Hp' as [|? ? Hb' Hp'']; subst. cbn [le_value] in E. unfold u8 in *.
  assert (b = b') as -> by lia. f_equal. apply IH; [by injection Hl|done|lia].
Qed.
Lemma get_le_inj p p' q q' : length p = length p' -> Forall u8 p -> Forall u8 p' ->
  get_le (length p) (p ++ q) = get_le (length p) (p' ++ q') -> p = p'.
Proof.
  intros Hl Hp Hp' E. unfold get_le in E. rewrite Hl in E at 2.
  rewrite !get_le_from_value in E by (done || lia). apply le_value_inj; [done..|]. lia.
Qed.

Lemma get_le_from_nonneg i n v p : 0 <= i -> 0 <= v -> Forall u8 p -> 0 <= get_le_from i n v p.
Proof.
  intros Hi Hv Hp. revert i v n Hi Hv.
  induction Hp as [|b p Hb Hp IH]; intros i v [|n] Hi Hv; simpl; try done.
  apply IH; [lia|]. apply Z.lor_nonneg. split; [done|]. apply Z.shiftl_nonneg. by destruct Hb.
Qed.

(** ** What a reader operation consumes *)

(** A reader as the program makes them: the maximum is the buffer's length,
    which is a vector's size, and the position is inside. *)
Definition rd_ok (r : Reader) : Prop :=
  0 <= rd_pos r <= rd_len r /\ rd_max r = rd_len r /\ rd_len r < 2 ^ 63.
Definition rd_rest (r : Reader) : list Z := drop (Z.to_nat (rd_pos r)) (rd_buf r).
Definition rd_skip (n : nat) (r : Reader) : Reader := r <| rd_pos := rd_pos r + Z.of_nat n |>.

(** [m] consumes exactly [bs] and returns [a], whatever follows. *)
Definition reads {A} (m : R A) (bs : list Z) (a : A) : Prop :=
  forall r rest, rd_ok r -> rd_rest r = bs ++ rest -> m r = (Ok a, rd_skip (length bs) r).

Lemma rd_rest_length r : rd_ok r -> Z.of_nat (length (rd_rest r)) = rd_len r - rd_pos r.
Proof. intros (? & _ & _). unfold rd_rest, rd_len in *. rewrite length_drop. lia. Qed.
Lemma rd_rest_bound r bs rest : rd_ok r -> rd_rest r = bs ++ rest ->
  rd_pos r + Z.of_nat (length bs) <= rd_len r.
Proof.
  intros Hok E. pose proof (rd_rest_length r Hok) as Hl. rewrite E, length_app in Hl. lia.
Qed.
Lemma rd_skip_ok r bs rest : rd_ok r -> rd_rest r = bs ++ rest -> rd_ok (rd_skip (length bs) r).
Proof.
  intros Hok E. pose proof (rd_rest_bound r bs rest Hok E). destruct Hok as (? & ? & ?).
  unfold rd_ok, rd_skip, rd_len in *. simpl. lia.
Qed.
Lemma rd_skip_rest r bs rest :
  rd_ok r -> rd_rest r = bs ++ rest -> rd_rest (rd_skip (length bs) r) = rest.
Proof.
  intros (? & _) E. unfold rd_rest, rd_skip in *. simpl.
  rewrite Z2Nat.inj_add, Nat2Z.id by lia. rewrite <- drop_drop, E. apply drop_app_length.
Qed.

Lemma reads_ret {A} (a : A) : reads (mret a) [] a.
Proof.
  intros r rest _ _. unfold mret, M_ret, rd_skip. simpl. f_equal. destruct r. simpl.
  by rewrite Z.add_0_r.
Qed.
Lemma reads_bind {A B} (m : R A) (f : A -> R B) bs1 bs2 a b :
  reads m bs1 a -> reads (f a) bs2 b -> reads (m ≫= f) (bs1 ++ bs2) b.
Proof.
  intros Hm Hf r rest Hok E. rewrite <- app_assoc in E.
  unfold mbind, M_bind. rewrite (Hm r _ Hok E).
  rewrite (Hf _ rest); [|by eapply rd_skip_ok|by eapply rd_skip_rest].
  f_equal. unfold rd_skip. destruct r; simpl. by rewrite length_app, Nat2Z.inj_add, Z.add_assoc.
Qed.
(** The last read of a sequence. *)
Lemma reads_bind_last {A B} (m : R A) (f : A -> R B) bs a b :
  reads m bs a -> reads (f a) [] b -> reads (m ≫= f) bs b.
Proof. intros Hm Hf. rewrite <- (app_nil_r bs). by eapply reads_bind. Qed.

Lemma need_ok n r : rd_ok r -> 0 <= n -> rd_pos r + n <= rd_len r -> need n r = (Ok tt, r).
Proof.
  intros (? & Hm & ?) ? ?. unfold need. rewrite Hm.
  destruct (Z.gtb_spec n (rd_len r)); [lia|]. unfold add64.
  rewrite wrap64_small by (unfold u64; lia).
  by destruct (Z.gtb_spec (rd_pos r + n) (rd_len r)); [lia|].
Qed.
Lemma next_bytes_reads bs : reads (next_bytes (Z.of_nat (length bs))) bs bs.
Proof.
  intros r rest Hok E. pose proof (rd_rest_bound r bs rest Hok E). destruct Hok as (? & ? & ?).
  unfold next_bytes. fold (rd_rest r). rewrite E, Nat2Z.id, take_app_length.
  f_equal. unfold rd_skip, add64. rewrite wrap64_small; [done|]. unfold u64. lia.
Qed.
Lemma need_next_reads bs :
  reads (_ ← need (Z.of_nat (length bs)); next_bytes (Z.of_nat (length bs))) bs bs.
Proof.
  intros r rest Hok E. pose proof (rd_rest_bound r bs rest Hok E).
  unfold mbind, M_bind. rewrite need_ok by (done || lia). by eapply next_bytes_reads.
Qed.

Lemma r_le_reads n v : 0 <= v < 2 ^ (8 * Z.of_nat n) -> reads (r_le n) (put_le n v) v.
Proof.
  intros Hv r rest Hok E. unfold r_le.
  pose proof (need_next_reads (put_le n v) r rest Hok E) as Hr. rewrite put_le_length in Hr.
  pose proof (rd_rest_bound r _ rest Hok E) as Hb. rewrite put_le_length in Hb.
  unfold mbind, M_bind in *. rewrite need_ok in * by (done || lia). rewrite Hr.
  rewrite <- (app_nil_r (put_le n v)) at 1. by rewrite get_put_le, put_le_length.
Qed.

Lemma r_u8_reads v : u8 v -> reads r_u8 (w_u8 v) v.
Proof.
  intros Hv. assert (w_u8 v = put_le 1 v) as ->.
  { unfold w_u8, put_le. simpl. rewrite Z.shiftr_0_r. change 255 with (Z.ones 8).
    rewrite Z.land_ones, Z.mod_small; [done|exact Hv|lia]. }
  by apply r_le_reads.
Qed.
Lemma r_u16_reads v : 0 <= v < 2 ^ 16 -> reads r_u16 (w_u16 v) v.
Proof. intros. by apply r_le_reads. Qed.
Lemma r_u32_reads v : u32 v -> reads r_u32 (w_u32 v) v.
Proof. intros. by apply r_le_reads. Qed.
Lemma r_u64_reads v : u64 v -> reads r_u64 (w_u64 v) v.
Proof. intros. by apply r_le_reads. Qed.

Lemma to_i32_wrap v : i32 v -> to_i32 (wrap32 v) = v.
Proof.
  unfold i32, to_i32, wrap32. intros Hv. destruct (Z.lt_ge_cases v 0).
  - replace (v mod 2 ^ 32) with (v + 2 ^ 32).
    + destruct (Z.ltb_spec (v + 2 ^ 32) (2 ^ 31)); lia.
    + apply Z.mod_unique_pos with (-1); lia.
  - rewrite Z.mod_small by lia. destruct (Z.ltb_spec v (2 ^ 31)); lia.
Qed.

(** ** The round-trip class *)

(** Every value [a] with [ok a] is written by [ser] as a non-empty list of bytes
    that [de] reads back as [a]. *)
Class RoundTrip {A} (ok : A -> Prop) (ser : A -> list Z) (de : R A) : Prop := {
  round_trip a : ok a -> reads de (ser a) a;
  ser_nonempty a : ser a <> [];
  ser_bytes a : ok a -> Forall u8 (ser a);
}.

Lemma reads_map {A B} (f : A -> B) m bs a : reads m bs a -> reads (v ← m; mret (f v)) bs (f a).
Proof. intros Hm. eapply reads_bind_last; [done|apply reads_ret]. Qed.

(** One goal for each part of a concatenation. *)
Ltac split_bytes := repeat lazymatch goal with |- Forall _ (_ ++ _) => apply Forall_app_2 end.

(** A check that passes consumes nothing. *)
Lemma reads_guard {A} b e (m : unit -> R A) bs a : b = false -> reads (m tt) bs a ->
  reads (lift (throw_if b e) ≫= m) bs a.
Proof. intros -> Hm r rest Hok E. by apply (Hm r rest). Qed.

(** A whole message is read back, and rejected when something follows it. *)
Lemma make_reader_rest payload : let len := Z.of_nat (length payload) in len < 2 ^ 63 ->
  rd_ok (make_reader payload len len) /\ rd_rest (make_reader payload len len) = payload.
Proof.
  cbv zeta. intros Hl. unfold make_reader, rd_ok, rd_rest, rd_len. cbn [rd_pos rd_buf rd_max].
  rewrite Nat2Z.id, firstn_all. change (Z.to_nat 0) with 0%nat. rewrite drop_0.
  split; [split_and!; lia|done].
Qed.
Lemma parse_all_reads {A} (rd : R A) bs extra a : reads rd bs a ->
  Z.of_nat (length (bs ++ extra)) < 2 ^ 63 ->
  parse_all rd (bs ++ extra) =
    match extra with [] => Ok a | _ => Throw (throw_malformed "persistence trailing garbage") end.
Proof.
  intros Hr Hl. unfold parse_all. destruct (make_reader_rest (bs ++ extra) Hl) as [Hok E].
  unfold eval. rewrite (bind_ok _ _ _ _ _ (Hr _ extra Hok E)).
  unfold make_reader, expect_end, rd_skip, at_end, rd_len, mbind, M_bind. cbn [rd_pos rd_buf set].
  rewrite Nat2Z.id, firstn_all, length_app. destruct extra as [|b extra].
  - cbn [length]. rewrite Nat.add_0_r, Z.add_0_l, Z.eqb_refl. reflexivity.
  - rewrite (proj2 (Z.eqb_neq _ _)) by (cbn [length]; lia). reflexivity.
Qed.
Lemma parse_all_round_trip {A} (ok : A -> Prop) ser de `{!RoundTrip ok ser de} v extra : ok v ->
  Z.of_nat (length (ser v ++ extra)) < 2 ^ 63 ->
  parse_all de (ser v) = Ok v /\
  (extra <> [] -> exists e, parse_all de (ser v ++ extra) = Throw e /\ code e = ErrorCode.MALFORMED_REQUEST).
Proof.
  intros Hv Hl. pose proof (round_trip (ok := ok) v Hv) as Hr. split.
  - rewrite <- (app_nil_r (ser v)). rewrite (parse_all_reads de (ser v) [] v Hr); [done|].
    rewrite app_nil_r. rewrite length_app in Hl. lia.
  - intros He. rewrite (parse_all_reads de (ser v) extra v Hr Hl). destruct extra; [done|].
    eexists. split; reflexivity.
Qed.

#[export] Instance rt_u8 : RoundTrip u8 w_u8 r_u8.
Proof. split; [apply r_u8_reads|done|]. intros v Hv. by apply Forall_singleton. Qed.
#[export] Instance rt_u32 : RoundTrip u32 w_u32 r_u32.
Proof. split; [apply r_u32_reads|done|]. intros v _. apply put_le_bytes. Qed.
#[export] Instance rt_u64 : RoundTrip u64 w_u64 r_u64.
Proof. split; [apply r_u64_reads|done|]. intros v _. apply put_le_bytes. Qed.
#[export] Instance rt_i32 : RoundTrip i32 w_i32 r_i32.
Proof.
  split; [|done|intros v _; apply put_le_bytes]. intros v Hv. unfold r_i32, w_i32.
  rewrite <- (to_i32_wrap v Hv) at 2. apply reads_map, r_u32_reads. apply Z.mod_pos_bound. lia.
Qed.
#[export] Instance rt_f64 : RoundTrip double_ok w_f64 r_f64.
Proof.
  split; [|done|intros v _; apply put_le_bytes]. intros [v] Hv. apply (reads_map mkDouble). by apply r_u64_reads.
Qed.
Definition id_ok {tag} (v : Id tag) : Prop := u64 (id_value v).
Definition gen_ok {tag} (v : Gen tag) : Prop := u64 (gen_value v).
#[export] Instance rt_id {tag} : RoundTrip id_ok (@w_id tag) r_id.
Proof. split; [|done|intros v _; apply put_le_bytes]. intros [v] Hv. apply (reads_map mkId). by apply r_u64_reads. Qed.
#[export] Instance rt_gen {tag} : RoundTrip gen_ok (@w_gen tag) r_gen.
Proof. split; [|done|intros v _; apply put_le_bytes]. intros [v] Hv. apply (reads_map mkGen). by apply r_u64_reads. Qed.
#[export] Instance rt_bool : RoundTrip (fun _ => True) w_bool r_bool.
Proof.
  split; [|done|intros [] _; by apply Forall_singleton]. intros b _. unfold r_bool, w_bool.
  replace b with (negb ((if b then 1 else 0) =? 0)) at 2 by by destruct b.
  apply (reads_map (fun v => negb (v =? 0))), r_u8_reads. unfold u8. destruct b; lia.
Qed.
#[export] Instance rt_enum {T} `{EnumU8 T} : RoundTrip enum_ok w_enum r_enum.
Proof.
  split; [|done|intros v [_ Hb]; by apply Forall_singleton]. intros v [Hv Hb]. unfold r_enum, w_enum. rewrite <- Hv at 2.
  by apply (reads_map of_u8), r_u8_reads.
Qed.

Lemma bytes_string_bytes s : bytes_string (string_bytes s) = s.
Proof.
  unfold bytes_string, string_bytes. induction s as [|c s IH]; [done|]. simpl. f_equal; [|done].
  by rewrite Nat2Z.id, Ascii.ascii_nat_embedding.
Qed.
Lemma string_bytes_u8 s : Forall u8 (string_bytes s).
Proof.
  unfold string_bytes. apply Forall_fmap, Forall_forall. intros c _. simpl. unfold u8.
  pose proof (Ascii.nat_ascii_bounded c). lia.
Qed.
Definition string_ok (s : string) : Prop := Z.of_nat (length (string_bytes s)) < 2 ^ 63.
#[export] Instance rt_str : RoundTrip string_ok w_str r_str.
Proof.
  split; [|done|intros s _; apply Forall_app_2; [apply put_le_bytes|apply string_bytes_u8]]. intros s Hs. unfold r_str, w_str.
  eapply reads_bind; [apply r_u64_reads; unfold u64, string_ok in *; lia|].
  intros r rest Hok E. pose proof (rd_rest_bound r _ rest Hok E) as Hb.
  pose proof Hok as (? & Hm & ?). unfold mbind, M_bind, check_max. rewrite Hm.
  destruct (Z.gtb_spec (Z.of_nat (length (string_bytes s))) (rd_len r)); [lia|].
  rewrite need_ok by (done || lia). rewrite (next_bytes_reads _ r rest Hok E).
  by rewrite bytes_string_bytes.
Qed.

(** ** Vectors *)
Section vectors.
Context {A : Type} (ok : A -> Prop) (ser : A -> list Z) (de : R A) `{!RoundTrip ok ser de}.

Lemma concat_length_ge (xs : list A) : (length xs <= length (concat (ser <$> xs)))%nat.
Proof.
  induction xs as [|x xs IH]; [simpl; lia|]. rewrite fmap_cons. cbn [concat].
  rewrite length_app. pose proof (ser_nonempty (ser := ser) x) as Hx.
  destruct (ser x); [done|]. cbn [length]. lia.
Qed.

Lemma concat_bytes (xs : list A) : Forall ok xs -> Forall u8 (concat (ser <$> xs)).
Proof.
  intros Hxs. apply Forall_concat, Forall_fmap. eapply Forall_impl; [exact Hxs|].
  intros x Hx. by apply ser_bytes.
Qed.
Lemma read_loop_reads fuel (xs : list A) :
  Forall ok xs -> (length xs < fuel)%nat ->
  reads (read_loop fuel (Z.of_nat (length xs)) de) (concat (ser <$> xs)) xs.
Proof.
  intros Hxs. revert fuel. induction Hxs as [|x xs Hx Hxs IH]; intros fuel Hf.
  { destruct fuel; [lia|]. apply reads_ret. }
  destruct fuel as [|fuel]; [simpl in Hf; lia|]. cbn [read_loop].
  destruct (Z.leb_spec (Z.of_nat (length (x :: xs))) 0); [simpl in *; lia|].
  rewrite fmap_cons. cbn [concat]. eapply reads_bind; [by apply round_trip|].
  replace (Z.of_nat (length (x :: xs)) - 1) with (Z.of_nat (length xs)) by (simpl; lia).
  eapply reads_bind_last; [apply IH; simpl in *; lia|apply reads_ret].
Qed.

Definition vec_ok (xs : list A) : Prop := Forall ok xs /\ Z.of_nat (length xs) < 2 ^ 64.

Lemma read_vec_reads xs : Forall ok xs ->
  reads (read_vec (Z.of_nat (length xs)) de) (concat (ser <$> xs)) xs.
Proof.
  intros Hxs r rest Hok E. unfold read_vec. eapply read_loop_reads; try done.
  pose proof (rd_rest_bound r _ rest Hok E). pose proof (concat_length_ge xs). lia.
Qed.
Lemma r_vec_reads xs : vec_ok xs -> reads (r_vec de) (w_vec ser xs) xs.
Proof.
  intros [Hxs Hl]. eapply reads_bind; [apply r_u64_reads; unfold u64; lia|].
  by apply read_vec_reads.
Qed.
#[global] Instance rt_vec : RoundTrip vec_ok (w_vec ser) (r_vec de).
Proof.
  split; [apply r_vec_reads|done|]. intros xs [Hxs _]. apply Forall_app_2; [apply put_le_bytes|].
  by apply concat_bytes.
Qed.
End vectors.

(** ** The checksum detects every single-byte change *)

Lemma fnv1a64_u64 data seed : u64 seed -> u64 (fnv1a64 data seed).
Proof.
  intros Hs. unfold fnv1a64. induction data as [|b data IH] using rev_ind.
  - by apply lxor_u64.
  - rewrite foldl_app. apply wrap64_u64.
Qed.

(** The multiplier is odd, so it has an inverse modulo 2^64. *)
Lemma mul64_prime_inj a b : u64 a -> u64 b ->
  mul64 a 0x100000001b3 = mul64 b 0x100000001b3 -> a = b.
Proof.
  intros Ha Hb E. apply (f_equal (fun z => wrap64 (z * 14886173955864302971))) in E.
  unfold mul64, wrap64 in E. rewrite !Z.mul_mod_idemp_l in E by done.
  rewrite <- !Z.mul_assoc in E. rewrite <- !(Z.mul_mod_idemp_r _ (_ * _)) in E by done.
  change ((1099511628211 * 14886173955864302971) mod 2 ^ 64) with 1 in E.
  rewrite !Z.mul_1_r in E. by rewrite !Z.mod_small in E.
Qed.
Lemma lxor_inj_r a b c : Z.lxor a c = Z.lxor b c -> a = b.
Proof.
  intros E. apply (f_equal (fun z => Z.lxor z c)) in E.
  by rewrite !Z.lxor_assoc, Z.lxor_nilpotent, !Z.lxor_0_r in E.
Qed.
Lemma u8_u64 b : u8 b -> u64 b.
Proof. unfold u8, u64. lia. Qed.

Definition fnv_step (h b : Z) : Z := mul64 (Z.lxor h b) 0x100000001b3.
Lemma fnv_step_inj h h' b b' : u64 h -> u64 h' -> u8 b -> u8 b' ->
  fnv_step h b = fnv_step h' b' -> Z.lxor h b = Z.lxor h' b'.
Proof. intros. apply mul64_prime_inj; auto using lxor_u64, u8_u64. Qed.

Lemma fnv_tail_inj l h h' : Forall u8 l -> u64 h -> u64 h' ->
  foldl fnv_step h l = foldl fnv_step h' l -> h = h'.
Proof.
  intros Hl. revert h h'. induction Hl as [|b l Hb Hl IH]; intros h h' Hh Hh' E; [done|].
  apply IH in E; [|apply wrap64_u64..]. apply fnv_step_inj in E; [|done..].
  by apply lxor_inj_r in E.
Qed.

Lemma fnv1a64_byte l1 x y l2 seed :
  u64 seed -> Forall u8 l2 -> u8 x -> u8 y -> x <> y ->
  fnv1a64 (l1 ++ x :: l2) seed <> fnv1a64 (l1 ++ y :: l2) seed.
Proof.
  intros Hs Hl2 Hx Hy Hne E. unfold fnv1a64 in E. fold fnv_step in E.
  rewrite !foldl_app in E. cbn [foldl] in E.
  apply fnv_tail_inj in E; [|done|apply wrap64_u64..].
  pose proof (fnv1a64_u64 l1 seed Hs) as Hh. unfold fnv1a64 in Hh.
  apply fnv_step_inj in E; [|done..].
  rewrite !(Z.lxor_comm (foldl _ _ _)) in E. by apply lxor_inj_r in E.
Qed.

(** A change of one byte of checksummed data, in the data or in the checksum
    stored after it, makes the two disagree. *)
Lemma checksum_detects data seed l1 x y l2 rest : u64 seed -> Forall u8 data ->
  data ++ put_le 8 (fnv1a64 data seed) = l1 ++ x :: l2 -> u8 y -> y <> x ->
  let p := l1 ++ y :: l2 ++ rest in
  get_le 8 (drop (length data) p) <> fnv1a64 (take (length data) p) seed.
Proof.
  intros Hs Hd E Hy Hne. cbv zeta. pose proof (fnv1a64_u64 data seed Hs) as Hh.
  assert (forall k, put_le 8 (fnv1a64 data seed) = k ++ x :: l2 -> l1 = data ++ k ->
    get_le 8 (drop (length data) (l1 ++ y :: l2 ++ rest)) <>
    fnv1a64 (take (length data) (l1 ++ y :: l2 ++ rest)) seed) as Hck.
  { intros k Ek ->. rewrite <- app_assoc, drop_app_length, take_app_length. intros Eq.
    pose proof (put_le_bytes 8 (fnv1a64 data seed)) as Hb.
    pose proof (put_le_length 8 (fnv1a64 data seed)) as Hl. rewrite Ek in Hb, Hl.
    assert (length (k ++ y :: l2) = 8%nat) as Hl' by (rewrite length_app in *; done).
    assert (k ++ y :: l2 = k ++ x :: l2) as Hc.
    { apply (get_le_inj _ _ rest rest); [by rewrite Hl, Hl'| |done|].
      - apply Forall_app in Hb as [H1 H2]. inversion H2. apply Forall_app_2; [done|by constructor].
      - rewrite Hl'. rewrite <- Ek, get_put_le by done. by rewrite <- Eq, <- app_assoc. }
    apply app_inv_head in Hc. congruence. }
  apply app_eq_inv in E as [([|z k] & E1 & E2)|(k & E1 & E2)].
  - rewrite app_nil_r in E1. apply (Hck []); [done|by rewrite app_nil_r].
  - injection E2 as <- ->. assert (length (l1 ++ y :: k) = length data) as Hl
      by (rewrite E1, !length_app; done).
    replace (l1 ++ y :: (k ++ put_le 8 (fnv1a64 data seed)) ++ rest)
      with ((l1 ++ y :: k) ++ put_le 8 (fnv1a64 data seed) ++ rest) by by rewrite <- !app_assoc.
    rewrite <- Hl, drop_app_length, take_app_length, get_put_le by done. rewrite E1.
    rewrite E1 in Hd. apply Forall_app in Hd as [_ Hd]. inversion Hd; subst.
    apply fnv1a64_byte; [done..|congruence].
  - by apply (Hck k).
Qed.
