(* ===== verification/Serialize.v ===== *)
(** * Serialize: the record serializers of serialize.hpp / serialize.cpp

    [serialize_x v] is the bytes the C++ function appends to the writer,
    [deserialize_x] the reader operation, field by field in the source's order.
    [x_ok v] says that the fields of [v] are values their C++ types can hold; each
    pair then forms a [RoundTrip].  None of the deserializers checks an
    enumerator: an unnamed byte comes back as [other]. *)
From S2P Require Import Prelude Enums Identity Error Float64 Domain Codec.

(** [u8(o ? 1 : 0); if (o) w(o.value)] and [if (r.u8()) o = r(...)]. *)
Definition w_opt {A} (w : A -> list Z) (o : option A) : list Z :=
  w_bool (bool_decide (is_Some o)) ++ match o with Some a => w a | None => [] end.
Definition r_opt {A} (rd : R A) : R (option A) :=
  b ← r_bool; if (b : bool) then a ← rd; mret (Some a) else mret None.
Definition opt_ok {A} (ok : A -> Prop) (o : option A) : Prop :=
  match o with Some a => ok a | None => True end.
#[export] Instance rt_opt {A} (ok : A -> Prop) ser de `{!RoundTrip ok ser de} :
  RoundTrip (opt_ok ok) (w_opt ser) (r_opt de).
Proof.
  split; [|done|]; intros [a|] Ha; unfold w_opt, r_opt.
  - eapply reads_bind; [by apply round_trip|]. apply reads_map. by apply round_trip.
  - eapply reads_bind; [by apply round_trip|]. apply reads_ret.
  - apply Forall_app_2; by apply ser_bytes.
  - by apply Forall_app_2, Forall_nil_2; apply (ser_bytes (ok := fun _ : bool => True)).
Qed.

(** Peels one field of a deserializer against the serialized bytes. *)
Ltac read_field :=
  first [ eapply reads_bind; [eapply round_trip; first [eassumption | exact I] |]
        | eapply reads_bind_last; [eapply round_trip; first [eassumption | exact I] |] ].
(** Every field is written as bytes. *)
Ltac bytes_fields :=
  match goal with |- Forall _ (?ser _) => unfold ser end;
  split_bytes; eapply ser_bytes; first [eassumption | exact I].
Ltac solve_round_trip :=
  let v := fresh "v" in split; [|intros [] ?; discriminate|];
  intros v Hok; destruct v; destruct Hok; simpl in *;
  [repeat read_field; apply reads_ret|bytes_fields].

(** The dependency loop of [serialize_request] and [deserialize_request]. *)
Definition serialize_dependency_requirement (v : DependencyRequirement) : list Z :=
  w_id (dr_id v) ++
  w_gen (dr_gen v) ++
  w_enum (dr_kind v) ++
  w_enum (dr_provenance v).
Definition deserialize_dependency_requirement : R DependencyRequirement :=
  x_dr_id ← r_id;
  x_dr_gen ← r_gen;
  x_dr_kind ← r_enum;
  x_dr_provenance ← r_enum;
  mret {| dr_id := x_dr_id; dr_gen := x_dr_gen; dr_kind := x_dr_kind; dr_provenance := x_dr_provenance |}.
Record DependencyRequirement_ok (v : DependencyRequirement) : Prop := {
  ok_dr_id : id_ok (dr_id v);
  ok_dr_gen : gen_ok (dr_gen v);
  ok_dr_kind : enum_ok (dr_kind v);
  ok_dr_provenance : enum_ok (dr_provenance v);
}.

#[export] Instance rt_DependencyRequirement : RoundTrip DependencyRequirement_ok serialize_dependency_requirement deserialize_dependency_requirement.
Proof. solve_round_trip. Qed.

(** The resource-claim loop of [serialize_request] and [deserialize_request]. *)
Definition serialize_resource_claim (v : ResourceClaim) : list Z :=
  w_id (rc_resource v) ++
  w_gen (rc_gen v) ++
  w_f64 (rc_units v) ++
  w_bool (rc_exclusive v) ++
  w_enum (rc_provenance v).
Definition deserialize_resource_claim : R ResourceClaim :=
  x_rc_resource ← r_id;
  x_rc_gen ← r_gen;
  x_rc_units ← r_f64;
  x_rc_exclusive ← r_bool;
  x_rc_provenance ← r_enum;
  mret {| rc_resource := x_rc_resource; rc_gen := x_rc_gen; rc_units := x_rc_units; rc_exclusive := x_rc_exclusive; rc_provenance := x_rc_provenance |}.
Record ResourceClaim_ok (v : ResourceClaim) : Prop := {
  ok_rc_resource : id_ok (rc_resource v);
  ok_rc_gen : gen_ok (rc_gen v);
  ok_rc_units : double_ok (rc_units v);
  ok_rc_provenance : enum_ok (rc_provenance v);
}.

#[export] Instance rt_ResourceClaim : RoundTrip ResourceClaim_ok serialize_resource_claim deserialize_resource_claim.
Proof. solve_round_trip. Qed.

(** The priority part of [serialize_request] and [deserialize_request]. *)
Definition serialize_priority (v : ExternalPriority) : list Z :=
  w_i32 (prio_value v) ++
  w_gen (prio_gen v) ++
  w_bool (prio_authoritative v).
Definition deserialize_priority : R ExternalPriority :=
  x_prio_value ← r_i32;
  x_prio_gen ← r_gen;
  x_prio_authoritative ← r_bool;
  mret {| prio_value := x_prio_value; prio_gen := x_prio_gen; prio_authoritative := x_prio_authoritative |}.
Record ExternalPriority_ok (v : ExternalPriority) : Prop := {
  ok_prio_value : i32 (prio_value v);
  ok_prio_gen : gen_ok (prio_gen v);
}.

#[export] Instance rt_ExternalPriority : RoundTrip ExternalPriority_ok serialize_priority deserialize_priority.
Proof. solve_round_trip. Qed.

(** The window part of [serialize_request] and [deserialize_request]. *)
Definition serialize_window (v : SchedulingWindow) : list Z :=
  w_u64 (w_earliest_start_ns v) ++
  w_u64 (w_latest_start_ns v) ++
  w_u64 (w_deadline_ns v) ++
  w_u64 (w_expected_duration_ns v) ++
  w_u64 (w_slack_ns v) ++
  w_enum (w_source v).
Definition deserialize_window : R SchedulingWindow :=
  x_w_earliest_start_ns ← r_u64;
  x_w_latest_start_ns ← r_u64;
  x_w_deadline_ns ← r_u64;
  x_w_expected_duration_ns ← r_u64;
  x_w_slack_ns ← r_u64;
  x_w_source ← r_enum;
  mret {| w_earliest_start_ns := x_w_earliest_start_ns; w_latest_start_ns := x_w_latest_start_ns; w_deadline_ns := x_w_deadline_ns; w_expected_duration_ns := x_w_expected_duration_ns; w_slack_ns := x_w_slack_ns; w_source := x_w_source |}.
Record SchedulingWindow_ok (v : SchedulingWindow) : Prop := {
  ok_w_earliest_start_ns : u64 (w_earliest_start_ns v);
  ok_w_latest_start_ns : u64 (w_latest_start_ns v);
  ok_w_deadline_ns : u64 (w_deadline_ns v);
  ok_w_expected_duration_ns : u64 (w_expected_duration_ns v);
  ok_w_slack_ns : u64 (w_slack_ns v);
  ok_w_source : enum_ok (w_source v);
}.

#[export] Instance rt_SchedulingWindow : RoundTrip SchedulingWindow_ok serialize_window deserialize_window.
Proof. solve_round_trip. Qed.

(** [serialize_request], [deserialize_request]. *)
Definition serialize_request (v : CollectiveRequest) : list Z :=
  w_id (rq_id v) ++
  w_gen (rq_gen v) ++
  w_id (rq_collective v) ++
  w_gen (rq_collective_gen v) ++
  w_enum (rq_kind v) ++
  w_u64 (rq_payload_bytes v) ++
  w_vec w_id (rq_participants v) ++
  w_vec w_gen (rq_participant_gens v) ++
  w_vec w_u64 (rq_per_participant_payload v) ++
  w_id (rq_plan_id v) ++
  w_gen (rq_plan_gen v) ++
  w_vec serialize_dependency_requirement (rq_dependencies v) ++
  w_vec serialize_resource_claim (rq_resource_claims v) ++
  w_vec w_str (rq_exclusion_classes v) ++
  serialize_priority (rq_priority v) ++
  serialize_window (rq_window v) ++
  w_enum (rq_overlap v) ++
  w_enum (rq_fairness_class v) ++
  w_opt w_gen (rq_reservation_gen v) ++
  w_id (rq_workload v) ++
  w_gen (rq_workload_gen v) ++
  w_enum (rq_queue_class v) ++
  w_u32 (rq_max_retries v) ++
  w_u32 (rq_retry_count v) ++
  w_gen (rq_policy_gen v) ++
  w_enum (rq_provenance v).
Definition deserialize_request : R CollectiveRequest :=
  x_rq_id ← r_id;
  x_rq_gen ← r_gen;
  x_rq_collective ← r_id;
  x_rq_collective_gen ← r_gen;
  x_rq_kind ← r_enum;
  x_rq_payload_bytes ← r_u64;
  x_rq_participants ← r_vec r_id;
  x_rq_participant_gens ← r_vec r_gen;
  x_rq_per_participant_payload ← r_vec r_u64;
  x_rq_plan_id ← r_id;
  x_rq_plan_gen ← r_gen;
  x_rq_dependencies ← r_vec deserialize_dependency_requirement;
  x_rq_resource_claims ← r_vec deserialize_resource_claim;
  x_rq_exclusion_classes ← r_vec r_str;
  x_rq_priority ← deserialize_priority;
  x_rq_window ← deserialize_window;
  x_rq_overlap ← r_enum;
  x_rq_fairness_class ← r_enum;
  x_rq_reservation_gen ← r_opt r_gen;
  x_rq_workload ← r_id;
  x_rq_workload_gen ← r_gen;
  x_rq_queue_class ← r_enum;
  x_rq_max_retries ← r_u32;
  x_rq_retry_count ← r_u32;
  x_rq_policy_gen ← r_gen;
  x_rq_provenance ← r_enum;
  mret {| rq_id := x_rq_id; rq_gen := x_rq_gen; rq_collective := x_rq_collective; rq_collective_gen := x_rq_collective_gen; rq_kind := x_rq_kind; rq_payload_bytes := x_rq_payload_bytes; rq_participants := x_rq_participants; rq_participant_gens := x_rq_participant_gens; rq_per_participant_payload := x_rq_per_participant_payload; rq_plan_id := x_rq_plan_id; rq_plan_gen := x_rq_plan_gen; rq_dependencies := x_rq_dependencies; rq_resource_claims := x_rq_resource_claims; rq_exclusion_classes := x_rq_exclusion_classes; rq_priority := x_rq_priority; rq_window := x_rq_window; rq_overlap := x_rq_overlap; rq_fairness_class := x_rq_fairness_class; rq_reservation_gen := x_rq_reservation_gen; rq_workload := x_rq_workload; rq_workload_gen := x_rq_workload_gen; rq_queue_class := x_rq_queue_class; rq_max_retries := x_rq_max_retries; rq_retry_count := x_rq_retry_count; rq_policy_gen := x_rq_policy_gen; rq_provenance := x_rq_provenance |}.
Record CollectiveRequest_ok (v : CollectiveRequest) : Prop := {
  ok_rq_id : id_ok (rq_id v);
  ok_rq_gen : gen_ok (rq_gen v);
  ok_rq_collective : id_ok (rq_collective v);
  ok_rq_collective_gen : gen_ok (rq_collective_gen v);
  ok_rq_kind : enum_ok (rq_kind v);
  ok_rq_payload_bytes : u64 (rq_payload_bytes v);
  ok_rq_participants : vec_ok id_ok (rq_participants v);
  ok_rq_participant_gens : vec_ok gen_ok (rq_participant_gens v);
  ok_rq_per_participant_payload : vec_ok u64 (rq_per_participant_payload v);
  ok_rq_plan_id : id_ok (rq_plan_id v);
  ok_rq_plan_gen : gen_ok (rq_plan_gen v);
  ok_rq_dependencies : vec_ok DependencyRequirement_ok (rq_dependencies v);
  ok_rq_resource_claims : vec_ok ResourceClaim_ok (rq_resource_claims v);
  ok_rq_exclusion_classes : vec_ok string_ok (rq_exclusion_classes v);
  ok_rq_priority : ExternalPriority_ok (rq_priority v);
  ok_rq_window : SchedulingWindow_ok (rq_window v);
  ok_rq_overlap : enum_ok (rq_overlap v);
  ok_rq_fairness_class : enum_ok (rq_fairness_class v);
  ok_rq_reservation_gen : opt_ok gen_ok (rq_reservation_gen v);
  ok_rq_workload : id_ok (rq_workload v);
  ok_rq_workload_gen : gen_ok (rq_workload_gen v);
  ok_rq_queue_class : enum_ok (rq_queue_class v);
  ok_rq_max_retries : u32 (rq_max_retries v);
  ok_rq_retry_count : u32 (rq_retry_count v);
  ok_rq_policy_gen : gen_ok (rq_policy_gen v);
  ok_rq_provenance : enum_ok (rq_provenance v);
}.

#[export] Instance rt_CollectiveRequest : RoundTrip CollectiveRequest_ok serialize_request deserialize_request.
Proof. solve_round_trip. Qed.

(** [serialize_fairness], [deserialize_fairness]. *)
Definition serialize_fairness (v : FairnessAccount) : list Z :=
  w_enum (fa_cls v) ++
  w_u64 (fa_observed_grants v) ++
  w_f64 (fa_observed_service v) ++
  w_f64 (fa_deficit v) ++
  w_u64 (fa_wait_ticks v) ++
  w_u64 (fa_consecutive_bypasses v) ++
  w_bool (fa_starved v) ++
  w_f64 (fa_target_share v).
Definition deserialize_fairness : R FairnessAccount :=
  x_fa_cls ← r_enum;
  x_fa_observed_grants ← r_u64;
  x_fa_observed_service ← r_f64;
  x_fa_deficit ← r_f64;
  x_fa_wait_ticks ← r_u64;
  x_fa_consecutive_bypasses ← r_u64;
  x_fa_starved ← r_bool;
  x_fa_target_share ← r_f64;
  mret {| fa_cls := x_fa_cls; fa_observed_grants := x_fa_observed_grants; fa_observed_service := x_fa_observed_service; fa_deficit := x_fa_deficit; fa_wait_ticks := x_fa_wait_ticks; fa_consecutive_bypasses := x_fa_consecutive_bypasses; fa_starved := x_fa_starved; fa_target_share := x_fa_target_share |}.
Record FairnessAccount_ok (v : FairnessAccount) : Prop := {
  ok_fa_cls : enum_ok (fa_cls v);
  ok_fa_observed_grants : u64 (fa_observed_grants v);
  ok_fa_observed_service : double_ok (fa_observed_service v);
  ok_fa_deficit : double_ok (fa_deficit v);
  ok_fa_wait_ticks : u64 (fa_wait_ticks v);
  ok_fa_consecutive_bypasses : u64 (fa_consecutive_bypasses v);
  ok_fa_target_share : double_ok (fa_target_share v);
}.

#[export] Instance rt_FairnessAccount : RoundTrip FairnessAccount_ok serialize_fairness deserialize_fairness.
Proof. solve_round_trip. Qed.

(** The evidence part of [serialize_grant] and [deserialize_grant]. *)
Definition serialize_evidence (v : EvidenceSnapshot) : list Z :=
  w_gen (ev_epoch v) ++
  w_gen (ev_collective_gen v) ++
  w_gen (ev_request_gen v) ++
  w_gen (ev_plan_gen v) ++
  w_gen (ev_participant_gen v) ++
  w_gen (ev_dependency_gen v) ++
  w_gen (ev_reservation_gen v) ++
  w_gen (ev_congestion_gen v) ++
  w_gen (ev_capacity_gen v) ++
  w_gen (ev_policy_gen v) ++
  w_gen (ev_priority_gen v) ++
  w_gen (ev_fairness_gen v) ++
  w_gen (ev_topology_gen v) ++
  w_gen (ev_capability_gen v) ++
  w_gen (ev_health_gen v).
Definition deserialize_evidence : R EvidenceSnapshot :=
  x_ev_epoch ← r_gen;
  x_ev_collective_gen ← r_gen;
  x_ev_request_gen ← r_gen;
  x_ev_plan_gen ← r_gen;
  x_ev_participant_gen ← r_gen;
  x_ev_dependency_gen ← r_gen;
  x_ev_reservation_gen ← r_gen;
  x_ev_congestion_gen ← r_gen;
  x_ev_capacity_gen ← r_gen;
  x_ev_policy_gen ← r_gen;
  x_ev_priority_gen ← r_gen;
  x_ev_fairness_gen ← r_gen;
  x_ev_topology_gen ← r_gen;
  x_ev_capability_gen ← r_gen;
  x_ev_health_gen ← r_gen;
  mret {| ev_epoch := x_ev_epoch; ev_collective_gen := x_ev_collective_gen; ev_request_gen := x_ev_request_gen; ev_plan_gen := x_ev_plan_gen; ev_participant_gen := x_ev_participant_gen; ev_dependency_gen := x_ev_dependency_gen; ev_reservation_gen := x_ev_reservation_gen; ev_congestion_gen := x_ev_congestion_gen; ev_capacity_gen := x_ev_capacity_gen; ev_policy_gen := x_ev_policy_gen; ev_priority_gen := x_ev_priority_gen; ev_fairness_gen := x_ev_fairness_gen; ev_topology_gen := x_ev_topology_gen; ev_capability_gen := x_ev_capability_gen; ev_health_gen := x_ev_health_gen |}.
Record EvidenceSnapshot_ok (v : EvidenceSnapshot) : Prop := {
  ok_ev_epoch : gen_ok (ev_epoch v);
  ok_ev_collective_gen : gen_ok (ev_collective_gen v);
  ok_ev_request_gen : gen_ok (ev_request_gen v);
  ok_ev_plan_gen : gen_ok (ev_plan_gen v);
  ok_ev_participant_gen : gen_ok (ev_participant_gen v);
  ok_ev_dependency_gen : gen_ok (ev_dependency_gen v);
  ok_ev_reservation_gen : gen_ok (ev_reservation_gen v);
  ok_ev_congestion_gen : gen_ok (ev_congestion_gen v);
  ok_ev_capacity_gen : gen_ok (ev_capacity_gen v);
  ok_ev_policy_gen : gen_ok (ev_policy_gen v);
  ok_ev_priority_gen : gen_ok (ev_priority_gen v);
  ok_ev_fairness_gen : gen_ok (ev_fairness_gen v);
  ok_ev_topology_gen : gen_ok (ev_topology_gen v);
  ok_ev_capability_gen : gen_ok (ev_capability_gen v);
  ok_ev_health_gen : gen_ok (ev_health_gen v);
}.

#[export] Instance rt_EvidenceSnapshot : RoundTrip EvidenceSnapshot_ok serialize_evidence deserialize_evidence.
Proof. solve_round_trip. Qed.

(** The revalidation part of [serialize_grant] and [deserialize_grant]. *)
Definition serialize_revalidation (v : RevalidationRequirements) : list Z :=
  w_bool (require_fresh_participants v) ++
  w_bool (require_fresh_plan v) ++
  w_bool (require_fresh_reservation v) ++
  w_bool (require_fresh_dependencies v) ++
  w_bool (require_fresh_congestion v) ++
  w_bool (require_fresh_capacity v) ++
  w_bool (require_fresh_execution_authority v) ++
  w_bool (require_current_epoch v).
Definition deserialize_revalidation : R RevalidationRequirements :=
  x_require_fresh_participants ← r_bool;
  x_require_fresh_plan ← r_bool;
  x_require_fresh_reservation ← r_bool;
  x_require_fresh_dependencies ← r_bool;
  x_require_fresh_congestion ← r_bool;
  x_require_fresh_capacity ← r_bool;
  x_require_fresh_execution_authority ← r_bool;
  x_require_current_epoch ← r_bool;
  mret {| require_fresh_participants := x_require_fresh_participants; require_fresh_plan := x_require_fresh_plan; require_fresh_reservation := x_require_fresh_reservation; require_fresh_dependencies := x_require_fresh_dependencies; require_fresh_congestion := x_require_fresh_congestion; require_fresh_capacity := x_require_fresh_capacity; require_fresh_execution_authority := x_require_fresh_execution_authority; require_current_epoch := x_require_current_epoch |}.
Definition RevalidationRequirements_ok (v : RevalidationRequirements) : Prop := True.

#[export] Instance rt_RevalidationRequirements : RoundTrip RevalidationRequirements_ok serialize_revalidation deserialize_revalidation.
Proof. solve_round_trip. Qed.

(** [serialize_grant], [deserialize_grant]. *)
Definition serialize_grant (v : CollectiveGrant) : list Z :=
  w_id (g_id v) ++
  w_gen (g_gen v) ++
  w_id (g_request v) ++
  w_gen (g_request_gen v) ++
  w_id (g_collective v) ++
  w_gen (g_collective_gen v) ++
  w_id (g_schedule v) ++
  w_gen (g_schedule_gen v) ++
  w_vec w_id (g_participants v) ++
  w_vec w_gen (g_participant_gens v) ++
  w_id (g_plan v) ++
  w_gen (g_plan_gen v) ++
  serialize_evidence (g_evidence v) ++
  serialize_revalidation (g_revalidation v) ++
  w_id (g_workload v) ++
  w_id (g_execution_attempt v) ++
  w_gen (g_execution_attempt_gen v) ++
  w_gen (g_policy_gen v) ++
  w_bool (g_active v) ++
  w_bool (g_terminal v).
Definition deserialize_grant : R CollectiveGrant :=
  x_g_id ← r_id;
  x_g_gen ← r_gen;
  x_g_request ← r_id;
  x_g_request_gen ← r_gen;
  x_g_collective ← r_id;
  x_g_collective_gen ← r_gen;
  x_g_schedule ← r_id;
  x_g_schedule_gen ← r_gen;
  x_g_participants ← r_vec r_id;
  x_g_participant_gens ← r_vec r_gen;
  x_g_plan ← r_id;
  x_g_plan_gen ← r_gen;
  x_g_evidence ← deserialize_evidence;
  x_g_revalidation ← deserialize_revalidation;
  x_g_workload ← r_id;
  x_g_execution_attempt ← r_id;
  x_g_execution_attempt_gen ← r_gen;
  x_g_policy_gen ← r_gen;
  x_g_active ← r_bool;
  x_g_terminal ← r_bool;
  mret {| g_id := x_g_id; g_gen := x_g_gen; g_request := x_g_request; g_request_gen := x_g_request_gen; g_collective := x_g_collective; g_collective_gen := x_g_collective_gen; g_schedule := x_g_schedule; g_schedule_gen := x_g_schedule_gen; g_participants := x_g_participants; g_participant_gens := x_g_participant_gens; g_plan := x_g_plan; g_plan_gen := x_g_plan_gen; g_evidence := x_g_evidence; g_revalidation := x_g_revalidation; g_workload := x_g_workload; g_execution_attempt := x_g_execution_attempt; g_execution_attempt_gen := x_g_execution_attempt_gen; g_policy_gen := x_g_policy_gen; g_active := x_g_active; g_terminal := x_g_terminal |}.
Record CollectiveGrant_ok (v : CollectiveGrant) : Prop := {
  ok_g_id : id_ok (g_id v);
  ok_g_gen : gen_ok (g_gen v);
  ok_g_request : id_ok (g_request v);
  ok_g_request_gen : gen_ok (g_request_gen v);
  ok_g_collective : id_ok (g_collective v);
  ok_g_collective_gen : gen_ok (g_collective_gen v);
  ok_g_schedule : id_ok (g_schedule v);
  ok_g_schedule_gen : gen_ok (g_schedule_gen v);
  ok_g_participants : vec_ok id_ok (g_participants v);
  ok_g_participant_gens : vec_ok gen_ok (g_participant_gens v);
  ok_g_plan : id_ok (g_plan v);
  ok_g_plan_gen : gen_ok (g_plan_gen v);
  ok_g_evidence : EvidenceSnapshot_ok (g_evidence v);
  ok_g_revalidation : RevalidationRequirements_ok (g_revalidation v);
  ok_g_workload : id_ok (g_workload v);
  ok_g_execution_attempt : id_ok (g_execution_attempt v);
  ok_g_execution_attempt_gen : gen_ok (g_execution_attempt_gen v);
  ok_g_policy_gen : gen_ok (g_policy_gen v);
}.

#[export] Instance rt_CollectiveGrant : RoundTrip CollectiveGrant_ok serialize_grant deserialize_grant.
Proof. solve_round_trip. Qed.

(** [serialize_participant], [deserialize_participant]. *)
Definition serialize_participant (v : Participant) : list Z :=
  w_id (p_id v) ++
  w_gen (p_gen v) ++
  w_id (p_worker v) ++
  w_id (p_worker_boot v) ++
  w_id (p_source v) ++
  w_id (p_source_boot v) ++
  w_id (p_device v) ++
  w_id (p_node v) ++
  w_id (p_nic v) ++
  w_gen (p_capability_gen v) ++
  w_gen (p_health_gen v) ++
  w_gen (p_topology_gen v) ++
  w_u32 (p_process_id v) ++
  w_bool (p_ready v) ++
  w_enum (p_readiness_source v) ++
  w_enum (p_provenance v).
Definition deserialize_participant : R Participant :=
  x_p_id ← r_id;
  x_p_gen ← r_gen;
  x_p_worker ← r_id;
  x_p_worker_boot ← r_id;
  x_p_source ← r_id;
  x_p_source_boot ← r_id;
  x_p_device ← r_id;
  x_p_node ← r_id;
  x_p_nic ← r_id;
  x_p_capability_gen ← r_gen;
  x_p_health_gen ← r_gen;
  x_p_topology_gen ← r_gen;
  x_p_process_id ← r_u32;
  x_p_ready ← r_bool;
  x_p_readiness_source ← r_enum;
  x_p_provenance ← r_enum;
  mret {| p_id := x_p_id; p_gen := x_p_gen; p_worker := x_p_worker; p_worker_boot := x_p_worker_boot; p_source := x_p_source; p_source_boot := x_p_source_boot; p_device := x_p_device; p_node := x_p_node; p_nic := x_p_nic; p_capability_gen := x_p_capability_gen; p_health_gen := x_p_health_gen; p_topology_gen := x_p_topology_gen; p_process_id := x_p_process_id; p_ready := x_p_ready; p_readiness_source := x_p_readiness_source; p_provenance := x_p_provenance |}.
Record Participant_ok (v : Participant) : Prop := {
  ok_p_id : id_ok (p_id v);
  ok_p_gen : gen_ok (p_gen v);
  ok_p_worker : id_ok (p_worker v);
  ok_p_worker_boot : id_ok (p_worker_boot v);
  ok_p_source : id_ok (p_source v);
  ok_p_source_boot : id_ok (p_source_boot v);
  ok_p_device : id_ok (p_device v);
  ok_p_node : id_ok (p_node v);
  ok_p_nic : id_ok (p_nic v);
  ok_p_capability_gen : gen_ok (p_capability_gen v);
  ok_p_health_gen : gen_ok (p_health_gen v);
  ok_p_topology_gen : gen_ok (p_topology_gen v);
  ok_p_process_id : u32 (p_process_id v);
  ok_p_readiness_source : enum_ok (p_readiness_source v);
  ok_p_provenance : enum_ok (p_provenance v);
}.

#[export] Instance rt_Participant : RoundTrip Participant_ok serialize_participant deserialize_participant.
Proof. solve_round_trip. Qed.

(** [serialize_plan], [deserialize_plan]. *)
Definition serialize_plan (v : CommunicationPlan) : list Z :=
  w_id (pl_id v) ++
  w_gen (pl_gen v) ++
  w_enum (pl_kind v) ++
  w_gen (pl_topology_gen v) ++
  w_vec w_id (pl_participants v) ++
  w_vec w_id (pl_flows v) ++
  w_vec w_id (pl_resources v) ++
  w_vec w_id (pl_links v) ++
  w_vec w_id (pl_paths v) ++
  w_u64 (pl_byte_count v) ++
  w_f64 (pl_estimated_bandwidth v) ++
  w_u64 (pl_estimated_duration_ns v) ++
  w_u64 (pl_communication_cost v) ++
  w_enum (pl_provenance v) ++
  w_bool (pl_valid v).
Definition deserialize_plan : R CommunicationPlan :=
  x_pl_id ← r_id;
  x_pl_gen ← r_gen;
  x_pl_kind ← r_enum;
  x_pl_topology_gen ← r_gen;
  x_pl_participants ← r_vec r_id;
  x_pl_flows ← r_vec r_id;
  x_pl_resources ← r_vec r_id;
  x_pl_links ← r_vec r_id;
  x_pl_paths ← r_vec r_id;
  x_pl_byte_count ← r_u64;
  x_pl_estimated_bandwidth ← r_f64;
  x_pl_estimated_duration_ns ← r_u64;
  x_pl_communication_cost ← r_u64;
  x_pl_provenance ← r_enum;
  x_pl_valid ← r_bool;
  mret {| pl_id := x_pl_id; pl_gen := x_pl_gen; pl_kind := x_pl_kind; pl_topology_gen := x_pl_topology_gen; pl_participants := x_pl_participants; pl_flows := x_pl_flows; pl_resources := x_pl_resources; pl_links := x_pl_links; pl_paths := x_pl_paths; pl_byte_count := x_pl_byte_count; pl_estimated_bandwidth := x_pl_estimated_bandwidth; pl_estimated_duration_ns := x_pl_estimated_duration_ns; pl_communication_cost := x_pl_communication_cost; pl_provenance := x_pl_provenance; pl_valid := x_pl_valid |}.
Record CommunicationPlan_ok (v : CommunicationPlan) : Prop := {
  ok_pl_id : id_ok (pl_id v);
  ok_pl_gen : gen_ok (pl_gen v);
  ok_pl_kind : enum_ok (pl_kind v);
  ok_pl_topology_gen : gen_ok (pl_topology_gen v);
  ok_pl_participants : vec_ok id_ok (pl_participants v);
  ok_pl_flows : vec_ok id_ok (pl_flows v);
  ok_pl_resources : vec_ok id_ok (pl_resources v);
  ok_pl_links : vec_ok id_ok (pl_links v);
  ok_pl_paths : vec_ok id_ok (pl_paths v);
  ok_pl_byte_count : u64 (pl_byte_count v);
  ok_pl_estimated_bandwidth : double_ok (pl_estimated_bandwidth v);
  ok_pl_estimated_duration_ns : u64 (pl_estimated_duration_ns v);
  ok_pl_communication_cost : u64 (pl_communication_cost v);
  ok_pl_provenance : enum_ok (pl_provenance v);
}.

#[export] Instance rt_CommunicationPlan : RoundTrip CommunicationPlan_ok serialize_plan deserialize_plan.
Proof. solve_round_trip. Qed.

(** [serialize_congestion], [deserialize_congestion]. *)
Definition serialize_congestion (v : CongestionState) : list Z :=
  w_gen (cong_gen v) ++
  w_f64 (cong_utilization v) ++
  w_f64 (cong_residual_bandwidth v) ++
  w_bool (cong_is_congested v) ++
  w_bool (cong_hard_ceiling v) ++
  w_f64 (cong_hard_ceiling_utilization v) ++
  w_bool (cong_backpressure_intent v) ++
  w_vec w_id (cong_bottlenecks v) ++
  w_enum (cong_provenance v).
Definition deserialize_congestion : R CongestionState :=
  x_cong_gen ← r_gen;
  x_cong_utilization ← r_f64;
  x_cong_residual_bandwidth ← r_f64;
  x_cong_is_congested ← r_bool;
  x_cong_hard_ceiling ← r_bool;
  x_cong_hard_ceiling_utilization ← r_f64;
  x_cong_backpressure_intent ← r_bool;
  x_cong_bottlenecks ← r_vec r_id;
  x_cong_provenance ← r_enum;
  mret {| cong_gen := x_cong_gen; cong_utilization := x_cong_utilization; cong_residual_bandwidth := x_cong_residual_bandwidth; cong_is_congested := x_cong_is_congested; cong_hard_ceiling := x_cong_hard_ceiling; cong_hard_ceiling_utilization := x_cong_hard_ceiling_utilization; cong_backpressure_intent := x_cong_backpressure_intent; cong_bottlenecks := x_cong_bottlenecks; cong_provenance := x_cong_provenance |}.
Record CongestionState_ok (v : CongestionState) : Prop := {
  ok_cong_gen : gen_ok (cong_gen v);
  ok_cong_utilization : double_ok (cong_utilization v);
  ok_cong_residual_bandwidth : double_ok (cong_residual_bandwidth v);
  ok_cong_hard_ceiling_utilization : double_ok (cong_hard_ceiling_utilization v);
  ok_cong_bottlenecks : vec_ok id_ok (cong_bottlenecks v);
  ok_cong_provenance : enum_ok (cong_provenance v);
}.

#[export] Instance rt_CongestionState : RoundTrip CongestionState_ok serialize_congestion deserialize_congestion.
Proof. solve_round_trip. Qed.

(** [serialize_reservation], [deserialize_reservation]. *)
Definition serialize_reservation (v : Reservation) : list Z :=
  w_gen (rsv_gen v) ++
  w_enum (rsv_strength v) ++
  w_f64 (rsv_reserved_bandwidth v) ++
  w_vec w_id (rsv_resources v) ++
  w_vec w_id (rsv_links v) ++
  w_u64 (rsv_window_start_ns v) ++
  w_u64 (rsv_window_end_ns v) ++
  w_enum (rsv_provenance v) ++
  w_bool (rsv_valid v).
Definition deserialize_reservation : R Reservation :=
  x_rsv_gen ← r_gen;
  x_rsv_strength ← r_enum;
  x_rsv_reserved_bandwidth ← r_f64;
  x_rsv_resources ← r_vec r_id;
  x_rsv_links ← r_vec r_id;
  x_rsv_window_start_ns ← r_u64;
  x_rsv_window_end_ns ← r_u64;
  x_rsv_provenance ← r_enum;
  x_rsv_valid ← r_bool;
  mret {| rsv_gen := x_rsv_gen; rsv_strength := x_rsv_strength; rsv_reserved_bandwidth := x_rsv_reserved_bandwidth; rsv_resources := x_rsv_resources; rsv_links := x_rsv_links; rsv_window_start_ns := x_rsv_window_start_ns; rsv_window_end_ns := x_rsv_window_end_ns; rsv_provenance := x_rsv_provenance; rsv_valid := x_rsv_valid |}.
Record Reservation_ok (v : Reservation) : Prop := {
  ok_rsv_gen : gen_ok (rsv_gen v);
  ok_rsv_strength : enum_ok (rsv_strength v);
  ok_rsv_reserved_bandwidth : double_ok (rsv_reserved_bandwidth v);
  ok_rsv_resources : vec_ok id_ok (rsv_resources v);
  ok_rsv_links : vec_ok id_ok (rsv_links v);
  ok_rsv_window_start_ns : u64 (rsv_window_start_ns v);
  ok_rsv_window_end_ns : u64 (rsv_window_end_ns v);
  ok_rsv_provenance : enum_ok (rsv_provenance v);
}.

#[export] Instance rt_Reservation : RoundTrip Reservation_ok serialize_reservation deserialize_reservation.
Proof. solve_round_trip. Qed.

(** [serialize_dependency], [deserialize_dependency]. *)
Definition serialize_dependency (v : DependencyState) : list Z :=
  w_id (dep_id v) ++
  w_enum (dep_kind v) ++
  w_gen (dep_gen v) ++
  w_bool (dep_satisfied v) ++
  w_enum (dep_source v).
Definition deserialize_dependency : R DependencyState :=
  x_dep_id ← r_id;
  x_dep_kind ← r_enum;
  x_dep_gen ← r_gen;
  x_dep_satisfied ← r_bool;
  x_dep_source ← r_enum;
  mret {| dep_id := x_dep_id; dep_kind := x_dep_kind; dep_gen := x_dep_gen; dep_satisfied := x_dep_satisfied; dep_source := x_dep_source |}.
Record DependencyState_ok (v : DependencyState) : Prop := {
  ok_dep_id : id_ok (dep_id v);
  ok_dep_kind : enum_ok (dep_kind v);
  ok_dep_gen : gen_ok (dep_gen v);
  ok_dep_source : enum_ok (dep_source v);
}.

#[export] Instance rt_DependencyState : RoundTrip DependencyState_ok serialize_dependency deserialize_dependency.
Proof. solve_round_trip. Qed.

(** [serialize_capacity], [deserialize_capacity]. *)
Definition serialize_capacity (v : CapacityState) : list Z :=
  w_gen (cap_gen v) ++
  w_f64 (cap_usable_capacity v) ++
  w_f64 (cap_headroom v) ++
  w_f64 (cap_confidence v) ++
  w_enum (cap_provenance v).
Definition deserialize_capacity : R CapacityState :=
  x_cap_gen ← r_gen;
  x_cap_usable_capacity ← r_f64;
  x_cap_headroom ← r_f64;
  x_cap_confidence ← r_f64;
  x_cap_provenance ← r_enum;
  mret {| cap_gen := x_cap_gen; cap_usable_capacity := x_cap_usable_capacity; cap_headroom := x_cap_headroom; cap_confidence := x_cap_confidence; cap_provenance := x_cap_provenance |}.
Record CapacityState_ok (v : CapacityState) : Prop := {
  ok_cap_gen : gen_ok (cap_gen v);
  ok_cap_usable_capacity : double_ok (cap_usable_capacity v);
  ok_cap_headroom : double_ok (cap_headroom v);
  ok_cap_confidence : double_ok (cap_confidence v);
  ok_cap_provenance : enum_ok (cap_provenance v);
}.

#[export] Instance rt_CapacityState : RoundTrip CapacityState_ok serialize_capacity deserialize_capacity.
Proof. solve_round_trip. Qed.

(** ** The wire records as messages *)

(** Decides the side conditions of a concrete record. *)
Ltac concrete_ok :=
  repeat first [ progress (unfold vec_ok, id_ok, gen_ok, opt_ok, double_ok, string_ok, u64, u32, i32; simpl)
               | split | constructor | by vm_compute | lia ].

(** [de] reads back what [ser] writes, and nothing longer. *)
Definition survives {A} (ok : A -> Prop) (ser : A -> list Z) (de : R A) : Prop := forall v extra,
  ok v -> Z.of_nat (length (ser v ++ extra)) < 2 ^ 63 ->
  parse_all de (ser v) = Ok v /\
  (extra <> [] -> exists e, parse_all de (ser v ++ extra) = Throw e /\ code e = ErrorCode.MALFORMED_REQUEST).

(** Every record survives the wire and the file: a request, a grant with its
    evidence snapshot and revalidation requirements, a fairness account and each
    kind of published evidence whose fields are values of their C++ types is read
    back from its serialization, field by field the same, and the bytes are
    rejected as malformed when any follow it. *)
Theorem records_round_trip :
  survives CollectiveRequest_ok serialize_request deserialize_request /\
  survives CollectiveGrant_ok serialize_grant deserialize_grant /\
  survives FairnessAccount_ok serialize_fairness deserialize_fairness /\
  survives Participant_ok serialize_participant deserialize_participant /\
  survives CommunicationPlan_ok serialize_plan deserialize_plan /\
  survives CongestionState_ok serialize_congestion deserialize_congestion /\
  survives Reservation_ok serialize_reservation deserialize_reservation /\
  survives CapacityState_ok serialize_capacity deserialize_capacity /\
  survives DependencyState_ok serialize_dependency deserialize_dependency.
Proof. split_and!; intros v extra; apply parse_all_round_trip, _. Qed.
