(* ===== verification/Reading.v ===== *)
(** * Reading: the deserializers on arbitrary bytes (persistence.cpp, serialize.cpp)

    Codec and Serialize read back what was written.  Here nothing is assumed of
    the bytes: a reader operation [takes k] when it either throws
    MALFORMED_REQUEST or stays in the buffer and consumes at least [k] bytes.
    The element counts of the vectors come from the input, so the file also shows
    that the loops over them end before the buffer does. *)
From S2P Require Import Prelude Enums Identity Error Float64 Domain Codec Serialize.

(** A reader on bytes, whose size limit is the size of the buffer. *)
Definition rd_fit (r : Reader) : Prop := rd_ok r /\ Forall u8 (rd_buf r).
(** How [r'] comes after [r], [k] bytes or more further on. *)
Definition further (k : Z) (r r' : Reader) : Prop :=
  rd_buf r' = rd_buf r /\ rd_max r' = rd_max r /\ rd_pos r + k <= rd_pos r' <= rd_len r.
Definition takes {A} (k : Z) (rd : R A) : Prop := forall r, rd_fit r ->
  match rd r with
  | (Ok _, r') => further k r r'
  | (Throw e, _) => code e = ErrorCode.MALFORMED_REQUEST
  end.

Lemma further_fit k r r' : 0 <= k -> rd_fit r -> further k r r' -> rd_fit r' /\ rd_len r' = rd_len r.
Proof.
  intros Hk [Hr Hb] (Eb & Em & Hp). unfold rd_fit, rd_ok, rd_len in *. rewrite Eb, Em. split; [|done].
  split; [lia|done].
Qed.
Lemma further_trans k1 k2 r1 r2 r3 : further k1 r1 r2 -> further k2 r2 r3 -> further (k1 + k2) r1 r3.
Proof. unfold further, rd_len. intros (-> & -> & ?) (-> & -> & ?). split_and!; [done..|lia|lia]. Qed.
Lemma takes_mono {A} k k' (rd : R A) : takes k' rd -> k <= k' -> takes k rd.
Proof.
  intros H Hk r Hr. specialize (H r Hr). destruct (rd r) as [[a|e] r']; [|done].
  destruct H as (? & ? & ?). split_and!; [done..|lia|lia].
Qed.
Lemma takes_ret {A} (a : A) : takes 0 (mret a).
Proof. intros r ((? & _) & _). cbn. split_and!; [done..|lia|lia]. Qed.
Lemma takes_bind {A B} k1 k2 (m : R A) (f : A -> R B) : 0 <= k1 ->
  takes k1 m -> (forall a, takes k2 (f a)) -> takes (k1 + k2) (m ≫= f).
Proof.
  intros Hk Hm Hf r Hr. specialize (Hm r Hr). unfold mbind, M_bind.
  destruct (m r) as [[a|e] r']; [|done]. destruct (further_fit k1 r r' Hk Hr Hm) as [Hr' _].
  specialize (Hf a r' Hr'). destruct (f a r') as [[b|e] r'']; [|done]. by eapply further_trans.
Qed.
Lemma takes_opt {A} k (rd : R A) : 0 <= k -> takes 1 r_bool -> takes k rd -> takes 1 (r_opt rd).
Proof.
  intros Hk Hb Hrd. apply (takes_bind 1 0); [done|done|]. intros [].
  - eapply takes_mono; [apply (takes_bind k 0); [done|done|intros; apply takes_ret]|lia].
  - apply takes_ret.
Qed.

(** ** The primitive reads *)
Lemma takes_need n r : rd_fit r -> 0 <= n ->
  match need n r with
  | (Ok _, r') => r' = r /\ further n r (next_bytes n r).2
  | (Throw e, _) => code e = ErrorCode.MALFORMED_REQUEST
  end.
Proof.
  intros ((Hp & Hm & Hl) & _) Hn. unfold need. rewrite Hm.
  destruct (Z.gtb_spec n (rd_len r)); [done|].
  destruct (Z.gtb_spec (add64 (rd_pos r) n) (rd_len r)) as [|Ha]; [done|]. split; [done|].
  unfold add64 in Ha. rewrite wrap64_small in Ha by (unfold u64; lia).
  unfold next_bytes, add64, further. rewrite wrap64_small by (unfold u64; lia). simpl. split_and!; [done..|lia|lia].
Qed.
Lemma takes_le n : takes (Z.of_nat n) (r_le n).
Proof.
  intros r Hr. pose proof (takes_need (Z.of_nat n) r Hr ltac:(lia)) as H. unfold r_le, mbind, M_bind.
  destruct (need (Z.of_nat n) r) as [[[]|e] r']; [|done]. by destruct H as [-> ?].
Qed.
Lemma takes_map {A B} k (f : A -> B) (m : R A) : 0 <= k -> takes k m -> takes k (v ← m; mret (f v)).
Proof. intros Hk Hm. rewrite <- (Z.add_0_r k). apply takes_bind; [done|done|intros; apply takes_ret]. Qed.
Lemma r_u64_nonneg r n r' : rd_fit r -> r_u64 r = (Ok n, r') -> 0 <= n.
Proof.
  intros [_ Hb]. unfold r_u64, r_le, mbind, M_bind, next_bytes, mret, M_ret.
  destruct (need _ r) as [[[]|e] r1] eqn:E; [|done]. unfold need in E.
  repeat case_match; simplify_eq. intros [= <- _]. apply get_le_from_nonneg; try done.
  by apply Forall_take, Forall_drop.
Qed.
Lemma takes_u8 : takes 1 r_u8. Proof. apply (takes_le 1). Qed.
Lemma takes_u32 : takes 4 r_u32. Proof. apply (takes_le 4). Qed.
Lemma takes_u64 : takes 8 r_u64. Proof. apply (takes_le 8). Qed.
Lemma takes_i32 : takes 4 r_i32. Proof. apply takes_map; [done|apply takes_u32]. Qed.
Lemma takes_f64 : takes 8 r_f64. Proof. apply takes_map; [done|apply takes_u64]. Qed.
Lemma takes_id {tag} : takes 8 (@r_id tag). Proof. apply takes_map; [done|apply takes_u64]. Qed.
Lemma takes_gen {tag} : takes 8 (@r_gen tag). Proof. apply takes_map; [done|apply takes_u64]. Qed.
Lemma takes_bool : takes 1 r_bool. Proof. apply takes_map; [done|apply takes_u8]. Qed.
Lemma takes_enum {T} `{EnumU8 T} : takes 1 (r_enum (T := T)). Proof. apply takes_map; [done|apply takes_u8]. Qed.
Lemma takes_str : takes 8 r_str.
Proof.
  intros r Hr. pose proof (takes_u64 r Hr) as H. unfold r_str, mbind, M_bind.
  destruct (r_u64 r) as [[n|e] r1] eqn:E; [|done].
  destruct (further_fit 8 r r1 ltac:(done) Hr H) as [Hr1 _]. pose proof (r_u64_nonneg r n r1 Hr E) as Hn.
  unfold check_max. destruct (n >? rd_max r1); [done|]. pose proof (takes_need n r1 Hr1 Hn) as H1.
  destruct (need n r1) as [[[]|e] r2]; [|done]. destruct H1 as [-> H1]. cbn.
  eapply (further_trans 8 0); [done|]. destruct H1 as (? & ? & ?). split_and!; [done..|cbn in *; lia|cbn in *; lia].
Qed.

Create HintDb reading.
#[export] Hint Resolve takes_ret takes_u8 takes_u32 takes_u64 takes_i32 takes_f64 takes_id takes_gen takes_bool
  takes_enum takes_str : reading.

(** ** The loops over vectors *)
Section loop.
Context {A : Type} (k : Z) (rd : R A).
Hypothesis Hk : 0 < k.
Hypothesis Hrd : takes k rd.

Lemma read_loop_takes fuel n r : rd_fit r ->
  match read_loop fuel n rd r with
  | (Ok xs, r') => Z.of_nat (length xs) = Z.max 0 n /\ further (k * Z.max 0 n) r r'
  | (Throw e, _) => code e = ErrorCode.MALFORMED_REQUEST
  end.
Proof using Hk Hrd.
  revert n r. induction fuel as [|fuel IH]; intros n r Hr; cbn [read_loop]; destruct (Z.leb_spec n 0).
  1, 3: rewrite Z.max_l by lia; split; [done|]; destruct Hr as ((? & _) & _); split_and!; [done..|lia|lia].
  - done.
  - unfold mbind, M_bind. pose proof (Hrd r Hr) as H1. destruct (rd r) as [[a|e] r1]; [|done].
    destruct (further_fit k r r1 ltac:(lia) Hr H1) as [Hr1 _]. specialize (IH (n - 1) r1 Hr1).
    destruct (read_loop fuel (n - 1) rd r1) as [[xs|e] r2]; [|done]. destruct IH as [El H2].
    cbn. split; [lia|]. replace (k * Z.max 0 n) with (k + k * Z.max 0 (n - 1)) by nia. by eapply further_trans.
Qed.
Lemma read_loop_fuel f1 f2 n r : rd_fit r ->
  rd_len r - rd_pos r < Z.of_nat f1 -> rd_len r - rd_pos r < Z.of_nat f2 ->
  read_loop f1 n rd r = read_loop f2 n rd r.
Proof using Hk Hrd.
  revert f2 n r. induction f1 as [|f1 IH]; intros [|f2] n r Hr H1 H2; try (destruct Hr as ((? & _) & _); lia).
  cbn [read_loop]. case_match; [done|]. unfold mbind, M_bind. pose proof (Hrd r Hr) as H3.
  destruct (rd r) as [[a|e] r'] eqn:E; [|done].
  destruct (further_fit k r r' ltac:(lia) Hr H3) as [Hr' Hl]. destruct H3 as (_ & _ & Hp).
  rewrite (IH f2); [done|done| |]; rewrite Hl; lia.
Qed.
Lemma read_vec_fuel fuel n r : rd_fit r -> rd_len r - rd_pos r < Z.of_nat fuel ->
  read_loop fuel n rd r = read_vec n rd r.
Proof using Hk Hrd. intros Hr Hf. apply read_loop_fuel; [done|done|]. destruct Hr as ((? & _) & _). lia. Qed.
Lemma takes_vec : takes 8 (r_vec rd).
Proof using Hk Hrd.
  apply (takes_bind 8 0); [done|apply takes_u64|]. intros n r Hr. unfold read_vec.
  pose proof (read_loop_takes (S (Z.to_nat (rd_len r - rd_pos r))) n r Hr) as H.
  destruct (read_loop _ n rd r) as [[xs|e] r']; [|done].
  destruct H as [_ (? & ? & ?)]. split_and!; [done..|nia|lia].
Qed.
End loop.

(** A loop over a vector ends.  Whatever count the input names, the loop is
    its own unfolding, so the fuel is never what stops it; it reads exactly that
    many elements or throws MALFORMED_REQUEST, and it throws when the bytes left
    cannot hold that many. *)
Theorem vector_loop_ends {A} k (rd : R A) n r : 0 < k -> takes k rd -> rd_fit r ->
  read_vec n rd r = (if n <=? 0 then mret [] else x ← rd; xs ← read_vec (n - 1) rd; mret (x :: xs)) r /\
  (forall fuel, rd_len r - rd_pos r < Z.of_nat fuel -> read_loop fuel n rd r = read_vec n rd r) /\
  match read_vec n rd r with
  | (Ok xs, r') => Z.of_nat (length xs) = Z.max 0 n /\ further (k * Z.max 0 n) r r' /\
      k * n <= rd_len r - rd_pos r
  | (Throw e, _) => code e = ErrorCode.MALFORMED_REQUEST
  end.
Proof.
  intros Hk Hrd Hr. split_and!.
  - unfold read_vec at 1. cbn [read_loop]. case_match; [done|].
    unfold mbind, M_bind. pose proof (Hrd r Hr) as H1. destruct (rd r) as [[a|e] r'] eqn:E; [|done].
    destruct (further_fit k r r' ltac:(lia) Hr H1) as [Hr' Hl]. destruct H1 as (_ & _ & Hp).
    rewrite (read_vec_fuel k rd Hk Hrd); [done|done|]. rewrite Hl. lia.
  - intros fuel. by apply (read_vec_fuel k).
  - pose proof (read_loop_takes k rd Hk Hrd (S (Z.to_nat (rd_len r - rd_pos r))) n r Hr) as H.
    fold (read_vec n rd r) in H. destruct (read_vec n rd r) as [[xs|e] r']; [|done].
    destruct H as [El Hf]. split_and!; [done..|]. pose proof Hf as (_ & _ & ?). nia.
Qed.
(** Twenty bytes that claim to hold 2^63 ids. *)
Definition hostile : list Z := [0; 0; 0; 0; 0; 0; 0; 128; 1; 0; 0; 0; 0; 0; 0; 0; 2; 0; 0; 0].
Example vector_loop_ends_witness :
  let r := mkReader hostile 8 20 in exists e,
  (read_vec (2 ^ 63) (@r_id CollectiveId_tag) r).1 = Throw e /\ code e = ErrorCode.MALFORMED_REQUEST.
Proof.
  intros r. assert (rd_fit r) as Hr.
  { split; [by vm_compute|]. apply (bool_decide_unpack _). by vm_compute. }
  destruct (vector_loop_ends 8 (@r_id CollectiveId_tag) (2 ^ 63) r ltac:(done) takes_id Hr) as (_ & _ & H).
  destruct (read_vec _ _ r) as [[xs|e] r'].
  - destruct H as (_ & _ & H). exfalso. vm_compute in H. by apply H.
  - exists e. split; [reflexivity|exact H].
Defined.

(** ** The deserializers *)

(** Adds up what the reads of a deserializer take. *)
Ltac takes := repeat first
  [ solve [eauto 1 with reading]
  | match goal with |- takes _ (mbind _ _) => eapply takes_bind; [| |intros ?] end
  | match goal with |- takes _ (r_vec _) => eapply takes_vec; [|takes] end
  | match goal with |- takes _ (r_opt _) => eapply takes_opt; [|apply takes_bool|takes] end
  | match goal with |- takes _ ?rd => let h := head rd in unfold h end ]; try done
with head t := match t with ?f _ => head f | _ => t end.

(** Whatever bytes a peer or a file supplies, every deserializer comes to an
    end: it fails as MALFORMED_REQUEST or it returns a record, having consumed at
    least the bytes of the record's fixed part and none past the end of the
    buffer. *)
Theorem deserializers_in_bounds :
  takes 196 deserialize_request /\ takes 258 deserialize_grant /\ takes 50 deserialize_fairness /\
  takes 103 deserialize_participant /\ takes 99 deserialize_plan /\ takes 44 deserialize_congestion /\
  takes 51 deserialize_reservation /\ takes 19 deserialize_dependency /\ takes 33 deserialize_capacity.
Proof. split_and!; (eapply takes_mono; [takes|done]). Qed.
