(* ===== verification/Protocol.v ===== *)
(** * Protocol: the framed wire protocol of protocol.hpp / protocol.cpp

    A frame is magic, version, type, sequence number, payload length, payload and
    an FNV-1a checksum.  [decode_frames] consumes the complete frames at the front
    of a buffer; the receiver calls it after every [recv], on what is left of the
    previous bytes followed by the new ones.  The theorems: a stream of frames is
    decoded to the messages that were encoded, wherever the transport cuts it, and
    a frame with one altered byte is rejected. *)
From S2P Require Import Prelude Enums Identity Error Float64 Codec.

(** [enum class MsgType : std::uint16_t]. *)
Module MsgType.
Inductive t : Set :=
  | HELLO
  | REGISTER
  | PUBLISH_PARTICIPANT
  | PUBLISH_READINESS
  | SUBMIT_COLLECTIVE
  | UPDATE_DEPENDENCY
  | UPDATE_PRIORITY
  | UPDATE_PLAN
  | UPDATE_RESERVATION
  | UPDATE_CONGESTION
  | UPDATE_CAPACITY
  | QUERY_SCHEDULE
  | GRANT
  | EXECUTION_ACCEPTED
  | START
  | PROGRESS
  | COMPLETE
  | FAIL
  | CANCEL
  | SUPERSEDE
  | FENCE_WORKER
  | REVALIDATE
  | SAVE
  | SHUTDOWN
  | ERROR.
#[export] Instance t_eq_dec : EqDecision t.
Proof. solve_decision. Defined.
(** [static_cast<std::uint16_t>]. *)
Definition to_u16 (v : t) : Z :=
  match v with
  | HELLO => 0
  | REGISTER => 1
  | PUBLISH_PARTICIPANT => 2
  | PUBLISH_READINESS => 3
  | SUBMIT_COLLECTIVE => 4
  | UPDATE_DEPENDENCY => 5
  | UPDATE_PRIORITY => 6
  | UPDATE_PLAN => 7
  | UPDATE_RESERVATION => 8
  | UPDATE_CONGESTION => 9
  | UPDATE_CAPACITY => 10
  | QUERY_SCHEDULE => 11
  | GRANT => 12
  | EXECUTION_ACCEPTED => 13
  | START => 14
  | PROGRESS => 15
  | COMPLETE => 16
  | FAIL => 17
  | CANCEL => 18
  | SUPERSEDE => 19
  | FENCE_WORKER => 20
  | REVALIDATE => 21
  | SAVE => 22
  | SHUTDOWN => 23
  | ERROR => 24
  end.
(** [static_cast<MsgType>] of a number the switch of [is_known_message_type] lists. *)
Definition of_u16 (z : Z) : option t :=
  if z =? 0 then Some HELLO else
  if z =? 1 then Some REGISTER else
  if z =? 2 then Some PUBLISH_PARTICIPANT else
  if z =? 3 then Some PUBLISH_READINESS else
  if z =? 4 then Some SUBMIT_COLLECTIVE else
  if z =? 5 then Some UPDATE_DEPENDENCY else
  if z =? 6 then Some UPDATE_PRIORITY else
  if z =? 7 then Some UPDATE_PLAN else
  if z =? 8 then Some UPDATE_RESERVATION else
  if z =? 9 then Some UPDATE_CONGESTION else
  if z =? 10 then Some UPDATE_CAPACITY else
  if z =? 11 then Some QUERY_SCHEDULE else
  if z =? 12 then Some GRANT else
  if z =? 13 then Some EXECUTION_ACCEPTED else
  if z =? 14 then Some START else
  if z =? 15 then Some PROGRESS else
  if z =? 16 then Some COMPLETE else
  if z =? 17 then Some FAIL else
  if z =? 18 then Some CANCEL else
  if z =? 19 then Some SUPERSEDE else
  if z =? 20 then Some FENCE_WORKER else
  if z =? 21 then Some REVALIDATE else
  if z =? 22 then Some SAVE else
  if z =? 23 then Some SHUTDOWN else
  if z =? 24 then Some ERROR else
  None.
End MsgType.
#[export] Existing Instance MsgType.t_eq_dec.

Definition CS_PROTOCOL_MAGIC : Z := 0x43535052.
Definition CS_PROTOCOL_VERSION : Z := 1.
Definition CS_MAX_PROTOCOL_PAYLOAD : Z := 16 * 1024 * 1024.
Definition kHeaderSize : Z := 20.
Definition kChecksumSize : Z := 8.
Definition kProtoSeed : Z := 0x9d6b3f5a7c1e2843.

(** [struct Msg]. *)
Record Msg : Set := mkMsg { m_type : MsgType.t; m_seq : Z; m_payload : list Z }.
#[export] Instance Msg_eq_dec : EqDecision Msg.
Proof. solve_decision. Defined.

Definition is_known_message_type (v : Z) : bool :=
  match MsgType.of_u16 v with Some _ => true | None => false end.

(** [le16], [le32], [le64] at an offset of the buffer, and [put_le16] ... *)
Definition le (n : nat) (p : list Z) (at_ : Z) : Z := get_le n (drop (Z.to_nat at_) p).

(** [encode_frame]. *)
Definition frame_body (type : MsgType.t) (seq : Z) (payload : list Z) : list Z :=
  put_le 4 CS_PROTOCOL_MAGIC ++ put_le 2 CS_PROTOCOL_VERSION ++
  put_le 2 (MsgType.to_u16 type) ++ put_le 8 seq ++
  put_le 4 (wrap32 (Z.of_nat (length payload))) ++ payload.
Definition encode_frame (type : MsgType.t) (seq : Z) (payload : list Z) : list Z :=
  let buf := frame_body type seq payload in
  buf ++ put_le 8 (fnv1a64 buf kProtoSeed).

(** One iteration of the decoding loop on the unread bytes [p]: the loop's
    [return false], its two ways to stop, or a message and its frame length. *)
Inductive frame_step : Set :=
  | frame_malformed
  | frame_incomplete
  | frame_msg (m : Msg) (frame_len : Z).

Definition decode_step (p : list Z) : frame_step :=
  let avail := Z.of_nat (length p) in
  if negb (avail >=? kHeaderSize) then frame_incomplete else
  if negb (le 4 p 0 =? CS_PROTOCOL_MAGIC) then frame_malformed else
  if negb (le 2 p 4 =? CS_PROTOCOL_VERSION) then frame_malformed else
  match MsgType.of_u16 (le 2 p 6) with
  | None => frame_malformed
  | Some type =>
      let seq := le 8 p 8 in
      let plen := le 4 p 16 in
      if plen >? CS_MAX_PROTOCOL_PAYLOAD then frame_malformed else
      let frame_len := kHeaderSize + plen + kChecksumSize in
      if avail <? frame_len then frame_incomplete else
      let stored := le 8 p (kHeaderSize + plen) in
      let calc := fnv1a64 (take (Z.to_nat (kHeaderSize + plen)) p) kProtoSeed in
      if negb (stored =? calc) then frame_malformed else
      frame_msg (mkMsg type seq (take (Z.to_nat plen) (drop (Z.to_nat kHeaderSize) p))) frame_len
  end.

(** [while (buffer.size() - off >= kHeaderSize) ...].  Every frame takes at least
    28 bytes, so the buffer's length is fuel enough ([decoding_ends]). *)
Fixpoint decode_loop (fuel : nat) (buffer : list Z) (off : Z) (out : list Msg) : bool * Z * list Msg :=
  match fuel with
  | O => (true, off, out)
  | S fuel' =>
      match decode_step (drop (Z.to_nat off) buffer) with
      | frame_malformed => (false, off, out)
      | frame_incomplete => (true, off, out)
      | frame_msg m frame_len => decode_loop fuel' buffer (off + frame_len) (out ++ [m])
      end
  end.

(** [decode_frames]: the result, the buffer and the message vector after the
    call.  A malformed frame leaves the buffer as it was. *)
Definition decode_frames (buffer : list Z) (out : list Msg) : bool * list Z * list Msg :=
  match decode_loop (S (length buffer)) buffer 0 out with
  | (false, _, out') => (false, buffer, out')
  | (true, off, out') => (true, drop (Z.to_nat off) buffer, out')
  end.

(** ** Reading inside a longer buffer *)
Lemma get_le_from_app i n v p q :
  (n <= length p)%nat -> get_le_from i n v (p ++ q) = get_le_from i n v p.
Proof.
  revert i v p. induction n as [|n IH]; intros i v p Hl; [done|].
  destruct p as [|b p]; simpl in *; [lia|]. apply IH. lia.
Qed.
Lemma le_app n p q k :
  0 <= k -> k + Z.of_nat n <= Z.of_nat (length p) -> le n (p ++ q) k = le n p k.
Proof.
  intros Hk Hl. unfold le, get_le. rewrite drop_app_le by lia.
  apply get_le_from_app. rewrite length_drop. lia.
Qed.
Lemma le_nonneg n p k : Forall u8 p -> 0 <= le n p k.
Proof. intros Hp. apply get_le_from_nonneg; [lia..|]. by apply Forall_drop. Qed.

(** The size tests of [decode_step]. *)
Lemma decode_step_msg p m n : Forall u8 p -> decode_step p = frame_msg m n ->
  28 <= n <= Z.of_nat (length p).
Proof.
  intros Hp. pose proof (le_nonneg 4 p 16 Hp). unfold decode_step, kHeaderSize, kChecksumSize.
  repeat case_match; intros; simplify_eq. rewrite Z.ltb_ge in *. lia.
Qed.
(** A complete frame stays the same frame when more bytes follow. *)
Lemma decode_step_app p q m n : Forall u8 p -> decode_step p = frame_msg m n ->
  decode_step (p ++ q) = frame_msg m n.
Proof.
  intros Hp Hs. pose proof (decode_step_msg _ _ _ Hp Hs) as Hn. pose proof (le_nonneg 4 p 16 Hp) as H16.
  revert Hs. unfold decode_step, kHeaderSize, kChecksumSize in *.
  rewrite !(le_app _ p q) by lia. rewrite length_app, Nat2Z.inj_add.
  destruct (Z.geb_spec (Z.of_nat (length p)) 20), (Z.geb_spec (Z.of_nat (length p) + Z.of_nat (length q)) 20);
    try lia; cbn [negb]; [|done..].
  destruct (negb _); [done|]. destruct (negb _); [done|].
  destruct (MsgType.of_u16 _); [|done]. destruct (_ >? _); [done|].
  destruct (Z.ltb_spec (Z.of_nat (length p)) (20 + le 4 p 16 + 8)); [done|].
  destruct (Z.ltb_spec (Z.of_nat (length p) + Z.of_nat (length q)) (20 + le 4 p 16 + 8)); [lia|].
  rewrite !(le_app 8 p q), take_app_le, (drop_app_le p q), take_app_le by (rewrite ?length_drop; lia).
  done.
Qed.

(** ** What decoding a buffer amounts to *)

(** [parses p ms ok rest]: the loop takes the messages [ms] off [p] and stops
    before [rest], at an incomplete frame ([ok]) or at a malformed one. *)
Inductive parses : list Z -> list Msg -> bool -> list Z -> Prop :=
  | parses_malformed p : decode_step p = frame_malformed -> parses p [] false p
  | parses_incomplete p : decode_step p = frame_incomplete -> parses p [] true p
  | parses_msg p m n ms ok rest :
      decode_step p = frame_msg m n -> parses (drop (Z.to_nat n) p) ms ok rest ->
      parses p (m :: ms) ok rest.

Lemma decode_loop_parses fuel buffer off out :
  Forall u8 buffer -> 0 <= off <= Z.of_nat (length buffer) ->
  (length buffer < Z.to_nat off + fuel)%nat ->
  exists ms ok rest, parses (drop (Z.to_nat off) buffer) ms ok rest /\
    exists off', decode_loop fuel buffer off out = (ok, off', out ++ ms) /\
      rest = drop (Z.to_nat off') buffer.
Proof.
  intros Hb. revert off out. induction fuel as [|fuel IH]; intros off out Ho Hf; [lia|].
  cbn [decode_loop]. pose proof (Forall_drop _ (Z.to_nat off) _ Hb) as Hp.
  destruct (decode_step (drop (Z.to_nat off) buffer)) as [| |m n] eqn:E.
  - exists [], false, (drop (Z.to_nat off) buffer). split; [by constructor|].
    exists off. by rewrite app_nil_r.
  - exists [], true, (drop (Z.to_nat off) buffer). split; [by constructor|].
    exists off. by rewrite app_nil_r.
  - pose proof (decode_step_msg _ _ _ Hp E) as Hn. rewrite length_drop in Hn.
    destruct (IH (off + n) (out ++ [m])) as (ms & ok & rest & Hps & off' & Hl & ->); [lia..|].
    exists (m :: ms), ok, (drop (Z.to_nat off') buffer). split.
    + econstructor; [done|]. rewrite drop_drop.
      by replace (Z.to_nat off + Z.to_nat n)%nat with (Z.to_nat (off + n)) by lia.
    + exists off'. by rewrite Hl, <- app_assoc.
Qed.

(** The decoder terminates within its fuel and implements [parses]. *)
Lemma decode_frames_parses buffer out : Forall u8 buffer ->
  exists ms ok rest, parses buffer ms ok rest /\
    decode_frames buffer out = (ok, if ok then rest else buffer, out ++ ms).
Proof.
  intros Hb. destruct (decode_loop_parses (S (length buffer)) buffer 0 out)
    as (ms & ok & rest & Hp & off' & Hl & ->); [done|lia|simpl; lia|].
  exists ms, ok, (drop (Z.to_nat off') buffer). split; [done|].
  unfold decode_frames. rewrite Hl. by destruct ok.
Qed.

(** ** The decoder ends *)

(** The bytes of the frame of a message. *)
Definition frame_size (m : Msg) : Z := 28 + Z.of_nat (length (m_payload m)).
Definition frames_size (ms : list Msg) : Z := foldr Z.add 0 (frame_size <$> ms).
Lemma decode_step_size p m n : Forall u8 p -> decode_step p = frame_msg m n -> n = frame_size m.
Proof.
  intros Hp Hs. pose proof (decode_step_msg _ _ _ Hp Hs) as Hn. pose proof (le_nonneg 4 p 16 Hp) as H16.
  revert Hs. unfold decode_step, frame_size, kHeaderSize, kChecksumSize. repeat case_match; intros; simplify_eq.
  cbn [m_payload]. rewrite length_take, length_drop. change (Z.to_nat 20) with 20%nat. lia.
Qed.
Lemma frames_size_nonneg ms : 28 * Z.of_nat (length ms) <= frames_size ms.
Proof.
  unfold frames_size. induction ms as [|m ms IH]; [done|]. rewrite fmap_cons. cbn [foldr length].
  unfold frame_size at 1. lia.
Qed.
Lemma decode_loop_ends fuel buffer off out : Forall u8 buffer -> 0 <= off <= Z.of_nat (length buffer) ->
  (length buffer < Z.to_nat off + fuel)%nat -> exists ms ok off',
  decode_loop fuel buffer off out = (ok, off', out ++ ms) /\ off' = off + frames_size ms /\
  off' <= Z.of_nat (length buffer) /\
  decode_step (drop (Z.to_nat off') buffer) = if ok then frame_incomplete else frame_malformed.
Proof.
  intros Hb. revert off out. induction fuel as [|fuel IH]; intros off out Ho Hf; [lia|].
  cbn [decode_loop]. pose proof (Forall_drop _ (Z.to_nat off) _ Hb) as Hp.
  destruct (decode_step (drop (Z.to_nat off) buffer)) as [| |m n] eqn:E.
  - exists [], false, off. rewrite app_nil_r, E. split_and!; [done|cbn; lia|lia|done].
  - exists [], true, off. rewrite app_nil_r, E. split_and!; [done|cbn; lia|lia|done].
  - pose proof (decode_step_msg _ _ _ Hp E) as Hn. rewrite length_drop in Hn.
    destruct (IH (off + n) (out ++ [m])) as (ms & ok & off' & Hl & Hoff & Hle & Hst); [lia..|].
    exists (m :: ms), ok, off'. rewrite Hl, <- app_assoc. split_and!; [done| |done|done].
    rewrite Hoff, (decode_step_size _ _ _ Hp E). unfold frames_size. rewrite fmap_cons. cbn [foldr]. lia.
Qed.
Lemma decode_loop_fuel f1 f2 buffer off out : Forall u8 buffer -> 0 <= off <= Z.of_nat (length buffer) ->
  (length buffer < Z.to_nat off + f1)%nat -> (length buffer < Z.to_nat off + f2)%nat ->
  decode_loop f1 buffer off out = decode_loop f2 buffer off out.
Proof.
  intros Hb. revert f2 off out. induction f1 as [|f1 IH]; intros [|f2] off out Ho H1 H2; [lia..|].
  cbn [decode_loop]. destruct (decode_step _) as [| |m n] eqn:E; [done..|].
  pose proof (decode_step_msg _ _ _ (Forall_drop _ _ _ Hb) E) as Hn. rewrite length_drop in Hn. apply IH; lia.
Qed.

(** C39: decoding ends on every buffer.  With any fuel beyond the buffer's length
    the loop gives the same result; it takes the messages it returns, whose
    frames fill exactly the bytes it consumed (so at most one message per 28
    bytes), and it stops at a frame that is incomplete, or malformed when it says
    so, in which case the buffer is left as it was. *)
Theorem decoding_ends fuel buffer out : Forall u8 buffer -> (length buffer < fuel)%nat ->
  decode_loop fuel buffer 0 out = decode_loop (S (length buffer)) buffer 0 out /\
  exists ms (ok : bool) n, decode_frames buffer out = (ok, if ok then drop (Z.to_nat n) buffer else buffer, out ++ ms) /\
    n = frames_size ms /\ n <= Z.of_nat (length buffer) /\ 28 * Z.of_nat (length ms) <= n /\
    decode_step (drop (Z.to_nat n) buffer) = if ok then frame_incomplete else frame_malformed.
Proof.
  intros Hb Hf. split.
  - apply decode_loop_fuel; [done|lia|simpl; lia|simpl; lia].
  - destruct (decode_loop_ends (S (length buffer)) buffer 0 out Hb) as (ms & ok & n & E & Hn & Hle & Hs); [lia|simpl; lia|].
    rewrite Z.add_0_l in Hn. exists ms, ok, n. unfold decode_frames. rewrite E.
    pose proof (frames_size_nonneg ms). split_and!; [by destruct ok|done|done|lia|done].
Qed.
Example decoding_ends_witness :
  let f := encode_frame MsgType.HELLO 7 [1; 2] in
  exists ms ok n, decode_frames (f ++ f ++ take 9 f) [] = (ok, drop (Z.to_nat n) (f ++ f ++ take 9 f), ms) /\
    n = frames_size ms /\ n <= 69.
Proof.
  intros f. assert (Forall u8 (f ++ f ++ take 9 f)) as Hb by (apply (bool_decide_unpack _); by vm_compute).
  assert (length (f ++ f ++ take 9 f) = 69)%nat as Hl by (by vm_compute).
  destruct (decoding_ends 70 (f ++ f ++ take 9 f) [] Hb ltac:(rewrite Hl; lia)) as (_ & ms & ok & n & E & Hn & Hle & _ & Hs).
  rewrite Hl in Hle. destruct ok.
  - exists ms, true, n. exact (conj E (conj Hn Hle)).
  - exfalso. assert ((decode_frames (f ++ f ++ take 9 f) []).1.1 = true) as H by (by vm_compute).
    rewrite E in H. discriminate H.
Defined.

Lemma parses_det p ms ok rest ms' ok' rest' :
  parses p ms ok rest -> parses p ms' ok' rest' -> (ms, ok, rest) = (ms', ok', rest').
Proof.
  intros H. revert ms' ok' rest'.
  induction H as [p E|p E|p m n ms ok rest E H IH]; intros ms' ok' rest' H';
    inversion H' as [? E'|? E'|? ? ? ? ? ? E' H'']; subst; rewrite E in E'; simplify_eq; [done..|].
  by specialize (IH _ _ _ H''); simplify_eq.
Qed.
Lemma decode_frames_iff buffer out ms ok rest : Forall u8 buffer ->
  parses buffer ms ok rest ->
  decode_frames buffer out = (ok, if ok then rest else buffer, out ++ ms).
Proof.
  intros Hb Hp. destruct (decode_frames_parses buffer out Hb) as (ms' & ok' & rest' & Hp' & ->).
  by pose proof (parses_det _ _ _ _ _ _ _ Hp Hp'); simplify_eq.
Qed.

Lemma parses_app p ms1 r1 q ms2 ok r2 : Forall u8 p ->
  parses p ms1 true r1 -> parses (r1 ++ q) ms2 ok r2 -> parses (p ++ q) (ms1 ++ ms2) ok r2.
Proof.
  intros Hp H. remember true as b eqn:Hb. induction H as [|p E|p m n ms ok' rest E H IH]; [done|done|].
  intros H2. pose proof (decode_step_msg _ _ _ Hp E) as Hn. simpl.
  econstructor; [by apply decode_step_app|]. rewrite drop_app_le by lia.
  apply IH; [by apply Forall_drop|done..].
Qed.

(** A proper prefix of a complete frame is an incomplete frame, never a malformed
    one. *)
Lemma decode_step_prefix p q m n : Forall u8 (p ++ q) -> decode_step (p ++ q) = frame_msg m n ->
  Z.of_nat (length p) < n -> decode_step p = frame_incomplete.
Proof.
  intros Hb Hs Hlt. pose proof (le_nonneg 4 (p ++ q) 16 Hb) as H16. revert Hs.
  unfold decode_step, kHeaderSize, kChecksumSize. rewrite length_app, Nat2Z.inj_add.
  destruct (Z.geb_spec (Z.of_nat (length p)) 20); [|done].
  destruct (Z.geb_spec (Z.of_nat (length p) + Z.of_nat (length q)) 20); [|lia]. cbn [negb].
  rewrite !(le_app _ p q) by lia.
  destruct (negb _); [done|]. destruct (negb _); [done|].
  destruct (MsgType.of_u16 _); [|done]. destruct (_ >? _); [done|].
  destruct (_ <? _) eqn:E; [done|]. case_match; [done|]. intros Heq. simplify_eq.
  by rewrite (proj2 (Z.ltb_lt _ _)).
Qed.

(** ** Encoding *)
Lemma le_field n p a v b k : p = a ++ put_le n v ++ b -> k = Z.of_nat (length a) ->
  0 <= v < 2 ^ (8 * Z.of_nat n) -> le n p k = v.
Proof.
  intros -> -> Hv. unfold le. rewrite Nat2Z.id, drop_app_length. by apply get_put_le.
Qed.

Lemma of_to_u16 t : MsgType.of_u16 (MsgType.to_u16 t) = Some t.
Proof. by destruct t. Qed.
Lemma to_u16_bound t : 0 <= MsgType.to_u16 t < 2 ^ (8 * Z.of_nat 2).
Proof. by destruct t. Qed.

(** What a sender may put in a frame: bytes, and no more than the receiver takes. *)
Definition msg_ok (m : Msg) : Prop :=
  u64 (m_seq m) /\ Forall u8 (m_payload m) /\
  Z.of_nat (length (m_payload m)) <= CS_MAX_PROTOCOL_PAYLOAD.
(** A check of it, for concrete messages. *)
Definition msg_okb (m : Msg) : bool :=
  (0 <=? m_seq m) && (m_seq m <? 2 ^ 64) &&
  forallb (fun b => (0 <=? b) && (b <? 256)) (m_payload m) &&
  (Z.of_nat (length (m_payload m)) <=? CS_MAX_PROTOCOL_PAYLOAD).
Lemma msg_okb_ok m : msg_okb m = true -> msg_ok m.
Proof.
  unfold msg_okb, msg_ok. rewrite !andb_true_iff, forallb_Forall, !Z.leb_le, Z.ltb_lt. intros [[[? ?] Hb] ?].
  split; [done|]. split; [|done]. eapply Forall_impl; [exact Hb|]. intros b.
  rewrite andb_true_iff, Z.leb_le, Z.ltb_lt. done.
Qed.
Lemma msgs_okb_ok ms : forallb msg_okb ms = true -> Forall msg_ok ms.
Proof. rewrite forallb_Forall. intros H. eapply Forall_impl; [exact H|]. apply msg_okb_ok. Qed.
Definition encode_msg (m : Msg) : list Z := encode_frame (m_type m) (m_seq m) (m_payload m).

Lemma frame_body_length t seq pl : length (frame_body t seq pl) = (20 + length pl)%nat.
Proof. unfold frame_body. rewrite !length_app, !put_le_length. lia. Qed.
Lemma encode_msg_length m : Z.of_nat (length (encode_msg m)) = 28 + Z.of_nat (length (m_payload m)).
Proof.
  unfold encode_msg, encode_frame. rewrite length_app, frame_body_length, put_le_length. lia.
Qed.
Lemma encode_msg_bytes m : msg_ok m -> Forall u8 (encode_msg m).
Proof.
  intros (_ & Hp & _). unfold encode_msg, encode_frame, frame_body.
  repeat apply Forall_app_2; auto using put_le_bytes.
Qed.

(** Finds the field of width [n] at an offset of [frame_body t seq pl ++ q]. *)
Ltac frame_field prefix :=
  eapply (le_field _ _ prefix);
    [unfold encode_msg, encode_frame, frame_body; cbn [m_type m_seq m_payload]; by rewrite <- !app_assoc|..].
Lemma encode_fields m rest : msg_ok m -> let p := encode_msg m ++ rest in
  le 4 p 0 = CS_PROTOCOL_MAGIC /\ le 2 p 4 = CS_PROTOCOL_VERSION /\
  le 2 p 6 = MsgType.to_u16 (m_type m) /\ le 8 p 8 = m_seq m /\
  le 4 p 16 = Z.of_nat (length (m_payload m)) /\
  le 8 p (20 + Z.of_nat (length (m_payload m))) =
    fnv1a64 (frame_body (m_type m) (m_seq m) (m_payload m)) kProtoSeed.
Proof.
  intros (Hseq & Hpl & Hlen). destruct m as [t seq pl]. cbn [m_type m_seq m_payload] in *.
  unfold CS_MAX_PROTOCOL_PAYLOAD in Hlen. cbv zeta.
  assert (Hw : wrap32 (Z.of_nat (length pl)) = Z.of_nat (length pl)) by (apply Z.mod_small; lia).
  pose proof (to_u16_bound t) as Ht. split_and!.
  - frame_field (@nil Z); done.
  - frame_field (put_le 4 CS_PROTOCOL_MAGIC); done.
  - frame_field (put_le 4 CS_PROTOCOL_MAGIC ++ put_le 2 CS_PROTOCOL_VERSION); done.
  - frame_field (put_le 4 CS_PROTOCOL_MAGIC ++ put_le 2 CS_PROTOCOL_VERSION ++
      put_le 2 (MsgType.to_u16 t)); [done|exact Hseq].
  - rewrite <- Hw. frame_field (put_le 4 CS_PROTOCOL_MAGIC ++ put_le 2 CS_PROTOCOL_VERSION ++
      put_le 2 (MsgType.to_u16 t) ++ put_le 8 seq); [done|rewrite Hw; simpl; lia].
  - eapply (le_field _ _ (frame_body t seq pl)); [|rewrite frame_body_length; lia|apply fnv1a64_u64; by vm_compute].
    unfold encode_msg, encode_frame. cbn [m_type m_seq m_payload]. by rewrite <- app_assoc.
Qed.
Lemma encode_body m rest :
  take (Z.to_nat (20 + Z.of_nat (length (m_payload m)))) (encode_msg m ++ rest) =
    frame_body (m_type m) (m_seq m) (m_payload m) /\
  take (Z.to_nat (Z.of_nat (length (m_payload m)))) (drop (Z.to_nat 20) (encode_msg m ++ rest)) = m_payload m.
Proof.
  unfold encode_msg, encode_frame. rewrite <- app_assoc. split.
  - apply take_app_length'. rewrite frame_body_length. lia.
  - unfold frame_body. rewrite <- !app_assoc.
    rewrite !(drop_app_ge (put_le _ _)) by (rewrite !put_le_length; simpl; lia).
    rewrite !put_le_length. simpl. rewrite drop_0, Nat2Z.id. apply take_app_length.
Qed.
Lemma decode_step_encode m rest : msg_ok m ->
  decode_step (encode_msg m ++ rest) =
  frame_msg m (Z.of_nat (length (encode_msg m))).
Proof.
  intros Hm. destruct (encode_fields m rest Hm) as (H0 & H4 & H6 & H8 & H16 & Hck).
  destruct (encode_body m rest) as [Hbody Hpl]. destruct Hm as (_ & _ & Hlen).
  unfold CS_MAX_PROTOCOL_PAYLOAD in Hlen.
  assert (Hlp : Z.of_nat (length (encode_msg m ++ rest)) =
    28 + Z.of_nat (length (m_payload m)) + Z.of_nat (length rest))
    by (rewrite length_app, Nat2Z.inj_add, encode_msg_length; done).
  set (p := encode_msg m ++ rest) in *.
  unfold decode_step, kHeaderSize, kChecksumSize, CS_MAX_PROTOCOL_PAYLOAD.
  rewrite H0, H4, H6, H8, H16, Hck, of_to_u16, !Z.eqb_refl.
  destruct (Z.geb_spec (Z.of_nat (length p)) 20); [|lia]. cbn [negb].
  destruct (Z.gtb_spec (Z.of_nat (length (m_payload m))) (16 * 1024 * 1024)); [lia|].
  destruct (Z.ltb_spec (Z.of_nat (length p)) (20 + Z.of_nat (length (m_payload m)) + 8)); [lia|].
  rewrite Hbody, Hpl, Z.eqb_refl, encode_msg_length. cbn [negb].
  destruct m. f_equal. lia.
Qed.

Definition encode_all (ms : list Msg) : list Z := concat (encode_msg <$> ms).
Lemma parses_encode ms q ms' ok rest : Forall msg_ok ms ->
  parses q ms' ok rest -> parses (encode_all ms ++ q) (ms ++ ms') ok rest.
Proof.
  intros Hms Hq. induction Hms as [|m ms Hm Hms IH]; [done|].
  unfold encode_all. rewrite fmap_cons. cbn [concat app]. rewrite <- app_assoc.
  econstructor; [by apply decode_step_encode|]. by rewrite Nat2Z.id, drop_app_length.
Qed.
Lemma encode_all_bytes ms : Forall msg_ok ms -> Forall u8 (encode_all ms).
Proof.
  induction 1 as [|m ms Hm Hms IH]; [constructor|]. unfold encode_all. rewrite fmap_cons.
  apply Forall_app_2; [by apply encode_msg_bytes|done].
Qed.

(** A malformed frame stays malformed when more bytes follow. *)
Lemma decode_step_malformed_app p q : Forall u8 p -> decode_step p = frame_malformed ->
  decode_step (p ++ q) = frame_malformed.
Proof.
  intros Hp. pose proof (le_nonneg 4 p 16 Hp) as H16.
  unfold decode_step, kHeaderSize, kChecksumSize in *. rewrite length_app, Nat2Z.inj_add.
  destruct (Z.geb_spec (Z.of_nat (length p)) 20), (Z.geb_spec (Z.of_nat (length p) + Z.of_nat (length q)) 20);
    try lia; cbn [negb]; [|done..].
  rewrite !(le_app 4 p q), !(le_app 2 p q) by lia.
  destruct (negb _); [done|]. destruct (negb _); [done|].
  destruct (MsgType.of_u16 _); [|done]. destruct (_ >? _); [done|].
  destruct (Z.ltb_spec (Z.of_nat (length p)) (20 + le 4 p 16 + 8)); [done|].
  destruct (Z.ltb_spec (Z.of_nat (length p) + Z.of_nat (length q)) (20 + le 4 p 16 + 8)); [lia|].
  rewrite (le_app 8 p q), take_app_le by lia. by destruct (negb _).
Qed.
Lemma parses_malformed_app p ms r q : Forall u8 p ->
  parses p ms false r -> parses (p ++ q) ms false (r ++ q).
Proof.
  intros Hp H. remember false as b eqn:Hb. induction H as [p E|p|p m n ms ok rest E H IH]; [|done|].
  - constructor. by apply decode_step_malformed_app.
  - pose proof (decode_step_msg _ _ _ Hp E) as Hn. econstructor; [by apply decode_step_app|].
    rewrite drop_app_le by lia. apply IH; [by apply Forall_drop|done].
Qed.
Lemma parses_bytes p ms ok r : Forall u8 p -> parses p ms ok r -> Forall u8 r.
Proof. intros Hp H. induction H; try done. by apply IHparses, Forall_drop. Qed.

(** The receive loop of a session, without the handling of the messages: each
    chunk is appended to the buffer and the complete frames are taken off. *)
Fixpoint feed (buf : list Z) (chunks : list (list Z)) : bool * list Z * list Msg :=
  match chunks with
  | [] => (true, buf, [])
  | chunk :: chunks' =>
      match decode_frames (buf ++ chunk) [] with
      | (false, buf', ms) => (false, buf', ms)
      | (true, buf', ms) => let '(ok, rest, ms') := feed buf' chunks' in (ok, rest, ms ++ ms')
      end
  end.
Lemma feed_parses buf chunks : Forall u8 buf -> Forall (Forall u8) chunks -> parses buf [] true buf ->
  exists ms ok r, parses (buf ++ concat chunks) ms ok r /\ (feed buf chunks).1.1 = ok /\
    (feed buf chunks).2 = ms /\ (ok = true -> (feed buf chunks).1.2 = r).
Proof.
  intros Hb Hc. revert buf Hb. induction Hc as [|c cs Hc Hcs IH]; intros buf Hb Hinc.
  { exists [], true, buf. by rewrite app_nil_r. }
  assert (Forall u8 (buf ++ c)) as Hbc by by apply Forall_app_2.
  destruct (decode_frames_parses (buf ++ c) [] Hbc) as (ms & ok & r & Hp & E).
  cbn [feed concat]. rewrite E. cbn [app]. rewrite app_assoc. destruct ok.
  - assert (parses r [] true r) as Hr.
    { clear -Hp. remember true as b eqn:Hb. induction Hp; [done|by constructor|by auto]. }
    destruct (IH r) as (ms2 & ok2 & r2 & Hp2 & E1 & E2 & E3);
      [by eapply parses_bytes|done|]. exists (ms ++ ms2), ok2, r2.
    split; [by eapply parses_app|]. destruct (feed r cs) as [[ok' r'] ms']. simpl in *. by subst.
  - exists ms, false, (r ++ concat cs). by split; [apply parses_malformed_app|].
Qed.

(** The decoder does not depend on how the stream is cut: the frames taken
    off chunk by chunk, up to the end or to the first malformed frame, are those
    of the whole stream decoded at once, and so is the verdict. *)
Theorem decode_any_cut chunks : Forall (Forall u8) chunks ->
  (feed [] chunks).1.1 = (decode_frames (concat chunks) []).1.1 /\
  (feed [] chunks).2 = (decode_frames (concat chunks) []).2 /\
  ((feed [] chunks).1.1 = true -> (feed [] chunks).1.2 = (decode_frames (concat chunks) []).1.2).
Proof.
  intros Hc. destruct (feed_parses [] chunks) as (ms & ok & r & Hp & E1 & E2 & E3);
    [constructor|done|by constructor|]. cbn [app] in Hp.
  rewrite (decode_frames_iff _ [] ms ok r); [|by apply Forall_concat|done]. cbn [fst snd app].
  split_and!; [done|done|]. rewrite E1. intros ->. by apply E3.
Qed.
Example decode_any_cut_witness :
  let f := encode_frame MsgType.HELLO 7 [1; 2; 3] in
  feed [] [take 5 f; drop 5 f ++ take 30 f] = (true, take 30 f, [mkMsg MsgType.HELLO 7 [1; 2; 3]]).
Proof.
  set (f := encode_frame MsgType.HELLO 7 [1; 2; 3]). cbv zeta.
  destruct (decode_any_cut [take 5 f; drop 5 f ++ take 30 f]) as (H1 & H2 & H3).
  - refine (bool_decide_eq_true_1 _ _). vm_compute. reflexivity.
  - destruct (feed [] [take 5 f; drop 5 f ++ take 30 f]) as [[ok r] ms].
    vm_compute in H1. vm_compute in H2. vm_compute in H3. cbn in *. subst. by rewrite (H3 eq_refl).
Defined.

(** ** Corruption *)
Lemma le_splice n l1 x y t k : 0 <= k ->
  k + Z.of_nat n <= Z.of_nat (length l1) \/ Z.of_nat (length l1) < k ->
  le n (l1 ++ y :: t) k = le n (l1 ++ x :: t) k.
Proof.
  intros Hk [Hl|Hl]; [by rewrite !le_app|]. unfold le. rewrite !drop_app_ge by lia.
  by replace (Z.to_nat k - length l1)%nat with (S (Z.to_nat k - length l1 - 1)) by lia.
Qed.
Lemma decode_bad_checksum p n : le 4 p 16 = n -> 0 <= n <= CS_MAX_PROTOCOL_PAYLOAD ->
  28 + n <= Z.of_nat (length p) ->
  le 8 p (20 + n) <> fnv1a64 (take (Z.to_nat (20 + n)) p) kProtoSeed -> decode_step p = frame_malformed.
Proof.
  intros H16 Hn Hlen Hck. unfold decode_step, kHeaderSize, kChecksumSize in *. rewrite H16.
  destruct (Z.geb_spec (Z.of_nat (length p)) 20); [|lia]. cbn [negb].
  destruct (negb _); [done|]. destruct (negb _); [done|]. destruct (MsgType.of_u16 _); [|done].
  destruct (Z.gtb_spec n CS_MAX_PROTOCOL_PAYLOAD); [lia|].
  destruct (Z.ltb_spec (Z.of_nat (length p)) (20 + n + 8)); [lia|].
  by rewrite (proj2 (Z.eqb_neq _ _)).
Qed.

(** C40: corruption is detected.  When one byte of an encoded frame is changed,
    anywhere but in the four bytes of the length field, the decoder takes no
    message from it, whatever follows: it reports the stream as malformed. *)
Theorem frame_corruption_detected m l1 x y l2 rest : msg_ok m ->
  encode_msg m = l1 ++ x :: l2 -> u8 y -> y <> x -> ~ (16 <= Z.of_nat (length l1) < 20) ->
  decode_frames (l1 ++ y :: l2 ++ rest) [] = (false, l1 ++ y :: l2 ++ rest, []).
Proof.
  intros Hm E Hy Hne Hpos. assert (decode_step (l1 ++ y :: l2 ++ rest) = frame_malformed) as Hs.
  - pose proof (encode_msg_length m) as Hl. rewrite E, length_app in Hl. cbn [length] in Hl.
    destruct (encode_fields m rest Hm) as (_ & _ & _ & _ & H16 & _). pose proof Hm as (_ & _ & Hmax).
    apply (decode_bad_checksum _ (Z.of_nat (length (m_payload m)))); [|lia| |].
    + rewrite <- H16, E, <- app_assoc. cbn [app]. apply le_splice; lia.
    + rewrite length_app. cbn [length]. rewrite length_app. lia.
    + pose proof (frame_body_length (m_type m) (m_seq m) (m_payload m)) as Hbl.
      pose proof (encode_msg_bytes m Hm) as Hb. unfold encode_msg, encode_frame in E, Hb.
      apply Forall_app in Hb as [Hb _].
      replace (20 + Z.of_nat (length (m_payload m))) with (Z.of_nat (20 + length (m_payload m))) by lia.
      unfold le. rewrite Nat2Z.id, <- Hbl.
      apply (checksum_detects _ kProtoSeed l1 x y l2 rest); [by vm_compute|exact Hb|exact E|exact Hy|exact Hne].
  - unfold decode_frames. cbn [decode_loop]. change (Z.to_nat 0) with 0%nat. by rewrite drop_0, Hs.
Qed.
Example frame_corruption_detected_witness :
  let f := encode_frame MsgType.HELLO 7 [1; 2; 3] in
  decode_frames (take 21 f ++ 9 :: drop 22 f ++ []) [] = (false, take 21 f ++ 9 :: drop 22 f ++ [], []).
Proof.
  apply (frame_corruption_detected (mkMsg MsgType.HELLO 7 [1; 2; 3]) _ 2 9 _ []); try done.
  - split; [done|]. split; [|done]. by repeat constructor.
  - intros H. vm_compute in H. destruct H as [_ H]. discriminate H.
Defined.

(** A stream of frames is read back.  Whatever way the bytes of encoded
    messages are cut into chunks, the decoder returns exactly those messages in
    order, reports no error and leaves nothing in the buffer. *)
Theorem stream_round_trip ms chunks : Forall msg_ok ms -> concat chunks = encode_all ms ->
  feed [] chunks = (true, [], ms).
Proof.
  intros Hms E. pose proof (encode_all_bytes ms Hms) as Hb. rewrite <- E in Hb. apply Forall_concat in Hb.
  destruct (feed_parses [] chunks) as (ms' & ok & r & Hp & E1 & E2 & E3); [constructor|done|by constructor|].
  cbn [app] in Hp. rewrite E in Hp. rewrite <- (app_nil_r (encode_all ms)) in Hp.
  pose proof (parses_encode ms [] [] true [] Hms (parses_incomplete [] eq_refl)) as Hp'.
  rewrite (app_nil_r ms) in Hp'.
  pose proof (parses_det _ _ _ _ _ _ _ Hp Hp') as Hd. injection Hd as -> -> ->.
  destruct (feed [] chunks) as [[ok r] ms']. simpl in *. subst. by rewrite (E3 eq_refl).
Qed.
Example stream_round_trip_witness :
  let m := mkMsg MsgType.SAVE 3 [] in
  feed [] [take 9 (encode_msg m); drop 9 (encode_msg m) ++ encode_msg m] = (true, [], [m; m]).
Proof.
  apply stream_round_trip; [|by vm_compute]. by repeat constructor.
Defined.

(** ** The receive loops

    [Coordinator::session] and the worker's [main] read from their socket in the
    same way: while [stop] does not hold, append the chunk that [recv] returns to
    the buffer, take the complete frames off and handle them in order; an empty
    chunk (the peer closed) or a malformed frame ends the loop. *)
Fixpoint receive {E S} (stop : S -> bool) (handle : Msg -> M E S unit) (buf : list Z)
    (chunks : list (list Z)) : M E S unit :=
  match chunks with
  | [] => mret tt
  | chunk :: chunks' =>
      s ← get_state;
      if stop s then mret tt
      else match chunk with
      | [] => mret tt
      | _ =>
          match decode_frames (buf ++ chunk) [] with
          | (false, _, _) => mret tt
          | (true, buf', msgs) => mfor handle msgs;; receive stop handle buf' chunks'
          end
      end
  end.

Lemma mfor_app {E S A} (f : A -> M E S unit) l1 l2 s : mfor f (l1 ++ l2) s = (mfor f l1;; mfor f l2) s.
Proof.
  revert s. induction l1 as [|x l1 IH]; intros s; [done|]. cbn [app mfor]. unfold mbind, M_bind in *.
  destruct (f x s) as [[[]|e] s1]; [apply IH|done].
Qed.
Lemma parses_rest p ms r : parses p ms true r -> parses r [] true r.
Proof. intros H. remember true as b eqn:Hb. induction H; [done|by constructor|by auto]. Qed.

Section receive.
Context {E S : Type} (stop : S -> bool) (handle : Msg -> M E S unit).
(** [m] does not end the loop. *)
Definition continues (m : Msg) : Prop := forall s, stop (exec (handle m) s) = stop s.

(** The loop does not end while messages are left. *)
Fixpoint keeps_on (ms : list Msg) (s : S) : Prop :=
  match ms with
  | [] => True
  | m :: ms' => stop s = false /\ keeps_on ms' (exec (handle m) s)
  end.
Lemma continues_keeps_on ms s : Forall continues ms -> stop s = false -> keeps_on ms s.
Proof.
  intros Hms. revert s. induction Hms as [|m ms Hm Hms IH]; intros s Hs; [done|]. split; [done|].
  apply IH. by rewrite Hm.
Qed.
Lemma keeps_on_app ms1 ms2 s s1 : keeps_on (ms1 ++ ms2) s -> mfor handle ms1 s = (Ok tt, s1) ->
  keeps_on ms2 s1.
Proof.
  revert s. induction ms1 as [|m ms1 IH]; intros s; cbn [app mfor keeps_on]; [by intros ? [= <-]|].
  intros [_ H]. unfold mbind, M_bind, exec in *. destruct (handle m s) as [[[]|e] s']; [|done]. by apply IH.
Qed.
Lemma receive_parses buf chunks ms rest s :
  Forall u8 buf -> Forall (Forall u8) chunks -> Forall (fun ch => ch <> []) chunks ->
  keeps_on ms s -> parses buf [] true buf -> parses (buf ++ concat chunks) ms true rest ->
  receive stop handle buf chunks s = mfor handle ms s.
Proof.
  intros Hb Hc. revert buf Hb ms s. induction Hc as [|ch chunks Hch Hc IH]; intros buf Hb ms s Hne Hms Hbuf Hp.
  { cbn [concat] in Hp. rewrite app_nil_r in Hp. by pose proof (parses_det _ _ _ _ _ _ _ Hp Hbuf) as [= -> ->]. }
  apply Forall_cons in Hne as [Hn0 Hne]. cbn [receive]. rewrite bind_get.
  destruct (stop s) eqn:Hrun; [destruct ms as [|m ms]; [done|]; destruct Hms; congruence|].
  assert (Forall u8 (buf ++ ch)) as Hbc by by apply Forall_app_2.
  destruct (decode_frames_parses (buf ++ ch) [] Hbc) as (ms1 & ok & r1 & Hp1 & E1).
  destruct ch as [|x ch]; [done|]. rewrite E1. cbn [concat] in Hp. rewrite app_assoc in Hp. destruct ok.
  2:{ pose proof (parses_malformed_app _ _ _ (concat chunks) Hbc Hp1) as Hbad.
      by pose proof (parses_det _ _ _ _ _ _ _ Hp Hbad). }
  assert (Forall u8 r1) as Hr1 by by eapply parses_bytes.
  assert (Forall u8 (r1 ++ concat chunks)) as Hr1c by (apply Forall_app_2; [done|by apply Forall_concat]).
  destruct (decode_frames_parses (r1 ++ concat chunks) [] Hr1c) as (ms2 & ok2 & r2 & Hp2 & _).
  pose proof (parses_det _ _ _ _ _ _ _ Hp (parses_app _ _ _ _ _ _ _ Hbc Hp1 Hp2)) as [= -> <- <-].
  cbn [app]. rewrite mfor_app.
  destruct (mfor handle ms1 s) as [[[]|e] s1] eqn:Em.
  - rewrite !(bind_ok _ _ _ _ _ Em). apply IH; try done; [by eapply keeps_on_app|by eapply parses_rest].
  - by rewrite !(bind_throw _ _ _ _ _ Em).
Qed.
(** The messages that were sent are handled, each once and in order, however the
    stream is cut. *)
Lemma receive_any_cut ms chunks s : Forall msg_ok ms -> keeps_on ms s ->
  concat chunks = encode_all ms -> Forall (fun ch => ch <> []) chunks ->
  receive stop handle [] chunks s = mfor handle ms s.
Proof.
  intros Hok Hms Ec Hne.
  assert (Forall (Forall u8) chunks) as Hb.
  { apply Forall_concat. rewrite Ec. by apply encode_all_bytes. }
  pose proof (parses_encode ms [] [] true [] Hok (parses_incomplete [] eq_refl)) as Hp.
  rewrite !app_nil_r in Hp.
  apply (receive_parses [] chunks ms []); try done; [by constructor|]. cbn [app]. by rewrite Ec.
Qed.
End receive.
