(* ===== verification/State.v ===== *)
(** * State: the scheduler's internal state (scheduler.cpp, lines 27-125)

    [SRecord] is [Scheduler::Record], [GrantState] is [Scheduler::GrantState] and
    [Impl] the data members of [Scheduler::Impl]; the mutex and the three port
    pointers are left out (an operation of the model is one critical section, and
    the ports are the environment, see Ports).  [std::unordered_map] and
    [std::map] are finite maps, [std::set] is a finite set; where the code
    iterates over an unordered map, the operation takes the iteration order as an
    argument. *)
From S2P Require Import Prelude Enums Identity Error Float64 Domain Lifecycle Conflict.

(** [struct Scheduler::Record]. *)
Record SRecord : Set := mkSRecord {
  rec_request : CollectiveRequest;
  rec_lifecycle : LifecycleState.t;
  rec_last_readiness : Readiness.t;
  rec_enqueue_seq : Z;
  rec_age_ticks : Z;
  rec_fairness : FairnessAccount;
  rec_eligibility_reasons : list RejectionReason.t;
  rec_hard_eligible : bool;
  rec_in_ready_queue : bool;
  rec_footprint : Footprint;
  rec_current_grant : option CollectiveGrant;
  rec_grant_epoch : CoordinatorEpoch;
}.
#[export] Instance SRecord_eta : Eta SRecord := fun r =>
  mkSRecord (rec_request r) (rec_lifecycle r) (rec_last_readiness r) (rec_enqueue_seq r)
    (rec_age_ticks r) (rec_fairness r) (rec_eligibility_reasons r) (rec_hard_eligible r)
    (rec_in_ready_queue r) (rec_footprint r) (rec_current_grant r) (rec_grant_epoch r).
(** [Record rec;].  [last_readiness] has no initializer; the READY here stands for
    any value, since nothing reads it before a round has written it
    ([Schedule.uninitialized_readiness_unread]). *)
Definition SRecord_default : SRecord := {|
  rec_request := CollectiveRequest_default;
  rec_lifecycle := LifecycleState.DECLARED;
  rec_last_readiness := Readiness.READY;
  rec_enqueue_seq := 0;
  rec_age_ticks := 0;
  rec_fairness := FairnessAccount_default;
  rec_eligibility_reasons := [];
  rec_hard_eligible := false;
  rec_in_ready_queue := false;
  rec_footprint := Footprint_default;
  rec_current_grant := None;
  rec_grant_epoch := mkGen 0;
|}.

(** [struct Scheduler::GrantState]. *)
Record GrantState : Set := mkGrantState {
  gs_grant : CollectiveGrant;
  gs_handed_off : bool;
  gs_active : bool;
  gs_terminal : bool;
  gs_completed_by : WorkerBootId;
  gs_completed_by_source : SourceBootId;
}.
#[export] Instance GrantState_eta : Eta GrantState := fun r =>
  mkGrantState (gs_grant r) (gs_handed_off r) (gs_active r) (gs_terminal r)
    (gs_completed_by r) (gs_completed_by_source r).

(** The data members of [class Scheduler::Impl]. *)
Record Impl : Set := mkImpl {
  im_epoch : CoordinatorEpoch;
  im_now : Z;
  im_policy : PolicyConfig;
  im_records : gmap CollectiveRequestId SRecord;
  im_participants : gmap ParticipantId Participant;
  im_plans : gmap CommunicationPlanId CommunicationPlan;
  im_deps : gmap DependencyId DependencyState;
  im_reservations : gmap ReservationGeneration Reservation;
  im_congestion : option CongestionState;
  im_capacity : option CapacityState;
  im_grants : gmap CollectiveGrantId GrantState;
  im_participant_requests : gmap ParticipantId (gset CollectiveRequestId);
  im_active_by_participant : gmap ParticipantId (gset CollectiveGrantId);
  im_next_seq : Z;
  im_next_request_id : CollectiveRequestId;
  im_next_schedule_id : CollectiveScheduleId;
  im_next_grant_id : CollectiveGrantId;
  im_next_group_id : CollectiveGroupId;
  im_next_schedule_gen : CollectiveScheduleGeneration;
  im_next_grant_gen : CollectiveGrantGeneration;
  im_next_group_gen : CollectiveGroupGeneration;
  im_active_grants : Z;
  im_queued_count : Z;
  im_ready_count : Z;
  im_eligible_count : Z;
  im_retired_count : Z;
  im_schedule_counter : Z;
  im_capacity_gen : CapacityGeneration;
  im_congestion_gen : CongestionGeneration;
  im_reservation_gen : ReservationGeneration;
  im_policy_gen : PolicyGeneration;
  im_priority_gen : PriorityGeneration;
  im_fairness_gen : FairnessGeneration;
  im_topology_gen : TopologyGeneration;
  im_capability_gen : CapabilityGeneration;
  im_health_gen : HealthGeneration;
}.
#[export] Instance Impl_eta : Eta Impl := fun s =>
  mkImpl (im_epoch s) (im_now s) (im_policy s) (im_records s) (im_participants s) (im_plans s)
    (im_deps s) (im_reservations s) (im_congestion s) (im_capacity s) (im_grants s)
    (im_participant_requests s) (im_active_by_participant s) (im_next_seq s)
    (im_next_request_id s) (im_next_schedule_id s) (im_next_grant_id s) (im_next_group_id s)
    (im_next_schedule_gen s) (im_next_grant_gen s) (im_next_group_gen s) (im_active_grants s)
    (im_queued_count s) (im_ready_count s) (im_eligible_count s) (im_retired_count s)
    (im_schedule_counter s) (im_capacity_gen s) (im_congestion_gen s) (im_reservation_gen s)
    (im_policy_gen s) (im_priority_gen s) (im_fairness_gen s) (im_topology_gen s)
    (im_capability_gen s) (im_health_gen s).

(** Computes nested updates of [Impl]: the result is one constructor application.
    (Left to conversion, two such terms are compared projection by projection.) *)
Ltac norm_impl := cbv beta iota delta [set
    im_epoch im_now im_policy im_records im_participants im_plans im_deps im_reservations
    im_congestion im_capacity im_grants im_participant_requests im_active_by_participant
    im_next_seq im_next_request_id im_next_schedule_id im_next_grant_id im_next_group_id
    im_next_schedule_gen im_next_grant_gen im_next_group_gen im_active_grants
    im_queued_count im_ready_count im_eligible_count im_retired_count im_schedule_counter
    im_capacity_gen im_congestion_gen im_reservation_gen im_policy_gen im_priority_gen
    im_fairness_gen im_topology_gen im_capability_gen im_health_gen].

(** The constructor [Scheduler(Options opts)], with the default member
    initializers of [Impl]. *)
Definition Scheduler_new (start_epoch : CoordinatorEpoch) (policy : PolicyConfig) : Impl := {|
  im_epoch := start_epoch;
  im_now := 0;
  im_policy := policy;
  im_records := ∅;
  im_participants := ∅;
  im_plans := ∅;
  im_deps := ∅;
  im_reservations := ∅;
  im_congestion := None;
  im_capacity := None;
  im_grants := ∅;
  im_participant_requests := ∅;
  im_active_by_participant := ∅;
  im_next_seq := 0;
  im_next_request_id := mkId 1;
  im_next_schedule_id := mkId 1;
  im_next_grant_id := mkId 1;
  im_next_group_id := mkId 1;
  im_next_schedule_gen := mkGen 1;
  im_next_grant_gen := mkGen 1;
  im_next_group_gen := mkGen 1;
  im_active_grants := 0;
  im_queued_count := 0;
  im_ready_count := 0;
  im_eligible_count := 0;
  im_retired_count := 0;
  im_schedule_counter := 0;
  im_capacity_gen := mkGen 0;
  im_congestion_gen := mkGen 0;
  im_reservation_gen := mkGen 0;
  im_policy_gen := mkGen 0;
  im_priority_gen := mkGen 1;
  im_fairness_gen := mkGen 1;
  im_topology_gen := mkGen 0;
  im_capability_gen := mkGen 0;
  im_health_gen := mkGen 0;
|}.
(** [Options{}]. *)
Definition Scheduler_default : Impl := Scheduler_new (mkGen 1) PolicyConfig_default.

(** A member function of [Impl]: it mutates the state and may throw. *)
Abbreviation SM := (M scheduler_error Impl).

(** [records[id]]: [operator[]] default-constructs a missing record. *)
Definition record_at (s : Impl) (id : CollectiveRequestId) : SRecord :=
  default SRecord_default (im_records s !! id).
Definition set_record (id : CollectiveRequestId) (r : SRecord) (s : Impl) : Impl :=
  s <| im_records ::= <[id := r]> |>.
Definition set_grant (gid : CollectiveGrantId) (gs : GrantState) (s : Impl) : Impl :=
  s <| im_grants ::= <[gid := gs]> |>.

(** [lifecycle.transition(to)] on a record. *)
Definition rec_transition (to : LifecycleState.t) : M scheduler_error SRecord unit := fun r =>
  match transition (rec_lifecycle r) to with
  | Ok st => (Ok tt, r <| rec_lifecycle := st |>)
  | Throw e => (Throw e, r)
  end.
(** [try { lifecycle.transition(to); } catch (const scheduler_error&) {}]. *)
Definition try_transition (to : LifecycleState.t) (r : SRecord) : SRecord :=
  exec (rec_transition to) r.
(** [try { lifecycle.transition(to); } catch (...) { lifecycle = Lifecycle(to); }]. *)
Definition force_transition (to : LifecycleState.t) (r : SRecord) : SRecord :=
  match rec_transition to r with
  | (Ok _, r') => r'
  | (Throw _, r') => r' <| rec_lifecycle := to |>
  end.

(** [make_snapshot]. *)
Definition make_snapshot (s : Impl) : EvidenceSnapshot :=
  EvidenceSnapshot_default
    <| ev_epoch := im_epoch s |>
    <| ev_policy_gen := im_policy_gen s |>
    <| ev_priority_gen := im_priority_gen s |>
    <| ev_fairness_gen := im_fairness_gen s |>
    <| ev_congestion_gen := im_congestion_gen s |>
    <| ev_capacity_gen := im_capacity_gen s |>
    <| ev_reservation_gen := im_reservation_gen s |>
    <| ev_topology_gen := im_topology_gen s |>
    <| ev_capability_gen := im_capability_gen s |>
    <| ev_health_gen := im_health_gen s |>.

(** [index_active_grant], [deindex_active_grant]. *)
Definition index_active_grant (g : CollectiveGrant) (s : Impl) : Impl :=
  s <| im_active_by_participant ::= fun m =>
    foldl (fun m pid => <[pid := {[g_id g]} ∪ default ∅ (m !! pid)]> m) m (g_participants g) |>.
Definition deindex_active_grant (g : CollectiveGrant) (s : Impl) : Impl :=
  s <| im_active_by_participant ::= fun m =>
    foldl (fun m pid =>
      match m !! pid with
      | None => m
      | Some st =>
          let st := st ∖ {[g_id g]} in
          if decide (st = ∅) then delete pid m else <[pid := st]> m
      end) m (g_participants g) |>.

(** [ord] lists the keys of [m], each once: an iteration order of the map. *)
Definition enumerates {K A} `{Countable K} (ord : list K) (m : gmap K A) : Prop :=
  NoDup ord /\ forall k, k ∈ ord <-> is_Some (m !! k).
(** One such order, for closed examples. *)
Definition keys {K A} `{Countable K} (m : gmap K A) : list K := (map_to_list m).*1.
Lemma keys_enumerates {K A} `{Countable K} (m : gmap K A) : enumerates (keys m) m.
Proof.
  split; [apply NoDup_fst_map_to_list|]. intros k. unfold keys.
  rewrite list_elem_of_fmap. split.
  - intros ([k' a] & -> & Hin). apply elem_of_map_to_list in Hin. by exists a.
  - intros [a Ha]. exists (k, a). split; [done|]. by apply elem_of_map_to_list.
Qed.
Lemma enumerates_perm {K A} `{Countable K} (m : gmap K A) l1 l2 :
  enumerates l1 m -> enumerates l2 m -> l1 ≡ₚ l2.
Proof.
  intros [Hn1 H1] [Hn2 H2]. apply NoDup_Permutation; [done..|]. intros k. by rewrite H1, H2.
Qed.
Lemma update_along_all {K A} `{Countable K} (f : A -> A) d (m : gmap K A) l :
  enumerates l m -> update_along (fun _ => f) d l m = f <$> m.
Proof.
  intros [Hn Hl]. apply map_eq. intros k. rewrite update_along_lookup, lookup_fmap by done.
  destruct (m !! k) as [a|] eqn:E.
  - rewrite decide_True; [done|]. apply Hl. by rewrite E.
  - rewrite decide_False; [done|]. rewrite Hl, E. by intros [? ?].
Qed.

(** ** Evidence *)

(** What readiness, eligibility and ranking read of the state besides the record
    itself. *)
Definition evidence (s : Impl) :=
  (im_now s, im_policy s, im_participants s, im_plans s, im_deps s,
   (im_reservations s, im_reservation_gen s, im_congestion s, im_capacity s)).
Definition same_evidence (s1 s2 : Impl) : Prop := evidence s1 = evidence s2.
#[export] Instance same_evidence_equiv : Equivalence same_evidence.
Proof. unfold same_evidence. split; [by intros ?|by intros ? ? ?|by intros ? ? ? -> ->]. Qed.
Lemma same_evidence_fields s1 s2 : same_evidence s1 s2 ->
  im_now s1 = im_now s2 /\ im_policy s1 = im_policy s2 /\
  im_participants s1 = im_participants s2 /\ im_plans s1 = im_plans s2 /\
  im_deps s1 = im_deps s2 /\ im_reservations s1 = im_reservations s2 /\
  im_reservation_gen s1 = im_reservation_gen s2 /\ im_congestion s1 = im_congestion s2 /\
  im_capacity s1 = im_capacity s2.
Proof. unfold same_evidence, evidence. intros E. by simplify_eq. Qed.

(** ** The index of active grants *)

(** Grant [gid] is indexed under participant [pid]. *)
Definition active_on (s : Impl) (pid : ParticipantId) (gid : CollectiveGrantId) : Prop :=
  gid ∈ default ∅ (im_active_by_participant s !! pid).
Lemma index_active_on g s pid gid :
  active_on (index_active_grant g s) pid gid <->
  active_on s pid gid \/ gid = g_id g /\ pid ∈ g_participants g.
Proof.
  unfold active_on, index_active_grant. cbn [im_active_by_participant set].
  generalize (im_active_by_participant s) as m. induction (g_participants g) as [|p ps IH]; intros m; simpl.
  - set_solver.
  - rewrite IH, elem_of_cons. destruct (decide (p = pid)) as [->|Hne].
    + rewrite lookup_insert_eq. simpl. set_solver.
    + rewrite lookup_insert_ne by done. intuition congruence.
Qed.
Lemma deindex_active_on g s pid gid :
  active_on (deindex_active_grant g s) pid gid <->
  active_on s pid gid /\ ~ (gid = g_id g /\ pid ∈ g_participants g).
Proof.
  unfold active_on, deindex_active_grant. cbn [im_active_by_participant set].
  generalize (im_active_by_participant s) as m. induction (g_participants g) as [|p ps IH]; intros m; simpl.
  - set_solver.
  - rewrite IH, elem_of_cons. clear IH. destruct (m !! p) as [st|] eqn:Em; [|].
    + destruct (decide (p = pid)) as [->|Hne].
      * rewrite Em. cbn [default]. case_decide as Hd.
        -- rewrite lookup_delete_eq. cbn [default]. set_solver.
        -- rewrite lookup_insert_eq. cbn [default]. set_solver.
      * case_decide; rewrite ?lookup_delete_ne, ?lookup_insert_ne by done; intuition congruence.
    + destruct (decide (p = pid)) as [->|Hne]; [rewrite Em; cbn [default]; set_solver|intuition congruence].
Qed.

(** ** The setters leave the other fields alone *)
Lemma force_transition_lifecycle to r : rec_lifecycle (force_transition to r) = to.
Proof.
  unfold force_transition, rec_transition.
  destruct (transition (rec_lifecycle r) to) eqn:E; simpl; [|done].
  by apply transition_ok in E as [_ ->].
Qed.
Lemma try_transition_lifecycle to r :
  rec_lifecycle (try_transition to r) =
  if can_transition (rec_lifecycle r) to then to else rec_lifecycle r.
Proof.
  unfold try_transition, exec, rec_transition, transition.
  by destruct (can_transition (rec_lifecycle r) to).
Qed.
