(* ===== verification/Samples.v ===== *)
(** * Samples: a small concrete scheduler state

    Three collectives on four participants: collectives 1 and 2 use disjoint
    participants and links and may overlap, collective 3 shares a participant
    with collective 1.  The theorems' witnesses evaluate on this state. *)
From S2P Require Import Prelude Enums Identity Error Float64 Domain Lifecycle Conflict State.

Definition sample_participant (pid : Z) : Participant :=
  Participant_default
    <| p_id := mkId pid |> <| p_gen := mkGen 1 |> <| p_worker := mkId 7 |>
    <| p_worker_boot := mkId 70 |> <| p_source_boot := mkId 100 |>
    <| p_ready := true |> <| p_readiness_source := ProvenanceStatus.REAL |>.
Definition sample_plan (id link : Z) : CommunicationPlan :=
  CommunicationPlan_default
    <| pl_id := mkId id |> <| pl_gen := mkGen 1 |> <| pl_links := [mkId link] |>
    <| pl_valid := true |>.
Definition sample_request (id coll : Z) (ps : list Z) (plan : Z) (overlap : OverlapMode.t)
    : CollectiveRequest :=
  CollectiveRequest_default
    <| rq_id := mkId id |> <| rq_gen := mkGen 1 |>
    <| rq_collective := mkId coll |> <| rq_collective_gen := mkGen 1 |>
    <| rq_kind := CollectiveKind.ALL_REDUCE |>
    <| rq_participants := mkId <$> ps |>
    <| rq_participant_gens := (fun _ => mkGen 1) <$> ps |>
    <| rq_plan_id := mkId plan |> <| rq_plan_gen := mkGen 1 |>
    <| rq_overlap := overlap |>
    <| rq_workload := mkId 500 |> <| rq_workload_gen := mkGen 1 |>.
Definition sample_record (req : CollectiveRequest) (seq : Z) : SRecord :=
  SRecord_default <| rec_request := req |> <| rec_enqueue_seq := seq |>.

Definition request1 := sample_request 1 11 [1; 2] 5 OverlapMode.OVERLAP_ALLOWED.
Definition request2 := sample_request 2 12 [3; 4] 6 OverlapMode.OVERLAP_ALLOWED.
Definition request3 := sample_request 3 13 [2; 3] 6 OverlapMode.OVERLAP_ALLOWED.

(** Evidence for four participants and two plans; no request yet. *)
Definition sample_evidence : Impl :=
  Scheduler_default
    <| im_participants := list_to_map ((fun pid => (mkId pid, sample_participant pid)) <$> [1; 2; 3; 4]) |>
    <| im_plans := list_to_map [(mkId 5, sample_plan 5 50); (mkId 6, sample_plan 6 60)] |>.
(** The three requests, submitted and not scheduled yet. *)
Definition sample_state : Impl :=
  sample_evidence
    <| im_records := list_to_map
         [(mkId 1, sample_record request1 0); (mkId 2, sample_record request2 1);
          (mkId 3, sample_record request3 2)] |>
    <| im_next_request_id := mkId 4 |> <| im_next_seq := 3 |>.
Definition sample_order : list CollectiveRequestId := [mkId 1; mkId 2; mkId 3].
