(* ===== verification/Eligibility.v ===== *)
(** * Eligibility: request validation, readiness and hard eligibility

    [validate_request], [Impl::compute_readiness], [Impl::hard_eligible] and
    [Impl::revalidate_grant] of scheduler.cpp: the checks that decide whether a
    request is admitted, whether a collective may be ranked, and whether a grant
    is still authoritative.  Each check is characterized by a specification that
    names the evidence it requires. *)
From S2P Require Import Prelude Enums Identity Error Float64 Domain Lifecycle Conflict State Samples.

(** ** validate_request *)

(** [checked_add]. *)
Definition checked_add (a b : Z) : option Z :=
  if a >? U64_MAX - b then None else Some (add64 a b).
(** The overflow guard on the aggregate payload. *)
Fixpoint payload_sum (sum : Z) (payload : list Z) : res Z :=
  match payload with
  | [] => Ok sum
  | v :: rest =>
      match checked_add sum v with
      | None => Throw (throw_overflow "per-participant payload sum overflow")
      | Some t => payload_sum t rest
      end
  end.
Definition size {A} (l : list A) : Z := Z.of_nat (length l).
Definition is_empty {A} (l : list A) : bool := match l with [] => true | _ => false end.

Definition validate_request (req : CollectiveRequest) (p : PolicyConfig) : res unit :=
  let w := rq_window req in
  let b := pol_bounds p in
  _ ← throw_if (bool_decide (rq_kind req = CollectiveKind.UNKNOWN))
        (throw_malformed "collective kind UNKNOWN has no supported execution semantics");
  _ ← throw_if (is_empty (rq_participants req)) (throw_malformed "empty participant set");
  _ ← throw_if (size (rq_participants req) >? max_participants_per_collective b)
        (throw_bounds "participants exceed per-collective bound");
  _ ← throw_if (negb (size (sort_unique id_ltb (rq_participants req)) =? size (rq_participants req)))
        (throw_malformed "duplicate participants");
  _ ← throw_if (negb (size (rq_participant_gens req) =? size (rq_participants req)))
        (throw_malformed "participant generation count mismatch");
  _ ← throw_if (negb (is_empty (rq_per_participant_payload req)) &&
        negb (size (rq_per_participant_payload req) =? size (rq_participants req)))
        (throw_malformed "per-participant payload count mismatch");
  _ ← throw_if (id_null (rq_plan_id req)) (throw_malformed "missing communication plan id");
  _ ← throw_if (gen_null (rq_plan_gen req)) (throw_malformed "missing communication plan generation");
  _ ← throw_if (negb (w_latest_start_ns w =? 0) && (w_earliest_start_ns w >? w_latest_start_ns w))
        (throw_malformed "impossible scheduling window");
  _ ← throw_if (negb (w_deadline_ns w =? 0) && (w_deadline_ns w <? w_earliest_start_ns w))
        (throw_malformed "impossible scheduling window: deadline before earliest start");
  _ ← throw_if (negb (w_deadline_ns w =? 0) && negb (w_latest_start_ns w =? 0) &&
        (w_latest_start_ns w >? w_deadline_ns w))
        (throw_malformed "impossible scheduling window: latest start after deadline");
  _ ← throw_if (negb (forallb (fun rc => isfinite (rc_units rc)) (rq_resource_claims req)))
        (throw_malformed "NaN/Inf resource claim units");
  _ ← throw_if (size (rq_resource_claims req) >? max_participants_per_collective b)
        (throw_bounds "resource claims exceed bound");
  _ ← throw_if (size (rq_dependencies req) >? max_dependencies_per_request b)
        (throw_bounds "dependencies exceed bound");
  _ ← throw_if (negb (size (sort_unique string_ltb (rq_exclusion_classes req)) =?
        size (rq_exclusion_classes req)))
        (throw_malformed "duplicate exclusion class");
  _ ← payload_sum 0 (rq_per_participant_payload req);
  Ok tt.

(** ** compute_readiness *)

(** A participant's published readiness counts when it is not of UNKNOWN source. *)
Definition participant_live (p : Participant) : bool :=
  p_ready p && negb (bool_decide (p_readiness_source p = ProvenanceStatus.UNKNOWN)).

(** The participants with their bound generations, as the participant loops read
    them: [participants[i]] with [participant_gens[i]].  [validate_request] makes
    the two vectors equally long.  When the second is shorter C++ reads past its
    end, which is undefined; here there is no generation then ([None]), and the
    loops find the participant at another one. *)
Fixpoint bindings_of (ps : list ParticipantId) (gens : list ParticipantGeneration)
    : list (ParticipantId * option ParticipantGeneration) :=
  match ps with
  | [] => []
  | pid :: ps' => (pid, head gens) :: bindings_of ps' (tail gens)
  end.
Definition bindings (req : CollectiveRequest) : list (ParticipantId * option ParticipantGeneration) :=
  bindings_of (rq_participants req) (rq_participant_gens req).
(** The participant loop: the flags [any_missing] and [any_stale]. *)
Fixpoint participant_flags (s : Impl) (bs : list (ParticipantId * option ParticipantGeneration))
    (any_missing any_stale : bool) : bool * bool :=
  match bs with
  | [] => (any_missing, any_stale)
  | (pid, gen) :: bs' =>
      match im_participants s !! pid with
      | None => participant_flags s bs' true any_stale
      | Some p =>
          if negb (gen_is gen (p_gen p)) then participant_flags s bs' any_missing true
          else if negb (participant_live p) then participant_flags s bs' true any_stale
          else participant_flags s bs' any_missing any_stale
      end
  end.
(** The dependency loop: what it returns early, if it does. *)
Fixpoint dependency_readiness (s : Impl) (ds : list DependencyRequirement) : option Readiness.t :=
  match ds with
  | [] => None
  | d :: ds' =>
      match im_deps s !! dr_id d with
      | None => Some Readiness.WAITING_DEPENDENCY
      | Some st =>
          if negb (gen_value (dep_gen st) =? gen_value (dr_gen d)) then Some Readiness.STALE
          else if negb (dep_satisfied st) then Some Readiness.WAITING_DEPENDENCY
          else dependency_readiness s ds'
      end
  end.
Definition reservation_readiness (s : Impl) (rg : option ReservationGeneration) : option Readiness.t :=
  match rg with
  | None => None
  | Some g =>
      if negb (bool_decide (g = im_reservation_gen s)) then Some Readiness.STALE
      else match im_reservations s !! g with
           | None => Some Readiness.WAITING_RESERVATION
           | Some rsv => if negb (rsv_valid rsv) then Some Readiness.WAITING_RESERVATION else None
           end
  end.
Definition congestion_blocks (s : Impl) : bool :=
  match im_congestion s with
  | Some c => cong_hard_ceiling c && dge (cong_utilization c) (cong_hard_ceiling_utilization c)
  | None => false
  end.
Definition demand (req : CollectiveRequest) : double :=
  foldl (fun d rc => dadd d (rc_units rc)) d0 (rq_resource_claims req).
Definition capacity_exceeded (s : Impl) (req : CollectiveRequest) : bool :=
  match im_capacity s with
  | Some c => dgt (demand req) (cap_usable_capacity c)
  | None => false
  end.

(** [Impl::compute_readiness]. *)
Definition compute_readiness (s : Impl) (r : SRecord) : Readiness.t :=
  let req := rec_request r in
  let '(any_missing, any_stale) :=
    participant_flags s (bindings req) false false in
  if any_stale then Readiness.STALE
  else if any_missing then Readiness.WAITING_PARTICIPANT
  else match im_plans s !! rq_plan_id req with
  | None => Readiness.WAITING_COMMUNICATION_PLAN
  | Some pl =>
      if negb (gen_value (pl_gen pl) =? gen_value (rq_plan_gen req)) then Readiness.STALE
      else if negb (pl_valid pl) then Readiness.WAITING_COMMUNICATION_PLAN
      else match dependency_readiness s (rq_dependencies req) with
      | Some rd => rd
      | None =>
          match reservation_readiness s (rq_reservation_gen req) with
          | Some rd => rd
          | None =>
              if congestion_blocks s then Readiness.BLOCKED_CONGESTION
              else if capacity_exceeded s req then Readiness.WAITING_CAPACITY
              else Readiness.READY
          end
      end
  end.

(** ** hard_eligible *)

(** The participant loop: the first rejection. *)
Fixpoint participant_rejection (s : Impl) (bs : list (ParticipantId * option ParticipantGeneration))
    : option RejectionReason.t :=
  match bs with
  | [] => None
  | (pid, gen) :: bs' =>
      match im_participants s !! pid with
      | None => Some RejectionReason.MISSING_PARTICIPANT
      | Some p =>
          if negb (gen_is gen (p_gen p)) then Some RejectionReason.STALE_PARTICIPANT_GENERATION
          else if negb (participant_live p) then Some RejectionReason.MISSING_PARTICIPANT
          else participant_rejection s bs'
      end
  end.
Definition plan_current (s : Impl) (id : CommunicationPlanId) (gen : CommunicationPlanGeneration) : bool :=
  match im_plans s !! id with
  | Some pl => (gen_value (pl_gen pl) =? gen_value gen) && pl_valid pl
  | None => false
  end.
Definition dependency_current (s : Impl) (d : DependencyRequirement) : bool :=
  match im_deps s !! dr_id d with
  | Some st => (gen_value (dep_gen st) =? gen_value (dr_gen d)) && dep_satisfied st
  | None => false
  end.
Definition reservation_current (s : Impl) (rg : option ReservationGeneration) : bool :=
  match rg with
  | None => true
  | Some g =>
      bool_decide (g = im_reservation_gen s) &&
      match im_reservations s !! g with Some rsv => rsv_valid rsv | None => false end
  end.

(** [Impl::hard_eligible]: the result and the reasons it leaves. *)
Definition hard_eligible (s : Impl) (r : SRecord) : bool * list RejectionReason.t :=
  let req := rec_request r in
  let w := rq_window req in
  if negb (bool_decide (rec_last_readiness r = Readiness.READY)) then
    (false, [match rec_last_readiness r with
             | Readiness.STALE => RejectionReason.STALE_COLLECTIVE_GENERATION
             | Readiness.BLOCKED_CONGESTION => RejectionReason.HARD_CONGESTION_CEILING
             | Readiness.BLOCKED_POLICY => RejectionReason.EXCLUSION_POLICY
             | _ => RejectionReason.UNKNOWN
             end])
  else if negb (w_earliest_start_ns w =? 0) && (im_now s <? w_earliest_start_ns w) then
    (false, [RejectionReason.INVALID_SCHEDULING_WINDOW])
  else if negb (w_latest_start_ns w =? 0) && (im_now s >? w_latest_start_ns w) then
    (false, [RejectionReason.INVALID_SCHEDULING_WINDOW])
  else if negb (w_deadline_ns w =? 0) &&
      (add64 (im_now s) (w_expected_duration_ns w) >? w_deadline_ns w) then
    (false, [RejectionReason.INVALID_SCHEDULING_WINDOW])
  else match participant_rejection s (bindings req) with
  | Some reason => (false, [reason])
  | None =>
      if negb (plan_current s (rq_plan_id req) (rq_plan_gen req)) then
        (false, [RejectionReason.INVALID_COMMUNICATION_PLAN])
      else if negb (forallb (dependency_current s) (rq_dependencies req)) then
        (false, [RejectionReason.UNSATISFIED_DEPENDENCY])
      else if negb (reservation_current s (rq_reservation_gen req)) then
        (false, [RejectionReason.INVALID_RESERVATION])
      else if congestion_blocks s then (false, [RejectionReason.HARD_CONGESTION_CEILING])
      else if gen_null (rq_workload_gen req) then (false, [RejectionReason.NO_EXECUTION_AUTHORITY])
      else (true, [])
  end.

(** ** revalidate_grant *)

(** The participant loop of [revalidate_grant]: present, of the
    bound generation, and live. *)
Fixpoint participants_current (s : Impl) (bs : list (ParticipantId * option ParticipantGeneration)) : bool :=
  match bs with
  | [] => true
  | (pid, gen) :: bs' =>
      match im_participants s !! pid with
      | None => false
      | Some p =>
          if negb (gen_is gen (p_gen p)) then false
          else if negb (participant_live p) then false
          else participants_current s bs'
      end
  end.
Definition dependency_fresh (s : Impl) (d : DependencyRequirement) : bool :=
  match im_deps s !! dr_id d with
  | Some st => gen_value (dep_gen st) =? gen_value (dr_gen d)
  | None => false
  end.

(** [Impl::revalidate_grant]. *)
Definition revalidate_grant (s : Impl) (g : CollectiveGrant) : GrantAdjudication.t :=
  match im_records s !! g_request g with
  | None => GrantAdjudication.STALE_GRANT
  | Some rec =>
      let req := rec_request rec in
      let rv := g_revalidation g in
      if negb (gen_value (rq_gen req) =? gen_value (g_request_gen g)) then GrantAdjudication.SUPERSEDED
      else if negb (gen_value (rq_collective_gen req) =? gen_value (g_collective_gen g))
      then GrantAdjudication.STALE_GRANT
      else if negb (gen_value (ev_epoch (g_evidence g)) =? gen_value (im_epoch s))
      then GrantAdjudication.EPOCH_MISMATCH
      else if bool_decide (rec_lifecycle rec = LifecycleState.CANCELLED) then GrantAdjudication.CANCELLED
      else if bool_decide (rec_lifecycle rec = LifecycleState.SUPERSEDED) then GrantAdjudication.SUPERSEDED
      else if bool_decide (rec_lifecycle rec = LifecycleState.STALE) then GrantAdjudication.STALE_GRANT
      else if require_fresh_plan rv && negb (plan_current s (g_plan g) (g_plan_gen g))
      then GrantAdjudication.STALE_GRANT
      else if require_fresh_participants rv &&
        (negb (size (g_participants g) =? size (rq_participants req)) ||
         negb (participants_current s (bindings_of (g_participants g) (g_participant_gens g))))
      then GrantAdjudication.STALE_GRANT
      else if require_fresh_dependencies rv && negb (forallb (dependency_fresh s) (rq_dependencies req))
      then GrantAdjudication.STALE_GRANT
      else if require_fresh_reservation rv &&
        match rq_reservation_gen req with
        | Some rg => negb (bool_decide (rg = im_reservation_gen s))
        | None => false
        end
      then GrantAdjudication.STALE_GRANT
      else if require_fresh_congestion rv &&
        match im_congestion s with
        | Some c => negb (gen_value (cong_gen c) =? gen_value (ev_congestion_gen (g_evidence g)))
        | None => false
        end
      then GrantAdjudication.STALE_GRANT
      else if bool_decide (rec_lifecycle rec = LifecycleState.COMPLETED)
      then GrantAdjudication.ALREADY_TERMINAL
      else GrantAdjudication.VALID
  end.

(** ** Validation *)

(** What an admissible request looks like. *)
Record request_valid (req : CollectiveRequest) (p : PolicyConfig) : Prop := {
  valid_kind : rq_kind req <> CollectiveKind.UNKNOWN;
  valid_nonempty : rq_participants req <> [];
  valid_participants : NoDup (rq_participants req);
  valid_participants_bound :
    size (rq_participants req) <= max_participants_per_collective (pol_bounds p);
  valid_gens : length (rq_participant_gens req) = length (rq_participants req);
  valid_payload_count : rq_per_participant_payload req = [] \/
    length (rq_per_participant_payload req) = length (rq_participants req);
  valid_plan : id_value (rq_plan_id req) <> 0 /\ gen_value (rq_plan_gen req) <> 0;
  valid_start : w_latest_start_ns (rq_window req) <> 0 ->
    w_earliest_start_ns (rq_window req) <= w_latest_start_ns (rq_window req);
  valid_deadline : w_deadline_ns (rq_window req) <> 0 ->
    w_earliest_start_ns (rq_window req) <= w_deadline_ns (rq_window req);
  valid_latest : w_deadline_ns (rq_window req) <> 0 -> w_latest_start_ns (rq_window req) <> 0 ->
    w_latest_start_ns (rq_window req) <= w_deadline_ns (rq_window req);
  valid_units : Forall (fun rc => isfinite (rc_units rc) = true) (rq_resource_claims req);
  valid_claims_bound :
    size (rq_resource_claims req) <= max_participants_per_collective (pol_bounds p);
  valid_dependencies_bound :
    size (rq_dependencies req) <= max_dependencies_per_request (pol_bounds p);
  valid_classes : NoDup (rq_exclusion_classes req);
  valid_payload : foldr Z.add 0 (rq_per_participant_payload req) <= U64_MAX;
}.

Lemma size_eqb {A B} (l : list A) (m : list B) :
  (size l =? size m) = true <-> length l = length m.
Proof. unfold size. rewrite Z.eqb_eq. lia. Qed.
Lemma is_empty_true {A} (l : list A) : is_empty l = true <-> l = [].
Proof. by destruct l. Qed.
Lemma is_empty_false {A} (l : list A) : is_empty l = false <-> l <> [].
Proof. destruct l; naive_solver. Qed.

(** The guard throws exactly when the exact sum leaves 64 bits. *)
Lemma payload_sum_ok sum payload : u64 sum -> Forall u64 payload ->
  is_ok (payload_sum sum payload) = true <-> sum + foldr Z.add 0 payload <= U64_MAX.
Proof.
  intros Hs Hp. revert sum Hs. induction Hp as [|v payload Hv Hp IH]; intros sum Hs; simpl.
  { unfold u64, U64_MAX in *. lia. }
  assert (0 <= foldr Z.add 0 payload) as Hnn.
  { clear IH. induction Hp as [|x l Hx Hl IH]; simpl; unfold u64 in *; lia. }
  unfold checked_add. destruct (Z.gtb_spec sum (U64_MAX - v)).
  - simpl. split; [done|]. unfold u64 in *. lia.
  - rewrite add64_small by (unfold u64 in *; lia).
    rewrite IH by (unfold u64, U64_MAX in *; lia). lia.
Qed.

(** [validate_request] succeeds exactly on the valid requests. *)
Lemma validate_request_ok req p : Forall u64 (rq_per_participant_payload req) ->
  validate_request req p = Ok tt <-> request_valid req p.
Proof.
  intros Hu. unfold validate_request. rewrite !throw_if_bind_ok, result_bind_ok.
  rewrite !bool_decide_eq_false, !negb_false_iff, !is_empty_false, !size_eqb, !Z.gtb_ltb, !Z.ltb_ge.
  rewrite !sort_unique_length by apply _. rewrite !andb_false_iff, !negb_false_iff, size_eqb, is_empty_true.
  rewrite !Z.eqb_eq, !Z.ltb_ge, !forallb_Forall.
  assert ((exists a, payload_sum 0 (rq_per_participant_payload req) = Ok a /\ Ok (E := scheduler_error) tt = Ok tt)
    <-> foldr Z.add 0 (rq_per_participant_payload req) <= U64_MAX) as ->.
  { pose proof (payload_sum_ok 0 _ ltac:(done) Hu) as <-.
    destruct (payload_sum 0 _); simpl; naive_solver. }
  unfold id_null, gen_null. rewrite !Z.eqb_neq.
  split; [intros; destruct_and!; split|intros []; split_and!]; try done; try tauto; try lia.
Qed.

(** ** Current evidence *)

(** The published evidence that a request's bindings name, at the bound
    generation and usable. *)
Definition participant_bound (s : Impl) (b : ParticipantId * option ParticipantGeneration) : Prop :=
  exists p, im_participants s !! b.1 = Some p /\ b.2 = Some (p_gen p) /\ p_ready p = true /\
    p_readiness_source p <> ProvenanceStatus.UNKNOWN.
Definition plan_bound (s : Impl) (id : CommunicationPlanId) (gen : CommunicationPlanGeneration) : Prop :=
  exists pl, im_plans s !! id = Some pl /\ pl_gen pl = gen /\ pl_valid pl = true.
Definition dependency_met (s : Impl) (d : DependencyRequirement) : Prop :=
  exists st, im_deps s !! dr_id d = Some st /\ dep_gen st = dr_gen d /\ dep_satisfied st = true.
Definition reservation_bound (s : Impl) (rg : option ReservationGeneration) : Prop :=
  forall g, rg = Some g -> g = im_reservation_gen s /\
    exists rsv, im_reservations s !! g = Some rsv /\ rsv_valid rsv = true.
(** Everything [compute_readiness] asks for. *)
Record evidence_current (s : Impl) (req : CollectiveRequest) : Prop := {
  ev_participants : Forall (participant_bound s) (bindings req);
  ev_plan : plan_bound s (rq_plan_id req) (rq_plan_gen req);
  ev_dependencies : Forall (dependency_met s) (rq_dependencies req);
  ev_reservation : reservation_bound s (rq_reservation_gen req);
  ev_congestion : congestion_blocks s = false;
  ev_capacity : capacity_exceeded s req = false;
}.

Lemma participant_live_true p :
  participant_live p = true <-> p_ready p = true /\ p_readiness_source p <> ProvenanceStatus.UNKNOWN.
Proof. unfold participant_live. rewrite andb_true_iff, negb_true_iff, bool_decide_eq_false. done. Qed.
Lemma bindings_of_fst ps gens : (bindings_of ps gens).*1 = ps.
Proof. revert gens. induction ps as [|pid ps IH]; intros gens; [done|]. cbn. by rewrite IH. Qed.
Lemma bindings_of_zip ps gens : length gens = length ps ->
  bindings_of ps gens = prod_map id Some <$> zip ps gens.
Proof.
  revert gens. induction ps as [|pid ps IH]; intros [|gen gens] Hl; try done.
  cbn. rewrite IH; [done|]. by injection Hl.
Qed.
(** The test that the participant loops share. *)
Definition participant_check (s : Impl) (b : ParticipantId * option ParticipantGeneration) : bool :=
  match im_participants s !! b.1 with
  | Some p => gen_is b.2 (p_gen p) && participant_live p
  | None => false
  end.
Lemma participant_check_iff s b : participant_check s b = true <-> participant_bound s b.
Proof.
  unfold participant_check, participant_bound. destruct (im_participants s !! b.1) as [p|].
  - rewrite andb_true_iff, gen_is_eq, participant_live_true. split; [eauto|].
    intros (p' & [= <-] & ?). done.
  - split; [done|]. by intros (? & ? & _).
Qed.
Lemma participants_current_check s bs : participants_current s bs = forallb (participant_check s) bs.
Proof.
  induction bs as [|[pid gen] bs IH]; simpl; [done|].
  unfold participant_check at 1. simpl. destruct (im_participants s !! pid); [|done].
  destruct (gen_is _ _); simpl; [|done]. by destruct (participant_live _); simpl.
Qed.
Lemma participants_current_iff s bs : participants_current s bs = true <-> Forall (participant_bound s) bs.
Proof.
  rewrite participants_current_check, forallb_Forall. apply Forall_iff. apply participant_check_iff.
Qed.
Lemma participant_rejection_none s bs : participant_rejection s bs = None <-> participants_current s bs = true.
Proof.
  induction bs as [|[pid gen] bs IH]; simpl; [done|].
  destruct (im_participants s !! pid); [|done]. by repeat case_match.
Qed.
Lemma participant_flags_clear s bs m st :
  participant_flags s bs m st = (false, false) <->
  m = false /\ st = false /\ participants_current s bs = true.
Proof.
  revert m st. induction bs as [|[pid gen] bs IH]; intros m st; simpl;
    [split; [by intros [= -> ->]|by intros (-> & -> & _)]|].
  destruct (im_participants s !! pid); repeat case_match; rewrite IH; clear; intuition congruence.
Qed.
Lemma plan_current_iff s id gen : plan_current s id gen = true <-> plan_bound s id gen.
Proof.
  unfold plan_current, plan_bound. destruct (im_plans s !! id); [|naive_solver].
  rewrite andb_true_iff, gen_eqb_eq. naive_solver.
Qed.
Lemma dependency_current_iff s d : dependency_current s d = true <-> dependency_met s d.
Proof.
  unfold dependency_current, dependency_met. destruct (im_deps s !! dr_id d); [|naive_solver].
  rewrite andb_true_iff, gen_eqb_eq. naive_solver.
Qed.
Lemma dependencies_current_iff s ds :
  forallb (dependency_current s) ds = true <-> Forall (dependency_met s) ds.
Proof. rewrite forallb_Forall. apply Forall_iff. apply dependency_current_iff. Qed.
Lemma reservation_current_iff s rg : reservation_current s rg = true <-> reservation_bound s rg.
Proof.
  unfold reservation_current, reservation_bound. destruct rg as [g|]; [|naive_solver].
  rewrite andb_true_iff, bool_decide_eq_true.
  destruct (im_reservations s !! g) eqn:E; naive_solver.
Qed.
Lemma dependency_readiness_none s ds :
  dependency_readiness s ds = None <-> Forall (dependency_met s) ds.
Proof.
  rewrite <- dependencies_current_iff. induction ds as [|d ds IH]; simpl; [done|].
  unfold dependency_current at 1. destruct (im_deps s !! dr_id d) as [st|]; [|done].
  destruct (_ =? _); simpl; [|done]. by destruct (dep_satisfied st).
Qed.
Lemma reservation_readiness_none s rg :
  reservation_readiness s rg = None <-> reservation_bound s rg.
Proof.
  rewrite <- reservation_current_iff. destruct rg as [g|]; [|done]. simpl.
  destruct (bool_decide _); simpl; [|done].
  destruct (im_reservations s !! g) as [rsv|]; [|done]. by destruct (rsv_valid rsv).
Qed.
Lemma dependency_readiness_not_ready s ds : dependency_readiness s ds <> Some Readiness.READY.
Proof. induction ds as [|d ds IH]; simpl; [done|]. by repeat case_match. Qed.
Lemma reservation_readiness_not_ready s rg : reservation_readiness s rg <> Some Readiness.READY.
Proof. destruct rg; simpl; [|done]. by repeat case_match. Qed.

(** Readiness in terms of the evidence. *)
Lemma compute_readiness_ready s r :
  compute_readiness s r = Readiness.READY <-> evidence_current s (rec_request r).
Proof.
  set (req := rec_request r).
  transitivity (participants_current s (bindings req) = true /\
    plan_current s (rq_plan_id req) (rq_plan_gen req) = true /\
    dependency_readiness s (rq_dependencies req) = None /\
    reservation_readiness s (rq_reservation_gen req) = None /\
    congestion_blocks s = false /\ capacity_exceeded s req = false).
  - unfold compute_readiness. fold req.
    pose proof (participant_flags_clear s (bindings req) false false) as Hf.
    destruct (participant_flags _ _ _ _) as [m st].
    destruct (participants_current _ _); [|destruct m, st; intuition congruence].
    pose proof (proj2 Hf (conj eq_refl (conj eq_refl eq_refl))) as [= -> ->]. unfold plan_current.
    destruct (im_plans s !! rq_plan_id req) as [pl|]; [|simpl; intuition congruence].
    destruct (_ =? _); [|simpl; intuition congruence]. destruct (pl_valid pl); [|simpl; intuition congruence].
    pose proof (dependency_readiness_not_ready s (rq_dependencies req)).
    destruct (dependency_readiness _ _); [simpl; intuition congruence|].
    pose proof (reservation_readiness_not_ready s (rq_reservation_gen req)).
    destruct (reservation_readiness _ _); [simpl; intuition congruence|].
    destruct (congestion_blocks s), (capacity_exceeded s req); simpl; intuition congruence.
  - rewrite participants_current_iff, plan_current_iff, dependency_readiness_none,
      reservation_readiness_none. split; [intros; destruct_and!; by split|by intros []].
Qed.

(** The scheduling window is open now, and the deadline can be met (the finish
    time is computed in 64 bits). *)
Definition window_open (s : Impl) (w : SchedulingWindow) : Prop :=
  (w_earliest_start_ns w = 0 \/ w_earliest_start_ns w <= im_now s) /\
  (w_latest_start_ns w = 0 \/ im_now s <= w_latest_start_ns w) /\
  (w_deadline_ns w = 0 \/ add64 (im_now s) (w_expected_duration_ns w) <= w_deadline_ns w).
(** Everything [hard_eligible] asks for. *)
Record admissible (s : Impl) (r : SRecord) : Prop := {
  adm_ready : rec_last_readiness r = Readiness.READY;
  adm_window : window_open s (rq_window (rec_request r));
  adm_participants : Forall (participant_bound s) (bindings (rec_request r));
  adm_plan : plan_bound s (rq_plan_id (rec_request r)) (rq_plan_gen (rec_request r));
  adm_dependencies : Forall (dependency_met s) (rq_dependencies (rec_request r));
  adm_reservation : reservation_bound s (rq_reservation_gen (rec_request r));
  adm_congestion : congestion_blocks s = false;
  adm_workload : gen_value (rq_workload_gen (rec_request r)) <> 0;
}.

(** A chain of guards, each with its rejection. *)
Lemma guard_iff (b : bool) (rej : list RejectionReason.t) rest :
  (if b then (false, rej) else rest) = (true, []) <-> b = false /\ rest = (true, []).
Proof. destruct b; naive_solver. Qed.
Lemma guard_reason (b : bool) rej (rest : bool * list RejectionReason.t) :
  (rest = (true, []) \/ exists reason, rest = (false, [reason])) ->
  (if b then (false, [rej]) else rest) = (true, []) \/
  exists reason, (if b then (false, [rej]) else rest) = (false, [reason]).
Proof. destruct b; eauto. Qed.
Lemma unless_zero a (b : bool) : (negb (a =? 0) && b = false) <-> (a = 0 \/ b = false).
Proof. by rewrite andb_false_iff, negb_false_iff, Z.eqb_eq. Qed.

Lemma hard_eligible_iff s r : hard_eligible s r = (true, []) <-> admissible s r.
Proof.
  unfold hard_eligible. rewrite !guard_iff, !unless_zero, negb_false_iff, bool_decide_eq_true.
  rewrite Z.ltb_ge, !Z.gtb_ltb, !Z.ltb_ge.
  transitivity (rec_last_readiness r = Readiness.READY /\ window_open s (rq_window (rec_request r)) /\
    participant_rejection s (bindings (rec_request r)) = None /\
    plan_current s (rq_plan_id (rec_request r)) (rq_plan_gen (rec_request r)) = true /\
    forallb (dependency_current s) (rq_dependencies (rec_request r)) = true /\
    reservation_current s (rq_reservation_gen (rec_request r)) = true /\
    congestion_blocks s = false /\ gen_null (rq_workload_gen (rec_request r)) = false).
  - unfold window_open. destruct (participant_rejection _ _); [intuition congruence|].
    rewrite !guard_iff, !negb_false_iff. intuition congruence.
  - rewrite participant_rejection_none, participants_current_iff, plan_current_iff,
      dependencies_current_iff, reservation_current_iff. unfold gen_null. rewrite Z.eqb_neq.
    split; [intros; destruct_and!; by split|by intros []].
Qed.
Lemma hard_eligible_reason s r :
  hard_eligible s r = (true, []) \/ exists reason, hard_eligible s r = (false, [reason]).
Proof.
  unfold hard_eligible. repeat apply guard_reason.
  destruct (participant_rejection _ _); [eauto|]. repeat apply guard_reason. by left.
Qed.
Lemma hard_eligible_true s r reasons : hard_eligible s r = (true, reasons) <-> reasons = [] /\ admissible s r.
Proof.
  rewrite <- hard_eligible_iff. destruct (hard_eligible_reason s r) as [->|[x ->]]; naive_solver.
Qed.

(** ** Grants *)

(** The binding of [g] to its request and everything [revalidate_grant] asks
    for, as far as the grant's requirements ask for it. *)
Record grant_current (s : Impl) (g : CollectiveGrant) (rec : SRecord) : Prop := {
  gc_request_gen : rq_gen (rec_request rec) = g_request_gen g;
  gc_collective_gen : rq_collective_gen (rec_request rec) = g_collective_gen g;
  gc_epoch : ev_epoch (g_evidence g) = im_epoch s;
  gc_lifecycle : rec_lifecycle rec ∉ [LifecycleState.CANCELLED; LifecycleState.SUPERSEDED;
    LifecycleState.STALE; LifecycleState.COMPLETED];
  gc_plan : require_fresh_plan (g_revalidation g) = true -> plan_bound s (g_plan g) (g_plan_gen g);
  gc_participants : require_fresh_participants (g_revalidation g) = true ->
    length (g_participants g) = length (rq_participants (rec_request rec)) /\
    Forall (participant_bound s) (bindings_of (g_participants g) (g_participant_gens g));
  gc_dependencies : require_fresh_dependencies (g_revalidation g) = true ->
    Forall (fun d => exists st, im_deps s !! dr_id d = Some st /\ dep_gen st = dr_gen d)
      (rq_dependencies (rec_request rec));
  gc_reservation : require_fresh_reservation (g_revalidation g) = true ->
    forall rg, rq_reservation_gen (rec_request rec) = Some rg -> rg = im_reservation_gen s;
  gc_congestion : require_fresh_congestion (g_revalidation g) = true ->
    forall c, im_congestion s = Some c -> cong_gen c = ev_congestion_gen (g_evidence g);
}.

Lemma adjudicate_iff (b : bool) (bad rest : GrantAdjudication.t) : bad <> GrantAdjudication.VALID ->
  (if b then bad else rest) = GrantAdjudication.VALID <-> b = false /\ rest = GrantAdjudication.VALID.
Proof. destruct b; naive_solver. Qed.
Lemma some_satisfies {A} (o : option A) (f : A -> bool) (P : A -> Prop) :
  (forall a, f a = false <-> P a) ->
  match o with Some a => f a | None => false end = false <-> (forall a, o = Some a -> P a).
Proof. intros Hf. destruct o; naive_solver. Qed.
Lemma required_iff a b P : (b = false <-> P) -> (a && b = false <-> (a = true -> P)).
Proof. destruct a, b; naive_solver. Qed.
Lemma dependency_fresh_iff s d : dependency_fresh s d = true <->
  exists st, im_deps s !! dr_id d = Some st /\ dep_gen st = dr_gen d.
Proof.
  unfold dependency_fresh. destruct (im_deps s !! dr_id d); [|naive_solver].
  rewrite gen_eqb_eq. naive_solver.
Qed.

Lemma revalidate_grant_iff s g : revalidate_grant s g = GrantAdjudication.VALID <->
  exists rec, im_records s !! g_request g = Some rec /\ grant_current s g rec.
Proof.
  unfold revalidate_grant. destruct (im_records s !! g_request g) as [rec|]; [|naive_solver].
  rewrite !adjudicate_iff by done. rewrite !negb_false_iff, !gen_eqb_eq, !bool_decide_eq_false.
  rewrite (required_iff _ (negb (plan_current _ _ _)) (plan_bound s (g_plan g) (g_plan_gen g)))
    by (rewrite negb_false_iff; apply plan_current_iff).
  rewrite (required_iff _ (_ || _) _) by
    (rewrite orb_false_iff, !negb_false_iff, size_eqb, participants_current_iff; reflexivity).
  rewrite (required_iff _ (negb (forallb _ _)) _) by
    (rewrite negb_false_iff, forallb_Forall; apply Forall_iff, dependency_fresh_iff).
  rewrite (required_iff (require_fresh_reservation _) _
    (forall rg, rq_reservation_gen (rec_request rec) = Some rg -> rg = im_reservation_gen s)) by
    (apply some_satisfies; intros; by rewrite negb_false_iff, bool_decide_eq_true).
  rewrite (required_iff (require_fresh_congestion _) _
    (forall c, im_congestion s = Some c -> cong_gen c = ev_congestion_gen (g_evidence g))) by
    (apply some_satisfies; intros; by rewrite negb_false_iff, gen_eqb_eq).
  split.
  - intros; destruct_and!. exists rec. split; [done|]. split; try done. set_solver.
  - intros (? & [= <-] & []). split_and!; try done; set_solver.
Qed.

(** ** The checks depend on the evidence only *)
#[export] Instance participants_current_proper : Proper (same_evidence ==> eq ==> eq) participants_current.
Proof.
  intros s1 s2 E bs _ <-. rewrite !participants_current_check.
  unfold participant_check. by destruct (same_evidence_fields _ _ E) as (_ & _ & -> & _).
Qed.
#[export] Instance participant_flags_proper :
  Proper (same_evidence ==> eq ==> eq ==> eq ==> eq) participant_flags.
Proof.
  intros s1 s2 E bs _ <- m _ <- st _ <-.
  destruct (same_evidence_fields _ _ E) as (_ & _ & Ep & _).
  revert m st. induction bs as [|[pid gen] bs IH]; intros m st; simpl; [done|].
  rewrite Ep. destruct (im_participants s2 !! pid); [|done]. by rewrite !IH.
Qed.
#[export] Instance participant_rejection_proper : Proper (same_evidence ==> eq ==> eq) participant_rejection.
Proof.
  intros s1 s2 E bs _ <-.
  destruct (same_evidence_fields _ _ E) as (_ & _ & Ep & _).
  induction bs as [|[pid gen] bs IH]; simpl; [done|].
  rewrite Ep. destruct (im_participants s2 !! pid); [|done]. by rewrite IH.
Qed.
#[export] Instance dependency_readiness_proper :
  Proper (same_evidence ==> eq ==> eq) dependency_readiness.
Proof.
  intros s1 s2 E ds _ <-. destruct (same_evidence_fields _ _ E) as (_ & _ & _ & _ & Ed & _).
  induction ds as [|d ds IH]; simpl; [done|]. by rewrite Ed, IH.
Qed.
#[export] Instance compute_readiness_proper :
  Proper (same_evidence ==> eq ==> eq) compute_readiness.
Proof.
  intros s1 s2 E r _ <-. unfold compute_readiness.
  rewrite (participant_flags_proper _ _ E _ _ eq_refl _ _ eq_refl _ _ eq_refl).
  rewrite (dependency_readiness_proper _ _ E _ _ eq_refl).
  destruct (same_evidence_fields _ _ E) as (En & Ep & Epp & Epl & Ed & Er & Erg & Ec & Eca).
  unfold reservation_readiness, congestion_blocks, capacity_exceeded.
  by rewrite Epl, Er, Erg, Ec, Eca.
Qed.
#[export] Instance hard_eligible_proper : Proper (same_evidence ==> eq ==> eq) hard_eligible.
Proof.
  intros s1 s2 E r _ <-. unfold hard_eligible.
  rewrite (participant_rejection_proper _ _ E _ _ eq_refl).
  destruct (same_evidence_fields _ _ E) as (En & Ep & Epp & Epl & Ed & Er & Erg & Ec & Eca).
  unfold plan_current, dependency_current, reservation_current, congestion_blocks.
  by rewrite En, Epl, Ed, Er, Erg, Ec.
Qed.

(** ** Verdicts *)

(** The shape of a request: what is refused as malformed when it fails. *)
Record well_formed (req : CollectiveRequest) : Prop := {
  shape_kind : rq_kind req <> CollectiveKind.UNKNOWN;
  shape_participants : rq_participants req <> [] /\ NoDup (rq_participants req);
  shape_gens : length (rq_participant_gens req) = length (rq_participants req);
  shape_payload : rq_per_participant_payload req = [] \/
    length (rq_per_participant_payload req) = length (rq_participants req);
  shape_plan : id_value (rq_plan_id req) <> 0 /\ gen_value (rq_plan_gen req) <> 0;
  shape_start : w_latest_start_ns (rq_window req) <> 0 ->
    w_earliest_start_ns (rq_window req) <= w_latest_start_ns (rq_window req);
  shape_deadline : w_deadline_ns (rq_window req) <> 0 ->
    w_earliest_start_ns (rq_window req) <= w_deadline_ns (rq_window req);
  shape_latest : w_deadline_ns (rq_window req) <> 0 -> w_latest_start_ns (rq_window req) <> 0 ->
    w_latest_start_ns (rq_window req) <= w_deadline_ns (rq_window req);
  shape_units : Forall (fun rc => isfinite (rc_units rc) = true) (rq_resource_claims req);
  shape_classes : NoDup (rq_exclusion_classes req);
}.
(** What the error code of a refusal says about the request. *)
Definition refused_for (req : CollectiveRequest) (p : PolicyConfig) (c : ErrorCode.t) : Prop :=
  match c with
  | ErrorCode.MALFORMED_REQUEST => ~ well_formed req
  | ErrorCode.OUT_OF_BOUNDS =>
      max_participants_per_collective (pol_bounds p) < size (rq_participants req) \/
      max_participants_per_collective (pol_bounds p) < size (rq_resource_claims req) \/
      max_dependencies_per_request (pol_bounds p) < size (rq_dependencies req)
  | ErrorCode.ARITHMETIC_OVERFLOW => U64_MAX < foldr Z.add 0 (rq_per_participant_payload req)
  | _ => False
  end.
Lemma throw_if_bind_throw {E A} b (e e' : E) (m : unit -> result E A) :
  (throw_if b e ≫= m) = Throw e' <-> b = true /\ e = e' \/ b = false /\ m tt = Throw e'.
Proof. unfold throw_if. destruct b; simpl; naive_solver. Qed.
Lemma payload_sum_throw sum payload e :
  payload_sum sum payload = Throw e -> code e = ErrorCode.ARITHMETIC_OVERFLOW.
Proof.
  revert sum. induction payload as [|v payload IH]; intros sum; simpl; [done|].
  destruct (checked_add sum v); [apply IH|]. by intros [= <-].
Qed.
(** One guard of a chain, refused with the code [c]. *)
Lemma guard_refused {E A} (code : E -> ErrorCode.t) (R : ErrorCode.t -> Prop) b (e : E)
    (m : unit -> result E A) :
  (b = true -> R (code e)) -> (forall e', m tt = Throw e' -> R (code e')) ->
  forall e', (throw_if b e ≫= m) = Throw e' -> R (code e').
Proof. intros Hb Hm e' [[? <-]|[_ ?]]%throw_if_bind_throw; auto. Qed.
Lemma impossible_window a b : (negb (a =? 0) && (b >? a)) = true -> ~ (a <> 0 -> b <= a).
Proof. rewrite andb_true_iff, negb_true_iff, Z.eqb_neq, Z.gtb_lt. lia. Qed.

Lemma validate_request_refused req p e : Forall u64 (rq_per_participant_payload req) ->
  validate_request req p = Throw e -> refused_for req p (code e).
Proof.
  intros Hu. revert e. unfold validate_request. cbv zeta.
  repeat match goal with
  | |- forall e, (throw_if _ _ ≫= _) = Throw e -> _ => apply guard_refused
  end; cbn [code error_of throw_malformed throw_bounds refused_for].
  - intros H%bool_decide_eq_true Hw. by apply (shape_kind _ Hw).
  - intros H%is_empty_true Hw. by apply (shape_participants _ Hw).
  - rewrite Z.gtb_lt. auto.
  - rewrite negb_true_iff, <- not_true_iff_false, size_eqb, sort_unique_length by apply _.
    intros H Hw. by apply H, (shape_participants _ Hw).
  - rewrite negb_true_iff, <- not_true_iff_false, size_eqb. intros H Hw. by apply H, (shape_gens _ Hw).
  - rewrite andb_true_iff, !negb_true_iff, is_empty_false, <- not_true_iff_false, size_eqb.
    intros [H1 H2] Hw. destruct (shape_payload _ Hw); auto.
  - unfold id_null. rewrite Z.eqb_eq. intros H Hw. by destruct (shape_plan _ Hw).
  - unfold gen_null. rewrite Z.eqb_eq. intros H Hw. by destruct (shape_plan _ Hw).
  - intros H%impossible_window Hw. by apply H, (shape_start _ Hw).
  - rewrite andb_true_iff, negb_true_iff, Z.eqb_neq, Z.ltb_lt. intros [H1 H2] Hw.
    pose proof (shape_deadline _ Hw H1). lia.
  - rewrite !andb_true_iff, !negb_true_iff, !Z.eqb_neq, Z.gtb_lt. intros [[H1 H2] H3] Hw.
    pose proof (shape_latest _ Hw H1 H2). lia.
  - rewrite negb_true_iff, <- not_true_iff_false, forallb_Forall. intros H Hw. by apply H, (shape_units _ Hw).
  - rewrite Z.gtb_lt. auto.
  - rewrite Z.gtb_lt. auto.
  - rewrite negb_true_iff, <- not_true_iff_false, size_eqb, sort_unique_length by apply _.
    intros H Hw. by apply H, (shape_classes _ Hw).
  - intros e He. pose proof (payload_sum_ok 0 _ ltac:(done) Hu) as Hs.
    destruct (payload_sum 0 _) as [|e0] eqn:E; [done|]. injection He as <-.
    rewrite (payload_sum_throw _ _ _ E). simpl in *. destruct (Z.lt_ge_cases U64_MAX
      (foldr Z.add 0 (rq_per_participant_payload req))) as [|Hle]; [done|]. by apply Hs in Hle.
Qed.

(** [validate_request] accepts exactly the valid requests, and the code of a
    refusal names what is wrong: malformed, out of bounds, or an aggregate
    payload beyond 64 bits. *)
Theorem validate_request_verdict req p : Forall u64 (rq_per_participant_payload req) ->
  (validate_request req p = Ok tt <-> request_valid req p) /\
  (forall e, validate_request req p = Throw e -> refused_for req p (code e)).
Proof. intros Hu. split; [by apply validate_request_ok|]. intros e. by apply validate_request_refused. Qed.
Example validate_request_verdict_witness :
  let overflowing := sample_request 1 11 [1; 2] 1 OverlapMode.OVERLAP_ALLOWED
    <| rq_per_participant_payload := [U64_MAX; 1] |> in
  exists e, validate_request overflowing PolicyConfig_default = Throw e /\
    refused_for overflowing PolicyConfig_default (code e).
Proof.
  intros overflowing.
  assert (Forall u64 (rq_per_participant_payload overflowing)) as Hu by (repeat constructor; done).
  destruct (validate_request_verdict overflowing PolicyConfig_default Hu) as [_ H].
  eexists. split; [reflexivity|]. apply H. reflexivity.
Defined.

(** An accepted request binds each of its participants. *)
Lemma validate_request_parallel req p : validate_request req p = Ok tt ->
  length (rq_participant_gens req) = length (rq_participants req).
Proof.
  unfold validate_request. do 5 rewrite throw_if_bind_ok. intros (_ & _ & _ & _ & H & _).
  by apply negb_false_iff, size_eqb in H.
Qed.

(** What each rejection reason of [hard_eligible] says. *)
Definition rejected_for (s : Impl) (r : SRecord) (reason : RejectionReason.t) : Prop :=
  let req := rec_request r in
  match reason with
  | RejectionReason.STALE_COLLECTIVE_GENERATION => rec_last_readiness r = Readiness.STALE
  | RejectionReason.EXCLUSION_POLICY => rec_last_readiness r = Readiness.BLOCKED_POLICY
  | RejectionReason.HARD_CONGESTION_CEILING =>
      rec_last_readiness r = Readiness.BLOCKED_CONGESTION \/ congestion_blocks s = true
  | RejectionReason.UNKNOWN => rec_last_readiness r ∉
      [Readiness.READY; Readiness.STALE; Readiness.BLOCKED_CONGESTION; Readiness.BLOCKED_POLICY]
  | RejectionReason.INVALID_SCHEDULING_WINDOW => ~ window_open s (rq_window req)
  | RejectionReason.STALE_PARTICIPANT_GENERATION => exists b p, b ∈ bindings req /\
      im_participants s !! b.1 = Some p /\ b.2 <> Some (p_gen p)
  | RejectionReason.MISSING_PARTICIPANT => exists b, b ∈ bindings req /\
      forall p, im_participants s !! b.1 = Some p -> participant_live p = false
  | RejectionReason.INVALID_COMMUNICATION_PLAN => ~ plan_bound s (rq_plan_id req) (rq_plan_gen req)
  | RejectionReason.UNSATISFIED_DEPENDENCY => ~ Forall (dependency_met s) (rq_dependencies req)
  | RejectionReason.INVALID_RESERVATION => ~ reservation_bound s (rq_reservation_gen req)
  | RejectionReason.NO_EXECUTION_AUTHORITY => gen_value (rq_workload_gen req) = 0
  | _ => False
  end.
Lemma participant_rejection_for s bs reason : participant_rejection s bs = Some reason ->
  reason = RejectionReason.STALE_PARTICIPANT_GENERATION /\
    (exists b p, b ∈ bs /\ im_participants s !! b.1 = Some p /\ b.2 <> Some (p_gen p)) \/
  reason = RejectionReason.MISSING_PARTICIPANT /\
    (exists b, b ∈ bs /\ forall p, im_participants s !! b.1 = Some p -> participant_live p = false).
Proof.
  induction bs as [|[pid gen] bs IH]; simpl; [done|].
  destruct (im_participants s !! pid) as [p|] eqn:Ep.
  - destruct (gen_is gen (p_gen p)) eqn:Eg; simpl.
    + destruct (participant_live p) eqn:El; simpl.
      * intros [[-> (b & p' & Hb & ?)]|[-> (b & Hb & ?)]]%IH; [left|right]; (split; [done|]);
          exists b; [exists p'|]; (split; [by right|done]).
      * intros [= <-]. right. split; [done|]. exists (pid, gen). split; [left|]. simpl. congruence.
    + intros [= <-]. left. split; [done|]. exists (pid, gen), p. split; [left|]. split; [done|].
      simpl. intros Ee%gen_is_eq. congruence.
  - intros [= <-]. right. split; [done|]. exists (pid, gen). split; [left|]. simpl. congruence.
Qed.

(** A chain of guards that ends in acceptance. *)
Definition verdict (accepted : Prop) (rejected : RejectionReason.t -> Prop)
    (v : bool * list RejectionReason.t) : Prop :=
  match v with
  | (true, reasons) => reasons = [] /\ accepted
  | (false, reasons) => exists reason, reasons = [reason] /\ rejected reason
  end.
Lemma verdict_guard A Q (b : bool) reason rest : (b = true -> Q reason) ->
  (b = false -> verdict A Q rest) -> verdict A Q (if b then (false, [reason]) else rest).
Proof. destruct b; simpl; eauto. Qed.

(** The same evidence, but all of it of provenance [v]: the participants' readiness
    source is the only provenance the checks look at. *)
Definition relabelled (v : ProvenanceStatus.t) (s : Impl) : Impl :=
  s <| im_plans ::= fmap (fun pl => pl <| pl_provenance := v |>) |>
    <| im_deps ::= fmap (fun d => d <| dep_source := v |>) |>
    <| im_reservations ::= fmap (fun rsv => rsv <| rsv_provenance := v |>) |>
    <| im_congestion ::= fmap (fun c => c <| cong_provenance := v |>) |>
    <| im_capacity ::= fmap (fun c => c <| cap_provenance := v |>) |>
    <| im_participants ::= fmap (fun p => p <| p_provenance := v |>) |>.
Section relabelled.
Variables (v : ProvenanceStatus.t) (s s' : Impl).
(** What the checks read of [s']. *)
Hypothesis Hs : im_participants s' = (fun p => p <| p_provenance := v |>) <$> im_participants s /\
  im_plans s' = (fun pl => pl <| pl_provenance := v |>) <$> im_plans s /\
  im_deps s' = (fun d => d <| dep_source := v |>) <$> im_deps s /\
  im_reservations s' = (fun rsv => rsv <| rsv_provenance := v |>) <$> im_reservations s /\
  im_congestion s' = (fun c => c <| cong_provenance := v |>) <$> im_congestion s /\
  im_capacity s' = (fun c => c <| cap_provenance := v |>) <$> im_capacity s /\
  im_reservation_gen s' = im_reservation_gen s /\ im_now s' = im_now s.
Ltac read_relabelled :=
  destruct Hs as (Ep & Epl & Ed & Er & Ec & Eca & Eg & En); rewrite ?Ep, ?Epl, ?Ed, ?Er, ?Ec, ?Eca, ?Eg, ?En, ?lookup_fmap.

Lemma relabelled_flags bs m st : participant_flags s' bs m st = participant_flags s bs m st.
Proof using Hs.
  revert m st. induction bs as [|[pid gen] bs IH]; intros m st; [done|]. cbn [participant_flags]. read_relabelled.
  destruct (im_participants s !! pid) as [p|]; cbn [fmap option_fmap option_map]; [|done]. by rewrite !IH.
Qed.
Lemma relabelled_rejection bs : participant_rejection s' bs = participant_rejection s bs.
Proof using Hs.
  induction bs as [|[pid gen] bs IH]; [done|]. cbn [participant_rejection]. read_relabelled.
  destruct (im_participants s !! pid) as [p|]; cbn [fmap option_fmap option_map]; [|done]. by rewrite IH.
Qed.
Lemma relabelled_dependencies ds : dependency_readiness s' ds = dependency_readiness s ds /\
  forallb (dependency_current s') ds = forallb (dependency_current s) ds.
Proof using Hs.
  induction ds as [|d ds [IH1 IH2]]; [done|]. cbn [dependency_readiness forallb]. unfold dependency_current at 1 3.
  rewrite IH1, IH2. read_relabelled. by destruct (im_deps s !! dr_id d).
Qed.
Lemma relabelled_reservation rg : reservation_readiness s' rg = reservation_readiness s rg /\
  reservation_current s' rg = reservation_current s rg.
Proof using Hs.
  destruct rg as [g|]; [|done]. unfold reservation_readiness, reservation_current. read_relabelled.
  by destruct (im_reservations s !! g).
Qed.
Lemma relabelled_plan id gen : plan_current s' id gen = plan_current s id gen.
Proof using Hs. unfold plan_current. read_relabelled. by destruct (im_plans s !! id). Qed.
Lemma relabelled_limits req : congestion_blocks s' = congestion_blocks s /\ capacity_exceeded s' req = capacity_exceeded s req.
Proof using Hs.
  unfold congestion_blocks, capacity_exceeded. read_relabelled. by destruct (im_congestion s), (im_capacity s).
Qed.
Lemma provenance_ignored r : compute_readiness s' r = compute_readiness s r /\ hard_eligible s' r = hard_eligible s r.
Proof using Hs.
  destruct (relabelled_dependencies (rq_dependencies (rec_request r))) as [Ed Edc].
  destruct (relabelled_reservation (rq_reservation_gen (rec_request r))) as [Er Erc].
  destruct (relabelled_limits (rec_request r)) as [Ec Eca]. split.
  - unfold compute_readiness. rewrite relabelled_flags, Ed, Er, Ec, Eca.
    destruct Hs as (_ & -> & _). rewrite lookup_fmap. by destruct (im_plans s !! _).
  - unfold hard_eligible. rewrite relabelled_rejection, relabelled_plan, Edc, Erc, Ec.
    destruct Hs as (_ & _ & _ & _ & _ & _ & _ & En). by rewrite En.
Qed.
End relabelled.

(** C18: a collective is READY exactly when all the evidence it binds is there at
    the bound generations, its participants live, its plan and reservation valid,
    its dependencies satisfied, and neither the congestion ceiling nor the capacity
    in its way; it is hard-eligible exactly when it is READY, admissible and inside
    its window, and otherwise [hard_eligible] leaves one reason, which is true.
    The provenance of plans, dependencies, reservations, congestion and capacity
    plays no part: evidence of status UNKNOWN and capacity of status FORECAST count
    like any other. *)
Theorem eligibility_verdict s r :
  (compute_readiness s r = Readiness.READY <-> evidence_current s (rec_request r)) /\
  verdict (admissible s r) (rejected_for s r) (hard_eligible s r) /\
  (forall v, compute_readiness (relabelled v s) r = compute_readiness s r /\
     hard_eligible (relabelled v s) r = hard_eligible s r).
Proof.
  split; [apply compute_readiness_ready|]. split; [|intros v; apply (provenance_ignored v); by destruct s].
  destruct (hard_eligible s r) as [[] reasons] eqn:E.
  { by apply hard_eligible_true. }
  enough (verdict True (rejected_for s r) (hard_eligible s r)) as H by (by rewrite E in H). clear E reasons.
  unfold hard_eligible. cbv zeta. apply verdict_guard.
  { intros H%negb_true_iff%bool_decide_eq_false. destruct (rec_last_readiness r) eqn:E;
      cbn [rejected_for]; rewrite ?E; try done; auto; set_solver. }
  intros _. repeat (apply verdict_guard; [intros H; cbn [rejected_for]|intros _]).
  1-3: unfold window_open; rewrite andb_true_iff, negb_true_iff, Z.eqb_neq in H;
    rewrite ?Z.ltb_lt, ?Z.gtb_lt in H; lia.
  destruct (participant_rejection _ _) as [reason|] eqn:E.
  { exists reason. split; [done|]. by apply participant_rejection_for in E as [[-> ?]|[-> ?]]. }
  repeat (apply verdict_guard; [intros H; cbn [rejected_for]|intros _]).
  - rewrite <- plan_current_iff. by destruct (plan_current _ _ _).
  - rewrite <- dependencies_current_iff. by destruct (forallb _ _).
  - rewrite <- reservation_current_iff. by destruct (reservation_current _ _).
  - auto.
  - by apply Z.eqb_eq.
  - by split.
Qed.

(** What each verdict of [revalidate_grant] says. *)
Definition adjudicated (s : Impl) (g : CollectiveGrant) (v : GrantAdjudication.t) : Prop :=
  match im_records s !! g_request g with
  | None => v = GrantAdjudication.STALE_GRANT
  | Some rec =>
      match v with
      | GrantAdjudication.VALID => grant_current s g rec
      | GrantAdjudication.SUPERSEDED =>
          rq_gen (rec_request rec) <> g_request_gen g \/ rec_lifecycle rec = LifecycleState.SUPERSEDED
      | GrantAdjudication.EPOCH_MISMATCH => ev_epoch (g_evidence g) <> im_epoch s
      | GrantAdjudication.CANCELLED => rec_lifecycle rec = LifecycleState.CANCELLED
      | GrantAdjudication.ALREADY_TERMINAL => rec_lifecycle rec = LifecycleState.COMPLETED
      | GrantAdjudication.STALE_GRANT => ~ grant_current s g rec
      | _ => False
      end
  end.

(** What [revalidate_grant] never reads. *)
Lemma participants_current_fields s s' bs : im_participants s' = im_participants s ->
  participants_current s' bs = participants_current s bs.
Proof. intros E. induction bs as [|[pid gen] bs IH]; [done|]. cbn [participants_current]. by rewrite E, IH. Qed.
Lemma revalidate_unread s g ca cg rsvs fc fe fp :
  revalidate_grant (s <| im_capacity := ca |> <| im_capacity_gen := cg |> <| im_reservations := rsvs |>)
    (g <| g_revalidation ::= fun rv => rv <| require_fresh_capacity := fc |>
       <| require_fresh_execution_authority := fe |> <| require_current_epoch := fp |> |>) =
  revalidate_grant s g.
Proof.
  destruct g as [gid gg rq rqg co cog sc scg ps pgs pl plg ev [rv1 rv2 rv3 rv4 rv5 rv6 rv7 rv8] w ea eag pg ac te].
  unfold revalidate_grant.
  cbn [g_request g_request_gen g_collective_gen g_evidence g_revalidation g_plan g_plan_gen g_participants
    g_participant_gens require_fresh_plan require_fresh_participants require_fresh_dependencies
    require_fresh_reservation require_fresh_congestion set].
  set (s' := s <| im_capacity := ca |> <| im_capacity_gen := cg |> <| im_reservations := rsvs |>).
  assert (im_records s' = im_records s /\ im_participants s' = im_participants s /\ im_plans s' = im_plans s /\
    im_deps s' = im_deps s /\ im_epoch s' = im_epoch s /\ im_reservation_gen s' = im_reservation_gen s /\
    im_congestion s' = im_congestion s) as (E1 & E2 & E3 & E4 & E5 & E6 & E7) by (by destruct s).
  clearbody s'. rewrite E1, E5, E6, E7, (participants_current_fields s s') by done.
  unfold plan_current, dependency_fresh. by rewrite E3, E4.
Qed.
(** C19: the adjudication of a grant: VALID exactly on a grant whose request and
    collective generations and epoch are current, whose collective is not
    CANCELLED, SUPERSEDED, STALE or COMPLETED, and which passes those of the five
    checks it requires: plan valid at its generation, participants live at theirs,
    dependencies at theirs (satisfied or not), the reservation generation the
    current one (whether the reservation stands or not), congestion at the
    generation of the snapshot; every other verdict says what is not so.  Capacity,
    execution authority and the reservations themselves play no part, whatever the
    grant's requirements say, and the epoch is compared also when they do not ask
    for it. *)
Theorem adjudication_verdict s g :
  adjudicated s g (revalidate_grant s g) /\
  (revalidate_grant s g = GrantAdjudication.VALID <->
   exists rec, im_records s !! g_request g = Some rec /\ grant_current s g rec) /\
  (forall ca cg rsvs fc fe fp,
     revalidate_grant (s <| im_capacity := ca |> <| im_capacity_gen := cg |> <| im_reservations := rsvs |>)
       (g <| g_revalidation ::= fun rv => rv <| require_fresh_capacity := fc |>
          <| require_fresh_execution_authority := fe |> <| require_current_epoch := fp |> |>) =
     revalidate_grant s g).
Proof.
  split; [|split; [apply revalidate_grant_iff|apply revalidate_unread]]. unfold adjudicated.
  pose proof (revalidate_grant_iff s g) as Hv.
  destruct (im_records s !! g_request g) as [rec|] eqn:Er; [|unfold revalidate_grant; by rewrite Er].
  destruct (revalidate_grant s g) eqn:E; try (by destruct (proj1 Hv eq_refl) as (? & [= <-] & ?));
    try (intros Hc; by discriminate (proj2 Hv (ex_intro _ rec (conj eq_refl Hc))));
    clear Hv; revert E; unfold revalidate_grant; rewrite Er; cbv zeta.
  all: repeat match goal with
  | |- (if negb (gen_value ?a =? gen_value ?b) then _ else _) = _ -> _ =>
      destruct (gen_value a =? gen_value b) eqn:?; cbn [negb]
  | |- (if bool_decide ?P then _ else _) = _ -> _ => destruct (bool_decide_reflect P)
  | |- (if ?b then _ else _) = _ -> _ => destruct b
  end; try done; intros _; try done.
  all: try (by right). all: try (left; intros Ee; by rewrite Ee, Z.eqb_refl in *).
  all: intros Ee; by rewrite Ee, Z.eqb_refl in *.
Qed.
