(* ===== verification/Ranking.v ===== *)
(** * Ranking: the order in which eligible collectives are considered

    [Impl::ranking_key] (scheduler.cpp), the comparators of deterministic.hpp and
    the comparator of the [std::stable_sort] in [Impl::schedule].  The theorems
    show that the comparator is a strict total order on the candidates whenever
    no score is NaN, so that the ranked list does not depend on the order in
    which the hash map handed out the candidates. *)
From S2P Require Import Prelude Enums Identity Error Float64 Domain.
From S2P Require Import Lifecycle Conflict State Eligibility.
From Stdlib Require Import SpecFloat.

(** ** The ranking key *)

(** Factor [0]: deadline urgency. *)
Definition deadline_urgency (s : Impl) (r : SRecord) : double :=
  let w := rq_window (rec_request r) in
  if negb (w_deadline_ns w =? 0) && (im_now s <? w_deadline_ns w) then
    let rem := sub64 (w_deadline_ns w) (im_now s) in
    let slack := ddiv (of_int rem) d1e9 in
    ddiv d1 (dadd d1 slack)
  else d0.
(** Factor [2]: starvation pressure, with the promotion after
    [max_bypass_count] consecutive bypasses. *)
Definition starvation_factor (s : Impl) (r : SRecord) : double :=
  let p := im_policy s in
  let fp := mkFairnessPolicy d_0_05 (pol_aging_growth p) (pol_max_bypass_count p)
              (pol_fairness_window_grants p) true in
  let starv := starvation_pressure (rec_fairness r) fp in
  if fa_consecutive_bypasses (rec_fairness r) >=? pol_max_bypass_count p then d1000 else starv.

(** [Impl::ranking_key]. *)
Definition ranking_key (s : Impl) (r : SRecord) : list double :=
  let req := rec_request r in
  let p := im_policy s in
  let dfc := fa_deficit (rec_fairness r) in
  let dfc := if dgt dfc d1 then d1 else dfc in
  let duration := of_int (w_expected_duration_ns (rq_window req)) in
  let resfit :=
    match rq_reservation_gen req with
    | Some g => if decide (is_Some (im_reservations s !! g)) then d1 else d0
    | None => d0
    end in
  let cong := match im_congestion s with Some c => cong_utilization c | None => d0 end in
  [ dmul (deadline_urgency s r) (pol_w_deadline p);
    dmul (ddiv (of_int (prio_value (rq_priority req))) d100) (pol_w_priority p);
    dmul (starvation_factor s r) (pol_w_starvation_risk p);
    dmul dfc (pol_w_fairness_deficit p);
    dmul (ddiv (of_int (rec_age_ticks r)) d1000) (pol_w_age p);
    dmul (ddiv (dneg duration) d1e9) (pol_w_expected_duration p);
    dmul resfit (pol_w_reservation_fit p);
    dmul (ddiv (dneg duration) d1e9) (pol_w_communication_cost p);
    dmul (dneg (of_int (size (rq_resource_claims req)))) (pol_w_resource_footprint p);
    dmul (dneg cong) (pol_w_congestion_penalty p);
    dmul d1 (pol_w_participant_availability p) ].

(** ** Comparators *)

(** [cmp_double]. *)
Definition cmp_double (a b : double) : Z :=
  let na := isnan a in
  let nb := isnan b in
  if na && nb then 0
  else if na then 1
  else if nb then -1
  else if dlt a b then -1
  else if dgt a b then 1
  else 0.
(** [cmp_rank]: the first differing component, then the lengths. *)
Fixpoint cmp_rank (a b : list double) : Z :=
  match a, b with
  | x :: a', y :: b' =>
      let c := cmp_double x y in
      if negb (c =? 0) then c else cmp_rank a' b'
  | [], _ :: _ => -1
  | _ :: _, [] => 1
  | [], [] => 0
  end.

(** [struct Ranked]. *)
Record Ranked : Set := mkRanked {
  rk_id : CollectiveRequestId;
  rk_key : list double;
  rk_score : double;
  rk_seq : Z;
}.
Definition score_of (key : list double) : double := foldl dadd d0 key.
(** One turn of the loop that fills [rankedList]. *)
Definition rank (s : Impl) (id : CollectiveRequestId) : Ranked :=
  let r := record_at s id in
  let key := ranking_key s r in
  mkRanked id key (score_of key) (rec_enqueue_seq r).
Definition collective_of (s : Impl) (id : CollectiveRequestId) : Z :=
  id_value (rq_collective (rec_request (record_at s id))).
(** The lambda given to [std::stable_sort]. *)
Definition ranked_before (s : Impl) (a b : Ranked) : bool :=
  if dne (rk_score a) (rk_score b) then dgt (rk_score a) (rk_score b)
  else
    let c := cmp_rank (rk_key a) (rk_key b) in
    if negb (c =? 0) then c >? 0
    else
      let ca := collective_of s (rk_id a) in
      let cb := collective_of s (rk_id b) in
      if negb (ca =? cb) then ca <? cb
      else if negb (rk_seq a =? rk_seq b) then rk_seq a <? rk_seq b
      else id_value (rk_id a) <? id_value (rk_id b).
(** [rankedList] after the sort. *)
Definition ranked_list (s : Impl) (candidates : list CollectiveRequestId) : list Ranked :=
  stable_sort (ranked_before s) (rank s <$> candidates).

(** ** The comparators as comparison functions *)

(** Doubles ordered with every NaN equal and above the numbers, as [cmp_double]
    orders them. *)
Definition double_compare (a b : double) : comparison :=
  match isnan a, isnan b with
  | true, true => Eq
  | true, false => Gt
  | false, true => Lt
  | false, false => key_compare (sf_key (decode a)) (sf_key (decode b))
  end.
#[export] Instance key_compare_total : TotalPreorderCompare key_compare.
Proof.
  split; [apply key_compare_antisym|apply key_compare_lt_trans|].
  intros x y z H. by apply key_compare_eq in H as ->.
Qed.
#[export] Instance double_compare_total : TotalPreorderCompare double_compare.
Proof.
  unfold double_compare. split; intros x y.
  - destruct (isnan x), (isnan y); try done. apply key_compare_antisym.
  - intros z. destruct (isnan x), (isnan y), (isnan z); try done. apply key_compare_lt_trans.
  - intros z. destruct (isnan x), (isnan y), (isnan z); try done. apply (compare_eq_l (c := key_compare)).
Qed.

Lemma isnan_decode a : isnan a = false <-> decode a <> S754_nan.
Proof. unfold isnan. destruct (decode a); naive_solver. Qed.
Lemma dcompare_total a b : isnan a = false -> isnan b = false ->
  SFcompare (decode a) (decode b) = Some (double_compare a b).
Proof.
  intros Ha Hb. unfold double_compare. rewrite Ha, Hb.
  apply SFcompare_key; by apply isnan_decode.
Qed.
Lemma dlt_compare a b : isnan a = false -> isnan b = false ->
  dlt a b = true <-> double_compare a b = Lt.
Proof. intros. unfold dlt, SFltb. rewrite dcompare_total by done. by destruct (double_compare a b). Qed.
Lemma dgt_compare a b : isnan a = false -> isnan b = false ->
  dgt a b = true <-> double_compare a b = Gt.
Proof. intros. unfold dgt. by rewrite dlt_compare, <- (compare_gt_lt double_compare). Qed.
Lemma dne_compare a b : isnan a = false -> isnan b = false ->
  dne a b = false <-> double_compare a b = Eq.
Proof.
  intros. unfold dne, deq, SFeqb. rewrite dcompare_total by done. by destruct (double_compare a b).
Qed.

(** The [int] results are -1, 0 and 1. *)
Definition int_of_comparison (c : comparison) : Z :=
  match c with Lt => -1 | Eq => 0 | Gt => 1 end.
Lemma cmp_double_compare a b : cmp_double a b = int_of_comparison (double_compare a b).
Proof.
  unfold cmp_double. destruct (isnan a) eqn:Ha, (isnan b) eqn:Hb;
    try (unfold double_compare; by rewrite Ha, Hb).
  pose proof (dlt_compare a b Ha Hb) as Hl. pose proof (dgt_compare a b Ha Hb) as Hg.
  cbn [andb]. destruct (dlt a b); [by rewrite (proj1 Hl)|].
  destruct (dgt a b); [by rewrite (proj1 Hg)|].
  destruct (double_compare a b); [done| |]; [discriminate (proj2 Hl eq_refl)|discriminate (proj2 Hg eq_refl)].
Qed.
Lemma cmp_rank_compare a b : cmp_rank a b = int_of_comparison (compare_list double_compare a b).
Proof.
  revert b. induction a as [|x a IH]; intros [|y b]; [reflexivity..|].
  cbn [cmp_rank compare_list]. rewrite cmp_double_compare, IH.
  destruct (double_compare x y); reflexivity.
Qed.

(** The lambda as one lexicographic comparison: score and key descending, then
    collective, sequence number and request id ascending. *)
Definition ranked_compare (s : Impl) : Ranked -> Ranked -> comparison :=
  compare_lex (compare_on rk_score (compare_down double_compare))
  (compare_lex (compare_on rk_key (compare_down (compare_list double_compare)))
  (compare_lex (compare_on (fun a => collective_of s (rk_id a)) Z.compare)
  (compare_lex (compare_on rk_seq Z.compare) (compare_on (fun a => id_value (rk_id a)) Z.compare)))).
#[export] Instance ranked_compare_total s : TotalPreorderCompare (ranked_compare s).
Proof.
  unfold ranked_compare.
  repeat (apply compare_lex_total; [apply compare_on_total|]); try apply compare_on_total;
    try apply compare_down_total; try apply compare_list_total; apply _.
Qed.

Lemma tie_break x y b c : (b = true <-> c = Lt) ->
  (if negb (x =? y) then x <? y else b) = true <-> match x ?= y with Eq => c | r => r end = Lt.
Proof.
  intros Hb. destruct (Z.eqb_spec x y) as [->|Hne]; simpl; [by rewrite Z.compare_refl|].
  rewrite Z.ltb_lt. destruct (Z.compare_spec x y); [lia|done|]. split; [lia|done].
Qed.
Lemma ranked_before_compare s a b : isnan (rk_score a) = false -> isnan (rk_score b) = false ->
  ranked_before s a b = true <-> ranked_compare s a b = Lt.
Proof.
  intros Ha Hb. unfold ranked_before, ranked_compare, compare_lex, compare_on, compare_down.
  pose proof (dne_compare _ _ Ha Hb) as Hne. pose proof (dgt_compare _ _ Ha Hb) as Hgt.
  rewrite (compare_antisym (c := double_compare) (rk_score a)).
  destruct (dne _ _).
  { destruct (double_compare (rk_score a) (rk_score b)); naive_solver. }
  rewrite (proj1 Hne eq_refl). simpl. rewrite cmp_rank_compare.
  rewrite (compare_antisym (c := compare_list double_compare) (rk_key a)).
  destruct (compare_list double_compare (rk_key a) (rk_key b)); simpl; [|naive_solver..].
  apply tie_break, tie_break. rewrite Z.ltb_lt. symmetry. apply Z.compare_lt_iff.
Qed.

(** ** The ranked list does not depend on the candidates' order *)

(** No candidate's score is NaN. *)
Definition scores_ordered (s : Impl) (candidates : list CollectiveRequestId) : Prop :=
  Forall (fun id => isnan (rk_score (rank s id)) = false) candidates.
Definition is_rank (s : Impl) (x : Ranked) : Prop :=
  x = rank s (rk_id x) /\ isnan (rk_score x) = false.

Lemma ranked_before_trans s x y z : is_rank s x -> is_rank s y -> is_rank s z ->
  ranked_before s x y = true -> ranked_before s y z = true -> ranked_before s x z = true.
Proof.
  intros [_ Hx] [_ Hy] [_ Hz]. rewrite !ranked_before_compare by done.
  apply (compare_lt_trans (c := ranked_compare s)).
Qed.
Lemma ranked_before_irrefl s x : is_rank s x -> ranked_before s x x = false.
Proof.
  intros [_ Hx]. apply not_true_iff_false. rewrite ranked_before_compare by done.
  by rewrite (compare_refl (ranked_compare s)).
Qed.
Lemma ranked_compare_eq_id s x y : ranked_compare s x y = Eq -> rk_id x = rk_id y.
Proof.
  unfold ranked_compare, compare_lex, compare_on. intros H. repeat case_match; try done.
  apply id_eq. by apply Z.compare_eq_iff.
Qed.
Lemma ranked_before_total s x y : is_rank s x -> is_rank s y ->
  ranked_before s x y = true \/ x = y \/ ranked_before s y x = true.
Proof.
  intros [Ex Hx] [Ey Hy]. rewrite !ranked_before_compare by done.
  rewrite <- (compare_gt_lt (ranked_compare s) x y).
  destruct (ranked_compare s x y) eqn:E; [|by left|by do 2 right].
  right. left. rewrite Ex, Ey. f_equal. by eapply ranked_compare_eq_id.
Qed.
Lemma ranks_is_rank s l : scores_ordered s l -> Forall (is_rank s) (rank s <$> l).
Proof. intros Hs. apply Forall_fmap. eapply Forall_impl; [exact Hs|]. intros id H. by split. Qed.

Lemma ranked_list_perm s l1 l2 :
  scores_ordered s l1 -> l1 ≡ₚ l2 -> ranked_list s l1 = ranked_list s l2.
Proof.
  intros Hs Hp. apply (stable_sort_unique _ (is_rank s)).
  - apply ranked_before_trans.
  - apply ranked_before_total.
  - apply ranked_before_irrefl.
  - by apply ranks_is_rank.
  - by rewrite Hp.
Qed.
Lemma ranked_list_ids s l : rk_id <$> ranked_list s l ≡ₚ l.
Proof.
  unfold ranked_list. rewrite stable_sort_perm, <- list_fmap_compose.
  by rewrite (list_fmap_ext _ id), list_fmap_id.
Qed.
Lemma elem_of_ranked_list s l x : x ∈ ranked_list s l -> x = rank s (rk_id x) /\ rk_id x ∈ l.
Proof.
  unfold ranked_list. rewrite stable_sort_perm, list_elem_of_fmap.
  by intros (id & -> & Hid).
Qed.
