(* ===== verification/Schedule.v ===== *)
(** * Schedule: one scheduling round ([Impl::schedule] of scheduler.cpp)

    The round refreshes every record, ranks the eligible ones, selects a set
    that may overlap, grants it and accounts for fairness.  Each part of the
    function is a definition of its own, composed in [schedule_round] in the
    order of the source.  [ord] is the iteration order of the [records] hash map
    during the refresh loop and [gord] that of the [grants] hash map.

    [records\[id\]] is [record_at]: the ids the round looks up come from the
    records themselves, so [operator\[\]] never inserts. *)
From stdpp Require Import pretty.
From S2P Require Import Prelude Enums Identity Error Float64 Domain.
From S2P Require Import Lifecycle Conflict State Eligibility Ranking.
(** ** The refresh loop *)

(** Run a member of [Record] on the record stored under [id]. *)
Definition with_record {A} (id : CollectiveRequestId) (m : M scheduler_error SRecord A) : SM A :=
  fun s => let '(x, r) := m (record_at s id) in (x, set_record id r s).

(** The readiness values that send a queued collective back to WAITING. *)
Definition waiting_readiness (rd : Readiness.t) : bool :=
  match rd with
  | Readiness.WAITING_DEPENDENCY | Readiness.WAITING_PARTICIPANT
  | Readiness.WAITING_COMMUNICATION_PLAN | Readiness.WAITING_RESERVATION
  | Readiness.WAITING_RESOURCE | Readiness.WAITING_CAPACITY => true
  | _ => false
  end.
(** The lifecycle [switch]; the result is true where the source says [continue]. *)
Definition derive_lifecycle (rd : Readiness.t) : M scheduler_error SRecord bool :=
  r ← get_state;
  match rec_lifecycle r with
  | LifecycleState.DECLARED =>
      if bool_decide (rd = Readiness.READY) then rec_transition LifecycleState.READY;; mret false
      else rec_transition LifecycleState.WAITING;; mret false
  | LifecycleState.WAITING =>
      if bool_decide (rd = Readiness.READY) then rec_transition LifecycleState.READY;; mret false
      else if bool_decide (rd = Readiness.STALE)
      then rec_transition LifecycleState.REVALIDATION_REQUIRED;; mret true
      else mret false
  | LifecycleState.READY =>
      if bool_decide (rd = Readiness.STALE)
      then rec_transition LifecycleState.REVALIDATION_REQUIRED;; mret true
      else mret false
  | LifecycleState.ELIGIBLE | LifecycleState.QUEUED =>
      if bool_decide (rd = Readiness.STALE)
      then rec_transition LifecycleState.REVALIDATION_REQUIRED;; mret true
      else if waiting_readiness rd then rec_transition LifecycleState.WAITING;; mret true
      else mret false
  | _ => mret false
  end.
(** READY, ELIGIBLE and QUEUED collectives are checked for hard eligibility. *)
Definition consider (s : Impl) : M scheduler_error SRecord (option CollectiveRequestId) :=
  r ← get_state;
  match rec_lifecycle r with
  | LifecycleState.READY | LifecycleState.ELIGIBLE | LifecycleState.QUEUED =>
      let '(eligible, reasons) := hard_eligible s r in
      if eligible then
        put_state (r <| rec_hard_eligible := true |> <| rec_eligibility_reasons := [] |>);;
        mret (Some (rq_id (rec_request r)))
      else put_state (r <| rec_eligibility_reasons := reasons |>);; mret None
  | _ => mret None
  end.
(** The body of the refresh loop: the candidate it pushes, if any. *)
Definition refresh_record (s : Impl) : M scheduler_error SRecord (option CollectiveRequestId) :=
  r ← get_state;
  if is_terminal_state (rec_lifecycle r) then mret None
  else
    let req := rec_request r in
    let r := r
      <| rec_age_ticks ::= fun a => add64 a 1 |>
      <| rec_footprint :=
           make_footprint (rq_participants req) (rq_resource_claims req) (im_plans s !! rq_plan_id req) |> in
    let rd := compute_readiness s r in
    put_state (r <| rec_last_readiness := rd |> <| rec_hard_eligible := false |>
                 <| rec_eligibility_reasons := [] |>);;
    skip ← derive_lifecycle rd;
    if (skip : bool) then mret None else consider s.
(** The loop itself: the candidates in iteration order. *)
Fixpoint refresh_loop (ord : list CollectiveRequestId) : SM (list CollectiveRequestId) :=
  match ord with
  | [] => mret []
  | id :: ord' =>
      s ← get_state;
      c ← with_record id (refresh_record s);
      cs ← refresh_loop ord';
      mret (option_list c ++ cs)
  end.

(** The counters. *)
Definition count_records (f : SRecord -> bool) (s : Impl) : Z :=
  Z.of_nat (base.size (filter (fun kr : CollectiveRequestId * SRecord => f kr.2 = true) (im_records s))).
Definition lifecycle_in (l : list LifecycleState.t) (r : SRecord) : bool :=
  bool_decide (rec_lifecycle r ∈ l).
Definition refresh_counts (s : Impl) : Impl :=
  s <| im_ready_count := count_records (lifecycle_in [LifecycleState.READY]) s |>
    <| im_queued_count := count_records (lifecycle_in [LifecycleState.QUEUED; LifecycleState.ELIGIBLE]) s |>
    <| im_eligible_count := count_records rec_hard_eligible s |>.

(** ** Selection *)

(** [Impl::can_overlap]. *)
Definition overlap_bandwidth (s : Impl) (a b : SRecord) : double :=
  let add bw id := match im_plans s !! id with
    | Some pl => dadd bw (pl_estimated_bandwidth pl)
    | None => bw
    end in
  add (add d0 (rq_plan_id (rec_request a))) (rq_plan_id (rec_request b)).
Definition mode_in (l : list OverlapMode.t) (a : SRecord) : bool :=
  bool_decide (rq_overlap (rec_request a) ∈ l).
Definition can_overlap (s : Impl) (a b : SRecord) : bool :=
  if mode_in [OverlapMode.UNKNOWN] a || mode_in [OverlapMode.UNKNOWN] b then false
  else if mode_in [OverlapMode.EXCLUSIVE] a || mode_in [OverlapMode.EXCLUSIVE] b then false
  else if forbids_overlap (classify_conflict (rec_footprint a) (rec_footprint b)) then false
  else if
    match rq_reservation_gen (rec_request a), rq_reservation_gen (rec_request b) with
    | Some x, Some y => bool_decide (x = y)
    | _, _ => false
    end then false
  else match im_congestion s with
  | Some c =>
      if dgt (overlap_bandwidth s a b) (cong_residual_bandwidth c) then false
      else if cong_hard_ceiling c && dge (cong_utilization c) (cong_hard_ceiling_utilization c)
      then false
      else true
  | None => true
  end.

(** [Impl::active_conflicts]. *)
Definition active_candidates (s : Impl) (r : SRecord) : list CollectiveGrantId :=
  sort_unique id_ltb
    (flat_map (fun pid => match im_active_by_participant s !! pid with
       | Some st => elements st
       | None => []
       end) (rq_participants (rec_request r))).
Definition conflicts_with_grant (s : Impl) (r : SRecord) (gid : CollectiveGrantId) : bool :=
  match im_grants s !! gid with
  | None => false
  | Some gs =>
      if negb (gs_active gs) || gs_terminal gs then false
      else match im_records s !! g_request (gs_grant gs) with
      | None => false
      | Some holder => forbids_overlap (classify_conflict (rec_footprint r) (rec_footprint holder))
      end
  end.
Definition active_conflicts (s : Impl) (r : SRecord) : Z :=
  size (List.filter (conflicts_with_grant s r) (active_candidates s r)).

(** The selection loop; [selected] is the vector built so far. *)
Fixpoint select (s : Impl) (ranked : list Ranked) (selected : list CollectiveRequestId)
    : list CollectiveRequestId :=
  match ranked with
  | [] => selected
  | rk :: ranked' =>
      let rec := record_at s (rk_id rk) in
      let exclusive := mode_in [OverlapMode.EXCLUSIVE] rec in
      if add64 (im_active_grants s) (size selected) >=? max_active_grants (pol_bounds (im_policy s))
      then selected
      else if exclusive && negb (is_empty selected) then select s ranked' selected
      else if active_conflicts s rec >? 0 then select s ranked' selected
      else if negb (forallb (fun sel => can_overlap s rec (record_at s sel)) selected)
      then select s ranked' selected
      else if size selected >=? max_overlap_group (pol_bounds (im_policy s)) then selected
      else if exclusive then selected ++ [rk_id rk]
      else select s ranked' (selected ++ [rk_id rk])
  end.

(** ** Grants *)

(** [Impl::promote_to_granted]; the cases fall through. *)
Definition promote_to_granted : M scheduler_error SRecord unit :=
  r ← get_state;
  match rec_lifecycle r with
  | LifecycleState.READY =>
      rec_transition LifecycleState.ELIGIBLE;; rec_transition LifecycleState.QUEUED;;
      rec_transition LifecycleState.GRANTED
  | LifecycleState.ELIGIBLE =>
      rec_transition LifecycleState.QUEUED;; rec_transition LifecycleState.GRANTED
  | LifecycleState.QUEUED => rec_transition LifecycleState.GRANTED
  | LifecycleState.GRANTED => mret tt
  | _ => throw (throw_transition "cannot promote to granted")
  end;;
  r ← get_state;
  put_state (r <| rec_in_ready_queue := true |>).

(** The largest generation, starting from [m]. *)
Definition max_gen {tag} (m : Gen tag) (l : list (Gen tag)) : Gen tag :=
  foldl (fun m v => if gen_value v >? gen_value m then v else m) m l.
(** The grant that [Impl::create_grant] builds from the record. *)
Definition grant_of (s : Impl) (r : SRecord) (snap : EvidenceSnapshot) (dec : ScheduleDecision)
    : CollectiveGrant :=
  let req := rec_request r in
  {| g_id := im_next_grant_id s;
     g_gen := im_next_grant_gen s;
     g_request := rq_id req;
     g_request_gen := rq_gen req;
     g_collective := rq_collective req;
     g_collective_gen := rq_collective_gen req;
     g_schedule := dec_id dec;
     g_schedule_gen := dec_gen dec;
     g_participants := rq_participants req;
     g_participant_gens := rq_participant_gens req;
     g_plan := rq_plan_id req;
     g_plan_gen := rq_plan_gen req;
     g_evidence := snap
       <| ev_request_gen := rq_gen req |>
       <| ev_plan_gen := rq_plan_gen req |>
       <| ev_collective_gen := rq_collective_gen req |>
       <| ev_participant_gen ::= fun old =>
            match rq_participant_gens req with
            | [] => old
            | g0 :: _ => max_gen g0 (rq_participant_gens req)
            end |>
       <| ev_dependency_gen := max_gen (mkGen 0) (dr_gen <$> rq_dependencies req) |>;
     g_revalidation := RevalidationRequirements_default;
     g_workload := rq_workload req;
     g_execution_attempt := mkId 0;
     g_execution_attempt_gen := mkGen 0;
     g_policy_gen := im_policy_gen s;
     g_active := false;
     g_terminal := false |}.
(** [Impl::create_grant]; [emplace] keeps a grant already stored under the id. *)
Definition create_grant (id : CollectiveRequestId) (snap : EvidenceSnapshot)
    (dec : ScheduleDecision) : SM CollectiveGrant := fun s =>
  let r := record_at s id in
  let g := grant_of s r snap dec in
  let s := s <| im_next_grant_id ::= id_incr |> <| im_next_grant_gen ::= gen_incr |> in
  let s := set_record id (r <| rec_current_grant := Some g |>) s in
  let s := match im_grants s !! g_id g with
    | Some _ => s
    | None => set_grant (g_id g) (mkGrantState g false false false (mkId 0) (mkId 0)) s
    end in
  (Ok g, s).
(** [try { m } catch (const scheduler_error&) { continue; }]: whether it got through. *)
Definition attempt {E S} (m : M E S unit) : M E S bool := fun s =>
  let '(x, s') := m s in (Ok (is_ok x), s').
(** The loop over the selected collectives: the ids of the grants made. *)
Fixpoint create_grants (dec : ScheduleDecision) (sel : list CollectiveRequestId)
    : SM (list CollectiveGrantId) :=
  match sel with
  | [] => mret []
  | id :: sel' =>
      promoted ← with_record id (attempt promote_to_granted);
      if (promoted : bool) then
        g ← create_grant id (dec_evidence dec) dec;
        gs ← create_grants dec sel';
        mret (g_id g :: gs)
      else create_grants dec sel'
  end.

(** ** The decision *)

Definition overlap_of (s : Impl) (id : CollectiveRequestId) : OverlapMode.t :=
  rq_overlap (rec_request (record_at s id)).
Definition group_mode (s : Impl) (sel : list CollectiveRequestId) : OverlapMode.t :=
  match sel with
  | [id] => overlap_of s id
  | _ => if existsb (fun id => bool_decide (overlap_of s id = OverlapMode.OVERLAP_LIMITED)) sel
         then OverlapMode.OVERLAP_LIMITED else OverlapMode.OVERLAP_ALLOWED
  end.
(** The overlap group of the round, when something was selected. *)
Definition form_group (sel : list CollectiveRequestId) : SM (list OverlapGroup) :=
  if is_empty sel then mret []
  else fun s =>
    let grp := OverlapGroup_normalize
      (mkOverlapGroup (im_next_group_id s) (im_next_group_gen s) sel OverlapMode.UNKNOWN 1) in
    let s := s <| im_next_group_id ::= id_incr |> <| im_next_group_gen ::= gen_incr |> in
    let grp := grp <| og_mode := group_mode s sel |>
                   <| og_bound := max_overlap_group (pol_bounds (im_policy s)) |> in
    (Ok [grp], s).

(** The fairness accounting of one candidate. *)
Definition charge_fairness (p : PolicyConfig) (selected : bool) (f : FairnessAccount) : FairnessAccount :=
  let growth := pol_aging_growth p in
  if selected then
    f <| fa_observed_grants ::= fun n => add64 n 1 |>
      <| fa_observed_service ::= fun x => dadd x d1 |>
      <| fa_consecutive_bypasses := 0 |>
      <| fa_deficit ::= fun x => if dgt x growth then dsub x growth else d0 |>
      <| fa_starved := false |>
  else
    let bypasses := add64 (fa_consecutive_bypasses f) 1 in
    f <| fa_consecutive_bypasses := bypasses |>
      <| fa_wait_ticks ::= fun n => add64 n 1 |>
      <| fa_deficit ::= fun x => dadd x growth |>
      <| fa_starved := bypasses >=? pol_max_bypass_count p |>.
Definition account_fairness (sel candidates : list CollectiveRequestId) (s : Impl) : Impl :=
  foldl (fun s id =>
    set_record id (record_at s id
      <| rec_fairness ::= charge_fairness (im_policy s) (bool_decide (id ∈ sel)) |>) s) s candidates.

(** The reported ranking factors of the top candidate. *)
Definition factor_kinds : list SchedulingFactorKind.t :=
  [ SchedulingFactorKind.DEADLINE_SLACK; SchedulingFactorKind.EXTERNAL_PRIORITY;
    SchedulingFactorKind.STARVATION_RISK; SchedulingFactorKind.FAIRNESS_DEFICIT;
    SchedulingFactorKind.AGE; SchedulingFactorKind.EXPECTED_DURATION;
    SchedulingFactorKind.RESERVATION_FIT; SchedulingFactorKind.COMMUNICATION_COST;
    SchedulingFactorKind.RESOURCE_FOOTPRINT; SchedulingFactorKind.CONGESTION_PENALTY;
    SchedulingFactorKind.PARTICIPANT_AVAILABILITY ].
Definition ranking_factors (s : Impl) (ranked : list Ranked) : list FactorValue :=
  match ranked with
  | [] => []
  | rk :: _ =>
      zip_with (fun kind v => mkFactorValue kind v ProvenanceStatus.DERIVED)
        factor_kinds (ranking_key s (record_at s (rk_id rk)))
  end.

(** [Impl::collect_priority_inversions]. *)
Definition inversion_urgent (s : Impl) (r : SRecord) : bool :=
  let w := rq_window (rec_request r) in
  negb (w_deadline_ns w =? 0) &&
  (w_deadline_ns w <=? add64 (im_now s) (mul64 (w_expected_duration_ns w) 2)).
Definition inversion (s : Impl) (r : SRecord) (gid : CollectiveGrantId) : option PriorityInversionEvent :=
  gs ← im_grants s !! gid;
  if negb (gs_active gs) || gs_terminal gs then None
  else
    holder ← im_records s !! g_request (gs_grant gs);
    let hp := prio_value (rq_priority (rec_request holder)) in
    let rp := prio_value (rq_priority (rec_request r)) in
    if hp >=? rp then None
    else if negb (forbids_overlap (classify_conflict (rec_footprint r) (rec_footprint holder))) then None
    else Some (mkPriorityInversionEvent (rq_id (rec_request holder)) (rq_id (rec_request r))
      (if inversion_urgent s r then PriorityInversionAction.REQUEST_PREEMPTION
       else PriorityInversionAction.DRAIN_CURRENT) hp rp (make_snapshot s)).
Definition collect_priority_inversions (s : Impl) (gord : list CollectiveGrantId)
    (fallback : list CollectiveRequestId) : list PriorityInversionEvent :=
  flat_map (fun id =>
    match im_records s !! id with
    | None => []
    | Some r =>
        if negb (prio_authoritative (rq_priority (rec_request r))) then []
        else omap (inversion s r) gord
    end) fallback.

(** [Impl::schedule]: the counters it takes, the decision it starts with, and
    the decision it returns. *)
Definition round_start (s : Impl) : Impl :=
  s <| im_next_schedule_id ::= id_incr |> <| im_next_schedule_gen ::= gen_incr |>.
Definition round_decision (s : Impl) : ScheduleDecision :=
  ScheduleDecision_default
    <| dec_id := im_next_schedule_id s |>
    <| dec_gen := im_next_schedule_gen s |>
    <| dec_evidence := make_snapshot s |>
    <| dec_revalidation := RevalidationRequirements_default |>.
Definition finish_decision (dec : ScheduleDecision) (s : Impl) (gord : list CollectiveGrantId)
    (ranked : list Ranked) (selected : list CollectiveRequestId) (grants : list CollectiveGrantId)
    (groups : list OverlapGroup) : ScheduleDecision :=
  let fallback := List.filter (fun id => negb (bool_decide (id ∈ selected))) (rk_id <$> ranked) in
  {| dec_id := dec_id dec;
     dec_gen := dec_gen dec;
     dec_selected := selected;
     dec_overlap_groups := groups;
     dec_grants := grants;
     dec_evidence := dec_evidence dec;
     dec_revalidation := dec_revalidation dec;
     dec_ranking_factors := ranking_factors s ranked;
     dec_fallback := fallback;
     dec_priority_inversions := collect_priority_inversions s gord fallback;
     dec_explanation := "collective " +:+ pretty (length selected) +:+ " selected" |}.
Definition schedule_round (ord : list CollectiveRequestId) (gord : list CollectiveGrantId)
    : SM ScheduleDecision :=
  s0 ← get_state;
  put_state (round_start s0);;
  let dec := round_decision s0 in
  candidates ← refresh_loop ord;
  s1 ← get_state;
  put_state (refresh_counts s1);;
  s2 ← get_state;
  let ranked := ranked_list s2 candidates in
  let selected := select s2 ranked [] in
  grants ← create_grants dec selected;
  groups ← form_group selected;
  s3 ← get_state;
  put_state (account_fairness selected candidates s3);;
  s4 ← get_state;
  mret (finish_decision dec s4 gord ranked selected grants groups).

(** ** The refresh of one record *)

(** The record after the loop body, and whether it became a candidate. *)
Definition refreshed (s : Impl) (r : SRecord) : SRecord := exec (refresh_record s) r.
Definition candidate (s : Impl) (r : SRecord) : bool :=
  match eval (refresh_record s) r with Ok (Some _) => true | _ => false end.

#[export] Instance refresh_record_proper :
  Proper (same_evidence ==> eq ==> eq) refresh_record.
Proof.
  intros s1 s2 E r _ <-. unfold refresh_record, mbind, M_bind, get_state. simpl.
  destruct (is_terminal_state _); [done|].
  destruct (same_evidence_fields _ _ E) as (_ & _ & _ & Epl & _). rewrite Epl.
  rewrite (compute_readiness_proper _ _ E _ _ eq_refl). unfold put_state.
  destruct (derive_lifecycle _ _) as [[[]|e] r']; try done.
  unfold consider, mbind, M_bind, get_state.
  by rewrite (hard_eligible_proper _ _ E _ _ eq_refl).
Qed.

(** The states the switch moves. *)
Definition before_granted (l : LifecycleState.t) : bool :=
  match l with
  | LifecycleState.DECLARED | LifecycleState.WAITING | LifecycleState.READY
  | LifecycleState.ELIGIBLE | LifecycleState.QUEUED => true
  | _ => false
  end.
(** What the body does to each field it does not compute from the evidence. *)
Record refresh_frame (s : Impl) (r r' : SRecord) : Prop := {
  rf_request : rec_request r' = rec_request r;
  rf_seq : rec_enqueue_seq r' = rec_enqueue_seq r;
  rf_fairness : rec_fairness r' = rec_fairness r;
  rf_grant : rec_current_grant r' = rec_current_grant r;
  rf_lifecycle : rec_lifecycle r' = rec_lifecycle r \/
    before_granted (rec_lifecycle r) = true /\
    can_transition (rec_lifecycle r) (rec_lifecycle r') = true /\
    rec_lifecycle r' ∈ [LifecycleState.READY; LifecycleState.WAITING;
      LifecycleState.REVALIDATION_REQUIRED];
}.
(** A candidate is READY (or on its way through the queue), hard-eligible on
    current evidence, with its footprint up to date. *)
Record candidate_ok (s : Impl) (r' : SRecord) : Prop := {
  co_lifecycle : rec_lifecycle r' ∈ [LifecycleState.READY; LifecycleState.ELIGIBLE;
    LifecycleState.QUEUED];
  co_flag : rec_hard_eligible r' = true;
  co_reasons : rec_eligibility_reasons r' = [];
  co_admissible : admissible s r';
  co_evidence : evidence_current s (rec_request r');
  co_footprint : rec_footprint r' = make_footprint (rq_participants (rec_request r'))
    (rq_resource_claims (rec_request r')) (im_plans s !! rq_plan_id (rec_request r'));
}.

(** The part of the body before the lifecycle switch. *)
Definition aged (s : Impl) (r : SRecord) : SRecord :=
  let req := rec_request r in
  let r := r
    <| rec_age_ticks ::= fun a => add64 a 1 |>
    <| rec_footprint :=
         make_footprint (rq_participants req) (rq_resource_claims req) (im_plans s !! rq_plan_id req) |> in
  r <| rec_last_readiness := compute_readiness s r |> <| rec_hard_eligible := false |>
    <| rec_eligibility_reasons := [] |>.
Lemma refresh_record_unfold s r :
  refresh_record s r =
  if is_terminal_state (rec_lifecycle r) then (Ok None, r)
  else (skip ← derive_lifecycle (rec_last_readiness (aged s r));
        if (skip : bool) then mret None else consider s) (aged s r).
Proof.
  unfold refresh_record, mbind, M_bind, get_state. simpl.
  by destruct (is_terminal_state (rec_lifecycle r)).
Qed.
(** What [last_readiness] was plays no part in the refresh of a record, which is the
    only reader of it: not even the indeterminate value of a fresh [Record]. *)
Lemma uninitialized_readiness_unread s r x : is_terminal_state (rec_lifecycle r) = false ->
  refresh_record s (r <| rec_last_readiness := x |>) = refresh_record s r.
Proof.
  intros Ht. rewrite !refresh_record_unfold.
  change (rec_lifecycle (r <| rec_last_readiness := x |>)) with (rec_lifecycle r). by rewrite Ht.
Qed.
Lemma aged_lifecycle s r : rec_lifecycle (aged s r) = rec_lifecycle r.
Proof. done. Qed.

(** The switch: it leaves everything but the lifecycle alone, and throws only on
    the transition from ELIGIBLE to WAITING, which the table does not have. *)
Lemma derive_lifecycle_frame rd r : exists l,
  snd (derive_lifecycle rd r) = r <| rec_lifecycle := l |> /\
  (l = rec_lifecycle r \/ before_granted (rec_lifecycle r) = true /\
    can_transition (rec_lifecycle r) l = true /\
    l ∈ [LifecycleState.READY; LifecycleState.WAITING; LifecycleState.REVALIDATION_REQUIRED]) /\
  (rec_lifecycle r <> LifecycleState.ELIGIBLE -> is_ok (fst (derive_lifecycle rd r)) = true).
Proof.
  destruct r as [req lc rd0 seq age fa rs he q fp cg ep].
  unfold derive_lifecycle, mbind, M_bind, get_state, rec_transition, transition; cbn [rec_lifecycle].
  destruct lc; repeat case_match; simplify_eq/=;
    solve [ eexists; split; [reflexivity|]; split; [by left|done]
          | eexists; split; [reflexivity|]; split; [right; split_and!; [done|done|set_solver]|done] ].
Qed.

Lemma consider_cases s r :
  (exists r', consider s r = (Ok None, r') /\
     (r' = r \/ exists reasons, r' = r <| rec_eligibility_reasons := reasons |>)) \/
  (rec_lifecycle r ∈ [LifecycleState.READY; LifecycleState.ELIGIBLE; LifecycleState.QUEUED] /\
   admissible s r /\
   consider s r = (Ok (Some (rq_id (rec_request r))),
     r <| rec_hard_eligible := true |> <| rec_eligibility_reasons := [] |>)).
Proof.
  unfold consider, mbind, M_bind, get_state, put_state, mret, M_ret.
  assert (Hc : forall r' : SRecord, r' = r \/ (exists reasons, r' = r <| rec_eligibility_reasons := reasons |>) ->
    exists r'', (Ok (E := scheduler_error) (A := option CollectiveRequestId) None, r') = (Ok None, r'') /\
      (r'' = r \/ exists reasons, r'' = r <| rec_eligibility_reasons := reasons |>)) by eauto.
  destruct (rec_lifecycle r) eqn:El; try (left; apply Hc; by left).
  all: destruct (hard_eligible s r) as [[] reasons] eqn:Eh; [|left; apply Hc; right; by eexists].
  all: right; apply hard_eligible_true in Eh as [_ Ha]; split; [set_solver|done].
Qed.

Lemma refresh_record_frame s r : refresh_frame s r (refreshed s r).
Proof.
  unfold refreshed, exec. rewrite refresh_record_unfold.
  destruct (is_terminal_state (rec_lifecycle r)); [by split; try left|].
  unfold mbind, M_bind.
  destruct (derive_lifecycle_frame (rec_last_readiness (aged s r)) (aged s r)) as (l & Es & Hl & _).
  destruct (derive_lifecycle _ _) as [[[]|e] r1]; cbn [snd] in Es; subst r1; try (by split).
  destruct (consider_cases s (aged s r <| rec_lifecycle := l |>)) as [(r' & -> & [->|[reasons ->]])|(_ & _ & ->)];
    by split.
Qed.
Lemma refresh_record_total s r : rec_lifecycle r <> LifecycleState.ELIGIBLE ->
  exists c, eval (refresh_record s) r = Ok c.
Proof.
  intros Hne. unfold eval. rewrite refresh_record_unfold.
  destruct (is_terminal_state (rec_lifecycle r)); [by eexists|]. unfold mbind, M_bind.
  destruct (derive_lifecycle_frame (rec_last_readiness (aged s r)) (aged s r)) as (l & _ & _ & Hok).
  specialize (Hok Hne). destruct (derive_lifecycle _ _) as [[[]|e] r1]; try done; [by eexists|].
  destruct (consider_cases s r1) as [(r' & -> & _)|(_ & _ & ->)]; by eexists.
Qed.
Lemma admissible_flags s r b reasons :
  admissible s r -> admissible s (r <| rec_hard_eligible := b |> <| rec_eligibility_reasons := reasons |>).
Proof. intros []. by split. Qed.
Lemma refresh_record_candidate s r id :
  eval (refresh_record s) r = Ok (Some id) ->
  id = rq_id (rec_request r) /\ candidate_ok s (refreshed s r).
Proof.
  unfold eval, refreshed, exec. rewrite refresh_record_unfold.
  destruct (is_terminal_state (rec_lifecycle r)); [done|]. unfold mbind, M_bind.
  destruct (derive_lifecycle_frame (rec_last_readiness (aged s r)) (aged s r)) as (l & Es & _ & _).
  destruct (derive_lifecycle _ _) as [[[]|e] r1]; try done. cbn [snd] in Es. subst r1.
  destruct (consider_cases s (aged s r <| rec_lifecycle := l |>)) as [(r' & -> & _)|(Hl & Ha & ->)]; [done|].
  cbn [fst snd]. intros [= <-]. split; [done|]. split; try done.
  - by apply admissible_flags.
  - apply compute_readiness_ready. by apply (adm_ready _ _ Ha).
Qed.
Lemma candidate_some s r : candidate s r = true -> rec_lifecycle r <> LifecycleState.ELIGIBLE ->
  eval (refresh_record s) r = Ok (Some (rq_id (rec_request r))).
Proof.
  intros Hc Hne. unfold candidate in Hc. destruct (eval (refresh_record s) r) as [[id|]|e] eqn:E; try done.
  by apply refresh_record_candidate in E as [-> _].
Qed.

(** What a request needs of the evidence, the time and itself to be a candidate. *)
Record startable (s : Impl) (req : CollectiveRequest) : Prop := {
  st_evidence : evidence_current s req;
  st_window : window_open s (rq_window req);
  st_workload : gen_value (rq_workload_gen req) <> 0;
}.
Lemma startable_admissible s r : startable s (rec_request r) -> rec_last_readiness r = Readiness.READY ->
  admissible s r.
Proof. intros [[] ? ?] ?. by split. Qed.
Lemma derive_lifecycle_ready r :
  rec_lifecycle r ∈ [LifecycleState.DECLARED; LifecycleState.WAITING; LifecycleState.READY] ->
  derive_lifecycle Readiness.READY r = (Ok false, r <| rec_lifecycle := LifecycleState.READY |>).
Proof.
  intros Hl. destruct r as [req lc rd0 seq age fa rs he q fp cg ep]. cbn [rec_lifecycle] in Hl. set_unfold in Hl.
  by destruct Hl as [->|[->|[->|[]]]].
Qed.
Lemma refresh_record_offers s r :
  rec_lifecycle r ∈ [LifecycleState.DECLARED; LifecycleState.WAITING; LifecycleState.READY] ->
  startable s (rec_request r) -> candidate s r = true.
Proof.
  intros Hl Hs. assert (rec_last_readiness (aged s r) = Readiness.READY) as Hrd.
  { apply compute_readiness_ready, Hs. }
  assert (is_terminal_state (rec_lifecycle r) = false) as Ht.
  { set_unfold in Hl. by destruct Hl as [->|[->|[->|[]]]]. }
  unfold candidate, eval. rewrite refresh_record_unfold, Ht, Hrd. unfold mbind, M_bind. rewrite derive_lifecycle_ready by done.
  destruct (consider_cases s (aged s r <| rec_lifecycle := LifecycleState.READY |>)) as [(r' & E & _)|(_ & _ & ->)]; [|done].
  exfalso. revert E. unfold consider, mbind, M_bind, get_state. cbn [rec_lifecycle set].
  rewrite (proj2 (hard_eligible_true s _ [])); [done|]. split; [done|]. by apply startable_admissible.
Qed.

(** ** The refresh loop *)

(** Every record carries its own key, and none rests in ELIGIBLE. *)
Definition records_keyed (s : Impl) : Prop :=
  forall id r, im_records s !! id = Some r -> rq_id (rec_request r) = id.
Definition none_eligible (s : Impl) : Prop :=
  forall id r, im_records s !! id = Some r -> rec_lifecycle r <> LifecycleState.ELIGIBLE.

Definition candidates_of (s : Impl) (ord : list CollectiveRequestId) : list CollectiveRequestId :=
  List.filter (fun id => candidate s (record_at s id)) ord.

Lemma record_at_lookup s id r : im_records s !! id = Some r -> record_at s id = r.
Proof. unfold record_at. by intros ->. Qed.
Lemma record_at_insert_ne (s : Impl) (id id' : CollectiveRequestId) r :
  id <> id' -> record_at (set_record id r s) id' = record_at s id'.
Proof. intros Hne. unfold record_at, set_record. simpl. by rewrite lookup_insert_ne. Qed.

(** The loop refreshes the records of [ord] one by one. *)
Lemma refresh_loop_spec ord s : NoDup ord ->
  (forall id, id ∈ ord -> exists r, im_records s !! id = Some r /\ rq_id (rec_request r) = id /\
    rec_lifecycle r <> LifecycleState.ELIGIBLE) ->
  refresh_loop ord s =
    (Ok (candidates_of s ord),
     s <| im_records ::= update_along (fun _ => refreshed s) SRecord_default ord |>).
Proof.
  intros Hn. revert s. induction Hn as [|id ord Hid Hn IH]; intros s Hord; [by destruct s|].
  destruct (Hord id) as (r & Hr & Hk & Hne); [by left|].
  set (s1 := set_record id (refreshed s r) s).
  assert (same_evidence s1 s) as He by done.
  cbn [refresh_loop]. unfold mbind at 1, M_bind, get_state. unfold mbind at 1, M_bind, with_record.
  rewrite (record_at_lookup s id r Hr).
  destruct (refresh_record_total s r Hne) as [c Hc].
  pose proof (surjective_pairing (refresh_record s r)) as Hp. unfold eval in Hc. rewrite Hc in Hp.
  change (refresh_record s r).2 with (refreshed s r) in Hp. rewrite Hp. fold s1.
  unfold mbind, M_bind. rewrite IH.
  2:{ intros id' Hid'. destruct (Hord id') as (r' & ? & ?); [by right|]. exists r'.
      unfold s1, set_record. simpl. rewrite lookup_insert_ne by congruence. done. }
  unfold mret, M_ret. f_equal.
  - f_equal. unfold candidates_of. cbn [List.filter]. rewrite (record_at_lookup s id r Hr).
    assert (List.filter (fun id => candidate s1 (record_at s1 id)) ord =
            List.filter (fun id => candidate s (record_at s id)) ord) as ->.
    { apply List.filter_ext_in. intros id' Hid'%list_elem_of_In.
      unfold s1. rewrite record_at_insert_ne by congruence. unfold candidate, eval.
      by rewrite (refresh_record_proper s1 s He _ _ eq_refl). }
    assert (candidate s r = match c with Some _ => true | None => false end) as ->
      by (unfold candidate, eval; rewrite Hc; by destruct c).
    destruct c as [id'|]; [|done]. apply (refresh_record_candidate s r id') in Hc as [-> _]. by rewrite Hk.
  - assert (forall (k : CollectiveRequestId) x, refreshed s1 x = refreshed s x) as Eext.
    { intros _ x. unfold refreshed, exec. by rewrite (refresh_record_proper s1 s He _ _ eq_refl). }
    unfold set. rewrite update_along_cons, (update_along_ext _ _ _ _ _ Eext). unfold s1, set_record.
    simpl. by rewrite Hr.
Qed.
(** The state after the loop: every record refreshed. *)
Definition refresh_all (s : Impl) : Impl := s <| im_records ::= fmap (refreshed s) |>.
Lemma refresh_loop_all ord s :
  enumerates ord (im_records s) -> records_keyed s -> none_eligible s ->
  refresh_loop ord s = (Ok (candidates_of s ord), refresh_all s).
Proof.
  intros Hord Hk He. rewrite refresh_loop_spec; [|apply Hord|].
  - f_equal. unfold refresh_all, set. by rewrite update_along_all.
  - intros id Hid. apply Hord in Hid as [r Hr].
    exists r. split_and!; [done|by apply Hk|by eapply He].
Qed.
Lemma refresh_all_lookup s id :
  im_records (refresh_all s) !! id = refreshed s <$> im_records s !! id.
Proof. apply lookup_fmap. Qed.
Lemma elem_of_candidates s ord id :
  enumerates ord (im_records s) -> records_keyed s -> none_eligible s ->
  id ∈ candidates_of s ord <->
  exists r, im_records s !! id = Some r /\ candidate s r = true.
Proof.
  intros [_ Hord] Hk He. unfold candidates_of. rewrite list_elem_of_In, List.filter_In, <- list_elem_of_In.
  rewrite Hord. split.
  - intros [[r Hr] Hc]. rewrite (record_at_lookup _ _ _ Hr) in Hc. eauto.
  - intros (r & Hr & Hc). rewrite (record_at_lookup _ _ _ Hr). eauto.
Qed.
Lemma candidates_NoDup s ord : NoDup ord -> NoDup (candidates_of s ord).
Proof. intros. unfold candidates_of. apply NoDup_ListNoDup, List.NoDup_filter. by apply NoDup_ListNoDup. Qed.
Lemma candidates_perm s o1 o2 : o1 ≡ₚ o2 -> candidates_of s o1 ≡ₚ candidates_of s o2.
Proof.
  unfold candidates_of. induction 1 as [|x l l' Hp IH|x y l|l l' l'' _ IH1 _ IH2]; simpl; try done.
  - case_match; [by f_equiv|done].
  - repeat case_match; try done. apply Permutation_swap.
  - by etrans.
Qed.
(** What is known of a candidate after the loop. *)
Lemma candidate_after s ord id :
  enumerates ord (im_records s) -> records_keyed s -> none_eligible s ->
  id ∈ candidates_of s ord ->
  exists r, im_records s !! id = Some r /\ im_records (refresh_all s) !! id = Some (refreshed s r) /\
    candidate_ok s (refreshed s r).
Proof.
  intros Ho Hk He Hid. apply (elem_of_candidates s ord id Ho Hk He) in Hid as (r & Hr & Hc).
  exists r. split; [done|]. split; [by rewrite refresh_all_lookup, Hr|].
  apply candidate_some in Hc; [|by eapply He]. by apply refresh_record_candidate in Hc as [_ ?].
Qed.

(** ** Selection *)
Section select.
Variable s : Impl.
Abbreviation rec_of := (record_at s).
Abbreviation group_bound := (max_overlap_group (pol_bounds (im_policy s))).
Abbreviation active_bound := (max_active_grants (pol_bounds (im_policy s))).
Definition is_exclusive (id : CollectiveRequestId) : bool := mode_in [OverlapMode.EXCLUSIVE] (rec_of id).
(** The next collective fits beside those selected so far. *)
Definition fits (sel : list CollectiveRequestId) (id : CollectiveRequestId) : bool :=
  (negb (is_exclusive id) || is_empty sel) && negb (active_conflicts s (rec_of id) >? 0) &&
  forallb (fun a => can_overlap s (rec_of id) (rec_of a)) sel.
Definition full_active (sel : list CollectiveRequestId) : bool :=
  add64 (im_active_grants s) (size sel) >=? active_bound.

Lemma select_cons rk ranked sel :
  select s (rk :: ranked) sel =
  if full_active sel then sel
  else if negb (fits sel (rk_id rk)) then select s ranked sel
  else if size sel >=? group_bound then sel
  else if is_exclusive (rk_id rk) then sel ++ [rk_id rk]
  else select s ranked (sel ++ [rk_id rk]).
Proof.
  cbn [select]. fold (full_active sel). fold (is_exclusive (rk_id rk)). unfold fits.
  destruct (full_active sel); [done|].
  destruct (is_exclusive (rk_id rk)), (is_empty sel); cbn [andb orb negb]; try done;
    destruct (_ >? 0); cbn [andb negb]; try done; by destruct (forallb _ sel).
Qed.

(** An invariant of the vector that every push keeps holds of the result. *)
Lemma select_ind (P : list CollectiveRequestId -> Prop) ranked sel :
  (forall sel rk, rk ∈ ranked -> P sel -> full_active sel = false -> fits sel (rk_id rk) = true ->
     size sel < group_bound -> P (sel ++ [rk_id rk])) ->
  P sel -> P (select s ranked sel).
Proof.
  intros Hstep. revert sel. induction ranked as [|rk ranked IH]; intros sel HP; [done|].
  rewrite select_cons. destruct (full_active sel) eqn:Ef; [done|].
  destruct (fits sel (rk_id rk)) eqn:Efit; cbn [negb];
    [|apply IH; [intros ? ? Hin; apply Hstep; by right|done]].
  destruct (Z.geb_spec (size sel) group_bound); [done|].
  assert (P (sel ++ [rk_id rk])) as HP' by (apply Hstep; [left|done..]).
  destruct (is_exclusive (rk_id rk)); [done|]. apply IH; [intros ? ? Hin; apply Hstep; by right|done].
Qed.

Lemma size_app {A} (l m : list A) : size (l ++ m) = size l + size m.
Proof. unfold size. rewrite length_app. lia. Qed.
Lemma size_nonneg {A} (l : list A) : 0 <= size l.
Proof. unfold size. lia. Qed.

Lemma select_bounded ranked sel : size sel <= group_bound ->
  size (select s ranked sel) <= group_bound.
Proof.
  apply (select_ind (fun sel => size sel <= group_bound)). intros ? ? _ _ _ _ Hlt.
  rewrite size_app. unfold size in *. simpl. lia.
Qed.
Lemma select_active ranked sel :
  u64 (im_active_grants s) -> im_active_grants s + group_bound <= U64_MAX ->
  im_active_grants s + size sel <= Z.max (im_active_grants s) active_bound ->
  im_active_grants s + size (select s ranked sel) <= Z.max (im_active_grants s) active_bound.
Proof.
  intros Hu Hb. apply (select_ind (fun sel =>
    im_active_grants s + size sel <= Z.max (im_active_grants s) active_bound)).
  intros sel' rk _ _ Hf _ Hlt. unfold full_active in Hf. pose proof (size_nonneg sel').
  rewrite add64_small in Hf by (done || lia). rewrite Z.geb_leb, Z.leb_gt in Hf.
  rewrite size_app. unfold size in *. simpl. lia.
Qed.

(** Each selected collective was compatible with all selected before it. *)
Lemma select_pairs ranked :
  List.ForallOrdPairs (fun a b => can_overlap s (rec_of b) (rec_of a) = true) (select s ranked []).
Proof.
  apply (select_ind (List.ForallOrdPairs _)); [|constructor].
  intros sel rk _ HP _ Hfit _. unfold fits in Hfit. apply andb_true_iff in Hfit as [_ Hall].
  apply forallb_Forall in Hall. induction HP as [|a sel Ha HP IH]; simpl; [by repeat constructor|].
  apply Forall_cons in Hall as [H1 H2]. constructor; [|by apply IH].
  apply Forall_app. split; [done|]. by constructor.
Qed.
Lemma select_no_conflict ranked : Forall (fun id => active_conflicts s (rec_of id) = 0) (select s ranked []).
Proof.
  apply (select_ind (Forall _)); [|constructor].
  intros sel rk _ HP _ Hfit _. apply Forall_app. split; [done|]. constructor; [|constructor].
  unfold fits in Hfit. rewrite !andb_true_iff, negb_true_iff, Z.gtb_ltb, Z.ltb_ge in Hfit.
  destruct Hfit as [[_ H] _]. unfold active_conflicts in *. unfold size in *. lia.
Qed.
Lemma select_from ranked id : id ∈ select s ranked [] -> id ∈ rk_id <$> ranked.
Proof.
  revert id. apply (select_ind (fun sel => forall id, id ∈ sel -> id ∈ rk_id <$> ranked)); [|set_solver].
  intros sel rk Hin HP _ _ _ id. rewrite elem_of_app, list_elem_of_singleton.
  intros [?| ->]; [auto|]. by apply list_elem_of_fmap_2.
Qed.
Lemma select_sublist ranked sel : exists l, select s ranked sel = sel ++ l /\ l `sublist_of` (rk_id <$> ranked).
Proof.
  revert sel. induction ranked as [|rk ranked IH]; intros sel.
  { exists []. by rewrite app_nil_r. }
  rewrite select_cons. destruct (full_active sel).
  { exists []. rewrite app_nil_r. split; [done|apply sublist_nil_l]. }
  destruct (negb (fits sel (rk_id rk))).
  { destruct (IH sel) as (l & -> & ?). exists l. split; [done|]. by apply sublist_cons. }
  destruct (_ >=? _).
  { exists []. rewrite app_nil_r. split; [done|apply sublist_nil_l]. }
  destruct (is_exclusive (rk_id rk)).
  { exists [rk_id rk]. split; [done|]. apply sublist_skip, sublist_nil_l. }
  destruct (IH (sel ++ [rk_id rk])) as (l & -> & ?). exists (rk_id rk :: l).
  split; [by rewrite <- app_assoc|]. by apply sublist_skip.
Qed.
Lemma select_NoDup ranked : NoDup (rk_id <$> ranked) -> NoDup (select s ranked []).
Proof.
  intros Hn. destruct (select_sublist ranked []) as (l & -> & Hl). simpl.
  by eapply sublist_NoDup.
Qed.

(** An exclusive collective is selected alone. *)
Lemma select_exclusive ranked id :
  id ∈ select s ranked [] -> is_exclusive id = true -> select s ranked [] = [id].
Proof.
  assert (forall sel, Forall (fun a => is_exclusive a = false) sel ->
    (Forall (fun a => is_exclusive a = false) (select s ranked sel)) \/
    (exists x, sel = [] /\ select s ranked sel = [x] /\ is_exclusive x = true)) as H.
  { induction ranked as [|rk ranked IH]; intros sel Hs; [by left|]. rewrite select_cons.
    destruct (full_active sel); [by left|].
    destruct (fits sel (rk_id rk)) eqn:Ef; cbn [negb]; [|by apply IH].
    destruct (_ >=? _); [by left|]. destruct (is_exclusive (rk_id rk)) eqn:Ex.
    - right. exists (rk_id rk). unfold fits in Ef. rewrite Ex in Ef.
      destruct sel; [done|]. by simpl in Ef.
    - destruct (IH (sel ++ [rk_id rk])) as [?|(x & Hx & _)]; [|by left|].
      + apply Forall_app. by repeat constructor.
      + by destruct sel. }
  intros Hin Hx. destruct (H []) as [Hall|(x & _ & E & _)]; [constructor| |].
  - rewrite Forall_forall in Hall. by rewrite (Hall id Hin) in Hx.
  - rewrite E in Hin |- *. by apply list_elem_of_singleton in Hin as ->.
Qed.

(** Why a ranked collective was passed over, in terms of the final selection. *)
Definition passed_over (sel : list CollectiveRequestId) (id : CollectiveRequestId) : Prop :=
  size sel >= group_bound \/ full_active sel = true \/
  (exists x, sel = [x] /\ is_exclusive x = true) \/
  (is_exclusive id = true /\ sel <> []) \/
  active_conflicts s (rec_of id) > 0 \/
  (exists a, a ∈ sel /\ can_overlap s (rec_of id) (rec_of a) = false).
Lemma passed_over_fits sel l id : fits sel id = false -> passed_over (sel ++ l) id.
Proof.
  unfold fits. rewrite !andb_false_iff. intros [[H|H]|H].
  - apply orb_false_iff in H as [H1 H2]. apply negb_false_iff in H1. apply is_empty_false in H2.
    do 3 right. left. split; [done|]. by destruct sel.
  - apply negb_false_iff in H. rewrite Z.gtb_ltb, Z.ltb_lt in H. do 4 right. left. lia.
  - do 5 right. apply not_true_iff_false in H. rewrite forallb_Forall, <- Exists_Forall_neg in H.
    + apply Exists_exists in H as (a & Ha & Hc). exists a. split; [set_solver|].
      by apply not_true_iff_false.
    + intros x. destruct (can_overlap _ _ _); naive_solver.
Qed.
Lemma select_maximal ranked sel id : (sel = [] \/ Forall (fun a => is_exclusive a = false) sel) ->
  id ∈ rk_id <$> ranked -> id ∉ select s ranked sel -> passed_over (select s ranked sel) id.
Proof.
  revert sel. induction ranked as [|rk ranked IH]; intros sel Hs Hin Hnot; [by apply elem_of_nil in Hin|].
  revert Hnot. rewrite select_cons. destruct (full_active sel) eqn:Ea; [intros _; by right; left|].
  destruct (fits sel (rk_id rk)) eqn:Ef; cbn [negb].
  2:{ rewrite fmap_cons, elem_of_cons in Hin. destruct Hin as [->|Hin]; [intros _|by apply IH].
      destruct (select_sublist ranked sel) as (l & -> & _). by apply passed_over_fits. }
  destruct (Z.geb_spec (size sel) group_bound); [intros _; left; lia|].
  rewrite fmap_cons, elem_of_cons in Hin. destruct (is_exclusive (rk_id rk)) eqn:Ex.
  - intros Hnot. do 2 right. left. exists (rk_id rk). split; [|done].
    unfold fits in Ef. rewrite Ex in Ef. by destruct sel.
  - intros Hnot. destruct Hin as [->|Hin].
    + destruct Hnot. destruct (select_sublist ranked (sel ++ [rk_id rk])) as (l & -> & _). set_solver.
    + apply IH; [right|done..]. apply Forall_app. split; [|by repeat constructor].
      by destruct Hs as [->|].
Qed.
End select.

(** ** Grants *)

(** A stored grant as [create_grant] leaves it, and the record it is for. *)
Definition fresh_grant (g : CollectiveGrant) : GrantState :=
  mkGrantState g false false false (mkId 0) (mkId 0).
Definition granted (r : SRecord) (g : CollectiveGrant) : SRecord :=
  r <| rec_lifecycle := LifecycleState.GRANTED |> <| rec_in_ready_queue := true |>
    <| rec_current_grant := Some g |>.
Definition promotable (r : SRecord) : Prop :=
  rec_lifecycle r ∈ [LifecycleState.READY; LifecycleState.ELIGIBLE; LifecycleState.QUEUED;
    LifecycleState.GRANTED].
(** Grant ids in use are below the next one. *)
Definition grants_fresh (s : Impl) : Prop :=
  forall gid, is_Some (im_grants s !! gid) -> id_value gid < id_value (im_next_grant_id s).
(** Everything but records, grants and the two grant counters. *)
Definition beside_grants (s : Impl) :=
  (evidence s, im_epoch s, im_participant_requests s, im_active_by_participant s, im_active_grants s,
   (im_next_seq s, im_next_request_id s, im_next_schedule_id s, im_next_schedule_gen s,
    im_next_group_id s, im_next_group_gen s),
   (im_policy_gen s, im_priority_gen s, im_fairness_gen s, im_congestion_gen s, im_capacity_gen s,
    im_topology_gen s, im_capability_gen s, im_health_gen s)).
Definition granting_frame (s s' : Impl) : Prop := beside_grants s' = beside_grants s.

Lemma promote_ok r : promotable r ->
  promote_to_granted r =
    (Ok tt, r <| rec_lifecycle := LifecycleState.GRANTED |> <| rec_in_ready_queue := true |>).
Proof.
  destruct r as [req lc rd sq age fa rs he iq fp cg ep]. unfold promotable. cbn [rec_lifecycle].
  intros Hl. assert (lc = LifecycleState.READY \/ lc = LifecycleState.ELIGIBLE \/
    lc = LifecycleState.QUEUED \/ lc = LifecycleState.GRANTED) as H by set_solver.
  destruct H as [->|[->|[->| ->]]]; reflexivity.
Qed.

(** The grant depends on the record's request only. *)
Lemma grant_of_request s r r' snap dec :
  rec_request r = rec_request r' -> grant_of s r snap dec = grant_of s r' snap dec.
Proof. unfold grant_of. by intros ->. Qed.

(** The state after one turn of the loop. *)
Definition grant_one (dec : ScheduleDecision) (id : CollectiveRequestId) (s : Impl) : Impl :=
  let g := grant_of s (record_at s id) (dec_evidence dec) dec in
  s <| im_records ::= <[id := granted (record_at s id) g]> |>
    <| im_grants ::= <[g_id g := fresh_grant g]> |>
    <| im_next_grant_id ::= id_incr |> <| im_next_grant_gen ::= gen_incr |>.
Lemma create_grants_cons dec id sel s : promotable (record_at s id) -> grants_fresh s ->
  create_grants dec (id :: sel) s =
  (gs ← create_grants dec sel; mret (im_next_grant_id s :: gs)) (grant_one dec id s).
Proof.
  intros Hp Hf. cbn [create_grants].
  unfold mbind at 1, M_bind, with_record, attempt. rewrite promote_ok by done. cbn [is_ok].
  unfold mbind at 1, M_bind, create_grant. set (r := record_at s id).
  set (r1 := r <| rec_lifecycle := _ |> <| rec_in_ready_queue := _ |>).
  assert (record_at (set_record id r1 s) id = r1) as ->
    by (unfold record_at, set_record; simpl; by rewrite lookup_insert_eq).
  rewrite (grant_of_request (set_record id r1 s) r1 r) by done.
  set (g := grant_of (set_record id r1 s) r _ _).
  assert (g = grant_of s r (dec_evidence dec) dec) as -> by done.
  assert (im_grants s !! im_next_grant_id s = None) as Hnone.
  { apply eq_None_not_Some. intros Hs%Hf. lia. }
  change (im_grants _ !! g_id _) with (im_grants s !! im_next_grant_id s). rewrite Hnone.
  unfold grant_one. fold r. change (im_next_grant_id s) with (g_id (grant_of s r (dec_evidence dec) dec)).
  generalize (grant_of s r (dec_evidence dec) dec). intros g.
  assert (Hm : forall m : gmap CollectiveRequestId SRecord,
    <[id := r1 <| rec_current_grant := Some g |>]> (<[id := r1]> m) = <[id := granted r g]> m)
    by (intros m; apply insert_insert_eq).
  clearbody r1. f_equal. unfold set_grant, set_record. norm_impl. by rewrite Hm.
Qed.
Lemma grant_one_frame dec id s : granting_frame s (grant_one dec id s).
Proof. done. Qed.
Lemma grant_one_record_ne dec id id' s : id <> id' ->
  record_at (grant_one dec id s) id' = record_at s id'.
Proof. intros. unfold record_at, grant_one. simpl. by rewrite lookup_insert_ne. Qed.
Lemma grant_one_fresh dec id s : id_value (im_next_grant_id s) < U64_MAX ->
  grants_fresh s -> grants_fresh (grant_one dec id s).
Proof.
  intros Hlt Hf gid. unfold grant_one. simpl. rewrite lookup_insert_is_Some, id_incr_value by done.
  intros [<-|[_ Hs%Hf]]; simpl; lia.
Qed.

(** What the loop leaves behind for the collective [id] and its grant [g]. *)
Definition issued (dec : ScheduleDecision) (s s' : Impl) (id : CollectiveRequestId)
    (g : CollectiveGrant) : Prop :=
  g = grant_of s (record_at s id) (dec_evidence dec) dec <| g_id := g_id g |> <| g_gen := g_gen g |> /\
  im_records s' !! id = Some (granted (record_at s id) g) /\
  im_grants s' !! g_id g = Some (fresh_grant g) /\
  id_value (im_next_grant_id s) <= id_value (g_id g).

(** The counter goes up, and every new grant is a fresh one under its own id. *)
Definition new_grants (s s' : Impl) : Prop :=
  id_value (im_next_grant_id s) <= id_value (im_next_grant_id s') /\
  forall gid gs, im_grants s' !! gid = Some gs ->
    im_grants s !! gid = Some gs \/ exists g, gs = fresh_grant g /\ g_id g = gid.

Lemma create_grants_spec dec sel : NoDup sel -> forall s,
  (forall id, id ∈ sel -> promotable (record_at s id)) -> grants_fresh s ->
  id_value (im_next_grant_id s) + Z.of_nat (length sel) <= U64_MAX ->
  exists gs s', create_grants dec sel s = (Ok (g_id <$> gs), s') /\
    Forall2 (issued dec s s') sel gs /\ granting_frame s s' /\ grants_fresh s' /\
    (forall id, id ∉ sel -> im_records s' !! id = im_records s !! id) /\
    (forall gid, id_value gid < id_value (im_next_grant_id s) -> im_grants s' !! gid = im_grants s !! gid) /\
    new_grants s s'.
Proof.
  induction 1 as [|id sel Hid Hn IH]; intros s Hp Hf Hlt.
  { exists [], s. split_and!; try done. split; [lia|by left]. }
  cbn [length] in Hlt. set (s1 := grant_one dec id s).
  set (g := grant_of s (record_at s id) (dec_evidence dec) dec).
  assert (Hnext : id_value (im_next_grant_id s1) = id_value (im_next_grant_id s) + 1).
  { unfold s1, grant_one. simpl. rewrite id_incr_value; lia. }
  destruct (IH s1) as (gs & s' & E & Hall & Hfr & Hf' & Hrec & Hgr & Hcnt & Hnew).
  { intros id' Hin. unfold s1. rewrite grant_one_record_ne by congruence. apply Hp. by right. }
  { apply grant_one_fresh; [lia|done]. }
  { lia. }
  exists (g :: gs), s'. rewrite create_grants_cons by (try apply Hp; done || left). fold s1.
  unfold mbind, M_bind. rewrite E. split_and!; try done.
  - constructor.
    + split_and!; [done| |..].
      * rewrite Hrec by done. unfold s1, grant_one. simpl. by rewrite lookup_insert_eq.
      * rewrite Hgr by (rewrite Hnext; cbn [g g_id grant_of]; lia). unfold s1, grant_one. simpl. by rewrite lookup_insert_eq.
      * simpl. lia.
    + eapply Forall2_impl_l; [exact Hall|]. intros id' g' Hin (Hg & Hr & Hg' & Hle).
      assert (id <> id') as Hne by congruence.
      unfold s1 in Hg, Hr. rewrite (grant_one_record_ne dec id id' s Hne) in Hg, Hr.
      split_and!; [|done..|lia]. rewrite Hg. done.
  - intros id' Hnin. rewrite not_elem_of_cons in Hnin. destruct Hnin as [Hne Hnin].
    rewrite Hrec by done. unfold s1, grant_one. simpl. by rewrite lookup_insert_ne.
  - intros gid Hgid. rewrite Hgr by lia. unfold s1, grant_one. simpl.
    rewrite lookup_insert_ne; [done|]. intros <-. lia.
  - split; [lia|]. intros gid gs0 [Hg0|?]%Hnew; [|by right]. revert Hg0. unfold s1, grant_one. simpl.
    rewrite lookup_insert_Some. intros [[<- <-]|[_ ?]]; [|by left]. right. by exists g.
Qed.

(** ** The whole round *)

(** The fairness loop updates the candidates' records. *)
Lemma account_fairness_along sel l s :
  account_fairness sel l s =
  s <| im_records ::= update_along
    (fun id r => r <| rec_fairness ::= charge_fairness (im_policy s) (bool_decide (id ∈ sel)) |>)
    SRecord_default l |>.
Proof.
  unfold account_fairness. revert s. induction l as [|id l IH]; intros s; [by destruct s|].
  cbn [foldl]. rewrite IH. unfold set_record, record_at. norm_impl. reflexivity.
Qed.
Lemma account_fairness_perm sel l1 l2 s : NoDup l1 -> l1 ≡ₚ l2 ->
  account_fairness sel l1 s = account_fairness sel l2 s.
Proof.
  intros Hn Hp. rewrite !account_fairness_along. unfold set. by rewrite (update_along_perm _ _ l1 l2).
Qed.

(** The state in which the candidates are ranked, the candidates, the ranking and
    the selection. *)
Definition round_state (s : Impl) : Impl := refresh_counts (refresh_all (round_start s)).
Definition round_candidates (s : Impl) (ord : list CollectiveRequestId) : list CollectiveRequestId :=
  candidates_of (round_start s) ord.
Definition round_ranking (s : Impl) (ord : list CollectiveRequestId) : list Ranked :=
  ranked_list (round_state s) (round_candidates s ord).
Definition round_selected (s : Impl) (ord : list CollectiveRequestId) : list CollectiveRequestId :=
  select (round_state s) (round_ranking s ord) [].
(** What [form_group] returns and does to the counters. *)
Definition group_counters (sel : list CollectiveRequestId) (s : Impl) : Impl :=
  exec (form_group sel) s.
Definition round_groups (sel : list CollectiveRequestId) (s : Impl) : list OverlapGroup :=
  match eval (form_group sel) s with Ok g => g | Throw _ => [] end.
Lemma form_group_ok sel s : form_group sel s = (Ok (round_groups sel s), group_counters sel s).
Proof. unfold round_groups, group_counters, exec, eval, form_group. by destruct sel. Qed.

Section round.
Variables (s : Impl) (ord : list CollectiveRequestId) (gord : list CollectiveGrantId).
Hypothesis Hord : enumerates ord (im_records s).
Hypothesis Hkeyed : records_keyed s.
Hypothesis Hresting : none_eligible s.

Lemma schedule_round_unfold :
  schedule_round ord gord s =
  let selected := round_selected s ord in
  (grants ← create_grants (round_decision s) selected;
   groups ← form_group selected;
   s3 ← get_state;
   put_state (account_fairness selected (round_candidates s ord) s3);;
   s4 ← get_state;
   mret (finish_decision (round_decision s) s4 gord (round_ranking s ord) selected grants groups))
  (round_state s).
Proof using Hord Hkeyed Hresting.
  unfold schedule_round. rewrite bind_get, bind_put. cbv zeta.
  rewrite (bind_ok _ _ _ _ _ (refresh_loop_all ord (round_start s) Hord Hkeyed Hresting)).
  rewrite bind_get, bind_put, bind_get. reflexivity.
Qed.
End round.
