(* ===== verification/Helpers.v ===== *)
(** * Helpers: the small routines beside the scheduler

    [send_all] of coordinator.cpp (worker.cpp has the same), ReadinessResult of
    readiness.hpp and the pseudo-random generator of deterministic.hpp.  What
    [::send] returns is the environment's choice: [sock i] is the result of the
    [i]-th call. *)
From S2P Require Import Prelude Enums Identity Error Float64 Domain Lifecycle Conflict Codec State Eligibility Ranking Schedule.

(** ** Sending a frame *)

(** [while (off < n)]: the result, and how many bytes went out.  The loop ends
    when a call fails; one step per byte is fuel enough when calls that succeed
    send something ([send_all_ends]). *)
Fixpoint send_loop (fuel : nat) (sock : nat -> Z) (i : nat) (n off : Z) : bool * Z :=
  match fuel with
  | O => (true, off)
  | S fuel' =>
      if off <? n then
        let sent := sock i in
        if sent <=? 0 then (false, off) else send_loop fuel' sock (S i) n (off + sent)
      else (true, off)
  end.
(** [send_all]: the result and the bytes handed to the socket. *)
Definition send_all (sock : nat -> Z) (p : list Z) : bool * list Z :=
  let '(ok, off) := send_loop (S (length p)) sock 0 (Z.of_nat (length p)) 0 in
  (ok, take (Z.to_nat off) p).

Lemma send_loop_ends fuel sock i n off : 0 <= off <= n -> n - off < Z.of_nat fuel ->
  exists ok off', send_loop fuel sock i n off = (ok, off') /\ off <= off' /\ (ok = true -> n <= off').
Proof.
  revert i off. induction fuel as [|fuel IH]; intros i off Ho Hf; [lia|]. cbn [send_loop].
  destruct (Z.ltb_spec off n); [|by exists true, off]. destruct (Z.leb_spec (sock i) 0); [by exists false, off|].
  destruct (Z.le_gt_cases (off + sock i) n) as [Hle|Hgt].
  - destruct (IH (S i) (off + sock i)) as (ok & off' & E & H1 & H2); [lia|lia|].
    exists ok, off'. split; [done|]. split; [lia|done].
  - destruct fuel as [|fuel]; cbn [send_loop].
    + exists true, (off + sock i). split; [done|]. lia.
    + destruct (Z.ltb_spec (off + sock i) n); [lia|]. exists true, (off + sock i). split; [done|]. lia.
Qed.
(** Whatever the socket takes at a time, what goes out is a prefix of the frame,
    and all of it when [send_all] returns true. *)
Lemma send_all_ends sock p : exists ok sent, send_all sock p = (ok, sent) /\
  sent `prefix_of` p /\ (ok = true -> sent = p).
Proof.
  unfold send_all.
  destruct (send_loop_ends (S (length p)) sock 0 (Z.of_nat (length p)) 0) as (ok & off & E & H1 & H2); [lia|lia|].
  exists ok, (take (Z.to_nat off) p). rewrite E. split; [done|]. split.
  - exists (drop (Z.to_nat off) p). by rewrite take_drop.
  - intros Hok. specialize (H2 Hok). apply take_ge. lia.
Qed.

(** ** ReadinessResult *)
Record ReadinessResult : Set := mkReadinessResult {
  rr_status : Readiness.t;
  rr_reasons : list RejectionReason.t;
  rr_missing_participants : list ParticipantId;
}.
Definition is_ready (r : ReadinessResult) : bool := bool_decide (rr_status r = Readiness.READY).
Definition is_waiting (r : ReadinessResult) : bool :=
  match rr_status r with
  | Readiness.WAITING_DEPENDENCY | Readiness.WAITING_PARTICIPANT | Readiness.WAITING_COMMUNICATION_PLAN
  | Readiness.WAITING_RESERVATION | Readiness.WAITING_RESOURCE | Readiness.WAITING_CAPACITY => true
  | _ => false
  end.
Definition is_blocked (r : ReadinessResult) : bool :=
  match rr_status r with Readiness.BLOCKED_CONGESTION | Readiness.BLOCKED_POLICY => true | _ => false end.
Lemma dependency_readiness_cases s ds rd : dependency_readiness s ds = Some rd ->
  rd = Readiness.WAITING_DEPENDENCY \/ rd = Readiness.STALE.
Proof. induction ds as [|d ds IH]; simpl; [done|]. repeat case_match; naive_solver. Qed.
Lemma reservation_readiness_cases s rg rd : reservation_readiness s rg = Some rd ->
  rd = Readiness.WAITING_RESERVATION \/ rd = Readiness.STALE.
Proof. unfold reservation_readiness. repeat case_match; naive_solver. Qed.
(** What [compute_readiness] can say of a record: one of the three predicates, or
    STALE; the scheduler's own test for waiting is [is_waiting]. *)
Lemma compute_readiness_kinds s r reasons missing :
  let res := mkReadinessResult (compute_readiness s r) reasons missing in
  is_waiting res = waiting_readiness (compute_readiness s r) /\
  (is_ready res = true \/ is_waiting res = true \/ is_blocked res = true \/ rr_status res = Readiness.STALE).
Proof.
  split; [done|]. unfold is_ready, is_waiting, is_blocked. cbn [rr_status].
  pose proof (dependency_readiness_cases s (rq_dependencies (rec_request r))) as Hd.
  pose proof (reservation_readiness_cases s (rq_reservation_gen (rec_request r))) as Hr.
  unfold compute_readiness. destruct (participant_flags _ _ _ _) as [m st].
  repeat case_match; simplify_eq/=; auto; naive_solver.
Qed.

(** ** SplitMix64 *)
Definition splitmix_next (state : Z) : Z * Z :=
  let state := add64 state 0x9e3779b97f4a7c15 in
  let z := mul64 (Z.lxor state (Z.shiftr state 30)) 0xbf58476d1ce4e5b9 in
  let z := mul64 (Z.lxor z (Z.shiftr z 27)) 0x94d049bb133111eb in
  (Z.lxor z (Z.shiftr z 31), state).
Definition splitmix_bounded (n state : Z) : Z * Z :=
  if n =? 0 then (0, state) else let '(z, state) := splitmix_next state in (z mod n, state).
Lemma splitmix_bounded_range n state : 0 < n -> 0 <= (splitmix_bounded n state).1 < n.
Proof.
  intros Hn. unfold splitmix_bounded. rewrite (proj2 (Z.eqb_neq n 0)) by lia.
  destruct (splitmix_next state) as [z st]. by apply Z.mod_pos_bound.
Qed.
(** [unit]: the upper 53 bits over 2^53. *)
Definition splitmix_unit (state : Z) : double * Z :=
  let '(z, state) := splitmix_next state in
  (dmul (of_int (Z.shiftr z 11)) (ddiv d1 (of_int 9007199254740992)), state).
(** The smallest and the largest value, 0 and 1 - 2^-53. *)
Example unit_ends : let u := fun z => dmul (of_int (Z.shiftr z 11)) (ddiv d1 (of_int 9007199254740992)) in
  u 0 = d0 /\ u U64_MAX = mkDouble 0x3fefffffffffffff /\ dlt (u U64_MAX) d1 = true.
Proof. vm_compute. done. Qed.

(** ** Small functions of the headers *)

(** [fnv1a64(std::uint64_t v)]: the bytes of [v] as a little-endian machine has them. *)
Definition fnv1a64_value (v : Z) : Z := fnv1a64 (put_le 8 v) 0xcbf29ce484222325.
(** The hash tells different values of one byte apart. *)
Example fnv1a64_bytes : NoDup (fnv1a64_value <$> seqZ 0 256).
Proof. apply (bool_decide_unpack _). by vm_compute. Qed.
(** [lt_value], the last tie-breaker. *)
Definition lt_value (a b : Z) : bool := a <? b.
#[export] Instance lt_value_total : StrictTotal lt_value.
Proof.
  unfold lt_value. split.
  - intros x. apply Z.ltb_irrefl.
  - intros x y z. rewrite !Z.ltb_lt. lia.
  - intros x y. rewrite !Z.ltb_lt. lia.
Qed.
(** [intersect_nonempty], for each element type the merge walk over its [<]. *)
Definition intersect_nonempty {A} (lt : A -> A -> bool) (a b : list A) : bool := set_intersect lt a b.
(** On the normalized vectors it is given it decides whether they share an element. *)
Lemma intersect_nonempty_iff {A} (lt : A -> A -> bool) `{EqDecision A, !StrictTotal lt} (a b : list A) :
  intersect_nonempty lt (sort_unique lt a) (sort_unique lt b) = true <-> exists x, x ∈ a /\ x ∈ b.
Proof.
  unfold intersect_nonempty. split.
  - intros (x & Ha & Hb)%set_intersect_sound; [|done]. exists x. by rewrite !elem_of_sort_unique in Ha, Hb.
  - intros (x & Ha & Hb). apply (set_intersect_complete lt _ _ x); [by apply sort_unique_sorted..| |];
      by rewrite elem_of_sort_unique.
Qed.
(** [put_le16], [put_le32] and [put_le64] of protocol.cpp write what the
    PersistenceWriter writes. *)
Definition put_le16 (b : list Z) (v : Z) : list Z := b ++ [Z.land v 255; Z.land (Z.shiftr v 8) 255].
Definition put_le32 (b : list Z) (v : Z) : list Z := foldl (fun b i => b ++ [Z.land (Z.shiftr v (8 * i)) 255]) b (seqZ 0 4).
Definition put_le64 (b : list Z) (v : Z) : list Z := foldl (fun b i => b ++ [Z.land (Z.shiftr v (8 * i)) 255]) b (seqZ 0 8).
Lemma put_le_writers b v : put_le16 b v = b ++ w_u16 v /\ put_le32 b v = b ++ w_u32 v /\ put_le64 b v = b ++ w_u64 v.
Proof.
  unfold put_le32, put_le64. change (seqZ 0 4) with [0; 1; 2; 3]. change (seqZ 0 8) with [0; 1; 2; 3; 4; 5; 6; 7].
  cbn [foldl]. rewrite <- !app_assoc. split_and!; reflexivity.
Qed.

(** ** Types no operation uses *)
Record ParticipantGroup : Set := mkParticipantGroup {
  pg_id : ParticipantGroupId;
  pg_gen : ParticipantGroupGeneration;
  pg_members : list ParticipantId;
}.
(** [operator==]. *)
#[export] Instance ParticipantGroup_eq_dec : EqDecision ParticipantGroup.
Proof. solve_decision. Defined.
Record OverlapDecision : Set := mkOverlapDecision {
  od_allowed : bool;
  od_mode : OverlapMode.t;
  od_resulting_group_size : Z;
  od_reason : string;
}.
Definition OverlapDecision_default : OverlapDecision := mkOverlapDecision false OverlapMode.UNKNOWN 0 EmptyString.
