(* ===== verification/Rounds.v ===== *)
(** * Rounds: what one scheduling round guarantees

    Theorems about [schedule_round] (the model of [Impl::schedule]): it never
    throws on states without a record resting in ELIGIBLE, its outcome does not
    depend on the iteration order of the records map, whatever it selects is
    admissible on current evidence and may run together, what it passes over has
    a reason, every grant it issues is authoritative, and fairness is charged to
    every candidate. *)
From S2P Require Import Prelude Enums Identity Error Float64 Domain Lifecycle.
From S2P Require Import Conflict State Eligibility Ranking Schedule Samples.

(** The state is fit for a round: the part of the scheduler's invariant
    (Safety) that the round needs. *)
Record round_ready (s : Impl) (ord : list CollectiveRequestId) : Prop := {
  rr_order : enumerates ord (im_records s);
  rr_keyed : records_keyed s;
  rr_resting : none_eligible s;
  rr_fresh : grants_fresh s;
  rr_room : id_value (im_next_grant_id s) + Z.of_nat (length ord) <= U64_MAX;
}.

(** The footprint a round computes for a record. *)
Definition current_footprint (s : Impl) (r : SRecord) : Footprint :=
  make_footprint (rq_participants (rec_request r)) (rq_resource_claims (rec_request r))
    (im_plans s !! rq_plan_id (rec_request r)).

Section round.
Variables (s : Impl) (ord : list CollectiveRequestId).
Hypothesis Hready : round_ready s ord.

(** The candidates and the selection, in terms of the state before the round. *)
Lemma round_candidate id : id ∈ round_candidates s ord ->
  exists r, im_records s !! id = Some r /\ record_at (round_state s) id = refreshed s r /\
    candidate_ok s (refreshed s r).
Proof using Hready.
  intros Hid. destruct Hready as [Ho Hk He _ _].
  destruct (candidate_after (round_start s) ord id Ho Hk He Hid) as (r & Hr & Hr' & Hok).
  exists r. split; [done|].
  assert (refreshed (round_start s) r = refreshed s r) as E.
  { unfold refreshed, exec. by rewrite (refresh_record_proper (round_start s) s eq_refl _ _ eq_refl). }
  rewrite E in Hr', Hok. split; [by apply record_at_lookup|].
  destruct Hok as [? ? ? [] [] ?]. by split.
Qed.
Lemma round_selected_candidates id : id ∈ round_selected s ord -> id ∈ round_candidates s ord.
Proof.
  intros Hid. apply select_from in Hid. unfold round_ranking in Hid. by rewrite ranked_list_ids in Hid.
Qed.
Lemma round_selected_NoDup : NoDup (round_selected s ord).
Proof using Hready.
  apply select_NoDup. unfold round_ranking. rewrite ranked_list_ids. apply candidates_NoDup.
  apply (rr_order _ _ Hready).
Qed.
Lemma round_selected_length : (length (round_selected s ord) <= length ord)%nat.
Proof using Hready.
  apply submseteq_length, NoDup_submseteq; [apply round_selected_NoDup|].
  intros id Hid%round_selected_candidates. unfold round_candidates, candidates_of in Hid.
  by apply list_elem_of_In, List.filter_In in Hid as [?%list_elem_of_In _].
Qed.

(** The round runs to its end. *)
Lemma schedule_round_total gord : exists dec s3 gs,
  schedule_round ord gord s =
    (Ok dec, account_fairness (round_selected s ord) (round_candidates s ord)
       (group_counters (round_selected s ord) s3)) /\
  dec_selected dec = round_selected s ord /\ dec_grants dec = g_id <$> gs /\
  dec_fallback dec = List.filter (fun id => negb (bool_decide (id ∈ round_selected s ord)))
    (rk_id <$> round_ranking s ord) /\
  Forall2 (issued (round_decision s) (round_state s) s3) (round_selected s ord) gs /\
  granting_frame (round_state s) s3 /\ grants_fresh s3 /\
  (forall id, id ∉ round_selected s ord ->
     im_records s3 !! id = im_records (round_state s) !! id) /\
  (forall gid, id_value gid < id_value (im_next_grant_id s) -> im_grants s3 !! gid = im_grants s !! gid) /\
  new_grants s s3.
Proof using Hready.
  pose proof Hready as [Ho Hk He Hf Hroom].
  destruct (create_grants_spec (round_decision s) (round_selected s ord) round_selected_NoDup (round_state s))
    as (gs & s3 & E & Hall & Hfr & Hf3 & Hrec & Hgr & Hnew).
  - intros id Hid. apply round_selected_candidates in Hid.
    destruct (round_candidate id Hid) as (r & _ & -> & []). unfold promotable. set_solver.
  - exact Hf.
  - pose proof round_selected_length. change (im_next_grant_id (round_state s)) with (im_next_grant_id s). lia.
  - rewrite (schedule_round_unfold s ord gord Ho Hk He). cbv zeta.
    rewrite (bind_ok _ _ _ _ _ E), (bind_ok _ _ _ _ _ (form_group_ok _ s3)), bind_get, bind_put, bind_get.
    eexists _, s3, gs. split; [reflexivity|]. split_and!; try done.
Qed.
End round.

(** ** What may run together *)
Definition overlap_mode_ok (r : SRecord) : Prop :=
  rq_overlap (rec_request r) <> OverlapMode.UNKNOWN /\ rq_overlap (rec_request r) <> OverlapMode.EXCLUSIVE.
Definition reservations_differ (a b : SRecord) : Prop :=
  forall g, rq_reservation_gen (rec_request a) = Some g -> rq_reservation_gen (rec_request b) <> Some g.
(** The part of [can_overlap] that does not depend on which of the two was
    selected first. *)
Record may_overlap (s : Impl) (a b : SRecord) : Prop := {
  mo_modes : overlap_mode_ok a /\ overlap_mode_ok b;
  mo_footprints : ~ clash (current_footprint s a) (current_footprint s b);
  mo_reservations : reservations_differ a b;
}.
Lemma clash_sym a b : clash a b -> clash b a.
Proof. unfold clash. naive_solver. Qed.
Lemma may_overlap_sym s a b : may_overlap s a b -> may_overlap s b a.
Proof.
  intros [[? ?] Hc Hr]. split; [done|by intros ?%clash_sym|].
  intros g Hg Hg'. by apply (Hr g).
Qed.
Lemma mode_in_false m r : mode_in [m] r = false <-> rq_overlap (rec_request r) <> m.
Proof. unfold mode_in. by rewrite bool_decide_eq_false, list_elem_of_singleton. Qed.
Lemma can_overlap_may s st a b :
  rec_footprint a = current_footprint s a -> rec_footprint b = current_footprint s b ->
  can_overlap st a b = true -> may_overlap s a b.
Proof.
  intros Ha Hb. unfold can_overlap. rewrite Ha, Hb.
  destruct (_ || _) eqn:E1; [done|]. destruct (_ || _) eqn:E2 in |- *; [done|].
  destruct (forbids_overlap _) eqn:E3; [done|]. intros H.
  apply orb_false_iff in E1 as [H1 H2], E2 as [H3 H4].
  apply mode_in_false in H1, H2, H3, H4. split.
  - done.
  - intros Hc. apply forbids_overlap_clash in Hc; [congruence|apply make_footprint_wf..].
  - intros g Hg Hg'. rewrite Hg, Hg' in H. by rewrite bool_decide_true in H.
Qed.

Lemma ForallOrdPairs_distinct {A} (R : A -> A -> Prop) l x y :
  List.ForallOrdPairs R l -> x ∈ l -> y ∈ l -> x <> y -> R x y \/ R y x.
Proof.
  induction 1 as [|z l Hz Hl IH]; [by intros ?%elem_of_nil|].
  rewrite List.Forall_forall in Hz. rewrite !elem_of_cons, !list_elem_of_In. intros [->|Hx] [->|Hy] Hne; eauto.
  - done.
  - apply IH; [by apply list_elem_of_In..|done].
Qed.

Lemma clash_request s r1 r2 : rec_request r1 = rec_request r2 ->
  current_footprint s r1 = current_footprint s r2.
Proof. unfold current_footprint. by intros ->. Qed.
Lemma may_overlap_request s a a' b b' :
  rec_request a = rec_request a' -> rec_request b = rec_request b' ->
  may_overlap s a b -> may_overlap s a' b'.
Proof.
  intros Ea Eb [[[? ?] [? ?]] Hf Hr]. unfold overlap_mode_ok, reservations_differ in *.
  rewrite (clash_request s a a' Ea), (clash_request s b b' Eb) in Hf. rewrite Ea in *. rewrite Eb in *.
  by repeat split.
Qed.

Section round.
Variables (s : Impl) (ord : list CollectiveRequestId).
Hypothesis Hready : round_ready s ord.

Lemma round_pairs a b : a ∈ round_selected s ord -> b ∈ round_selected s ord -> a <> b ->
  exists ra rb, im_records s !! a = Some ra /\ im_records s !! b = Some rb /\ may_overlap s ra rb.
Proof using Hready.
  intros Ha Hb Hne.
  destruct (round_candidate s ord Hready a (round_selected_candidates _ _ _ Ha)) as (ra & Hra & Era & Ca).
  destruct (round_candidate s ord Hready b (round_selected_candidates _ _ _ Hb)) as (rb & Hrb & Erb & Cb).
  exists ra, rb. split; [done|]. split; [done|].
  pose proof (rf_request _ _ _ (refresh_record_frame s ra)) as Qa.
  pose proof (rf_request _ _ _ (refresh_record_frame s rb)) as Qb.
  apply (may_overlap_request s (refreshed s ra) ra (refreshed s rb) rb Qa Qb).
  pose proof (co_footprint _ _ Ca) as Fa. pose proof (co_footprint _ _ Cb) as Fb.
  destruct (ForallOrdPairs_distinct _ _ a b (select_pairs (round_state s) (round_ranking s ord)) Ha Hb Hne)
    as [H|H]; rewrite Era, Erb in H; [apply may_overlap_sym|]; by apply (can_overlap_may s (round_state s)).
Qed.
End round.

(** ** The state after a round *)

(** The record of [id] after a round that issued it [grant], if any. *)
Definition final_record (s : Impl) (ord : list CollectiveRequestId) (grant : option CollectiveGrant)
    (id : CollectiveRequestId) (r : SRecord) : SRecord :=
  let r := refreshed s r in
  let r := match grant with Some g => granted r g | None => r end in
  if decide (id ∈ round_candidates s ord)
  then r <| rec_fairness ::= charge_fairness (im_policy s) (bool_decide (id ∈ round_selected s ord)) |>
  else r.
(** [g] is the grant the round made for [id]. *)
Definition granted_in (s s' : Impl) (ord : list CollectiveRequestId) (id : CollectiveRequestId)
    (g : CollectiveGrant) : Prop :=
  exists r, im_records s !! id = Some r /\ candidate_ok s (refreshed s r) /\
    g = grant_of s r (make_snapshot s) (round_decision s) <| g_id := g_id g |> <| g_gen := g_gen g |> /\
    im_records s' !! id = Some (final_record s ord (Some g) id r) /\
    im_grants s' !! g_id g = Some (fresh_grant g) /\
    id_value (im_next_grant_id s) <= id_value (g_id g).
(** Everything but the records, the grants and the counters is as before. *)
Definition beside_round (s : Impl) :=
  (evidence s, im_epoch s, im_participant_requests s, im_active_by_participant s, im_active_grants s,
   (im_next_seq s, im_next_request_id s),
   (im_policy_gen s, im_priority_gen s, im_fairness_gen s, im_congestion_gen s, im_capacity_gen s,
    im_topology_gen s, im_capability_gen s, im_health_gen s)).

Record round_outcome (s : Impl) (ord : list CollectiveRequestId) (dec : ScheduleDecision)
    (gs : list CollectiveGrant) (s' : Impl) : Prop := {
  ro_selected : dec_selected dec = round_selected s ord;
  ro_grants : dec_grants dec = g_id <$> gs;
  ro_fallback : dec_fallback dec =
    List.filter (fun id => negb (bool_decide (id ∈ dec_selected dec))) (rk_id <$> round_ranking s ord);
  ro_granted : Forall2 (granted_in s s' ord) (dec_selected dec) gs;
  ro_records : forall id, id ∉ dec_selected dec ->
    im_records s' !! id = final_record s ord None id <$> im_records s !! id;
  ro_old_grants : forall gid, id_value gid < id_value (im_next_grant_id s) ->
    im_grants s' !! gid = im_grants s !! gid;
  ro_fresh : grants_fresh s';
  ro_new : new_grants s s';
  ro_frame : beside_round s' = beside_round s;
}.

Lemma group_counters_frame sel s :
  im_records (group_counters sel s) = im_records s /\ im_grants (group_counters sel s) = im_grants s /\
  im_next_grant_id (group_counters sel s) = im_next_grant_id s /\
  beside_round (group_counters sel s) = beside_round s.
Proof. unfold group_counters, exec, form_group. by destruct sel. Qed.
Lemma account_fairness_frame sel l s :
  im_grants (account_fairness sel l s) = im_grants s /\
  im_next_grant_id (account_fairness sel l s) = im_next_grant_id s /\
  beside_round (account_fairness sel l s) = beside_round s.
Proof. by rewrite account_fairness_along. Qed.
Lemma granting_beside_round s s' : granting_frame s s' -> beside_round s' = beside_round s.
Proof. unfold granting_frame, beside_grants, beside_round, evidence. intros [=]. congruence. Qed.

Lemma granting_policy s s' : granting_frame s s' -> im_policy s' = im_policy s.
Proof. unfold granting_frame, beside_grants, evidence. intros [=]. congruence. Qed.

Lemma round_refreshed s r : refreshed (round_start s) r = refreshed s r.
Proof. unfold refreshed, exec. by rewrite (refresh_record_proper (round_start s) s eq_refl _ _ eq_refl). Qed.
Lemma round_state_lookup s id : im_records (round_state s) !! id = refreshed s <$> im_records s !! id.
Proof.
  transitivity (refreshed (round_start s) <$> im_records s !! id); [apply lookup_fmap|].
  destruct (im_records s !! id); [|done]. simpl. by rewrite round_refreshed.
Qed.

(** A round on a state fit for it. *)
Lemma schedule_round_outcome s ord gord : round_ready s ord ->
  exists dec gs s', schedule_round ord gord s = (Ok dec, s') /\ round_outcome s ord dec gs s'.
Proof.
  intros Hready.
  destruct (schedule_round_total s ord Hready gord)
    as (dec & s3 & gs & E & Hsel & Hgr & Hfb & Hall & Hfr & Hf & Hrec & Hold & Hnew).
  destruct (group_counters_frame (round_selected s ord) s3) as (Erec & Egr & Enext & Eb).
  set (s' := account_fairness _ _ _) in E. exists dec, gs, s'. split; [done|].
  assert (im_policy s3 = im_policy s) as Epol by exact (granting_policy _ _ Hfr).
  assert (Hs' : forall id, im_records s' !! id =
    if decide (id ∈ round_candidates s ord)
    then Some (default SRecord_default (im_records s3 !! id)
      <| rec_fairness ::= charge_fairness (im_policy s) (bool_decide (id ∈ round_selected s ord)) |>)
    else im_records s3 !! id).
  { intros id. unfold s'. rewrite account_fairness_along.
    assert (im_policy (group_counters (round_selected s ord) s3) = im_policy s) as ->
      by (rewrite <- Epol; unfold group_counters, exec, form_group; by destruct (round_selected s ord)).
    transitivity (update_along (fun id r => r <| rec_fairness ::= charge_fairness (im_policy s)
      (bool_decide (id ∈ round_selected s ord)) |>) SRecord_default (round_candidates s ord)
      (im_records s3) !! id); [unfold set at 1; by rewrite <- Erec|].
    rewrite update_along_lookup by (apply candidates_NoDup, (rr_order _ _ Hready)). done. }
  destruct (account_fairness_frame (round_selected s ord) (round_candidates s ord)
    (group_counters (round_selected s ord) s3)) as (Fgr & Fnext & Fb).
  fold s' in Fgr, Fnext, Fb. rewrite Egr in Fgr. rewrite Enext in Fnext. rewrite Eb in Fb.
  clearbody s'. split.
  - done.
  - done.
  - by rewrite Hsel.
  - rewrite Hsel. eapply Forall2_impl_l; [exact Hall|].
    intros id g Hin (Hg & Hrg & Hgg & Hle). apply round_selected_candidates in Hin as Hc.
    destruct (round_candidate s ord Hready id Hc) as (r & Hr & Er & Hok). exists r.
    rewrite Er in Hg, Hrg. split_and!; [done|done| | |by rewrite Fgr|done].
    + etransitivity; [exact Hg|].
      rewrite (grant_of_request _ (refreshed s r) r) by apply (rf_request _ _ _ (refresh_record_frame s r)).
      reflexivity.
    + rewrite Hs', Hrg. unfold final_record. by rewrite !decide_True.
  - intros id Hnin. rewrite Hsel in Hnin. rewrite Hs', Hrec, round_state_lookup by done.
    unfold final_record. destruct (decide (id ∈ round_candidates s ord)) as [Hc|]; [|by destruct (im_records s !! id)].
    destruct (round_candidate s ord Hready id Hc) as (r & -> & _). done.
  - intros gid Hgid. rewrite Fgr. by apply Hold.
  - intros gid. rewrite Fgr, Fnext. apply Hf.
  - unfold new_grants. rewrite Fgr, Fnext. exact Hnew.
  - rewrite Fb. exact (granting_beside_round _ _ Hfr).
Qed.

(** ** Consequences *)

Lemma final_record_request s ord o id r : rec_request (final_record s ord o id r) = rec_request r.
Proof.
  pose proof (rf_request _ _ _ (refresh_record_frame s r)) as E.
  unfold final_record. by destruct (decide _), o.
Qed.
Lemma final_record_lifecycle s ord o id r : rec_lifecycle (final_record s ord o id r) =
  match o with Some _ => LifecycleState.GRANTED | None => rec_lifecycle (refreshed s r) end.
Proof. unfold final_record. by destruct (decide _), o. Qed.
Lemma final_record_grant s ord o id r : rec_current_grant (final_record s ord o id r) =
  match o with Some g => Some g | None => rec_current_grant r end.
Proof.
  pose proof (rf_grant _ _ _ (refresh_record_frame s r)) as E.
  unfold final_record. by destruct (decide _), o.
Qed.
Lemma final_record_fairness s ord o id r : rec_fairness (final_record s ord o id r) =
  if decide (id ∈ round_candidates s ord)
  then charge_fairness (im_policy s) (bool_decide (id ∈ round_selected s ord)) (rec_fairness r)
  else rec_fairness r.
Proof.
  pose proof (rf_fairness _ _ _ (refresh_record_frame s r)) as E.
  unfold final_record. destruct (decide _), o; simpl; by rewrite <- E.
Qed.

Section outcome.
Variables (s : Impl) (ord : list CollectiveRequestId) (dec : ScheduleDecision)
  (gs : list CollectiveGrant) (s' : Impl).
Hypothesis Hready : round_ready s ord.
Hypothesis Hout : round_outcome s ord dec gs s'.

Lemma outcome_evidence : same_evidence s' s /\ im_epoch s' = im_epoch s /\
  im_congestion_gen s' = im_congestion_gen s.
Proof using Hout.
  pose proof (ro_frame _ _ _ _ _ Hout) as E. unfold beside_round in E. unfold same_evidence.
  split_and!; congruence.
Qed.

(** A grant is valid in the state the round leaves. *)
Lemma outcome_valid id g :
  (forall c, im_congestion s = Some c -> cong_gen c = im_congestion_gen s) ->
  granted_in s s' ord id g -> revalidate_grant s' g = GrantAdjudication.VALID.
Proof using Hready Hout.
  intros Hcong (r & Hr & Hok & Eg & Hr' & _). apply revalidate_grant_iff.
  destruct outcome_evidence as (He & Eep & _).
  destruct (same_evidence_fields _ _ He) as (_ & _ & Ep & Epl & Ed & Ers & Erg & Ec & _).
  assert (rec_request (final_record s ord (Some g) id r) = rec_request r) as Q by apply final_record_request.
  pose proof (rf_request _ _ _ (refresh_record_frame s r)) as Q0.
  pose proof (co_evidence _ _ Hok) as [Hp Hpl Hd Hrs _ _]. rewrite Q0 in Hp, Hpl, Hd, Hrs.
  assert (g_request g = id) as Ereq by (rewrite Eg; exact (rr_keyed _ _ Hready id r Hr)).
  exists (final_record s ord (Some g) id r). split; [by rewrite Ereq|].
  split; rewrite ?Q, ?final_record_lifecycle.
  - by rewrite Eg.
  - by rewrite Eg.
  - by rewrite Eg, Eep.
  - set_solver.
  - intros _. unfold plan_bound in *. by rewrite Epl, Eg.
  - intros _. rewrite Eg. split; [done|]. unfold participant_bound in *. by setoid_rewrite Ep.
  - intros _. rewrite Ed. eapply Forall_impl; [exact Hd|]. intros d (st & ? & ? & _). eauto.
  - intros _ rg Hrg. rewrite Erg. by apply Hrs.
  - intros _ c. rewrite Ec, Eg. intros Hc. by apply Hcong.
Qed.
End outcome.

(** ** The properties of a round *)

(** The concrete state of Samples is fit for a round. *)
Lemma map_check {A} (f : CollectiveRequestId -> A -> bool) m :
  forallb (fun ka => f ka.1 ka.2) (map_to_list m) = true -> forall k a, m !! k = Some a -> f k a = true.
Proof.
  intros Hb k a Hka. rewrite forallb_Forall, Forall_forall in Hb.
  apply (Hb (k, a)). by apply elem_of_map_to_list.
Qed.
Lemma sample_ready : round_ready sample_state sample_order.
Proof.
  split.
  - split; [by apply (bool_decide_unpack _); vm_compute|].
    intros k. split.
    + revert k. apply Forall_forall, (bool_decide_unpack _). by vm_compute.
    + intros [r Hr]. refine (bool_decide_eq_true_1 _ _). revert k r Hr.
      apply (map_check (fun k _ => bool_decide (k ∈ sample_order))). by vm_compute.
  - intros k r Hr. refine (bool_decide_eq_true_1 _ _). revert k r Hr.
    apply (map_check (fun k r => bool_decide (rq_id (rec_request r) = k))). by vm_compute.
  - intros k r Hr. refine (bool_decide_eq_true_1 _ _). revert k r Hr.
    apply (map_check (fun _ r => bool_decide (rec_lifecycle r <> LifecycleState.ELIGIBLE))). by vm_compute.
  - intros gid [gs Hgs]. change (im_grants sample_state) with (∅ : gmap CollectiveGrantId GrantState) in Hgs.
    by rewrite lookup_empty in Hgs.
  - by vm_compute.
Qed.


(** C1: a round never throws, and what it selects is safe to run: every selected
    collective is admissible on evidence that is current in the state the round
    saw, is selected once, and any two of them share no participant, resource or
    link, bind different reservations, and both allow overlap. *)
Theorem selection_safe s ord gord : round_ready s ord ->
  exists dec s', schedule_round ord gord s = (Ok dec, s') /\
    NoDup (dec_selected dec) /\
    (forall id, id ∈ dec_selected dec -> exists r, im_records s !! id = Some r /\
       admissible s (refreshed s r) /\ evidence_current s (rec_request r)) /\
    (forall a b, a ∈ dec_selected dec -> b ∈ dec_selected dec -> a <> b ->
       exists ra rb, im_records s !! a = Some ra /\ im_records s !! b = Some rb /\ may_overlap s ra rb).
Proof.
  intros Hready. destruct (schedule_round_outcome s ord gord Hready) as (dec & gs & s' & E & Hout).
  exists dec, s'. rewrite (ro_selected _ _ _ _ _ Hout). split_and!; [done| | |].
  - by apply round_selected_NoDup.
  - intros id Hid. destruct (round_candidate s ord Hready id) as (r & Hr & _ & Hok);
      [by apply round_selected_candidates|].
    exists r. split_and!; [done|apply (co_admissible _ _ Hok)|].
    rewrite <- (rf_request _ _ _ (refresh_record_frame s r)). apply (co_evidence _ _ Hok).
  - intros a b. by apply round_pairs.
Qed.
Example selection_safe_witness : exists dec s',
  schedule_round sample_order [] sample_state = (Ok dec, s') /\ NoDup (dec_selected dec).
Proof.
  destruct (selection_safe sample_state sample_order [] sample_ready) as (dec & s' & H1 & H2 & _).
  exists dec, s'. exact (conj H1 H2).
Defined.

(** C24: the selection respects the bounds of [Bounds]: no more than its
    [max_overlap_group] collectives are selected, the active grants together with
    the selection do not exceed its [max_active_grants] (unless they already did),
    an EXCLUSIVE collective is selected alone, and none conflicts with an indexed
    active grant.  [PolicyConfig] has a [max_overlap_group] (2 by default) and an
    [overlap_enabled] of its own, which the round does not read
    ([policy_overlap_unread]). *)
Theorem selection_bounded s ord gord :
  let b := pol_bounds (im_policy s) in
  round_ready s ord -> u64 (im_active_grants s) ->
  0 <= max_overlap_group b -> im_active_grants s + max_overlap_group b <= U64_MAX ->
  exists dec s', schedule_round ord gord s = (Ok dec, s') /\
    size (dec_selected dec) <= max_overlap_group b /\
    im_active_grants s + size (dec_selected dec) <= Z.max (im_active_grants s) (max_active_grants b) /\
    (forall id, id ∈ dec_selected dec ->
       active_conflicts (round_state s) (record_at (round_state s) id) = 0 /\
       (is_exclusive (round_state s) id = true -> dec_selected dec = [id])).
Proof.
  intros b Hready Hu Hg Hb. destruct (schedule_round_outcome s ord gord Hready) as (dec & gs & s' & E & Hout).
  exists dec, s'. rewrite (ro_selected _ _ _ _ _ Hout). split_and!; [done| | |].
  - by apply (select_bounded (round_state s)).
  - apply (select_active (round_state s)); [done|done|]. unfold size. simpl. lia.
  - intros id Hid. split; [|by apply select_exclusive].
    pose proof (select_no_conflict (round_state s) (round_ranking s ord)) as Hn.
    rewrite Forall_forall in Hn. by apply Hn.
Qed.
Example selection_bounded_witness : exists dec s',
  schedule_round sample_order [] sample_state = (Ok dec, s') /\ size (dec_selected dec) <= 4096.
Proof.
  destruct (selection_bounded sample_state sample_order [] sample_ready) as (dec & s' & H1 & H2 & _);
    [by vm_compute..|]. exists dec, s'. exact (conj H1 H2).
Defined.

(** A policy that switches overlap off and limits groups to one: the sample's two
    compatible collectives are selected together all the same. *)
Definition no_overlap_state : Impl := sample_state
  <| im_policy ::= fun p => p <| pol_overlap_enabled := false |> <| pol_max_overlap_group := 1 |> |>.
Example policy_overlap_unread :
  match eval (schedule_round sample_order []) no_overlap_state with
  | Ok dec => dec_selected dec
  | Throw _ => []
  end = [mkId 1; mkId 2].
Proof. by vm_compute. Qed.

(** C23: the selection is maximal and the decision complete: the selected
    collectives and the fallback together are exactly the candidates, and every
    collective in the fallback was passed over because a bound was reached, an
    exclusive collective runs alone, it conflicts with an active grant, or it
    may not overlap one of those selected. *)
Theorem selection_maximal s ord gord : round_ready s ord ->
  exists dec s', schedule_round ord gord s = (Ok dec, s') /\
    dec_selected dec ++ dec_fallback dec ≡ₚ round_candidates s ord /\
    Forall (passed_over (round_state s) (dec_selected dec)) (dec_fallback dec).
Proof.
  intros Hready. destruct (schedule_round_outcome s ord gord Hready) as (dec & gs & s' & E & Hout).
  exists dec, s'. rewrite (ro_fallback _ _ _ _ _ Hout), (ro_selected _ _ _ _ _ Hout).
  assert (NoDup (rk_id <$> round_ranking s ord)) as Hn.
  { unfold round_ranking. rewrite ranked_list_ids. apply candidates_NoDup, (rr_order _ _ Hready). }
  assert (Hf : forall id, id ∈ List.filter (fun id => negb (bool_decide (id ∈ round_selected s ord)))
      (rk_id <$> round_ranking s ord) <-> id ∈ round_candidates s ord /\ id ∉ round_selected s ord).
  { intros id. rewrite list_elem_of_In, List.filter_In, <- list_elem_of_In, negb_true_iff, bool_decide_eq_false.
    unfold round_ranking. by rewrite ranked_list_ids. }
  split_and!; [done| |].
  - apply NoDup_Permutation.
    + apply NoDup_app. split_and!; [by apply round_selected_NoDup| |].
      * intros id Hid. rewrite Hf. tauto.
      * apply NoDup_ListNoDup, List.NoDup_filter. by apply NoDup_ListNoDup.
    + apply candidates_NoDup, (rr_order _ _ Hready).
    + intros id. rewrite elem_of_app, Hf. pose proof (round_selected_candidates s ord id).
      destruct (decide (id ∈ round_selected s ord)); tauto.
  - apply Forall_forall. intros id [Hid Hnin]%Hf. apply select_maximal; [by left| |done].
    unfold round_ranking. by rewrite ranked_list_ids.
Qed.
Example selection_maximal_witness : exists dec s',
  schedule_round sample_order [] sample_state = (Ok dec, s') /\
  Forall (passed_over (round_state sample_state) (dec_selected dec)) (dec_fallback dec).
Proof.
  destruct (selection_maximal sample_state sample_order [] sample_ready) as (dec & s' & H1 & _ & H2).
  exists dec, s'. exact (conj H1 H2).
Defined.

(** A collective that is not yet granted and can start is a candidate. *)
Lemma startable_candidate s ord id r : round_ready s ord -> im_records s !! id = Some r ->
  rec_lifecycle r ∈ [LifecycleState.DECLARED; LifecycleState.WAITING; LifecycleState.READY] ->
  startable s (rec_request r) -> id ∈ round_candidates s ord.
Proof.
  intros [Ho Hk He _ _] Hr Hl Hs. apply (elem_of_candidates (round_start s) ord id Ho Hk He).
  exists r. split; [done|]. apply refresh_record_offers; [done|].
  destruct Hs as [[] Hw ?]. split; [by split|exact Hw|done].
Qed.

(** With room under both bounds, a candidate without a conflict with the active
    grants means that something is selected. *)
Lemma outcome_not_empty s ord dec gs s' id r :
  let b := pol_bounds (im_policy s) in
  round_outcome s ord dec gs s' -> u64 (im_active_grants s) ->
  im_records s !! id = Some r -> id ∈ round_candidates s ord ->
  active_conflicts (round_state s) (refreshed s r) = 0 ->
  im_active_grants s < max_active_grants b -> 0 < max_overlap_group b -> dec_selected dec <> [].
Proof.
  intros b Hout Hu Hr Hc Hac Hact Hgrp. rewrite (ro_selected _ _ _ _ _ Hout). intros He.
  assert (passed_over (round_state s) [] id) as Hp.
  { pose proof (select_maximal (round_state s) (round_ranking s ord) [] id) as H.
    unfold round_selected in He. rewrite He in H. apply H; [by left| |by apply not_elem_of_nil].
    unfold round_ranking. by rewrite ranked_list_ids. }
  assert (record_at (round_state s) id = refreshed s r) as Era
    by (apply record_at_lookup; by rewrite round_state_lookup, Hr).
  destruct Hp as [H|[H|[(x & H & _)|[[_ H]|[H|(a & H & _)]]]]]; try done.
  - assert ((add64 (im_active_grants s) 0 >=? max_active_grants b) = true) as H' by exact H.
    unfold add64 in H'. rewrite Z.add_0_r, wrap64_small, Z.geb_leb, Z.leb_le in H' by done. lia.
  - rewrite Era in H. lia.
  - by apply elem_of_nil in H.
Qed.

(** A round makes progress: when some collective is not yet granted, is
    current on all its evidence, inside its window and free of conflicts with the
    active grants, and neither bound is exhausted, the round grants at least one
    collective, and grants that one if it is the only candidate. *)
Theorem round_progress s ord gord id r :
  let b := pol_bounds (im_policy s) in
  round_ready s ord -> u64 (im_active_grants s) ->
  im_records s !! id = Some r ->
  rec_lifecycle r ∈ [LifecycleState.DECLARED; LifecycleState.WAITING; LifecycleState.READY] ->
  startable s (rec_request r) -> active_conflicts (round_state s) (refreshed s r) = 0 ->
  im_active_grants s < max_active_grants b -> 0 < max_overlap_group b ->
  exists dec s', schedule_round ord gord s = (Ok dec, s') /\
    dec_selected dec <> [] /\
    ((forall x, x ∈ round_candidates s ord -> x = id) -> dec_selected dec = [id]) /\
    (forall x, x ∈ dec_selected dec -> exists r', im_records s' !! x = Some r' /\
       rec_lifecycle r' = LifecycleState.GRANTED /\ is_Some (rec_current_grant r')).
Proof.
  intros b Hready Hu Hr Hl Hst Hac Hact Hgrp.
  destruct (schedule_round_outcome s ord gord Hready) as (dec & gs & s' & E & Hout).
  assert (id ∈ round_candidates s ord) as Hc by (by eapply startable_candidate).
  assert (dec_selected dec <> []) as Hne by (by eapply (outcome_not_empty s ord dec gs s')).
  exists dec, s'. split_and!; [done|done| |].
  - intros Honly. pose proof (round_selected_NoDup s ord Hready) as Hn.
    assert (forall x, x ∈ dec_selected dec -> x = id) as Hall.
    { rewrite (ro_selected _ _ _ _ _ Hout). intros x Hx%round_selected_candidates. by apply Honly. }
    rewrite <- (ro_selected _ _ _ _ _ Hout) in Hn. revert Hne Hn Hall. generalize (dec_selected dec) as l.
    intros [|x l] Hne Hn Hall; [done|]. rewrite (Hall x (list_elem_of_here _ _)) in *.
    destruct l as [|y l]; [done|]. apply NoDup_cons in Hn as [[] _]. rewrite (Hall y) by set_solver. by left.
  - intros x [i Hi]%list_elem_of_lookup.
    destruct (Forall2_lookup_l _ _ _ _ _ (ro_granted _ _ _ _ _ Hout) Hi) as (g & _ & r0 & _ & _ & _ & Hr' & _).
    exists (final_record s ord (Some g) x r0). rewrite final_record_lifecycle, final_record_grant. by split_and!.
Qed.
Lemma sample_startable : startable sample_state request1.
Proof.
  destruct (round_candidate sample_state sample_order sample_ready (mkId 1)) as (r & Hr & _ & Hok);
    [by apply (bool_decide_unpack _); vm_compute|].
  assert (rec_request r = request1) as E by (vm_compute in Hr; by injection Hr as <-).
  destruct Hok as [_ _ _ [] He _]. rewrite (rf_request _ _ _ (refresh_record_frame sample_state r)), E in *. by split.
Qed.
Example round_progress_witness : exists dec s',
  schedule_round sample_order [] sample_state = (Ok dec, s') /\ dec_selected dec <> [].
Proof.
  assert (u64 (im_active_grants sample_state)) as Hu by (by vm_compute).
  assert (im_records sample_state !! mkId 1 = Some (sample_record request1 0)) as Hr by (vm_compute; reflexivity).
  assert (active_conflicts (round_state sample_state) (refreshed sample_state (sample_record request1 0)) = 0) as Ha
    by (vm_compute; reflexivity).
  assert (im_active_grants sample_state < max_active_grants (pol_bounds (im_policy sample_state))) as H1 by (by vm_compute).
  assert (0 < max_overlap_group (pol_bounds (im_policy sample_state))) as H2 by (by vm_compute).
  destruct (round_progress sample_state sample_order [] (mkId 1) (sample_record request1 0) sample_ready Hu Hr
    ltac:(by left) sample_startable Ha H1 H2) as (dec & s' & E & Hne & _).
  exists dec, s'. exact (conj E Hne).
Defined.

(** C7: every selected collective gets one grant, in order: the grant is stored
    under a new id, neither handed off nor active nor terminal, its collective is
    GRANTED and holds it, and revalidating it in the state the round leaves
    gives VALID.  Every earlier grant is untouched. *)
Theorem grants_authoritative s ord gord : round_ready s ord ->
  (forall c, im_congestion s = Some c -> cong_gen c = im_congestion_gen s) ->
  exists dec gs s', schedule_round ord gord s = (Ok dec, s') /\ dec_grants dec = g_id <$> gs /\
    Forall2 (fun id g => exists r', im_records s' !! id = Some r' /\
       rec_lifecycle r' = LifecycleState.GRANTED /\ rec_current_grant r' = Some g /\
       im_grants s' !! g_id g = Some (fresh_grant g) /\
       id_value (im_next_grant_id s) <= id_value (g_id g) /\
       revalidate_grant s' g = GrantAdjudication.VALID) (dec_selected dec) gs /\
    (forall gid, id_value gid < id_value (im_next_grant_id s) -> im_grants s' !! gid = im_grants s !! gid).
Proof.
  intros Hready Hc. destruct (schedule_round_outcome s ord gord Hready) as (dec & gs & s' & E & Hout).
  exists dec, gs, s'. split_and!; [done|apply Hout| |apply Hout].
  eapply Forall2_impl; [apply Hout|]. intros id g Hg.
  pose proof (outcome_valid s ord dec gs s' Hready Hout id g Hc Hg) as Hv.
  destruct Hg as (r & _ & _ & _ & Hr' & Hgr & Hle).
  exists (final_record s ord (Some g) id r).
  by rewrite final_record_lifecycle, final_record_grant.
Qed.
Example grants_authoritative_witness : exists dec gs s',
  schedule_round sample_order [] sample_state = (Ok dec, s') /\ dec_grants dec = g_id <$> gs /\
  length gs = length (dec_selected dec).
Proof.
  destruct (grants_authoritative sample_state sample_order [] sample_ready) as (dec & gs & s' & H1 & H2 & H3 & _);
    [discriminate|]. exists dec, gs, s'. refine (conj H1 (conj H2 _)).
  symmetry. exact (Forall2_length _ _ _ H3).
Defined.

(** Fairness is charged to exactly the candidates: a selected one has its
    bypass count cleared, a passed-over one has it increased by one (and its wait
    ticks), and is marked starved from [max_bypass_count] on; every other
    collective's account is unchanged. *)
Theorem fairness_charged s ord gord : round_ready s ord ->
  exists dec s', schedule_round ord gord s = (Ok dec, s') /\
    forall id r, im_records s !! id = Some r -> exists r', im_records s' !! id = Some r' /\
      rec_fairness r' =
        if decide (id ∈ round_candidates s ord)
        then charge_fairness (im_policy s) (bool_decide (id ∈ dec_selected dec)) (rec_fairness r)
        else rec_fairness r.
Proof.
  intros Hready. destruct (schedule_round_outcome s ord gord Hready) as (dec & gs & s' & E & Hout).
  exists dec, s'. split; [done|]. intros id r Hr. rewrite (ro_selected _ _ _ _ _ Hout).
  destruct (decide (id ∈ dec_selected dec)) as [Hin|Hnin].
  - apply list_elem_of_lookup in Hin as [i Hi].
    destruct (Forall2_lookup_l _ _ _ _ _ (ro_granted _ _ _ _ _ Hout) Hi) as (g & _ & r0 & Hr0 & _ & _ & Hr' & _).
    simplify_eq. eexists. split; [exact Hr'|]. apply final_record_fairness.
  - rewrite (ro_records _ _ _ _ _ Hout id Hnin), Hr. eexists. split; [done|]. apply final_record_fairness.
Qed.
Example fairness_charged_witness : exists dec s',
  schedule_round sample_order [] sample_state = (Ok dec, s') /\
  exists r', im_records s' !! mkId 3 = Some r' /\
    rec_fairness r' = charge_fairness PolicyConfig_default (bool_decide (mkId 3 ∈ dec_selected dec))
      FairnessAccount_default.
Proof.
  destruct (fairness_charged sample_state sample_order [] sample_ready) as (dec & s' & H1 & H2).
  exists dec, s'. refine (conj H1 _). exact (H2 (mkId 3) (sample_record request3 2) eq_refl).
Defined.
