(* ===== verification/Ports.v ===== *)
(** * Ports: the adjacent runtimes (ports.hpp)

    The scheduler talks to a resource broker, a collective fabric and a
    preemption fabric through abstract classes.  [Ports W] is that interface
    over an external world [W]: the implementations are not part of the program,
    so the operations take them as a parameter.  The default adapters of
    ports.hpp are given as an instance. *)
From S2P Require Import Prelude Enums Identity Error Float64 Domain.

(** [ResourceBrokerPort], [CollectiveFabricPort] and [PreemptionFabricPort].
    The constructor of [Scheduler] replaces a missing broker or fabric by the
    default one; a missing preemption port is a [request_preemption] that leaves
    the world alone. *)
Class Ports (W : Type) := {
  can_claim : WorkloadId -> list ResourceClaim -> W -> bool;
  claim : WorkloadId -> list ResourceClaim -> W -> bool * W;
  release : WorkloadId -> W -> W;
  last_rejection : W -> RejectionReason.t;
  accept : CollectiveGrant -> W -> bool * W;
  revoke : CollectiveGrant -> W -> W;
  request_preemption :
    CollectiveRequestId -> CollectiveRequestId -> PriorityInversionAction.t -> W -> W;
}.

(** [RecordingCollectiveFabric]. *)
Record RecordingCollectiveFabric : Set := mkRecordingCollectiveFabric {
  accepted : list CollectiveGrant;
  revoked : bool;
}.
#[export] Instance RecordingCollectiveFabric_eta : Eta RecordingCollectiveFabric := fun r =>
  mkRecordingCollectiveFabric (accepted r) (revoked r).
Definition fabric_default : RecordingCollectiveFabric := mkRecordingCollectiveFabric [] false.

(** [AlwaysGrantingResourceBroker] and [RecordingCollectiveFabric], no
    preemption port: what [Scheduler(Options{})] installs. *)
#[export] Instance default_ports : Ports RecordingCollectiveFabric := {
  can_claim _ _ _ := true;
  claim _ _ w := (true, w);
  release _ w := w;
  last_rejection _ := RejectionReason.NONE;
  accept g w := (true, w <| accepted ::= fun l => l ++ [g] |>);
  revoke _ w := w <| revoked := true |>;
  request_preemption _ _ _ w := w;
}.
