(* ===== verification/Operations.v ===== *)
(** * Operations: the public interface of [Scheduler] (scheduler.cpp)

    Each public member function takes the lock, works on [Impl], and calls the
    ports after releasing it.  The part under the lock is an [SM] computation;
    the whole call is a computation over [Impl * W].  [handoff] holds the lock
    twice, so its two halves are separate definitions and another operation may
    run between them. *)
From S2P Require Import Prelude Enums Identity Error Float64 Domain Lifecycle.
From S2P Require Import Conflict State Eligibility Ranking Schedule Ports.

(** ** Publishing evidence *)

(** The states that new evidence sends to REVALIDATION_REQUIRED. *)
Definition revalidates (st : LifecycleState.t) : bool :=
  match st with
  | LifecycleState.READY | LifecycleState.ELIGIBLE | LifecycleState.QUEUED
  | LifecycleState.GRANTED | LifecycleState.DISPATCHING | LifecycleState.ACTIVE => true
  | _ => false
  end.
Definition revalidate_record (r : SRecord) : SRecord :=
  if revalidates (rec_lifecycle r) then try_transition LifecycleState.REVALIDATION_REQUIRED r else r.

(** The record binds [p] at another generation. *)
Definition binds_other_gen (p : Participant) (r : SRecord) : bool :=
  existsb (fun '(pid, gen) => bool_decide (pid = p_id p) && negb (gen_is gen (p_gen p)))
    (bindings (rec_request r)).
Definition invalidate_request (p : Participant) (s : Impl) (rid : CollectiveRequestId) : Impl :=
  match im_records s !! rid with
  | None => s
  | Some r =>
      if is_terminal_state (rec_lifecycle r) then s
      else if negb (binds_other_gen p r) then s
      else set_record rid (revalidate_record r) s
  end.
(** A [std::set] is iterated in ascending order. *)
Definition set_order {tag} (st : gset (Id tag)) : list (Id tag) := stable_sort id_ltb (elements st).

Definition publishParticipant (p : Participant) : SM unit :=
  s ← get_state;
  match im_participants s !! p_id p with
  | None => mret tt
  | Some old =>
      lift (throw_if (gen_value (p_gen p) <? gen_value (p_gen old))
        (throw_transition "participant generation regress"));;
      let boot_changed := negb (id_value (p_worker_boot old) =? id_value (p_worker_boot p)) in
      if (gen_value (p_gen p) >? gen_value (p_gen old)) || boot_changed then
        match im_participant_requests s !! p_id p with
        | None => mret tt
        | Some rids => put_state (foldl (invalidate_request p) s (set_order rids))
        end
      else mret tt
  end;;
  s ← get_state;
  put_state (s <| im_participants ::= <[p_id p := p]> |>
               <| im_participant_requests ::= fun m =>
                    match m !! p_id p with Some _ => m | None => <[p_id p := ∅]> m end |>).

(** Replace evidence of an older or equal generation only. *)
Definition regresses {tag A} (gen : A -> Gen tag) (new : A) (old : option A) : bool :=
  match old with Some o => gen_value (gen new) <? gen_value (gen o) | None => false end.

Definition publishPlan (plan : CommunicationPlan) : SM unit :=
  s ← get_state;
  lift (throw_if (regresses pl_gen plan (im_plans s !! pl_id plan))
    (throw_transition "plan generation regress"));;
  put_state (s <| im_plans ::= <[pl_id plan := plan]> |>).
Definition publishDependency (dep : DependencyState) : SM unit :=
  s ← get_state;
  lift (throw_if (regresses dep_gen dep (im_deps s !! dep_id dep))
    (throw_transition "dependency generation regress"));;
  put_state (s <| im_deps ::= <[dep_id dep := dep]> |>).
Definition publishReservation (r : Reservation) : SM unit :=
  s ← get_state;
  put_state (s <| im_reservations ::= <[rsv_gen r := r]> |> <| im_reservation_gen := rsv_gen r |>).
Definition publishCongestion (cong : CongestionState) : SM unit :=
  s ← get_state;
  lift (throw_if (regresses cong_gen cong (im_congestion s))
    (throw_transition "congestion generation regress"));;
  put_state (s <| im_congestion_gen := cong_gen cong |> <| im_congestion := Some cong |>).
Definition publishCapacity (cap : CapacityState) : SM unit :=
  s ← get_state;
  lift (throw_if (regresses cap_gen cap (im_capacity s))
    (throw_transition "capacity generation regress"));;
  put_state (s <| im_capacity_gen := cap_gen cap |> <| im_capacity := Some cap |>).
(** [policy_gen.value + 1] wraps. *)
Definition setPolicy (cfg : PolicyConfig) : SM unit :=
  s ← get_state;
  put_state (s <| im_policy := cfg |>
               <| im_policy_gen ::= fun g => mkGen (add64 (gen_value g) 1) |>).

(** ** Requests *)

(** [for (auto pid : participants) participant_requests\[pid\].insert(id);]. *)
Definition index_request (id : CollectiveRequestId) (ps : list ParticipantId) (s : Impl) : Impl :=
  s <| im_participant_requests ::= fun m =>
    foldl (fun m pid => <[pid := {[id]} ∪ default ∅ (m !! pid)]> m) m ps |>.

Definition submit (req : CollectiveRequest) : SM CollectiveRequestId :=
  s ← get_state;
  lift (throw_if (Z.of_nat (base.size (im_records s)) >=? max_collectives (pol_bounds (im_policy s)))
    (throw_bounds "collective count bound"));;
  let id := im_next_request_id s in
  put_state (s <| im_next_request_id ::= id_incr |>);;
  let req := req <| rq_id := id |> <| rq_gen := mkGen 1 |> in
  lift (validate_request req (im_policy s));;
  s ← get_state;
  let rec := SRecord_default
    <| rec_request := req |>
    <| rec_enqueue_seq := im_next_seq s |>
    <| rec_lifecycle := LifecycleState.DECLARED |>
    <| rec_fairness ::= fun f => f <| fa_cls := rq_fairness_class req |> |> in
  let s := s <| im_next_seq ::= fun n => add64 n 1 |> in
  let s := index_request id (rq_participants req) s in
  put_state (s <| im_records ::= fun m =>
    match m !! id with Some _ => m | None => <[id := rec]> m end |>);;
  mret id.

(** [if (active_grants > 0) --active_grants;]. *)
Definition drop_active (s : Impl) : Impl :=
  s <| im_active_grants ::= fun n => if n >? 0 then n - 1 else n |>.
(** [deindex_active_grant(gs.grant); gs.terminal = true; gs.active = false;]. *)
Definition terminate_grant (gid : CollectiveGrantId) (gs : GrantState) (s : Impl) : Impl :=
  set_grant gid (gs <| gs_terminal := true |> <| gs_active := false |>)
    (deindex_active_grant (gs_grant gs) s).

Definition supersede (req : CollectiveRequest) : SM unit :=
  s ← get_state;
  match im_records s !! rq_id req with
  | None => throw (throw_invalid "supersede for unknown request")
  | Some old =>
      lift (throw_if (gen_value (rq_gen req) <=? gen_value (rq_gen (rec_request old)))
        (throw_transition "supersede generation must advance"));;
      lift (validate_request req (im_policy s));;
      let s := match rec_lifecycle old with
        | LifecycleState.COMPLETED | LifecycleState.CANCELLED => s
        | _ => set_record (rq_id req) (force_transition LifecycleState.SUPERSEDED old) s
        end in
      let s := match rec_current_grant old with
        | None => s
        | Some g =>
            drop_active
              match im_grants s !! g_id g with
              | Some gs => terminate_grant (g_id g) gs s
              | None => s
              end
        end in
      let nrec := SRecord_default
        <| rec_request := req |>
        <| rec_enqueue_seq := rec_enqueue_seq old |>
        <| rec_lifecycle := LifecycleState.WAITING |>
        <| rec_fairness := rec_fairness old |> in
      let s := index_request (rq_id req) (rq_participants req) s in
      put_state (set_record (rq_id req) nrec s)
  end.

(** The part of [cancel] under the lock: the workload to release and the grant
    to revoke afterwards. *)
Definition cancel_locked (id : CollectiveRequestId)
    : SM (option WorkloadId * option CollectiveGrant) :=
  s ← get_state;
  match im_records s !! id with
  | None => throw (throw_invalid "cancel for unknown request")
  | Some r =>
      if is_terminal_state (rec_lifecycle r) then mret (None, None)
      else
        let '(out, s) :=
          match rec_current_grant r with
          | None => ((None, None), s)
          | Some g =>
              match im_grants s !! g_id g with
              | None => ((None, None), s)
              | Some gs =>
                  if gs_terminal gs then ((Some (rq_workload (rec_request r)), None), s)
                  else
                    let s := terminate_grant (g_id g) gs s in
                    let s := if gs_active gs then drop_active s else s in
                    ((Some (rq_workload (rec_request r)), Some (gs_grant gs)), s)
              end
          end in
        put_state (set_record id (force_transition LifecycleState.CANCELLED r) s);;
        mret out
  end.

(** ** Time, epoch, queries *)
Definition advanceCoordinatorEpoch (epoch : CoordinatorEpoch) : SM unit :=
  s ← get_state;
  lift (throw_if (gen_value epoch <=? gen_value (im_epoch s))
    (throw_transition "coordinator epoch must advance"));;
  put_state (s <| im_epoch := epoch |>).
Definition advanceTime (d : Z) : SM unit :=
  s ← get_state;
  put_state (s <| im_now ::= fun v => advance v d |>).
Definition coordinatorEpoch (s : Impl) : CoordinatorEpoch := im_epoch s.
Definition capacityGeneration (s : Impl) : CapacityGeneration := im_capacity_gen s.
Definition congestionGeneration (s : Impl) : CongestionGeneration := im_congestion_gen s.
Definition reservationGeneration (s : Impl) : ReservationGeneration := im_reservation_gen s.
Definition grantById (s : Impl) (id : CollectiveGrantId) : option CollectiveGrant :=
  gs_grant <$> im_grants s !! id.

(** [struct Scheduler::Info] and [info()]; [ord] is the records' iteration order. *)
Record Info : Set := mkInfo {
  inf_records : Z; inf_participants : Z; inf_plans : Z; inf_queued : Z; inf_ready : Z;
  inf_eligible : Z; inf_active_grants : Z; inf_retired : Z;
  inf_capacity_gen : CapacityGeneration; inf_congestion_gen : CongestionGeneration;
  inf_reservation_gen : ReservationGeneration; inf_epoch : CoordinatorEpoch; inf_now_ns : Z;
  inf_next_eligible : list CollectiveRequestId;
}.
Definition waits_for_grant (r : SRecord) : bool :=
  rec_hard_eligible r && negb (lifecycle_in [LifecycleState.GRANTED; LifecycleState.ACTIVE] r).
Definition eligible_before (s : Impl) (a b : CollectiveRequestId * Z) : bool :=
  let ca := collective_of s a.1 in
  let cb := collective_of s b.1 in
  if negb (ca =? cb) then ca <? cb
  else if negb (a.2 =? b.2) then a.2 <? b.2
  else id_value a.1 <? id_value b.1.
Definition info (s : Impl) (ord : list CollectiveRequestId) : Info :=
  let v := (fun id => (id, rec_enqueue_seq (record_at s id))) <$>
             List.filter (fun id => waits_for_grant (record_at s id)) ord in
  {| inf_records := Z.of_nat (base.size (im_records s));
     inf_participants := Z.of_nat (base.size (im_participants s));
     inf_plans := Z.of_nat (base.size (im_plans s));
     inf_queued := count_records (lifecycle_in [LifecycleState.QUEUED; LifecycleState.ELIGIBLE]) s;
     inf_ready := count_records (lifecycle_in [LifecycleState.READY]) s;
     inf_eligible := 0;
     inf_active_grants := im_active_grants s;
     inf_retired := count_records (lifecycle_in [LifecycleState.RETIRED]) s;
     inf_capacity_gen := im_capacity_gen s;
     inf_congestion_gen := im_congestion_gen s;
     inf_reservation_gen := im_reservation_gen s;
     inf_epoch := im_epoch s;
     inf_now_ns := im_now s;
     inf_next_eligible := (stable_sort (eligible_before s) v).*1 |}.

(** ** Execution *)

(** The first critical section of [handoff]: whether to go on. *)
Definition handoff_begin (g : CollectiveGrant) : SM bool :=
  s ← get_state;
  if negb (bool_decide (revalidate_grant s g = GrantAdjudication.VALID)) then mret false
  else match im_records s !! g_request g with
  | None => mret false
  | Some _ =>
      dispatched ← with_record (g_request g) (attempt (rec_transition LifecycleState.DISPATCHING));
      if negb dispatched then mret false
      else
        s ← get_state;
        put_state
          match im_grants s !! g_id g with
          | Some gs => set_grant (g_id g) (gs <| gs_handed_off := true |> <| gs_grant := g |>) s
          | None => s
          end;;
        mret true
  end.
(** The second one, after the fabric answered: whether to revoke. *)
Definition handoff_finish (g : CollectiveGrant) (accepted : bool) : SM bool :=
  s ← get_state;
  match im_records s !! g_request g with
  | None => mret true
  | Some r =>
      let r := if bool_decide (rec_lifecycle r = LifecycleState.DISPATCHING) && accepted
               then try_transition LifecycleState.ACTIVE r else r in
      let s := set_record (g_request g) r s in
      match im_grants s !! g_id g with
      | None => put_state s;; mret true
      | Some gs =>
          let is_active := bool_decide (rec_lifecycle r = LifecycleState.ACTIVE) in
          let s := set_grant (g_id g) (gs <| gs_active := is_active |>) s in
          if is_active then
            put_state (index_active_grant (gs_grant gs)
              (s <| im_active_grants ::= fun n => add64 n 1 |>));;
            mret false
          else put_state s;; mret true
      end
  end.

(** The participant loop of [complete]. *)
Fixpoint completion_authority (s : Impl) (wb : WorkerBootId) (sb : SourceBootId)
    (bs : list (ParticipantId * option ParticipantGeneration)) (boot_ok : bool) : bool :=
  match bs with
  | [] => boot_ok
  | (pid, gen) :: bs' =>
      match im_participants s !! pid with
      | None => false
      | Some p =>
          if negb (gen_is gen (p_gen p)) then false
          else if negb (participant_live p) then false
          else
            let boot_ok :=
              if (id_value (p_worker_boot p) =? id_value wb) && (id_value (p_source_boot p) =? id_value sb)
              then true else boot_ok in
            completion_authority s wb sb bs' boot_ok
      end
  end.
(** The guards of [complete] before the transition. *)
Definition may_complete (s : Impl) (r : SRecord) (gs : GrantState) (g : CollectiveGrant)
    (wb : WorkerBootId) (sb : SourceBootId) : bool :=
  negb (gs_terminal gs) &&
  (gen_value (ev_epoch (g_evidence g)) =? gen_value (im_epoch s)) &&
  lifecycle_in [LifecycleState.ACTIVE; LifecycleState.DISPATCHING] r &&
  match rec_current_grant r with
  | Some cg => (id_value (g_id cg) =? id_value (g_id g)) && (gen_value (g_gen cg) =? gen_value (g_gen g))
  | None => false
  end &&
  (gen_value (rq_gen (rec_request r)) =? gen_value (g_request_gen g)) &&
  (gen_value (rq_collective_gen (rec_request r)) =? gen_value (g_collective_gen g)) &&
  completion_authority s wb sb (bindings_of (g_participants g) (g_participant_gens g)) false.
(** The part of [complete] under the lock: the workload to release when it
    returns true. *)
Definition complete_locked (g : CollectiveGrant) (wb : WorkerBootId) (sb : SourceBootId)
    : SM (option WorkloadId) :=
  s ← get_state;
  match im_records s !! g_request g, im_grants s !! g_id g with
  | Some r, Some gs =>
      if negb (may_complete s r gs g wb sb) then mret None
      else match transition (rec_lifecycle r) LifecycleState.COMPLETED with
      | Throw _ => mret None
      | Ok st =>
          let r := r <| rec_lifecycle := st |>
                     <| rec_current_grant ::= fmap (fun cg => cg <| g_active := false |>) |> in
          let gs := gs <| gs_terminal := true |> <| gs_active := false |>
                       <| gs_completed_by := wb |> <| gs_completed_by_source := sb |> in
          put_state (set_record (g_request g) r
            (drop_active (deindex_active_grant g (set_grant (g_id g) gs s))));;
          mret (Some (rq_workload (rec_request r)))
      end
  | _, _ => mret None
  end.

(** ** Fencing and recovery *)
Definition runs_on (worker : WorkerId) (boot : WorkerBootId) (p : Participant) : bool :=
  (id_value (p_worker p) =? id_value worker) && (id_value (p_worker_boot p) =? id_value boot).
Definition fence_participant (worker : WorkerId) (boot : WorkerBootId) (p : Participant) : Participant :=
  if runs_on worker boot p
  then p <| p_ready := false |> <| p_readiness_source := ProvenanceStatus.UNKNOWN |> else p.
(** One hit of the inner loop: the record named [rid] uses a fenced participant. *)
Definition fence_hit (rid : CollectiveRequestId) (s : Impl) : Impl :=
  let r := record_at s rid in
  let s := set_record rid (revalidate_record r) s in
  match rec_current_grant r with
  | None => s
  | Some g =>
      match im_grants s !! g_id g with
      | Some gs => terminate_grant (g_id g) gs s
      | None => s
      end
  end.
Definition fence_record (worker : WorkerId) (boot : WorkerBootId) (s : Impl)
    (rid : CollectiveRequestId) : Impl :=
  let r := record_at s rid in
  if is_terminal_state (rec_lifecycle r) then s
  else
    foldl (fun s pid =>
      match im_participants s !! pid with
      | Some p => if runs_on worker boot p then fence_hit rid s else s
      | None => s
      end) s (rq_participants (rec_request r)).
(** [fenceWorkerBoot]; [ord] is the records' iteration order. *)
Definition fenceWorkerBoot (ord : list CollectiveRequestId) (worker : WorkerId)
    (boot : WorkerBootId) : SM unit :=
  s ← get_state;
  let s := s <| im_participants ::= fmap (fence_participant worker boot) |> in
  put_state (foldl (fence_record worker boot) s ord).

(** The loop of [resetDynamicStateForRecovery]: each record by itself. *)
Definition recover_record (r : SRecord) : SRecord :=
  let r := if is_terminal_state (rec_lifecycle r) then r
           else force_transition LifecycleState.REVALIDATION_REQUIRED r in
  r <| rec_current_grant := None |> <| rec_hard_eligible := false |>
    <| rec_last_readiness := Readiness.UNKNOWN |>.
Definition resetDynamicStateForRecovery : SM unit :=
  s ← get_state;
  put_state (s
    <| im_participants := ∅ |>
    <| im_plans := ∅ |>
    <| im_deps := ∅ |>
    <| im_reservations := ∅ |>
    <| im_congestion := None |>
    <| im_capacity := None |>
    <| im_participant_requests := ∅ |>
    <| im_congestion_gen := mkGen 0 |>
    <| im_capacity_gen := mkGen 0 |>
    <| im_reservation_gen := mkGen 0 |>
    <| im_active_grants := 0 |>
    <| im_grants := ∅ |>
    <| im_active_by_participant := ∅ |>
    <| im_records ::= fmap recover_record |>).

(** ** Whole calls, with the ports *)
Section calls.
Context {W : Type} `{!Ports W}.
(** A public member function: scheduler state and external world. *)
Abbreviation Call := (M scheduler_error (Impl * W)).

(** [{ std::unique_lock l(mu); m }]. *)
Definition locked {A} (m : SM A) : Call A := fun '(s, w) =>
  let '(x, s') := m s in (x, (s', w)).
(** A port call, after the lock is released. *)
Definition on_port {A} (f : W -> A * W) : Call A := fun '(s, w) =>
  let '(a, w') := f w in (Ok a, (s, w')).
Definition notify (f : W -> W) : Call unit := on_port (fun w => (tt, f w)).
Definition when_some {A} (o : option A) (f : A -> Call unit) : Call unit :=
  match o with Some a => f a | None => mret tt end.

Definition schedule (ord : list CollectiveRequestId) (gord : list CollectiveGrantId)
    : Call ScheduleDecision :=
  dec ← locked (schedule_round ord gord);
  mfor (fun ev => notify (request_preemption (pie_holder ev) (pie_requester ev) (pie_action ev)))
    (dec_priority_inversions dec);;
  mret dec.
Definition cancel (id : CollectiveRequestId) : Call unit :=
  '(wl, gr) ← locked (cancel_locked id);
  when_some wl (fun wl => notify (release wl));;
  when_some gr (fun g => notify (revoke g)).
Definition handoff (g : CollectiveGrant) : Call bool :=
  go ← locked (handoff_begin g);
  if negb go then mret false
  else
    accepted ← on_port (accept g);
    must_revoke ← locked (handoff_finish g accepted);
    (if (must_revoke : bool) then notify (revoke g) else mret tt);;
    mret (accepted && negb must_revoke).
Definition complete (g : CollectiveGrant) (wb : WorkerBootId) (sb : SourceBootId) : Call bool :=
  wl ← locked (complete_locked g wb sb);
  match wl with
  | None => mret false
  | Some wl => notify (release wl);; mret true
  end.
Definition revalidateGrant (g : CollectiveGrant) : Call GrantAdjudication.t := fun '(s, w) =>
  (Ok (revalidate_grant s g), (s, w)).
End calls.
