(* ===== verification/Safety.v ===== *)
(** * Safety: the scheduler as a state machine

    The operations of the public interface, each as one step of the lock
    ([handoff] as two), make a transition relation on [Impl].  The file proves an
    invariant of the reachable states and what a run of the machine can do to a
    record and to a grant. *)
From S2P Require Import Prelude Enums Identity Error Float64 Domain Lifecycle Conflict State.
From S2P Require Import Eligibility Ranking Schedule Samples Rounds Ports Operations.
From Stdlib Require Import Relations.

(** ** The machine *)

(** One critical section.  The two counters of a fresh scheduler start at 1 and
    saturate at 2^64 - 1; the steps that take from them need them not to. *)
Inductive step : Impl -> Impl -> Prop :=
  | step_publishParticipant s p : step s (exec (publishParticipant p) s)
  | step_publishPlan s p : step s (exec (publishPlan p) s)
  | step_publishDependency s d : step s (exec (publishDependency d) s)
  | step_publishReservation s r : step s (exec (publishReservation r) s)
  | step_publishCongestion s c : step s (exec (publishCongestion c) s)
  | step_publishCapacity s c : step s (exec (publishCapacity c) s)
  | step_setPolicy s p : step s (exec (setPolicy p) s)
  | step_submit s req :
      id_value (im_next_request_id s) < U64_MAX -> step s (exec (submit req) s)
  | step_supersede s req : step s (exec (supersede req) s)
  | step_cancel s id : step s (exec (cancel_locked id) s)
  | step_advanceCoordinatorEpoch s e : step s (exec (advanceCoordinatorEpoch e) s)
  | step_advanceTime s d : step s (exec (advanceTime d) s)
  | step_schedule s ord gord :
      enumerates ord (im_records s) ->
      id_value (im_next_grant_id s) + Z.of_nat (length ord) <= U64_MAX ->
      step s (exec (schedule_round ord gord) s)
  | step_handoff_begin s g : step s (exec (handoff_begin g) s)
  | step_handoff_finish s g accepted : step s (exec (handoff_finish g accepted) s)
  | step_complete s g wb sb : step s (exec (complete_locked g wb sb) s)
  | step_fence s ord worker boot :
      enumerates ord (im_records s) -> step s (exec (fenceWorkerBoot ord worker boot) s).

(** Runs, and the states a scheduler can reach from its construction. *)
Abbreviation run := (rtc step).
Definition reachable (s : Impl) : Prop :=
  exists epoch policy, run (Scheduler_new epoch policy) s.

(** ** The invariant *)

(** The states a record rests in between operations. *)
Definition resting (l : LifecycleState.t) : bool :=
  match l with
  | LifecycleState.ELIGIBLE | LifecycleState.QUEUED | LifecycleState.DRAINING
  | LifecycleState.FAILED | LifecycleState.other _ => false
  | _ => true
  end.
(** The resting states of a collective that has been granted. *)
Definition past_grant (l : LifecycleState.t) : bool :=
  match l with
  | LifecycleState.DECLARED | LifecycleState.WAITING | LifecycleState.READY => false
  | _ => resting l
  end.
Record rec_wf (nreq ngrant : Z) (id : CollectiveRequestId) (r : SRecord) : Prop := {
  rw_key : rq_id (rec_request r) = id;
  rw_id : id_value id < nreq;
  rw_resting : resting (rec_lifecycle r) = true;
  rw_grant : forall g, rec_current_grant r = Some g ->
    g_request g = id /\ g_request_gen g = rq_gen (rec_request r) /\ id_value (g_id g) < ngrant /\
    past_grant (rec_lifecycle r) = true;
}.
Record grant_wf (ngrant : Z) (gid : CollectiveGrantId) (gs : GrantState) : Prop := {
  gw_key : g_id (gs_grant gs) = gid;
  gw_id : id_value gid < ngrant;
}.
Record wf (s : Impl) : Prop := {
  wf_records : map_Forall (rec_wf (id_value (im_next_request_id s)) (id_value (im_next_grant_id s)))
    (im_records s);
  wf_grants : map_Forall (grant_wf (id_value (im_next_grant_id s))) (im_grants s);
  wf_congestion : forall c, im_congestion s = Some c -> cong_gen c = im_congestion_gen s;
}.

Lemma wf_new epoch policy : wf (Scheduler_new epoch policy).
Proof. split; [apply map_Forall_empty..|done]. Qed.

(** ** The life of a collective *)

(** Where a collective stands, as a caller sees it, with the grant it holds. *)
Inductive phase : Set :=
  | Pending
  | Granted (g : option CollectiveGrantId)
  | Dispatching (g : option CollectiveGrantId)
  | Running (g : option CollectiveGrantId)
  | Completed (g : option CollectiveGrantId)
  | Suspended
  | Closed.
Definition phase_of (l : LifecycleState.t) (g : option CollectiveGrantId) : phase :=
  match l with
  | LifecycleState.DECLARED | LifecycleState.WAITING | LifecycleState.READY
  | LifecycleState.ELIGIBLE | LifecycleState.QUEUED => Pending
  | LifecycleState.GRANTED => Granted g
  | LifecycleState.DISPATCHING => Dispatching g
  | LifecycleState.ACTIVE | LifecycleState.DRAINING => Running g
  | LifecycleState.COMPLETED => Completed g
  | LifecycleState.REVALIDATION_REQUIRED | LifecycleState.FAILED => Suspended
  | _ => Closed
  end.
(** The generation of the request and the phase. *)
Definition life : Set := Z * phase.
Definition life_of (r : SRecord) : life :=
  (gen_value (rq_gen (rec_request r)), phase_of (rec_lifecycle r) (g_id <$> rec_current_grant r)).
Definition live (p : phase) : bool :=
  match p with Completed _ | Closed => false | _ => true end.
(** The moves of a collective other than to be granted. *)
Inductive move : life -> life -> Prop :=
  | mv_dispatch n g : move (n, Granted g) (n, Dispatching g)
  | mv_run n g : move (n, Dispatching g) (n, Running g)
  | mv_complete n g : move (n, Running g) (n, Completed g)
  | mv_suspend n p : live p = true -> move (n, p) (n, Suspended)
  | mv_close n p : live p = true -> move (n, p) (n, Closed)
  | mv_supersede n n' p : n < n' -> move (n, p) (n', Pending).
Abbreviation moves := (rtc move).
#[export] Instance moves_preorder : PreOrder moves.
Proof. apply _. Qed.

(** ** What a step may do to one record and to one grant *)

(** Either the request was superseded by a later generation, or the lifecycle
    moved through its table, out of no dormant state, and the grant, once there,
    stayed the same grant. *)
Inductive rec_step (r r' : SRecord) : Prop :=
  | rec_superseded :
      gen_value (rq_gen (rec_request r)) < gen_value (rq_gen (rec_request r')) -> rec_step r r'
  | rec_moved path :
      rec_request r' = rec_request r ->
      run_of (rec_lifecycle r) path (rec_lifecycle r') ->
      (dormant (rec_lifecycle r) = true -> dormant (rec_lifecycle r') = true) ->
      (forall g, rec_current_grant r = Some g ->
         exists g', rec_current_grant r' = Some g' /\ g_id g' = g_id g) ->
      rec_step r r'.
(** A terminal grant stays terminal, completed by whoever completed it. *)
Definition grant_step (gs gs' : GrantState) : Prop :=
  gs_terminal gs = true ->
  gs_terminal gs' = true /\ gs_completed_by gs' = gs_completed_by gs /\
  gs_completed_by_source gs' = gs_completed_by_source gs.

Lemma run_app s p1 s1 p2 s2 : run_of s p1 s1 -> run_of s1 p2 s2 -> run_of s (p1 ++ p2) s2.
Proof. induction 1; simpl; [done|]. intros. econstructor; eauto. Qed.
Lemma run_one s s1 : can_transition s s1 = true -> run_of s [s1] s1.
Proof. intros H. eapply run_step; [|apply run_nil]. unfold transition. by rewrite H. Qed.

#[export] Instance rec_step_preorder : PreOrder rec_step.
Proof.
  split.
  - intros r. eapply rec_moved; [done|apply run_nil|done|eauto].
  - intros r1 r2 r3 [H1|p1 E1 R1 D1 G1] [H2|p2 E2 R2 D2 G2].
    + apply rec_superseded. lia.
    + apply rec_superseded. by rewrite E2.
    + apply rec_superseded. by rewrite <- E1.
    + eapply rec_moved; [congruence|by eapply run_app|auto|].
      intros g (g2 & Hg2 & <-)%G1. destruct (G2 _ Hg2) as (g3 & ? & E3).
      exists g3. split; [done|congruence].
Qed.
#[export] Instance grant_step_preorder : PreOrder grant_step.
Proof.
  split; [by intros gs|]. unfold grant_step. intros g1 g2 g3 H1 H2 Ht.
  destruct (H1 Ht) as (Ht2 & E1 & E2). destruct (H2 Ht2) as (? & E3 & E4). split_and!; congruence.
Qed.

(** The change of one map: the same keys, related entries. *)
Definition evolves {K A} `{Countable K} (R : K -> A -> A -> Prop) (m m' : gmap K A) : Prop :=
  forall k, option_Forall2 (R k) (m !! k) (m' !! k).
Section evolves.
Context {K A : Type} `{Countable K} (R : K -> A -> A -> Prop) `{!forall k, PreOrder (R k)}.

#[export] Instance evolves_preorder : PreOrder (evolves R).
Proof.
  split.
  - intros m k. destruct (m !! k); by constructor.
  - intros m1 m2 m3 H1 H2 k. specialize (H1 k). specialize (H2 k).
    destruct H1 as [a b Hab|]; inversion H2; subst; constructor. by etrans.
Qed.
Lemma evolves_insert m k a a' : m !! k = Some a -> R k a a' -> evolves R m (<[k := a']> m).
Proof.
  intros Hk HR k'. destruct (decide (k = k')) as [<-|Hne].
  - rewrite lookup_insert_eq, Hk. by constructor.
  - rewrite lookup_insert_ne by done. destruct (m !! k'); by constructor.
Qed.
Lemma evolves_lookup m m' k a : evolves R m m' -> m !! k = Some a ->
  exists a', m' !! k = Some a' /\ R k a a'.
Proof. intros He Hk. specialize (He k). rewrite Hk in He. inversion He; subst. eauto. Qed.
Lemma evolves_back m m' k a' : evolves R m m' -> m' !! k = Some a' ->
  exists a, m !! k = Some a /\ R k a a'.
Proof. intros He Hk. specialize (He k). rewrite Hk in He. inversion He; subst. eauto. Qed.
End evolves.

(** What a run may do to the state. *)
Record progress (s s' : Impl) : Prop := {
  pg_epoch : gen_value (im_epoch s) <= gen_value (im_epoch s');
  pg_records : forall id r, im_records s !! id = Some r ->
    exists r', im_records s' !! id = Some r' /\ rec_step r r';
  pg_grants : forall gid gs, im_grants s !! gid = Some gs ->
    exists gs', im_grants s' !! gid = Some gs' /\ grant_step gs gs';
}.
#[export] Instance progress_preorder : PreOrder progress.
Proof.
  split.
  - intros s. split; [lia| |]; intros; eexists; (split; [done|reflexivity]).
  - intros s1 s2 s3 [E1 R1 G1] [E2 R2 G2]. split; [lia|..].
    + intros id r (r2 & (r3 & ? & ?)%R2 & ?)%R1. exists r3. split; [done|by etrans].
    + intros gid gs (g2 & (g3 & ? & ?)%G2 & ?)%G1. exists g3. split; [done|by etrans].
Qed.
(** What is to be shown of each operation. *)
Definition safe (s s' : Impl) : Prop := wf s' /\ progress s s'.

(** ** Operations that take no new id *)

Definition rec_ok (nreq ngrant : Z) (id : CollectiveRequestId) (r r' : SRecord) : Prop :=
  rec_step r r' /\ (rec_wf nreq ngrant id r -> rec_wf nreq ngrant id r') /\ moves (life_of r) (life_of r').
Definition grant_ok (ngrant : Z) (gid : CollectiveGrantId) (gs gs' : GrantState) : Prop :=
  grant_step gs gs' /\ (grant_wf ngrant gid gs -> grant_wf ngrant gid gs').
#[export] Instance rec_ok_preorder n m id : PreOrder (rec_ok n m id).
Proof.
  split; [by split|]. intros r1 r2 r3 (S1 & W1 & M1) (S2 & W2 & M2). split_and!; [by etrans|auto|by etrans].
Qed.
#[export] Instance grant_ok_preorder m gid : PreOrder (grant_ok m gid).
Proof.
  split; [by split|]. intros r1 r2 r3 [S1 W1] [S2 W2]. split; [by etrans|auto].
Qed.
Definition counters (s : Impl) :=
  (im_next_request_id s, im_next_grant_id s, im_epoch s, im_congestion s, im_congestion_gen s).
Record quiet (s s' : Impl) : Prop := {
  q_counters : counters s' = counters s;
  q_records : evolves (rec_ok (id_value (im_next_request_id s)) (id_value (im_next_grant_id s)))
    (im_records s) (im_records s');
  q_grants : evolves (grant_ok (id_value (im_next_grant_id s))) (im_grants s) (im_grants s');
}.
#[export] Instance quiet_preorder : PreOrder quiet.
Proof.
  split; [intros s; split; [done|reflexivity|reflexivity]|]. intros s1 s2 s3 [C1 R1 G1] [C2 R2 G2].
  pose proof C1 as C1'. unfold counters in C1'. injection C1' as E1 E2 _ _ _.
  rewrite E1, E2 in R2. rewrite E2 in G2. split; [congruence|etrans; [exact R1|exact R2]|etrans; [exact G1|exact G2]].
Qed.
Lemma quiet_safe s s' : wf s -> quiet s s' -> safe s s'.
Proof.
  intros [Wr Wg Wc] [C Hr Hg]. unfold counters in C. injection C as E1 E2 E3 E4 E5. split; split.
  - intros id r' Hr'. rewrite E1, E2. destruct (evolves_back _ _ _ _ _ Hr Hr') as (r & Hrr & _ & Hok & _).
    by apply Hok, Wr.
  - intros gid gs' Hg'. rewrite E2. destruct (evolves_back _ _ _ _ _ Hg Hg') as (gs & Hgg & _ & Hok).
    by apply Hok, Wg.
  - by rewrite E4, E5.
  - by rewrite E3.
  - intros id r Hrr. destruct (evolves_lookup _ _ _ _ _ Hr Hrr) as (r' & ? & ? & _). eauto.
  - intros gid gs Hgg. destruct (evolves_lookup _ _ _ _ _ Hg Hgg) as (gs' & ? & ? & _). eauto.
Qed.

Lemma quiet_same s s' : counters s' = counters s -> im_records s' = im_records s ->
  im_grants s' = im_grants s -> quiet s s'.
Proof. intros C Er Eg. split; [done|rewrite Er; reflexivity|rewrite Eg; reflexivity]. Qed.
Lemma quiet_set_record id r r' s : im_records s !! id = Some r ->
  rec_ok (id_value (im_next_request_id s)) (id_value (im_next_grant_id s)) id r r' ->
  quiet s (set_record id r' s).
Proof. intros Hr Hok. split; [done| |reflexivity]. eapply evolves_insert; [apply _|done..]. Qed.
Lemma quiet_set_grant gid gs gs' s : im_grants s !! gid = Some gs ->
  grant_ok (id_value (im_next_grant_id s)) gid gs gs' -> quiet s (set_grant gid gs' s).
Proof. intros Hg Hok. split; [done|reflexivity|]. eapply evolves_insert; [apply _|done..]. Qed.
Lemma quiet_fold {A} (f : Impl -> A -> Impl) l s :
  (forall s x, quiet s (f s x)) -> quiet s (foldl f s l).
Proof. intros Hf. revert s. induction l as [|x l IH]; intros s; simpl; [reflexivity|]. etrans; [apply Hf|apply IH]. Qed.
Lemma quiet_terminate gid gs s : im_grants s !! gid = Some gs -> quiet s (terminate_grant gid gs s).
Proof.
  intros Hg. unfold terminate_grant. etrans; [apply (quiet_same s (deindex_active_grant (gs_grant gs) s)); done|].
  eapply quiet_set_grant; [exact Hg|]. split; [by intros Ht|by intros []].
Qed.

(** ** Moves of one record *)

(** A change of the lifecycle alone, along the table, between resting states. *)
Lemma rec_ok_move n m id r l :
  can_transition (rec_lifecycle r) l = true -> resting l = true ->
  (past_grant (rec_lifecycle r) = true -> past_grant l = true) ->
  (dormant (rec_lifecycle r) = true -> dormant l = true) ->
  (forall i g, move (i, phase_of (rec_lifecycle r) g) (i, phase_of l g)) ->
  rec_ok n m id r (r <| rec_lifecycle := l |>).
Proof.
  intros Hc Hl Hp Hd Hm. split_and!.
  - eapply rec_moved; [done|by apply run_one|done|eauto].
  - intros [Hk Hi Hr Hg]. split; try done.
    intros g (? & ? & ? & ?)%Hg. split_and!; auto.
  - apply rtc_once, Hm.
Qed.
Lemma rec_transition_move l r : can_transition (rec_lifecycle r) l = true ->
  rec_transition l r = (Ok tt, r <| rec_lifecycle := l |>).
Proof. intros Hc. unfold rec_transition, transition. by rewrite Hc. Qed.
Lemma try_transition_move l r : can_transition (rec_lifecycle r) l = true ->
  try_transition l r = r <| rec_lifecycle := l |>.
Proof. intros Hc. unfold try_transition, exec. by rewrite rec_transition_move. Qed.
Lemma force_transition_move l r : can_transition (rec_lifecycle r) l = true ->
  force_transition l r = r <| rec_lifecycle := l |>.
Proof. intros Hc. unfold force_transition. by rewrite rec_transition_move. Qed.
Lemma rec_ok_revalidate n m id r : rec_ok n m id r (revalidate_record r).
Proof.
  unfold revalidate_record. destruct (revalidates (rec_lifecycle r)) eqn:E; [|reflexivity].
  assert (can_transition (rec_lifecycle r) LifecycleState.REVALIDATION_REQUIRED = true) as Hc
    by by destruct (rec_lifecycle r).
  rewrite try_transition_move by done. apply rec_ok_move; try done.
  intros i g. apply mv_suspend. by destruct (rec_lifecycle r).
Qed.

(** A guard at the head of an operation. *)
Lemma exec_guard {E S A} b (e : E) (m : unit -> M E S A) s :
  exec (lift (throw_if b e) ≫= m) s = if b then s else exec (m tt) s.
Proof. unfold exec, lift, throw_if, mbind, M_bind. by destruct b. Qed.
Lemma exec_get {E S A} (m : S -> M E S A) s : exec (get_state ≫= m) s = exec (m s) s.
Proof. reflexivity. Qed.
Lemma exec_put {E S} (s s' : S) : exec (E := E) (put_state s') s = s'.
Proof. reflexivity. Qed.

Lemma quiet_bind {A B} (m : SM A) (k : A -> SM B) s :
  quiet s (exec m s) -> (forall a s1, quiet s1 (exec (k a) s1)) -> quiet s (exec (m ≫= k) s).
Proof.
  intros Hm Hk. unfold exec, mbind, M_bind in *. destruct (m s) as [[a|e] s1]; [|done].
  etrans; [exact Hm|apply Hk].
Qed.

(** ** Publishing, time and epoch *)

Lemma quiet_invalidate p s rid : quiet s (invalidate_request p s rid).
Proof.
  unfold invalidate_request. destruct (im_records s !! rid) as [r|] eqn:E; [|reflexivity].
  destruct (is_terminal_state _); [reflexivity|]. destruct (negb _); [reflexivity|].
  eapply quiet_set_record; [done|apply rec_ok_revalidate].
Qed.
Lemma quiet_publishParticipant p s : quiet s (exec (publishParticipant p) s).
Proof.
  unfold publishParticipant. rewrite exec_get. apply quiet_bind; [|intros _ s1; by apply quiet_same].
  destruct (im_participants s !! p_id p) as [old|]; [|reflexivity].
  rewrite exec_guard. destruct (_ <? _); [reflexivity|]. cbv zeta. destruct (_ || _); [|reflexivity].
  destruct (im_participant_requests s !! p_id p) as [rids|]; [|reflexivity].
  rewrite exec_put. apply quiet_fold. intros. apply quiet_invalidate.
Qed.
Lemma safe_frame s s' : wf s -> im_records s' = im_records s -> im_grants s' = im_grants s ->
  im_next_request_id s' = im_next_request_id s -> im_next_grant_id s' = im_next_grant_id s ->
  gen_value (im_epoch s) <= gen_value (im_epoch s') ->
  (forall c, im_congestion s' = Some c -> cong_gen c = im_congestion_gen s') -> safe s s'.
Proof.
  intros [Wr Wg Wc] Er Eg E1 E2 Ee Hc. split; split; rewrite ?Er, ?Eg, ?E1, ?E2; try done.
  - intros id r Hr. exists r. by split.
  - intros gid gs Hg. exists gs. by split.
Qed.
Lemma safe_refl s : wf s -> safe s s.
Proof. intros. split; [done|reflexivity]. Qed.

Lemma safe_publishPlan p s : wf s -> safe s (exec (publishPlan p) s).
Proof.
  intros Hwf. unfold publishPlan. rewrite exec_get, exec_guard.
  destruct (regresses _ _ _); [by apply safe_refl|]. apply quiet_safe; [done|by apply quiet_same].
Qed.
Lemma safe_publishDependency d s : wf s -> safe s (exec (publishDependency d) s).
Proof.
  intros Hwf. unfold publishDependency. rewrite exec_get, exec_guard.
  destruct (regresses _ _ _); [by apply safe_refl|]. apply quiet_safe; [done|by apply quiet_same].
Qed.
Lemma safe_publishCapacity c s : wf s -> safe s (exec (publishCapacity c) s).
Proof.
  intros Hwf. unfold publishCapacity. rewrite exec_get, exec_guard.
  destruct (regresses _ _ _); [by apply safe_refl|]. apply quiet_safe; [done|by apply quiet_same].
Qed.
Lemma safe_publishCongestion c s : wf s -> safe s (exec (publishCongestion c) s).
Proof.
  intros Hwf. unfold publishCongestion. rewrite exec_get, exec_guard.
  destruct (regresses _ _ _); [by apply safe_refl|].
  apply safe_frame; try done. by intros c' [= <-].
Qed.
Lemma safe_advanceCoordinatorEpoch e s : wf s -> safe s (exec (advanceCoordinatorEpoch e) s).
Proof.
  intros Hwf. unfold advanceCoordinatorEpoch. rewrite exec_get, exec_guard.
  destruct (Z.leb_spec (gen_value e) (gen_value (im_epoch s))); [by apply safe_refl|].
  apply safe_frame; try done; [simpl; lia|]. apply Hwf.
Qed.

(** ** Requests *)

Lemma exec_lift {E S A B} (r : result E A) (m : A -> M E S B) s :
  exec (lift r ≫= m) s = match r with Ok a => exec (m a) s | Throw _ => s end.
Proof. unfold exec, lift, mbind, M_bind. by destruct r. Qed.
Lemma exec_put_bind {E S B} s s' (m : unit -> M E S B) : exec (put_state s' ≫= m) s = exec (m tt) s'.
Proof. reflexivity. Qed.
Lemma rec_wf_mono n n' m m' id r : n <= n' -> m <= m' -> rec_wf n m id r -> rec_wf n' m' id r.
Proof.
  intros Hn Hm [Hk Hi Hl Hg]. split; [done|lia|done|].
  intros g (? & ? & ? & ?)%Hg. split_and!; [done..|lia|done].
Qed.
Lemma grant_wf_mono m m' gid gs : m <= m' -> grant_wf m gid gs -> grant_wf m' gid gs.
Proof. intros Hm [Hk Hi]. split; [done|lia]. Qed.

(** A state that differs in the counters upwards and in the records by one new
    record at most. *)
Lemma safe_new_record s s' id r : wf s ->
  im_records s !! id = None ->
  im_records s' = im_records s \/ im_records s' = <[id := r]> (im_records s) ->
  rec_wf (id_value (im_next_request_id s')) (id_value (im_next_grant_id s')) id r ->
  id_value (im_next_request_id s) <= id_value (im_next_request_id s') ->
  (im_grants s', im_next_grant_id s', im_epoch s', im_congestion s', im_congestion_gen s') =
  (im_grants s, im_next_grant_id s, im_epoch s, im_congestion s, im_congestion_gen s) ->
  safe s s'.
Proof.
  intros [Wr Wg Wc] Hnone Hr Hwf Hle [= Eg E2 E3 E4 E5].
  assert (Hold : forall i x, im_records s !! i = Some x -> im_records s' !! i = Some x).
  { intros i x Hx. destruct Hr as [->| ->]; [done|]. rewrite lookup_insert_ne; congruence. }
  split; split.
  - intros i x Hx. destruct Hr as [Hr|Hr]; rewrite Hr in Hx.
    + rewrite E2. eapply rec_wf_mono; [exact Hle|reflexivity|by apply Wr].
    + apply lookup_insert_Some in Hx as [[<- <-]|[_ Hx]]; [done|].
      rewrite E2. eapply rec_wf_mono; [exact Hle|reflexivity|by apply Wr].
  - by rewrite Eg, E2.
  - by rewrite E4, E5.
  - by rewrite E3.
  - intros i x Hx. exists x. split; [by apply Hold|reflexivity].
  - intros gid gs Hg. exists gs. rewrite Eg. by split.
Qed.
Lemma safe_submit req s : wf s -> id_value (im_next_request_id s) < U64_MAX ->
  safe s (exec (submit req) s).
Proof.
  intros Hwf Hlt. unfold submit. rewrite exec_get, exec_guard.
  destruct (_ >=? _); [by apply safe_refl|]. cbv zeta. rewrite exec_put_bind, exec_lift.
  assert (im_records s !! im_next_request_id s = None) as Hnone.
  { apply eq_None_not_Some. intros [r Hr%(wf_records _ Hwf)]. pose proof (rw_id _ _ _ _ Hr). lia. }
  pose proof (id_incr_value (im_next_request_id s) Hlt) as Hinc.
  set (req' := req <| rq_id := _ |> <| rq_gen := _ |>).
  set (r0 := SRecord_default <| rec_request := req' |>).
  assert (Hnew : forall r m, rec_request r = req' -> rec_lifecycle r = LifecycleState.DECLARED ->
    rec_current_grant r = None -> rec_wf (id_value (id_incr (im_next_request_id s))) m (im_next_request_id s) r).
  { intros r m Er El Eg. split; rewrite ?Er, ?El, ?Eg; try done. lia. }
  destruct (validate_request _ _).
  - rewrite exec_get. cbv zeta. unfold exec, mbind, M_bind, put_state, mret, M_ret. cbn [snd].
    eapply safe_new_record; [done|exact Hnone|right|..].
    + unfold set at 1. change (im_records (index_request _ _ _)) with (im_records s).
      rewrite Hnone. reflexivity.
    + by apply Hnew.
    + simpl. lia.
    + done.
  - eapply (safe_new_record _ _ _ r0); [done|exact Hnone|by left|by apply Hnew|simpl; lia|done].
Qed.

(** The grant a record holds, terminated: what [supersede], [cancel] and
    [fenceWorkerBoot] do to the grants. *)
Lemma quiet_terminate_opt (g : CollectiveGrantId) s :
  quiet s (match im_grants s !! g with Some gs => terminate_grant g gs s | None => s end).
Proof. destruct (im_grants s !! g) eqn:E; [by apply quiet_terminate|reflexivity]. Qed.
Lemma terminate_opt_records (g : CollectiveGrantId) s :
  im_records (match im_grants s !! g with Some gs => terminate_grant g gs s | None => s end) = im_records s.
Proof. by destruct (im_grants s !! g). Qed.

Lemma quiet_supersede req s : quiet s (exec (supersede req) s).
Proof.
  unfold supersede. rewrite exec_get. destruct (im_records s !! rq_id req) as [old|] eqn:Hold; [|reflexivity].
  rewrite exec_guard. destruct (Z.leb_spec (gen_value (rq_gen req)) (gen_value (rq_gen (rec_request old))));
    [reflexivity|].
  rewrite exec_lift. destruct (validate_request _ _); [|reflexivity]. cbv zeta. rewrite exec_put.
  set (nrec := SRecord_default <| rec_request := _ |> <| rec_enqueue_seq := _ |>
    <| rec_lifecycle := _ |> <| rec_fairness := _ |>).
  assert (Hn : rec_ok (id_value (im_next_request_id s)) (id_value (im_next_grant_id s)) (rq_id req) old nrec).
  { split_and!; [by apply rec_superseded|intros [Hk Hi _ _]; by split|by apply rtc_once, mv_supersede]. }
  set (s1 := match rec_lifecycle old with LifecycleState.COMPLETED | LifecycleState.CANCELLED => s
    | _ => set_record _ _ s end).
  assert (counters s1 = counters s /\ im_grants s1 = im_grants s /\
    <[rq_id req := nrec]> (im_records s1) = <[rq_id req := nrec]> (im_records s)) as (C1 & G1 & R1).
  { subst s1. destruct (rec_lifecycle old); split_and!; try done; apply insert_insert_eq. }
  set (s2 := match rec_current_grant old with None => s1 | Some g => _ end).
  assert (quiet s1 s2 /\ im_records s2 = im_records s1) as [[C2 _ G2] R2].
  { subst s2. destruct (rec_current_grant old) as [g|]; [|split; [reflexivity|done]].
    split; [|apply terminate_opt_records].
    etrans; [apply (quiet_terminate_opt (g_id g))|by apply quiet_same]. }
  clearbody s1 s2 nrec. split.
  - transitivity (counters s2); [done|congruence].
  - change (im_records (set_record _ _ _)) with (<[rq_id req := nrec]> (im_records s2)).
    rewrite R2, R1. eapply evolves_insert; [apply _|done..].
  - change (im_grants (set_record _ _ _)) with (im_grants s2). unfold counters in C1. injection C1 as _ E _ _ _.
    by rewrite <- G1, <- E.
Qed.

Lemma resting_cancellable l : resting l = true -> is_terminal_state l = false ->
  can_transition l LifecycleState.CANCELLED = true.
Proof. by destruct l. Qed.
Lemma quiet_cancel id s : wf s -> quiet s (exec (cancel_locked id) s).
Proof.
  intros Hwf. unfold cancel_locked. rewrite exec_get.
  destruct (im_records s !! id) as [r|] eqn:Hr; [|reflexivity].
  destruct (is_terminal_state (rec_lifecycle r)) eqn:Et; [reflexivity|].
  pose proof (wf_records _ Hwf id r Hr) as Hrw.
  rewrite force_transition_move by (apply resting_cancellable; [apply Hrw|done]).
  set (om := match rec_current_grant r with Some g => _ | None => _ end).
  assert (quiet s om.2 /\ im_records om.2 = im_records s) as [Hq Er].
  { subst om. destruct (rec_current_grant r) as [g|]; [|split; [reflexivity|done]].
    destruct (im_grants s !! g_id g) as [gs|] eqn:Eg; [|split; [reflexivity|done]].
    destruct (gs_terminal gs); [split; [reflexivity|done]|]. cbn [snd].
    split; [|by destruct (gs_active gs)].
    etrans; [by apply (quiet_terminate (g_id g) gs)|]. destruct (gs_active gs); [by apply quiet_same|reflexivity]. }
  destruct om as [out s1]. cbn [snd] in *. rewrite exec_put_bind.
  etrans; [exact Hq|]. apply (quiet_set_record id r); [by rewrite Er|].
  apply rec_ok_move; try done; [apply resting_cancellable; [apply Hrw|done]|].
  intros i g. apply mv_close. pose proof (rw_resting _ _ _ _ Hrw). by destruct (rec_lifecycle r).
Qed.

(** ** Execution *)
Lemma quiet_handoff_begin g s : quiet s (exec (handoff_begin g) s).
Proof.
  unfold handoff_begin. rewrite exec_get. destruct (negb _); [reflexivity|].
  destruct (im_records s !! g_request g) as [r|] eqn:Hr; [|reflexivity].
  apply quiet_bind.
  - unfold exec, with_record, attempt. rewrite (record_at_lookup _ _ _ Hr).
    unfold rec_transition, transition. destruct (can_transition (rec_lifecycle r) LifecycleState.DISPATCHING) eqn:Ec.
    + apply into_dispatching in Ec as El. apply (quiet_set_record _ r); [done|].
      apply rec_ok_move; try done; rewrite El; [done..|]. intros. apply mv_dispatch.
    + apply (quiet_set_record _ r); [done|reflexivity].
  - intros [] s1; cbn [negb]; [|reflexivity]. rewrite exec_get, exec_put_bind.
    change (quiet s1 match im_grants s1 !! g_id g with
      | Some gs => set_grant (g_id g) (gs <| gs_handed_off := true |> <| gs_grant := g |>) s1
      | None => s1 end).
    destruct (im_grants s1 !! g_id g) as [gs|] eqn:Eg; [|reflexivity].
    eapply quiet_set_grant; [done|]. split; [by intros Ht|by intros [Hk Hi]].
Qed.
Lemma quiet_handoff_finish g (b : bool) s : quiet s (exec (handoff_finish g b) s).
Proof.
  unfold handoff_finish. rewrite exec_get. destruct (im_records s !! g_request g) as [r|] eqn:Hr; [|reflexivity].
  cbv zeta. set (r1 := if bool_decide (_ = LifecycleState.DISPATCHING) && b then _ else r).
  assert (quiet s (set_record (g_request g) r1 s)) as Hq.
  { apply (quiet_set_record _ r); [done|]. subst r1.
    destruct (bool_decide _ && b) eqn:E; [|reflexivity].
    apply andb_true_iff in E as [El%bool_decide_eq_true _].
    rewrite try_transition_move by by rewrite El. apply rec_ok_move; rewrite ?El; try done. intros. apply mv_run. }
  etrans; [exact Hq|]. set (s1 := set_record _ _ _). clearbody s1 r1.
  destruct (im_grants s1 !! g_id g) as [gs|] eqn:Eg; [|reflexivity].
  assert (forall b', quiet s1 (set_grant (g_id g) (gs <| gs_active := b' |>) s1)) as Hg.
  { intros b'. eapply quiet_set_grant; [done|]. split; [by intros Ht|by intros [Hk Hi]]. }
  destruct (bool_decide _); [|apply Hg]. rewrite exec_put_bind. etrans; [apply (Hg true)|by apply quiet_same].
Qed.
Lemma may_complete_active s r gs g wb sb : may_complete s r gs g wb sb = true ->
  rec_lifecycle r = LifecycleState.ACTIVE \/ rec_lifecycle r = LifecycleState.DISPATCHING.
Proof.
  unfold may_complete, lifecycle_in. rewrite !andb_true_iff, bool_decide_eq_true. intros H. destruct_and!. set_solver.
Qed.
Lemma quiet_complete g wb sb s : quiet s (exec (complete_locked g wb sb) s).
Proof.
  unfold complete_locked. rewrite exec_get. destruct (im_records s !! g_request g) as [r|] eqn:Hr; [|reflexivity].
  destruct (im_grants s !! g_id g) as [gs|] eqn:Hg; [|reflexivity].
  destruct (may_complete s r gs g wb sb) eqn:Em; [|reflexivity]. cbn [negb].
  unfold transition. destruct (can_transition (rec_lifecycle r) LifecycleState.COMPLETED) eqn:Ec; [|reflexivity].
  rewrite exec_put_bind. cbv zeta. set (gs1 := gs <| gs_terminal := _ |> <| gs_active := _ |>
    <| gs_completed_by := _ |> <| gs_completed_by_source := _ |>).
  assert (gs_terminal gs = false) as Ht.
  { unfold may_complete in Em. by destruct (gs_terminal gs). }
  etrans; [apply (quiet_set_grant (g_id g) gs gs1); [done|]|].
  { split; [intros Ht'; congruence|by intros [Hk Hi]]. }
  etrans; [apply (quiet_same _ (drop_active (deindex_active_grant g (set_grant (g_id g) gs1 s)))); done|].
  eapply (quiet_set_record _ r); [exact Hr|]. split_and!.
  - eapply rec_moved; [done|by apply run_one|done|]. intros g0 Hg0. simpl. rewrite Hg0. by eexists.
  - intros [Hk Hi Hl Hcg]. split; try done. simpl. intros g1. destruct (rec_current_grant r) as [g0|]; [|done].
    intros [= <-]. by destruct (Hcg g0 eq_refl) as (? & ? & ? & _).
  - apply may_complete_active in Em. unfold life_of. simpl.
    assert (g_id <$> ((fun cg : CollectiveGrant => cg <| g_active := false |>) <$> rec_current_grant r) =
      g_id <$> rec_current_grant r) as -> by by destruct (rec_current_grant r).
    destruct Em as [Em|Em]; [|by rewrite Em in Ec]. rewrite Em. apply rtc_once, mv_complete.
Qed.

(** ** Fencing *)
Lemma quiet_fold_in {A} (f : Impl -> A -> Impl) l s :
  (forall s' x, x ∈ l -> quiet s s' -> quiet s' (f s' x)) -> quiet s (foldl f s l).
Proof.
  revert s. induction l as [|x l IH]; intros s Hf; simpl; [reflexivity|].
  assert (quiet s (f s x)) as Hx by (apply Hf; [left|reflexivity]).
  etrans; [exact Hx|]. apply IH. intros s' y Hy Hq. apply Hf; [by right|]. by etrans.
Qed.
Lemma quiet_has_record s s' id : quiet s s' -> is_Some (im_records s !! id) -> is_Some (im_records s' !! id).
Proof.
  intros [_ Hr _] [r Hid]. destruct (evolves_lookup _ _ _ _ _ Hr Hid) as (r' & ? & _). by eexists.
Qed.
Lemma quiet_fence_hit rid s : is_Some (im_records s !! rid) -> quiet s (fence_hit rid s).
Proof.
  intros [r Hr]. unfold fence_hit. rewrite (record_at_lookup _ _ _ Hr). cbv zeta.
  etrans; [eapply quiet_set_record; [exact Hr|apply rec_ok_revalidate]|].
  destruct (rec_current_grant r) as [g|]; [|reflexivity]. apply quiet_terminate_opt.
Qed.
Lemma quiet_fence_record worker boot s rid : is_Some (im_records s !! rid) ->
  quiet s (fence_record worker boot s rid).
Proof.
  intros Hr. unfold fence_record. cbv zeta. destruct (is_terminal_state _); [reflexivity|].
  apply quiet_fold_in. intros s' pid _ Hq. destruct (im_participants s' !! pid) as [p|]; [|reflexivity].
  destruct (runs_on worker boot p); [|reflexivity].
  by apply quiet_fence_hit, (quiet_has_record s).
Qed.
Lemma quiet_fence ord worker boot s : enumerates ord (im_records s) ->
  quiet s (exec (fenceWorkerBoot ord worker boot) s).
Proof.
  intros [_ Hord]. unfold fenceWorkerBoot. rewrite exec_get. cbv zeta. rewrite exec_put.
  set (s1 := s <| im_participants ::= _ |>).
  etrans; [apply (quiet_same s s1); done|]. apply quiet_fold_in.
  intros s' rid Hin Hq. apply quiet_fence_record, (quiet_has_record s1); [done|]. by apply Hord.
Qed.

(** ** Scheduling *)
Lemma wf_round_ready s ord : wf s -> enumerates ord (im_records s) ->
  id_value (im_next_grant_id s) + Z.of_nat (length ord) <= U64_MAX -> round_ready s ord.
Proof.
  intros [Wr Wg _] Ho Hroom. split; [done| | | |done].
  - intros id r Hr%Wr. apply (rw_key _ _ _ _ Hr).
  - intros id r Hr%Wr. pose proof (rw_resting _ _ _ _ Hr). by intros E; rewrite E in *.
  - intros gid [gs Hg%Wg]. apply (gw_id _ _ _ Hg).
Qed.
Lemma before_granted_past l : before_granted l = true -> past_grant l = false.
Proof. by destruct l. Qed.

Section schedule_safe.
Variables (s : Impl) (ord : list CollectiveRequestId) (dec : ScheduleDecision)
  (gs : list CollectiveGrant) (s' : Impl).
Hypothesis Hwf : wf s.
Hypothesis Hready : round_ready s ord.
Hypothesis Hout : round_outcome s ord dec gs s'.
Abbreviation nreq := (id_value (im_next_request_id s)).
Abbreviation ngrant' := (id_value (im_next_grant_id s')).

Lemma round_next_request : im_next_request_id s' = im_next_request_id s.
Proof using Hout. pose proof (ro_frame _ _ _ _ _ Hout) as E. unfold beside_round in E. congruence. Qed.

(** A record that got no grant. *)
Lemma round_record_other id r : im_records s !! id = Some r ->
  rec_step r (final_record s ord None id r) /\ rec_wf nreq ngrant' id (final_record s ord None id r).
Proof using Hwf Hout.
  intros Hr. pose proof (wf_records _ Hwf id r Hr) as [Hk Hi Hl Hg].
  pose proof (refresh_record_frame s r) as [Er _ _ _ El].
  pose proof (proj1 (ro_new _ _ _ _ _ Hout)) as Hle. split.
  - assert (exists path, run_of (rec_lifecycle r) path (rec_lifecycle (refreshed s r))) as [path Hp].
    { destruct El as [->|(_ & Hc & _)]; [by exists []; constructor|]. eexists. by apply run_one. }
    eapply (rec_moved _ _ path); rewrite ?final_record_request, ?final_record_lifecycle, ?final_record_grant; eauto.
    destruct El as [->|(Hb & _)]; [done|]. by destruct (rec_lifecycle r).
  - split; rewrite ?final_record_request, ?final_record_lifecycle, ?final_record_grant; [done|done| |].
    + destruct El as [->|(_ & _ & Hin)]; [done|]. set_unfold in Hin. by destruct Hin as [E|[E|[E|[]]]]; rewrite E.
    + intros g (? & ? & ? & Hp)%Hg. split_and!; [done|done|lia|].
      destruct El as [->|(Hb%before_granted_past & _)]; [done|congruence].
Qed.
(** A record that was granted. *)
Lemma round_record_granted id g : granted_in s s' ord id g -> exists r,
  im_records s !! id = Some r /\ im_records s' !! id = Some (final_record s ord (Some g) id r) /\
  rec_step r (final_record s ord (Some g) id r) /\ rec_wf nreq ngrant' id (final_record s ord (Some g) id r).
Proof using Hwf Hout.
  intros (r & Hr & Hok & Eg & Hr' & Hg' & _). exists r. split; [done|]. split; [done|].
  pose proof (wf_records _ Hwf id r Hr) as [Hk Hi Hl Hg].
  pose proof (refresh_record_frame s r) as [Er _ _ Ecg El].
  pose proof (co_lifecycle _ _ Hok) as Hlc. set_unfold in Hlc.
  assert (past_grant (rec_lifecycle r) = false) as Hpg.
  { destruct El as [E|(Hb%before_granted_past & _)]; [|done]. rewrite E in Hlc.
    by destruct Hlc as [Hl'|[Hl'|[Hl'|[]]]]; rewrite Hl'. }
  split.
  - assert (run_of (rec_lifecycle r) ((if decide (rec_lifecycle (refreshed s r) = rec_lifecycle r) then []
        else [rec_lifecycle (refreshed s r)])) (rec_lifecycle (refreshed s r))) as Hp1.
    { case_decide as E; [rewrite E; constructor|]. destruct El as [?|(_ & Hc & _)]; [done|]. by apply run_one. }
    assert (exists p2, run_of (rec_lifecycle (refreshed s r)) p2 LifecycleState.GRANTED) as [p2 Hp2].
    { destruct Hlc as [E|[E|[E|[]]]]; rewrite E.
      - exists [LifecycleState.ELIGIBLE; LifecycleState.QUEUED; LifecycleState.GRANTED].
        by repeat (eapply run_step; [reflexivity|]); constructor.
      - exists [LifecycleState.QUEUED; LifecycleState.GRANTED].
        by repeat (eapply run_step; [reflexivity|]); constructor.
      - exists [LifecycleState.GRANTED]. by apply run_one. }
    eapply rec_moved; rewrite ?final_record_request, ?final_record_lifecycle, ?final_record_grant;
      [done|by eapply run_app| |].
    { intros Hd. by destruct (rec_lifecycle r). }
    intros g0 Hg0. destruct (Hg g0 Hg0) as (_ & _ & _ & Hp). congruence.
  - split; rewrite ?final_record_request, ?final_record_lifecycle, ?final_record_grant; [done|done|done|].
    intros g0 [= <-]. split_and!; [rewrite Eg; exact Hk|by rewrite Eg| |done].
    apply (ro_fresh _ _ _ _ _ Hout). by eexists.
Qed.
Lemma round_records_safe id : 
  match im_records s !! id, im_records s' !! id with
  | Some r, Some r' => rec_step r r' /\ rec_wf nreq ngrant' id r'
  | None, None => True
  | _, _ => False
  end.
Proof using Hwf Hout.
  destruct (decide (id ∈ dec_selected dec)) as [Hin|Hnin].
  - apply list_elem_of_lookup in Hin as [i Hi].
    destruct (Forall2_lookup_l _ _ _ _ _ (ro_granted _ _ _ _ _ Hout) Hi) as (g & _ & Hgr).
    by destruct (round_record_granted id g Hgr) as (r & -> & -> & ? & ?).
  - rewrite (ro_records _ _ _ _ _ Hout id Hnin).
    destruct (im_records s !! id) as [r|] eqn:Hr; [|done]. simpl. by apply round_record_other.
Qed.

Lemma schedule_outcome_safe : safe s s'.
Proof using Hwf Hready Hout.
  pose proof (ro_frame _ _ _ _ _ Hout) as Ef. unfold beside_round, evidence in Ef.
  destruct (ro_new _ _ _ _ _ Hout) as [Hle Hnew]. split; split.
  - intros id r' Hr'. rewrite round_next_request. pose proof (round_records_safe id) as H.
    rewrite Hr' in H. by destruct (im_records s !! id); [destruct H|].
  - intros gid gs0 Hg. split.
    + destruct (Hnew gid gs0 Hg) as [Hold|(g & -> & Ek)]; [|done]. apply (wf_grants _ Hwf gid gs0 Hold).
    + apply (ro_fresh _ _ _ _ _ Hout). by eexists.
  - assert (im_congestion s' = im_congestion s /\ im_congestion_gen s' = im_congestion_gen s) as [-> ->]
      by (split; congruence). apply Hwf.
  - assert (im_epoch s' = im_epoch s) as -> by congruence. done.
  - intros id r Hr. pose proof (round_records_safe id) as H. rewrite Hr in H.
    destruct (im_records s' !! id) as [r'|]; [|done]. exists r'. by destruct H.
  - intros gid gs0 Hg. exists gs0. split; [|reflexivity].
    rewrite (ro_old_grants _ _ _ _ _ Hout); [done|]. apply (rr_fresh _ _ Hready). by eexists.
Qed.
End schedule_safe.

(** ** Every step is safe *)
Lemma step_safe s s' : wf s -> step s s' -> safe s s'.
Proof.
  intros Hwf Hs. destruct Hs.
  - apply quiet_safe; [done|apply quiet_publishParticipant].
  - by apply safe_publishPlan.
  - by apply safe_publishDependency.
  - apply quiet_safe; [done|by apply quiet_same].
  - by apply safe_publishCongestion.
  - by apply safe_publishCapacity.
  - apply quiet_safe; [done|by apply quiet_same].
  - by apply safe_submit.
  - apply quiet_safe; [done|apply quiet_supersede].
  - apply quiet_safe; [done|by apply quiet_cancel].
  - by apply safe_advanceCoordinatorEpoch.
  - apply quiet_safe; [done|by apply quiet_same].
  - pose proof (wf_round_ready s ord Hwf H H0) as Hready.
    destruct (schedule_round_outcome s ord gord Hready) as (dec & gs & s' & E & Hout).
    unfold exec. rewrite E. by eapply schedule_outcome_safe.
  - apply quiet_safe; [done|apply quiet_handoff_begin].
  - apply quiet_safe; [done|apply quiet_handoff_finish].
  - apply quiet_safe; [done|apply quiet_complete].
  - apply quiet_safe; [done|by apply quiet_fence].
Qed.
Lemma run_safe s s' : wf s -> run s s' -> safe s s'.
Proof.
  intros Hwf Hrun. induction Hrun as [s|s s1 s2 Hs Hrun IH]; [by apply safe_refl|].
  destruct (step_safe s s1 Hwf Hs) as [Hwf1 Hp1]. destruct (IH Hwf1) as [Hwf2 Hp2].
  split; [done|by etrans].
Qed.
Lemma reachable_wf s : reachable s -> wf s.
Proof.
  intros (epoch & policy & Hrun). eapply run_safe; [apply wf_new|exact Hrun].
Qed.
