(* ===== verification/RecordInvariant.v ===== *)
(** * RecordInvariant: invariants that say the same of every record

    An interface for invariants [P] of the state that hold each record to a
    predicate [Q], and the proof that the operations that touch many records
    (publishing a participant, fencing a worker, a scheduling round) preserve
    them, given how [Q] fares under what they do to one record.  Typing, System,
    Broadcast and EndToEnd instantiate it. *)
From S2P Require Import Prelude Enums Identity Error Float64 Domain Lifecycle Conflict State.
From S2P Require Import Eligibility Ranking Schedule Rounds Ports Operations Safety.

(** The scheduler's counters, the time among them. *)
Definition counter_values (s : Impl) : list Z :=
  [ id_value (im_next_request_id s); id_value (im_next_schedule_id s); id_value (im_next_grant_id s);
    id_value (im_next_group_id s); gen_value (im_next_schedule_gen s); gen_value (im_next_grant_gen s);
    gen_value (im_next_group_gen s); im_next_seq s; gen_value (im_policy_gen s); im_now s; im_active_grants s ].

(** The grants issued so far are still found under their ids. *)
Definition keeps_grants (s s' : Impl) : Prop :=
  forall gid g, grantById s gid = Some g -> grantById s' gid = Some g.
#[export] Instance keeps_grants_preorder : PreOrder keeps_grants.
Proof. split; [by intros s gid g|]. intros s1 s2 s3 H1 H2 gid g Hg. by apply H2, H1. Qed.
Lemma keeps_same s s' : im_grants s' = im_grants s -> keeps_grants s s'.
Proof. unfold keeps_grants, grantById. by intros ->. Qed.
Lemma keeps_set_grant gid gs s :
  (forall gs0, im_grants s !! gid = Some gs0 -> gs_grant gs = gs_grant gs0) -> keeps_grants s (set_grant gid gs s).
Proof.
  intros Hgs gid' g. unfold grantById, set_grant. cbn. destruct (decide (gid' = gid)) as [->|Hne].
  - rewrite lookup_insert_eq. destruct (im_grants s !! gid) as [gs0|] eqn:E; [|done]. cbn. by rewrite (Hgs gs0 eq_refl).
  - by rewrite lookup_insert_ne.
Qed.
Lemma keeps_terminate gid gs s : im_grants s !! gid = Some gs -> keeps_grants s (terminate_grant gid gs s).
Proof.
  intros Hg. unfold terminate_grant. etrans; [by apply (keeps_same s (deindex_active_grant (gs_grant gs) s))|].
  apply keeps_set_grant. intros gs0 E. change (im_grants s !! gid = Some gs0) in E. by assert (gs0 = gs) as -> by congruence.
Qed.

(** [P] is about the records, the counters and the grants issued, holds every
    record to [Q], and stands the counters going up. *)
Class RecordInvariant (P : Impl -> Prop) (Q : SRecord -> Prop) : Prop := {
  ri_at s id : P s -> Q (record_at s id);
  ri_set id r s : P s -> Q r -> P (set_record id r s);
  ri_frame s s' : P s -> counter_values s' = counter_values s -> im_records s' = im_records s ->
    keeps_grants s s' -> P s';
  ri_round s : P s -> P (round_start s);
  ri_grant s : P s -> P (s <| im_next_grant_id ::= id_incr |> <| im_next_grant_gen ::= gen_incr |>);
  ri_group s : P s -> P (s <| im_next_group_id ::= id_incr |> <| im_next_group_gen ::= gen_incr |>);
}.
(** [Q] survives what a round and an invalidation do to one record. *)
Class StableRecord (Q : SRecord -> Prop) : Prop := {
  sr_revalidate r : Q r -> Q (revalidate_record r);
  sr_refresh s r : Q r -> Q (exec (refresh_record s) r);
  sr_promote r : Q r -> Q (exec (attempt promote_to_granted) r);
  sr_grant r g : Q r -> Q (r <| rec_current_grant := g |>);
  sr_charge p b r : Q r -> Q (r <| rec_fairness ::= charge_fairness p b |>);
}.

Section invariant.
Context (P : Impl -> Prop) (Q : SRecord -> Prop) `{!RecordInvariant P Q}.

Lemma inv_lookup s id r : P s -> im_records s !! id = Some r -> Q r.
Proof using All. intros Hs Hr. rewrite <- (record_at_lookup s id r Hr). by apply ri_at. Qed.
Lemma inv_fold {A} (f : Impl -> A -> Impl) l s :
  (forall s x, P s -> P (f s x)) -> P s -> P (foldl f s l).
Proof. intros Hf. revert s. induction l; intros s Hs; simpl; auto. Qed.
Lemma inv_bind {A B} (m : SM A) (k : A -> SM B) s : P (exec m s) ->
  (forall a s1, P s1 -> P (exec (k a) s1)) -> P (exec (m ≫= k) s).
Proof.
  intros Hm Hk. unfold exec, mbind, M_bind in *. destruct (m s) as [[a|e] s1]; [|done]. by apply Hk.
Qed.
Lemma inv_with_record {A} id (m : M scheduler_error SRecord A) s :
  (forall r, Q r -> Q (exec m r)) -> P s -> P (exec (with_record id m) s).
Proof using All.
  intros Hm Hs. pose proof (Hm _ (ri_at s id Hs)) as H. unfold exec, with_record in *.
  destruct (m (record_at s id)) as [x r]. by apply ri_set.
Qed.
(** A guarded assignment to other fields. *)
Lemma inv_guarded b (e : scheduler_error) s s' : P s ->
  counter_values s' = counter_values s -> im_records s' = im_records s -> im_grants s' = im_grants s ->
  P (exec (lift (throw_if b e) ≫= fun _ => put_state s') s).
Proof using All. intros. rewrite exec_guard. destruct b; [done|]. apply (ri_frame s); auto using keeps_same. Qed.

Context `{!StableRecord Q}.

Lemma inv_publishParticipant p s : P s -> P (exec (publishParticipant p) s).
Proof using All.
  intros Hs. unfold publishParticipant. rewrite exec_get. apply inv_bind.
  - destruct (im_participants s !! p_id p); [|done]. rewrite exec_guard. destruct (_ <? _); [done|].
    cbv zeta. destruct (_ || _); [|done]. destruct (im_participant_requests s !! p_id p); [|done].
    rewrite exec_put. apply inv_fold; [|done]. intros s1 rid H1. unfold invalidate_request.
    destruct (im_records s1 !! rid) as [r|] eqn:Hr; [|done].
    destruct (is_terminal_state _); [done|]. destruct (negb _); [done|].
    apply ri_set; [done|]. by eapply sr_revalidate, inv_lookup.
  - intros _ s1 H1. rewrite exec_get, exec_put. apply (ri_frame s1); auto using keeps_same.
Qed.
Lemma inv_fence ord worker boot s : P s -> P (exec (fenceWorkerBoot ord worker boot) s).
Proof using All.
  intros Hs. unfold fenceWorkerBoot. rewrite exec_get. cbv zeta. rewrite exec_put.
  apply inv_fold; [|apply (ri_frame s); auto using keeps_same]. intros s1 rid H1. unfold fence_record. cbv zeta.
  destruct (is_terminal_state _); [done|]. apply inv_fold; [|done]. intros s2 pid H2.
  destruct (im_participants s2 !! pid); [|done]. destruct (runs_on _ _ _); [|done]. unfold fence_hit.
  pose proof (ri_set rid _ s2 H2 (sr_revalidate _ (ri_at s2 rid H2))) as H3.
  destruct (rec_current_grant _) as [g|]; [|done]. destruct (im_grants _ !! _) eqn:E; [|done].
  apply (ri_frame _ _ H3); [done..|by apply keeps_terminate].
Qed.

(** ** The round *)
Lemma inv_refresh_loop ord s : P s -> P (exec (refresh_loop ord) s).
Proof using All.
  revert s. induction ord as [|id ord IH]; intros s Hs; [done|]. cbn [refresh_loop]. rewrite exec_get.
  apply inv_bind; [apply inv_with_record; [intros r; apply sr_refresh|done]|].
  intros c s1 H1. apply inv_bind; [by apply IH|]. by intros cs s2 H2.
Qed.
Lemma inv_create_grant id snap dec s : P s -> P (exec (create_grant id snap dec) s).
Proof using All.
  intros Hs. unfold exec, create_grant. cbn [snd]. set (g := grant_of _ _ _ _).
  pose proof (ri_set id _ _ (ri_grant s Hs) (sr_grant _ (Some g) (ri_at s id Hs))) as H.
  destruct (im_grants _ !! g_id g) eqn:E; [exact H|].
  apply (ri_frame _ _ H); [done..|]. apply keeps_set_grant. intros gs0 E'. congruence.
Qed.
Lemma inv_create_grants dec sel s : P s -> P (exec (create_grants dec sel) s).
Proof using All.
  revert s. induction sel as [|id sel IH]; intros s Hs; [done|]. cbn [create_grants].
  apply inv_bind; [apply inv_with_record; [apply sr_promote|done]|]. intros [] s1 H1; [|by apply IH].
  apply inv_bind; [by apply inv_create_grant|]. intros g s2 H2.
  apply inv_bind; [by apply IH|]. by intros gs s3.
Qed.
Lemma inv_form_group sel s : P s -> P (exec (form_group sel) s).
Proof using All. intros Hs. unfold exec, form_group. destruct sel; [done|]. by apply ri_group. Qed.
Lemma inv_account_fairness sel l s : P s -> P (account_fairness sel l s).
Proof using All. apply inv_fold. intros s1 id H1. apply ri_set; [done|]. by apply sr_charge, ri_at. Qed.
Lemma inv_schedule ord gord s : P s -> P (exec (schedule_round ord gord) s).
Proof using All.
  intros Hs. unfold schedule_round. rewrite exec_get, exec_put_bind. cbv zeta.
  apply inv_bind; [by apply inv_refresh_loop, ri_round|]. intros cs s1 H1. rewrite exec_get, exec_put_bind.
  assert (P (refresh_counts s1)) as H2 by (apply (ri_frame s1); auto using keeps_same).
  rewrite exec_get. apply inv_bind; [by apply inv_create_grants|]. intros gs s2 Hs2.
  apply inv_bind; [by apply inv_form_group|]. intros grp s3 H3.
  rewrite exec_get, exec_put_bind, exec_get. by apply inv_account_fairness.
Qed.
End invariant.
