(* ===== verification/Guarantees.v ===== *)
(** * Guarantees: what the scheduler promises its callers

    Specifications of the calls that hand a grant over, complete it or withdraw
    it, and what holds along every run of the machine of Safety: a collective
    has one outcome, a request generation one grant, a grant one completion, and
    an old epoch no authority. *)
From S2P Require Import Prelude Enums Identity Error Float64 Domain Lifecycle Conflict State.
From S2P Require Import Eligibility Ranking Schedule Samples Rounds Ports Operations Safety.

(** ** A concrete run *)

(** Two participants and a plan are published and a collective submitted, ... *)
Definition sample_submitted : Impl :=
  exec (submit request1) (exec (publishPlan (sample_plan 5 50))
    (exec (publishParticipant (sample_participant 2))
      (exec (publishParticipant (sample_participant 1)) Scheduler_default))).
(** ... which a round grants, ... *)
Definition sample_granted : Impl := exec (schedule_round [mkId 1] []) sample_submitted.
Definition sample_grant : CollectiveGrant :=
  match im_grants sample_granted !! mkId 1 with
  | Some gs => gs_grant gs
  | None => CollectiveGrant_default
  end.
(** ... and the fabric runs. *)
Definition sample_dispatching : Impl := exec (handoff_begin sample_grant) sample_granted.
Definition sample_active : Impl := exec (handoff_finish sample_grant true) sample_dispatching.
Definition sample_completed : Impl := exec (complete_locked sample_grant (mkId 70) (mkId 100)) sample_active.

Lemma enumerates_check {K A} `{Countable K} (ord : list K) (m : gmap K A) :
  bool_decide (NoDup ord) && forallb (fun k => bool_decide (is_Some (m !! k))) ord &&
  forallb (fun k => bool_decide (k ∈ ord)) (map_to_list m).*1 = true -> enumerates ord m.
Proof.
  rewrite !andb_true_iff, !forallb_Forall, !Forall_forall. intros [[Hn H1] H2].
  split; [exact (bool_decide_eq_true_1 _ Hn)|]. intros k. split.
  - intros Hk%H1. exact (bool_decide_eq_true_1 _ Hk).
  - intros [a Ha]. refine (bool_decide_eq_true_1 _ (H2 k _)). apply list_elem_of_fmap. exists (k, a).
    split; [done|]. by apply elem_of_map_to_list.
Qed.
Lemma reachable_step s s' : reachable s -> step s s' -> reachable s'.
Proof. intros (e & p & Hr) Hs. exists e, p. eapply rtc_r; [exact Hr|exact Hs]. Qed.
Lemma reachable_run s s' : reachable s -> run s s' -> reachable s'.
Proof. intros (e & p & Hr) Hs. exists e, p. etrans; [exact Hr|exact Hs]. Qed.
Lemma sample_submitted_reachable : reachable sample_submitted.
Proof.
  eapply reachable_step; [|apply step_submit; by vm_compute].
  eapply reachable_step; [|apply step_publishPlan].
  eapply reachable_step; [|apply step_publishParticipant].
  eapply reachable_step; [|apply step_publishParticipant].
  exists (mkGen 1), PolicyConfig_default. apply rtc_refl.
Qed.
Lemma sample_granted_reachable : reachable sample_granted.
Proof.
  eapply reachable_step; [apply sample_submitted_reachable|]. apply step_schedule.
  - apply enumerates_check. by vm_compute.
  - by vm_compute.
Qed.
Lemma sample_active_run : run sample_granted sample_active.
Proof.
  eapply rtc_l; [apply step_handoff_begin|]. eapply rtc_l; [apply step_handoff_finish|]. apply rtc_refl.
Qed.
Lemma sample_active_reachable : reachable sample_active.
Proof. eapply reachable_run; [apply sample_granted_reachable|apply sample_active_run]. Qed.

(** ** Facts the guarantees share *)

(** The call returns [b] and leaves [s'] and the outside world [w']. *)
Abbreviation returns c x a x' := (c x = (Ok a, x')).

Lemma complete_terminal g wb sb s gs : im_grants s !! g_id g = Some gs -> gs_terminal gs = true ->
  returns (complete_locked g wb sb) s None s.
Proof.
  intros Hg Ht. unfold complete_locked. rewrite bind_get, Hg.
  destruct (im_records s !! g_request g); [|done]. unfold may_complete. by rewrite Ht.
Qed.
Lemma complete_epoch g wb sb s : ev_epoch (g_evidence g) <> im_epoch s ->
  returns (complete_locked g wb sb) s None s.
Proof.
  intros He. unfold complete_locked. rewrite bind_get.
  destruct (im_records s !! g_request g), (im_grants s !! g_id g); try done.
  unfold may_complete. assert ((gen_value (ev_epoch (g_evidence g)) =? gen_value (im_epoch s)) = false) as ->
    by (rewrite <- not_true_iff_false, gen_eqb_eq; done).
  by rewrite andb_false_r.
Qed.
Lemma handoff_begin_invalid g s : revalidate_grant s g <> GrantAdjudication.VALID ->
  returns (handoff_begin g) s false s.
Proof. intros Hv. unfold handoff_begin. rewrite bind_get. by rewrite bool_decide_eq_false_2. Qed.
Lemma run_progress s s' : reachable s -> run s s' -> progress s s'.
Proof. intros Hr%reachable_wf Hs. by apply run_safe. Qed.
(** A terminal record is only superseded or retired. *)
Lemma rec_step_terminal r r' : rec_step r r' -> is_terminal_state (rec_lifecycle r) = true ->
  gen_value (rq_gen (rec_request r)) < gen_value (rq_gen (rec_request r')) \/
  rec_request r' = rec_request r /\ rec_lifecycle r' ∈ [rec_lifecycle r; LifecycleState.RETIRED].
Proof.
  intros [H|path E Hp _ _] Ht; [by left|right]. split; [done|].
  destruct (run_terminal _ _ _ Ht Hp) as [->| ->]; inversion Hp as [|? ? ? ? ? Hp']; subst; [by left|].
  inversion Hp'. right. left.
Qed.

(** ** Completion *)

(** What [complete(grant, completing_worker, completing_source)] requires. *)
Record completable (s : Impl) (g : CollectiveGrant) (wb : WorkerBootId) (sb : SourceBootId)
    (r : SRecord) (gs : GrantState) : Prop := {
  cp_record : im_records s !! g_request g = Some r;
  cp_grant : im_grants s !! g_id g = Some gs;
  cp_open : gs_terminal gs = false;
  cp_epoch : ev_epoch (g_evidence g) = im_epoch s;
  cp_lifecycle : rec_lifecycle r = LifecycleState.ACTIVE;
  cp_current : exists cg, rec_current_grant r = Some cg /\ g_id cg = g_id g /\ g_gen cg = g_gen g;
  cp_request_gen : rq_gen (rec_request r) = g_request_gen g;
  cp_collective_gen : rq_collective_gen (rec_request r) = g_collective_gen g;
  cp_participants : Forall (participant_bound s) (bindings_of (g_participants g) (g_participant_gens g));
  cp_authority : Exists (fun b => exists p, im_participants s !! b.1 = Some p /\
      p_worker_boot p = wb /\ p_source_boot p = sb) (bindings_of (g_participants g) (g_participant_gens g));
}.

Lemma completion_authority_iff s wb sb bs b : completion_authority s wb sb bs b = true <->
  Forall (participant_bound s) bs /\
  (b = true \/ Exists (fun b => exists p, im_participants s !! b.1 = Some p /\
      p_worker_boot p = wb /\ p_source_boot p = sb) bs).
Proof.
  revert b. induction bs as [|[pid gen] bs IH]; intros b; simpl;
    [rewrite Exists_nil, Forall_nil; intuition congruence|].
  rewrite Forall_cons, Exists_cons, <- participant_check_iff. unfold participant_check. simpl.
  destruct (im_participants s !! pid) as [p|]; [|by split; [|intros [[? _] _]]].
  destruct (gen_is gen (p_gen p)); [|by split; [|intros [[? _] _]]].
  destruct (participant_live p); [|by split; [|intros [[? _] _]]]. cbn [negb andb]. rewrite IH.
  destruct ((id_value (p_worker_boot p) =? id_value wb) && _) eqn:E.
  - apply andb_true_iff in E as [<-%Z.eqb_eq%id_eq <-%Z.eqb_eq%id_eq].
    split; [intros [? _]|intros [[_ ?] _]]; eauto 10.
  - split; [naive_solver|]. intros [[_ Hf] [Hb|[(q & [= <-] & E1 & E2)|He]]]; [by auto| |by auto].
    rewrite E1, E2, !Z.eqb_refl in E. done.
Qed.
Lemma may_complete_iff s r gs g wb sb :
  im_records s !! g_request g = Some r -> im_grants s !! g_id g = Some gs ->
  may_complete s r gs g wb sb && can_transition (rec_lifecycle r) LifecycleState.COMPLETED = true <->
  completable s g wb sb r gs.
Proof.
  intros Hr Hg. unfold may_complete. rewrite !andb_true_iff, !gen_eqb_eq, negb_true_iff, completion_authority_iff.
  assert (lifecycle_in [LifecycleState.ACTIVE; LifecycleState.DISPATCHING] r = true /\
    can_transition (rec_lifecycle r) LifecycleState.COMPLETED = true <->
    rec_lifecycle r = LifecycleState.ACTIVE) as Hl.
  { unfold lifecycle_in. split; [intros [H1 H2]|intros ->; done].
    destruct (rec_lifecycle r); try discriminate H1; try discriminate H2; reflexivity. }
  assert ((match rec_current_grant r with
    | Some cg => (id_value (g_id cg) =? id_value (g_id g)) && (gen_value (g_gen cg) =? gen_value (g_gen g))
    | None => false end = true) <->
    exists cg, rec_current_grant r = Some cg /\ g_id cg = g_id g /\ g_gen cg = g_gen g) as Hc.
  { destruct (rec_current_grant r) as [cg|]; [|split; [done|by intros (? & ? & _)]].
    rewrite andb_true_iff, gen_eqb_eq, Z.eqb_eq. split.
    - intros [?%id_eq ?]. by exists cg.
    - intros (cg' & [= <-] & -> & ?). done. }
  rewrite Hc. split.
  - intros [[[[[[[H1 H2] H3] H4] H5] H6] [H7 [H8|H8]]] H9]; [done|].
    apply Build_completable; try done. by apply Hl.
  - intros [_ _ H1 H2 H3%Hl H4 H5 H6 H7 H8]. intuition.
Qed.
(** The grant state and the record that a completion leaves. *)
Definition completed_grant (wb : WorkerBootId) (sb : SourceBootId) (gs : GrantState) : GrantState :=
  gs <| gs_terminal := true |> <| gs_active := false |>
     <| gs_completed_by := wb |> <| gs_completed_by_source := sb |>.
Definition completed_record (r : SRecord) : SRecord :=
  r <| rec_lifecycle := LifecycleState.COMPLETED |>
    <| rec_current_grant ::= fmap (fun cg => cg <| g_active := false |>) |>.
Definition completion (g : CollectiveGrant) (wb : WorkerBootId) (sb : SourceBootId)
    (r : SRecord) (gs : GrantState) (s : Impl) : Impl :=
  set_record (g_request g) (completed_record r)
    (drop_active (deindex_active_grant g (set_grant (g_id g) (completed_grant wb sb gs) s))).
Lemma complete_locked_done s g wb sb r gs : completable s g wb sb r gs ->
  returns (complete_locked g wb sb) s (Some (rq_workload (rec_request r))) (completion g wb sb r gs s).
Proof.
  intros Hc. pose proof Hc as [Hr Hg _ _ Hl _ _ _ _ _]. unfold complete_locked. rewrite bind_get, Hr, Hg.
  apply (may_complete_iff s r gs g wb sb Hr Hg) in Hc as [Hm _]%andb_true_iff. rewrite Hm, Hl. reflexivity.
Qed.
Lemma complete_locked_refused s g wb sb : (forall r gs, ~ completable s g wb sb r gs) ->
  returns (complete_locked g wb sb) s None s.
Proof.
  intros Hno. unfold complete_locked. rewrite bind_get.
  destruct (im_records s !! g_request g) as [r|] eqn:Hr; [|done].
  destruct (im_grants s !! g_id g) as [gs|] eqn:Hg; [|done].
  pose proof (Hno r gs) as Hn. rewrite <- (may_complete_iff s r gs g wb sb Hr Hg) in Hn.
  destruct (may_complete s r gs g wb sb); [|done]. cbn [negb andb] in *.
  unfold transition. by destruct (can_transition _ _).
Qed.

(** C27: completion is granted exactly to the authorized completer.  When the
    record is ACTIVE under this very grant, the epoch, every participant and the
    request and collective generations are current and a bound participant runs on
    the completing boots, the collective becomes COMPLETED, its grant terminal and
    attributed to those boots, the grant leaves the index of active grants and the
    workload is released; in every other case the call returns false and changes
    nothing.  Plan, dependencies, reservation and congestion are not revalidated
    ([completion_unrevalidated]). *)
Theorem complete_spec {W} `{!Ports W} g wb sb s w :
  (forall r gs, completable s g wb sb r gs -> exists s',
     returns (complete g wb sb) (s, w) true (s', release (rq_workload (rec_request r)) w) /\
     im_records s' = <[g_request g := completed_record r]> (im_records s) /\
     im_grants s' = <[g_id g := completed_grant wb sb gs]> (im_grants s) /\
     im_active_grants s' = (if im_active_grants s >? 0 then im_active_grants s - 1 else im_active_grants s) /\
     (forall pid gid, active_on s' pid gid <->
        active_on s pid gid /\ ~ (gid = g_id g /\ pid ∈ g_participants g))) /\
  ((forall r gs, ~ completable s g wb sb r gs) -> returns (complete g wb sb) (s, w) false (s, w)).
Proof.
  unfold complete. split.
  - intros r gs Hc. exists (completion g wb sb r gs s).
    pose proof (complete_locked_done s g wb sb r gs Hc) as E.
    erewrite bind_ok; [|unfold locked; rewrite E; reflexivity].
    split_and!; try reflexivity. intros pid gid. apply (deindex_active_on g (set_grant (g_id g) (completed_grant wb sb gs) s)).
  - intros Hno. pose proof (complete_locked_refused s g wb sb Hno) as E.
    erewrite bind_ok; [|unfold locked; rewrite E; reflexivity]. reflexivity.
Qed.
Lemma sample_completable : exists r gs,
  completable sample_active sample_grant (mkId 70) (mkId 100) r gs.
Proof.
  destruct (im_records sample_active !! g_request sample_grant) as [r|] eqn:Hr; [|by vm_compute in Hr].
  destruct (im_grants sample_active !! g_id sample_grant) as [gs|] eqn:Hg; [|by vm_compute in Hg].
  exists r, gs. apply (may_complete_iff _ _ _ _ _ _ Hr Hg).
  vm_compute in Hr. vm_compute in Hg. injection Hr as <-. injection Hg as <-. by vm_compute.
Qed.
Example complete_spec_witness : exists s' w',
  returns (complete sample_grant (mkId 70) (mkId 100)) (sample_active, fabric_default) true (s', w').
Proof.
  destruct (complete_spec sample_grant (mkId 70) (mkId 100) sample_active fabric_default) as [H _].
  destruct sample_completable as (r & gs & Hc). destruct (H r gs Hc) as (s' & E & _).
  exact (ex_intro _ s' (ex_intro _ _ E)).
Defined.

(** The plan of the running collective is replaced: its grant no longer revalidates,
    and is completed all the same. *)
Definition sample_replanned : Impl := exec (publishPlan (sample_plan 5 50 <| pl_gen := mkGen 2 |>)) sample_active.
Example completion_unrevalidated :
  revalidate_grant sample_replanned sample_grant = GrantAdjudication.STALE_GRANT /\
  eval (complete sample_grant (mkId 70) (mkId 100)) (sample_replanned, fabric_default) = Ok true.
Proof. split; by vm_compute. Qed.

(** C6: a grant is completed at most once.  After a successful completion, no run
    of the scheduler makes another completion of the same grant succeed, whoever
    asks; the attribution to the first completer stays. *)
Theorem completion_once s g wb sb wl s1 s2 :
  reachable s -> returns (complete_locked g wb sb) s (Some wl) s1 -> run s1 s2 ->
  (forall g2 wb2 sb2, g_id g2 = g_id g -> returns (complete_locked g2 wb2 sb2) s2 None s2) /\
  exists gs, im_grants s2 !! g_id g = Some gs /\ gs_completed_by gs = wb /\ gs_completed_by_source gs = sb.
Proof.
  intros Hr E Hrun. assert (step s s1) as Hs.
  { pose proof (step_complete s g wb sb) as H. unfold exec in H. by rewrite E in H. }
  pose proof (run_progress s1 s2 (reachable_step _ _ Hr Hs) Hrun) as Hp.
  assert (exists r gs, completable s g wb sb r gs) as (r & gs & Hc).
  { unfold complete_locked in E. rewrite bind_get in E.
    destruct (im_records s !! g_request g) as [r|] eqn:Er; [|done].
    destruct (im_grants s !! g_id g) as [gs|] eqn:Eg; [|done]. exists r, gs.
    apply (may_complete_iff _ _ _ _ _ _ Er Eg). destruct (may_complete _ _ _ _ _ _); [|done].
    cbn [negb] in E. unfold transition in E. by destruct (can_transition _ _). }
  pose proof (complete_locked_done s g wb sb r gs Hc) as E'. rewrite E in E'. injection E' as _ ->.
  destruct (pg_grants _ _ Hp (g_id g) (completed_grant wb sb gs)) as (gs2 & Hg2 & Hgs).
  { apply lookup_insert_eq. }
  destruct (Hgs eq_refl) as (Ht & E1 & E2). split.
  - intros g2 wb2 sb2 Eid. eapply complete_terminal; [rewrite Eid; exact Hg2|exact Ht].
  - by exists gs2.
Qed.
Example completion_once_witness :
  returns (complete_locked sample_grant (mkId 71) (mkId 101)) sample_completed None sample_completed.
Proof.
  refine (proj1 (completion_once sample_active sample_grant (mkId 70) (mkId 100) (mkId 500)
    sample_completed sample_completed sample_active_reachable _ (rtc_refl _ _)) sample_grant _ _ eq_refl).
  destruct sample_completable as (r & gs & Hc).
  pose proof (complete_locked_done _ _ _ _ _ _ Hc) as E.
  unfold sample_completed, exec. rewrite E. cbn [snd].
  pose proof (cp_record _ _ _ _ _ _ Hc) as Hr. vm_compute in Hr. injection Hr as <-. reflexivity.
Defined.

(** ** Outcomes *)

(** C22: a collective has one outcome.  Once its record is COMPLETED or CANCELLED
    (or in another terminal state), every later state either still shows that
    outcome for the same request, or RETIRED, or a higher request generation has
    superseded it. *)
Theorem outcome_final s s' id r : reachable s -> run s s' ->
  im_records s !! id = Some r -> is_terminal_state (rec_lifecycle r) = true ->
  exists r', im_records s' !! id = Some r' /\
    (gen_value (rq_gen (rec_request r)) < gen_value (rq_gen (rec_request r')) \/
     rec_request r' = rec_request r /\ rec_lifecycle r' ∈ [rec_lifecycle r; LifecycleState.RETIRED]).
Proof.
  intros Hr Hrun Hid Ht. destruct (pg_records _ _ (run_progress _ _ Hr Hrun) id r Hid) as (r' & Hr' & Hs).
  exists r'. split; [done|]. by apply rec_step_terminal.
Qed.
Example outcome_final_witness :
  let s := exec (cancel_locked (mkId 1)) sample_completed in
  exists r', im_records s !! mkId 1 = Some r'.
Proof.
  assert (reachable sample_completed) as Hr.
  { exact (reachable_step _ _ sample_active_reachable (step_complete _ _ _ _)). }
  assert (run sample_completed (exec (cancel_locked (mkId 1)) sample_completed)) as Hrun.
  { eapply rtc_l; [apply step_cancel|apply rtc_refl]. }
  destruct (im_records sample_completed !! mkId 1) as [r|] eqn:Er; [|by vm_compute in Er].
  destruct (outcome_final _ _ (mkId 1) r Hr Hrun Er) as (r' & H & _); [|exact (ex_intro _ r' H)].
  vm_compute in Er. injection Er as <-. reflexivity.
Defined.

(** C15: one grant per request generation.  A record that holds a grant holds the
    same grant in every later state, whatever happens to it, unless a higher
    generation of the request has superseded it; so no round grants a request
    generation twice. *)
Theorem one_grant_per_generation s s' id r g : reachable s -> run s s' ->
  im_records s !! id = Some r -> rec_current_grant r = Some g ->
  exists r', im_records s' !! id = Some r' /\
    (gen_value (rq_gen (rec_request r)) < gen_value (rq_gen (rec_request r')) \/
     rec_request r' = rec_request r /\
     exists g', rec_current_grant r' = Some g' /\ g_id g' = g_id g /\
       g_request g' = id /\ g_request_gen g' = rq_gen (rec_request r')).
Proof.
  intros Hr Hrun Hid Hg. destruct (pg_records _ _ (run_progress _ _ Hr Hrun) id r Hid) as (r' & Hr' & Hs).
  exists r'. split; [done|]. destruct Hs as [H|path E _ _ Hk]; [by left|right]. split; [done|].
  destruct (Hk g Hg) as (g' & Hg' & Eg). exists g'.
  pose proof (wf_records _ (reachable_wf _ (reachable_run _ _ Hr Hrun)) id r' Hr') as Hw.
  by destruct (rw_grant _ _ _ _ Hw g' Hg') as (? & ? & _).
Qed.
Example one_grant_per_generation_witness :
  exists r', im_records sample_active !! mkId 1 = Some r' /\ is_Some (rec_current_grant r').
Proof.
  destruct (im_records sample_granted !! mkId 1) as [r|] eqn:Er; [|by vm_compute in Er].
  destruct (rec_current_grant r) as [g|] eqn:Eg.
  - destruct (one_grant_per_generation _ _ (mkId 1) r g sample_granted_reachable sample_active_run Er Eg)
      as (r' & Hr' & [H|(_ & g' & Hg' & _)]).
    + vm_compute in Er. vm_compute in Hr'. injection Er as <-. injection Hr' as <-. by vm_compute in H.
    + exact (ex_intro _ r' (conj Hr' (ex_intro _ g' Hg'))).
  - vm_compute in Er. injection Er as <-. discriminate Eg.
Defined.

(** C17: an old epoch has no authority.  Once the coordinator epoch has moved past
    the epoch a grant was issued in, no later state hands that grant over or
    completes it, and the fabric and the broker are not called. *)
Theorem stale_epoch_rejected {W} `{!Ports W} s s' g w : reachable s -> run s s' ->
  gen_value (ev_epoch (g_evidence g)) < gen_value (im_epoch s) ->
  returns (handoff g) (s', w) false (s', w) /\
  (forall wb sb, returns (complete g wb sb) (s', w) false (s', w)) /\
  revalidate_grant s' g <> GrantAdjudication.VALID.
Proof.
  intros Hr Hrun Hlt. pose proof (pg_epoch _ _ (run_progress _ _ Hr Hrun)) as Hle.
  assert (ev_epoch (g_evidence g) <> im_epoch s') as Hne by (intros E; rewrite E in Hlt; lia).
  assert (revalidate_grant s' g <> GrantAdjudication.VALID) as Hv.
  { rewrite revalidate_grant_iff. intros (r & _ & Hc). by apply Hne, Hc. }
  split_and!; [|intros wb sb|done].
  - pose proof (handoff_begin_invalid g s' Hv) as E. unfold handoff.
    erewrite bind_ok; [|unfold locked; rewrite E; reflexivity]. reflexivity.
  - pose proof (complete_epoch g wb sb s' Hne) as E. unfold complete.
    erewrite bind_ok; [|unfold locked; rewrite E; reflexivity]. reflexivity.
Qed.
Example stale_epoch_rejected_witness :
  let s := exec (advanceCoordinatorEpoch (mkGen 2)) sample_granted in
  returns (handoff sample_grant) (s, fabric_default) false (s, fabric_default).
Proof.
  refine (proj1 (stale_epoch_rejected _ _ sample_grant fabric_default _ (rtc_refl _ _) _)).
  - exact (reachable_step _ _ sample_granted_reachable (step_advanceCoordinatorEpoch _ _)).
  - by vm_compute.
Defined.

(** ** Hand-off *)
Definition handoff_guard (s : Impl) (g : CollectiveGrant) (r : SRecord) : Prop :=
  revalidate_grant s g = GrantAdjudication.VALID /\ im_records s !! g_request g = Some r /\
  rec_lifecycle r = LifecycleState.GRANTED.
(** The grant state after the fabric answered. *)
Definition handed_off (g : CollectiveGrant) (active : bool) (gs : GrantState) : GrantState :=
  gs <| gs_handed_off := true |> <| gs_grant := g |> <| gs_active := active |>.

Lemma handoff_begin_ok s g r : handoff_guard s g r ->
  returns (handoff_begin g) s true
    (let s1 := set_record (g_request g) (r <| rec_lifecycle := LifecycleState.DISPATCHING |>) s in
     match im_grants s !! g_id g with
     | Some gs => set_grant (g_id g) (gs <| gs_handed_off := true |> <| gs_grant := g |>) s1
     | None => s1
     end).
Proof.
  intros (Hv & Hr & Hl). unfold handoff_begin. rewrite bind_get, bool_decide_eq_true_2 by done. cbn [negb].
  rewrite Hr.
  assert (returns (with_record (g_request g) (attempt (rec_transition LifecycleState.DISPATCHING))) s true
    (set_record (g_request g) (r <| rec_lifecycle := LifecycleState.DISPATCHING |>) s)) as E.
  { unfold with_record, attempt. rewrite (record_at_lookup _ _ _ Hr).
    rewrite rec_transition_move by (rewrite Hl; done). reflexivity. }
  rewrite (bind_ok _ _ _ _ _ E). cbn [negb]. rewrite bind_get, bind_put. reflexivity.
Qed.
Lemma set_record_id id r s : im_records s !! id = Some r -> set_record id r s = s.
Proof.
  intros Hr. unfold set_record, set. rewrite insert_id by done. by destruct s.
Qed.
Lemma handoff_begin_refused s g : (forall r, ~ handoff_guard s g r) ->
  returns (handoff_begin g) s false s.
Proof.
  intros Hno. destruct (decide (revalidate_grant s g = GrantAdjudication.VALID)) as [Hv|Hv];
    [|by apply handoff_begin_invalid].
  unfold handoff_begin. rewrite bind_get, bool_decide_eq_true_2 by done. cbn [negb].
  destruct (im_records s !! g_request g) as [r|] eqn:Hr; [|done].
  assert (can_transition (rec_lifecycle r) LifecycleState.DISPATCHING = false) as Hc.
  { apply not_true_iff_false. rewrite into_dispatching. intros Hl. by apply (Hno r). }
  assert (returns (with_record (g_request g) (attempt (rec_transition LifecycleState.DISPATCHING))) s false s) as E.
  { unfold with_record, attempt. rewrite (record_at_lookup _ _ _ Hr).
    unfold rec_transition, transition. rewrite Hc. by rewrite set_record_id. }
  rewrite (bind_ok _ _ _ _ _ E). reflexivity.
Qed.
(** The second half, on the record as it is by then. *)
Lemma handoff_finish_dispatching s g r gs (b : bool) : im_records s !! g_request g = Some r ->
  rec_lifecycle r = LifecycleState.DISPATCHING -> im_grants s !! g_id g = Some gs ->
  returns (handoff_finish g b) s (negb b)
    (let s1 := set_grant (g_id g) (gs <| gs_active := b |>)
       (set_record (g_request g)
         (if b then r <| rec_lifecycle := LifecycleState.ACTIVE |> else r) s) in
     if b then index_active_grant (gs_grant gs) (s1 <| im_active_grants ::= fun n => add64 n 1 |>) else s1).
Proof.
  intros Hr Hl Hg. unfold handoff_finish. rewrite bind_get, Hr. cbv zeta.
  rewrite (bool_decide_eq_true_2 (rec_lifecycle r = _)) by done. cbn [andb].
  change (im_grants (set_record _ _ s)) with (im_grants s). rewrite Hg. destruct b.
  - rewrite try_transition_move by by rewrite Hl. reflexivity.
  - rewrite Hl. reflexivity.
Qed.
Lemma handoff_finish_other s g r b : im_records s !! g_request g = Some r ->
  rec_lifecycle r ∉ [LifecycleState.DISPATCHING; LifecycleState.ACTIVE] ->
  exists s', returns (handoff_finish g b) s true s' /\ im_records s' = im_records s /\
    im_active_grants s' = im_active_grants s /\ im_active_by_participant s' = im_active_by_participant s /\
    forall gs, im_grants s !! g_id g = Some gs -> gs_active <$> (im_grants s' !! g_id g) = Some false.
Proof.
  intros Hr Hl. set_unfold in Hl. unfold handoff_finish. rewrite bind_get, Hr. cbv zeta.
  rewrite (bool_decide_eq_false_2 (rec_lifecycle r = LifecycleState.DISPATCHING)) by tauto. cbn [andb].
  rewrite set_record_id by done.
  rewrite (bool_decide_eq_false_2 (rec_lifecycle r = LifecycleState.ACTIVE)) by tauto.
  destruct (im_grants s !! g_id g) as [gs|] eqn:Hg; eexists; (split; [rewrite bind_put; reflexivity|]).
  - split_and!; [done..|]. intros ? _. cbn [im_grants set_grant set]. by rewrite lookup_insert_eq.
  - done.
Qed.

(** The state after both halves of a hand-off that nothing interrupted. *)
Definition handed_over (g : CollectiveGrant) (r : SRecord) (gs : GrantState) (ok : bool) (s : Impl) : Impl :=
  let r1 := r <| rec_lifecycle := LifecycleState.DISPATCHING |> in
  let gs1 := gs <| gs_handed_off := true |> <| gs_grant := g |> in
  let s1 := set_grant (g_id g) gs1 (set_record (g_request g) r1 s) in
  let s2 := set_grant (g_id g) (gs1 <| gs_active := ok |>)
    (set_record (g_request g) (if ok then r1 <| rec_lifecycle := LifecycleState.ACTIVE |> else r1) s1) in
  if ok then index_active_grant g (s2 <| im_active_grants ::= fun n => add64 n 1 |>) else s2.
Lemma handed_over_fields g r gs ok s :
  im_records (handed_over g r gs ok s) = <[g_request g := r <| rec_lifecycle :=
    if ok then LifecycleState.ACTIVE else LifecycleState.DISPATCHING |>]> (im_records s) /\
  im_grants (handed_over g r gs ok s) = <[g_id g := handed_off g ok gs]> (im_grants s) /\
  im_active_grants (handed_over g r gs ok s) =
    (if ok then add64 (im_active_grants s) 1 else im_active_grants s) /\
  (forall pid gid, active_on (handed_over g r gs ok s) pid gid <->
     active_on s pid gid \/ ok = true /\ gid = g_id g /\ pid ∈ g_participants g).
Proof.
  destruct ok; split_and!.
  - etrans; [apply (insert_insert_eq (im_records s))|]. reflexivity.
  - etrans; [apply (insert_insert_eq (im_grants s))|]. reflexivity.
  - reflexivity.
  - intros pid gid. etrans; [apply index_active_on|]. intuition.
  - etrans; [apply (insert_insert_eq (im_records s))|]. reflexivity.
  - etrans; [apply (insert_insert_eq (im_grants s))|]. reflexivity.
  - reflexivity.
  - intros pid gid. split; [by left|]. by intros [H|[? _]].
Qed.
Lemma handoff_done {W} `{!Ports W} g s w r gs : handoff_guard s g r -> im_grants s !! g_id g = Some gs ->
  let ok := (accept g w).1 in let w1 := (accept g w).2 in
  returns (handoff g) (s, w) ok (handed_over g r gs ok s, if ok then w1 else revoke g w1) /\
  run s (handed_over g r gs ok s).
Proof.
  intros Hg Hgs. cbv zeta. unfold handoff. pose proof (handoff_begin_ok s g r Hg) as E1. cbv zeta in E1. rewrite Hgs in E1.
  destruct (accept g w) as [ok w1] eqn:Ea. cbn [fst snd].
  set (r1 := r <| rec_lifecycle := LifecycleState.DISPATCHING |>) in *.
  set (gs1 := gs <| gs_handed_off := true |> <| gs_grant := g |>) in *.
  set (s1 := set_grant (g_id g) gs1 (set_record (g_request g) r1 s)) in *.
  assert (im_records s1 !! g_request g = Some r1) as Hr1 by apply lookup_insert_eq.
  assert (im_grants s1 !! g_id g = Some gs1) as Hg1 by apply lookup_insert_eq.
  assert (returns (handoff_finish g ok) s1 (negb ok) (handed_over g r gs ok s)) as E2
    by exact (handoff_finish_dispatching s1 g r1 gs1 ok Hr1 eq_refl Hg1).
  split.
  - erewrite bind_ok; [|unfold locked; rewrite E1; reflexivity]. cbn [negb].
    erewrite bind_ok; [|unfold on_port; rewrite Ea; reflexivity].
    erewrite bind_ok; [|unfold locked; rewrite E2; reflexivity]. by destruct ok.
  - pose proof (step_handoff_begin s g) as S1. unfold exec in S1. rewrite E1 in S1.
    pose proof (step_handoff_finish s1 g ok) as S2. unfold exec in S2. rewrite E2 in S2.
    eapply rtc_l; [exact S1|]. by apply rtc_once.
Qed.

(** A grant the scheduler does not know: nothing is stored, counted or indexed, but
    the record moves as the fabric answers. *)
Lemma handoff_unknown {W} `{!Ports W} g s w r : handoff_guard s g r -> im_grants s !! g_id g = None ->
  let ok := (accept g w).1 in
  returns (handoff g) (s, w) false
    (set_record (g_request g) (r <| rec_lifecycle := if ok then LifecycleState.ACTIVE else LifecycleState.DISPATCHING |>) s,
     revoke g (accept g w).2).
Proof.
  intros Hg Hgs. cbv zeta. unfold handoff. pose proof (handoff_begin_ok s g r Hg) as E1. cbv zeta in E1. rewrite Hgs in E1.
  destruct (accept g w) as [ok w1] eqn:Ea. cbn [fst snd].
  set (r1 := r <| rec_lifecycle := LifecycleState.DISPATCHING |>) in *.
  set (s1 := set_record (g_request g) r1 s) in *.
  set (s2 := set_record (g_request g) (r <| rec_lifecycle := if ok then LifecycleState.ACTIVE else LifecycleState.DISPATCHING |>) s).
  assert (returns (handoff_finish g ok) s1 true s2) as E2.
  { unfold handoff_finish. rewrite bind_get.
    assert (im_records s1 !! g_request g = Some r1) as -> by apply lookup_insert_eq. cbv zeta.
    rewrite (bool_decide_eq_true_2 (rec_lifecycle r1 = _)) by done. cbn [andb].
    change (im_grants (set_record _ _ s1)) with (im_grants s). rewrite Hgs, bind_put.
    assert ((if ok then try_transition LifecycleState.ACTIVE r1 else r1) =
      r <| rec_lifecycle := if ok then LifecycleState.ACTIVE else LifecycleState.DISPATCHING |>) as ->
      by (destruct ok; [by rewrite try_transition_move|done]).
    unfold mret, M_ret, s2, s1, set_record, set. cbn [im_records]. by rewrite insert_insert_eq. }
  erewrite bind_ok; [|unfold locked; rewrite E1; reflexivity]. cbn [negb].
  erewrite bind_ok; [|unfold on_port; rewrite Ea; reflexivity].
  erewrite bind_ok; [|unfold locked; rewrite E2; reflexivity]. by destruct ok.
Qed.

(** C26: the two-phase hand-off, on every grant.  A grant that revalidates and whose
    collective is GRANTED is offered to the fabric once, outside the lock; if the
    fabric accepts it, the collective is ACTIVE, the grant active, indexed and
    counted and the call returns true; if not, the collective stays DISPATCHING,
    the grant inactive and it is revoked.  When the scheduler has no grant under
    the id, which revalidation does not ask, the fabric is offered it and told to
    revoke it whatever it answered, the call returns false, and the collective is
    ACTIVE or DISPATCHING with no grant stored, indexed or counted.  Any other
    grant is refused without a call to the fabric and without a change of state. *)
Theorem handoff_spec {W} `{!Ports W} g s w :
  let ok := (accept g w).1 in let w1 := (accept g w).2 in
  (forall r, handoff_guard s g r -> exists s',
     im_records s' = <[g_request g := r <| rec_lifecycle :=
       if ok then LifecycleState.ACTIVE else LifecycleState.DISPATCHING |>]> (im_records s) /\
     match im_grants s !! g_id g with
     | Some gs =>
         returns (handoff g) (s, w) ok (s', if ok then w1 else revoke g w1) /\
         im_grants s' = <[g_id g := handed_off g ok gs]> (im_grants s) /\
         im_active_grants s' = (if ok then add64 (im_active_grants s) 1 else im_active_grants s) /\
         (forall pid gid, active_on s' pid gid <->
            active_on s pid gid \/ ok = true /\ gid = g_id g /\ pid ∈ g_participants g)
     | None =>
         returns (handoff g) (s, w) false (s', revoke g w1) /\
         im_grants s' = im_grants s /\ im_active_grants s' = im_active_grants s /\
         (forall pid gid, active_on s' pid gid <-> active_on s pid gid)
     end) /\
  ((forall r, ~ handoff_guard s g r) -> returns (handoff g) (s, w) false (s, w)).
Proof.
  cbv zeta. split.
  - intros r Hg. destruct (im_grants s !! g_id g) as [gs|] eqn:Hgs.
    + exists (handed_over g r gs (accept g w).1 s). destruct (handed_over_fields g r gs (accept g w).1 s) as (E1 & E2 & E3 & E4).
      split_and!; [done| |done..]. by apply handoff_done.
    + eexists. split; [|split; [by apply handoff_unknown|done]]. done.
  - intros Hno. pose proof (handoff_begin_refused s g Hno) as E. unfold handoff.
    erewrite bind_ok; [|unfold locked; rewrite E; reflexivity]. reflexivity.
Qed.
Lemma sample_handoff_guard : exists r, handoff_guard sample_granted sample_grant r.
Proof.
  destruct (im_records sample_granted !! g_request sample_grant) as [r|] eqn:Er; [|by vm_compute in Er].
  exists r. split; [by vm_compute|]. split; [done|]. vm_compute in Er. by injection Er as <-.
Qed.
Lemma handoff_guard_renamed s g i r : revalidate_grant s (g <| g_id := i |>) = GrantAdjudication.VALID ->
  handoff_guard s g r -> handoff_guard s (g <| g_id := i |>) r.
Proof. intros Hv (_ & Hr & Hl). by split_and!. Qed.
(** The sample's grant, and the same under an id the scheduler never issued. *)
Example handoff_spec_witness : let unknown := sample_grant <| g_id := mkId 999 |> in exists s' s'',
  returns (handoff sample_grant) (sample_granted, fabric_default) true
    (s', fabric_default <| accepted := [sample_grant] |>) /\
  returns (handoff unknown) (sample_granted, fabric_default) false
    (s'', fabric_default <| accepted := [unknown] |> <| revoked := true |>) /\ im_active_grants s'' = 0.
Proof.
  intros unknown. destruct sample_handoff_guard as [r Hr].
  assert (handoff_guard sample_granted unknown r) as Hr2
    by (apply handoff_guard_renamed; [by vm_compute|exact Hr]).
  assert (exists gs, im_grants sample_granted !! g_id sample_grant = Some gs) as [gs Eg]
    by (vm_compute; eexists; reflexivity).
  assert (im_grants sample_granted !! g_id unknown = None) as En by (vm_compute; reflexivity).
  assert (im_active_grants sample_granted = 0) as E0 by (vm_compute; reflexivity).
  clearbody unknown. generalize dependent sample_granted. intros s Hr Hr2 Eg En E0.
  destruct (handoff_spec sample_grant s fabric_default) as [H _].
  destruct (handoff_spec unknown s fabric_default) as [H2 _].
  destruct (H r Hr) as (s' & _ & E). rewrite Eg in E. destruct E as (E & _).
  destruct (H2 r Hr2) as (s'' & _ & E2). rewrite En in E2. destruct E2 as (E2 & _ & Ea & _). rewrite E0 in Ea.
  exact (ex_intro _ s' (ex_intro _ s'' (conj E (conj E2 Ea)))).
Defined.

(** ** Cancellation *)

(** The states in which a collective can be neither handed over nor completed. *)
Lemma withdrawn_refused s g r : im_records s !! g_request g = Some r ->
  dormant (rec_lifecycle r) = true ->
  returns (handoff_begin g) s false s /\
  (forall ok, exists s', returns (handoff_finish g ok) s true s' /\ im_records s' = im_records s /\
     im_active_grants s' = im_active_grants s /\ im_active_by_participant s' = im_active_by_participant s) /\
  (forall wb sb, returns (complete_locked g wb sb) s None s).
Proof.
  intros Hr Ht. split_and!.
  - apply handoff_begin_refused. intros r' (_ & Hr' & Hl). simplify_eq. by rewrite Hl in Ht.
  - intros ok. destruct (handoff_finish_other s g r ok Hr) as (s' & E & E1 & E2 & E3 & _).
    { intros Hl. set_unfold in Hl. by destruct Hl as [Hl|[Hl|[]]]; rewrite Hl in Ht. }
    by exists s'.
  - intros wb sb. apply complete_locked_refused. intros r' gs [Hr' _ _ _ Hl _ _ _ _ _].
    simplify_eq. by rewrite Hl in Ht.
Qed.

(** C3: cancellation wins against every interleaving.  After a cancellation, in
    every later state of the machine (other calls may run between the two
    critical sections of a pending hand-off), unless a higher request generation
    has superseded the request: no grant of the collective starts a hand-off, a
    hand-off that was pending revokes whatever the fabric answered and makes
    nothing active, and no completion succeeds. *)
Theorem cancellation_wins s id r s1 s2 : reachable s ->
  im_records s !! id = Some r -> is_terminal_state (rec_lifecycle r) = false ->
  s1 = exec (cancel_locked id) s -> run s1 s2 ->
  exists r2, im_records s2 !! id = Some r2 /\
    (gen_value (rq_gen (rec_request r)) < gen_value (rq_gen (rec_request r2)) \/
     rec_lifecycle r2 ∈ [LifecycleState.CANCELLED; LifecycleState.RETIRED] /\
     forall g, g_request g = id ->
       returns (handoff_begin g) s2 false s2 /\
       (forall ok, exists s3, returns (handoff_finish g ok) s2 true s3 /\ im_records s3 = im_records s2 /\
          im_active_grants s3 = im_active_grants s2 /\
          im_active_by_participant s3 = im_active_by_participant s2) /\
       (forall wb sb, returns (complete_locked g wb sb) s2 None s2)).
Proof.
  intros Hreach Hr Ht -> Hrun.
  assert (exists r1, im_records (exec (cancel_locked id) s) !! id = Some r1 /\
    rec_request r1 = rec_request r /\ rec_lifecycle r1 = LifecycleState.CANCELLED) as (r1 & Hr1 & E1 & El).
  { unfold cancel_locked. rewrite exec_get, Hr, Ht.
    set (om := match rec_current_grant r with Some g => _ | None => _ end). destruct om as [out s1].
    rewrite exec_put_bind. exists (force_transition LifecycleState.CANCELLED r).
    split; [apply lookup_insert_eq|]. split; [|apply force_transition_lifecycle].
    unfold force_transition, rec_transition. by destruct (transition _ _). }
  assert (reachable (exec (cancel_locked id) s)) as Hreach1 by (eapply reachable_step; [exact Hreach|apply step_cancel]).
  destruct (pg_records _ _ (run_progress _ _ Hreach1 Hrun) id r1 Hr1) as (r2 & Hr2 & Hs).
  exists r2. split; [done|].
  destruct (rec_step_terminal _ _ Hs) as [H|[E H]]; [by rewrite El|left; by rewrite <- E1|right].
  rewrite El in H. split; [done|]. intros g <-. apply (withdrawn_refused s2 g r2 Hr2).
  set_unfold in H. by destruct H as [H|[H|[]]]; rewrite H.
Qed.
(** The hand-off of [sample_grant] has begun when the collective is cancelled; the
    fabric's acceptance comes too late. *)
Example cancellation_wins_witness :
  exists s3, returns (handoff_finish sample_grant true) (exec (cancel_locked (mkId 1)) sample_dispatching) true s3.
Proof.
  assert (reachable sample_dispatching) as Hreach.
  { exact (reachable_step _ _ sample_granted_reachable (step_handoff_begin _ _)). }
  destruct (im_records sample_dispatching !! mkId 1) as [r|] eqn:Er; [|by vm_compute in Er].
  set (s1 := exec (cancel_locked (mkId 1)) sample_dispatching).
  destruct (cancellation_wins sample_dispatching (mkId 1) r s1 s1 Hreach Er) as (r2 & Hr2 & H); [|reflexivity|apply rtc_refl|].
  - vm_compute in Er. injection Er as <-. reflexivity.
  - destruct H as [H|[_ H]].
    + vm_compute in Er. injection Er as <-. vm_compute in Hr2. injection Hr2 as <-. by vm_compute in H.
    + destruct (H sample_grant) as (_ & Hf & _); [by vm_compute|].
      destruct (Hf true) as (s3 & E & _). exact (ex_intro _ s3 E).
Defined.

(** ** Fencing *)

(** [p] runs on the fenced incarnation of the worker. *)
Definition fenced (s : Impl) (worker : WorkerId) (boot : WorkerBootId) (pid : ParticipantId) : bool :=
  match im_participants s !! pid with Some p => runs_on worker boot p | None => false end.
Definition uses_fenced (s : Impl) (worker : WorkerId) (boot : WorkerBootId) (r : SRecord) : bool :=
  negb (is_terminal_state (rec_lifecycle r)) &&
  existsb (fenced s worker boot) (rq_participants (rec_request r)).
(** What fencing makes of a record. *)
Definition after_fence (hit : bool) (r : SRecord) : SRecord := if hit then revalidate_record r else r.
(** The grant [g], when the scheduler knows it, is terminal. *)
Definition withdrawn (s : Impl) (g : CollectiveGrant) : Prop :=
  forall gs, im_grants s !! g_id g = Some gs -> gs_terminal gs = true.

Lemma revalidate_record_fields r : rec_request (revalidate_record r) = rec_request r /\
  rec_current_grant (revalidate_record r) = rec_current_grant r /\
  revalidate_record (revalidate_record r) = revalidate_record r.
Proof.
  unfold revalidate_record. destruct (revalidates (rec_lifecycle r)) eqn:E; [|by rewrite E].
  rewrite try_transition_move by by destruct (rec_lifecycle r). done.
Qed.
Lemma after_fence_lifecycle hit r : rec_lifecycle (after_fence hit r) =
  (if hit && revalidates (rec_lifecycle r) then LifecycleState.REVALIDATION_REQUIRED else rec_lifecycle r).
Proof.
  destruct hit; [|done]. cbn [after_fence andb]. unfold revalidate_record.
  destruct (revalidates (rec_lifecycle r)) eqn:E; [|done]. by rewrite try_transition_move by by destruct (rec_lifecycle r).
Qed.
Lemma withdrawn_quiet s s' g : quiet s s' -> withdrawn s g -> withdrawn s' g.
Proof.
  intros [_ _ Hg] Hw gs' Hgs'. destruct (evolves_back _ _ _ _ _ Hg Hgs') as (gs & Hgs & Hstep & _).
  by destruct (Hstep (Hw gs Hgs)).
Qed.
Lemma fence_hit_spec rid s r : im_records s !! rid = Some r ->
  im_records (fence_hit rid s) = <[rid := revalidate_record r]> (im_records s) /\
  im_participants (fence_hit rid s) = im_participants s /\
  (forall g, rec_current_grant r = Some g -> withdrawn (fence_hit rid s) g).
Proof.
  intros Hr. unfold fence_hit. rewrite (record_at_lookup _ _ _ Hr). cbv zeta.
  change (im_grants (set_record _ _ s)) with (im_grants s).
  destruct (rec_current_grant r) as [g|]; [|done].
  destruct (im_grants s !! g_id g) as [gs|] eqn:Eg; split_and!; try done; intros g' [= <-] gs' Hgs'.
  - unfold terminate_grant, set_grant in Hgs'. cbn [im_grants set] in Hgs'.
    rewrite lookup_insert_eq in Hgs'. by injection Hgs' as <-.
  - change (im_grants (set_record _ _ s)) with (im_grants s) in Hgs'. congruence.
Qed.
(** The loop over a record's participants. *)
Definition fence_uses (worker : WorkerId) (boot : WorkerBootId) (rid : CollectiveRequestId) (s : Impl)
    (pid : ParticipantId) : Impl :=
  match im_participants s !! pid with
  | Some p => if runs_on worker boot p then fence_hit rid s else s
  | None => s
  end.
Lemma fence_uses_spec worker boot rid ps s r : im_records s !! rid = Some r ->
  let s' := foldl (fence_uses worker boot rid) s ps in
  let hit := existsb (fenced s worker boot) ps in
  im_records s' = <[rid := after_fence hit r]> (im_records s) /\
  im_participants s' = im_participants s /\ quiet s s' /\
  (hit = true -> forall g, rec_current_grant r = Some g -> withdrawn s' g).
Proof.
  revert s r. induction ps as [|pid ps IH]; intros s r Hr; cbv zeta; cbn [foldl existsb].
  - split_and!; [|done|reflexivity|done]. symmetry. by apply insert_id.
  - unfold fence_uses at 2 4 6 8, fenced at 1 3.
    destruct (im_participants s !! pid) as [p|]; [|by apply IH].
    destruct (runs_on worker boot p); [|by apply IH]. cbn [orb after_fence].
    destruct (fence_hit_spec rid s r Hr) as (E1 & E2 & E3).
    assert (quiet s (fence_hit rid s)) as Hq by (apply quiet_fence_hit; by eexists).
    assert (im_records (fence_hit rid s) !! rid = Some (revalidate_record r)) as Hr1
      by by rewrite E1, lookup_insert_eq.
    destruct (IH _ _ Hr1) as (F1 & F2 & F3 & _). split_and!.
    + rewrite F1, E1, insert_insert_eq. f_equal. unfold after_fence. destruct (existsb _ _); [|done].
      apply revalidate_record_fields.
    + by rewrite F2.
    + by etrans.
    + intros _ g Hg. eapply withdrawn_quiet; [exact F3|by apply E3].
Qed.
Lemma fence_record_spec worker boot s rid r : im_records s !! rid = Some r ->
  let s' := fence_record worker boot s rid in
  let hit := uses_fenced s worker boot r in
  im_records s' = <[rid := after_fence hit r]> (im_records s) /\
  im_participants s' = im_participants s /\ quiet s s' /\
  (hit = true -> forall g, rec_current_grant r = Some g -> withdrawn s' g).
Proof.
  intros Hr. unfold fence_record, uses_fenced. rewrite (record_at_lookup _ _ _ Hr). cbv zeta.
  destruct (is_terminal_state _); cbn [negb andb]; [|by apply fence_uses_spec].
  split_and!; [|done|reflexivity|done]. symmetry. by apply insert_id.
Qed.
Lemma fence_fold_spec worker boot ord s : NoDup ord -> (forall k, k ∈ ord -> is_Some (im_records s !! k)) ->
  let s' := foldl (fence_record worker boot) s ord in
  im_participants s' = im_participants s /\ quiet s s' /\
  (forall id r, im_records s !! id = Some r ->
     let hit := bool_decide (id ∈ ord) && uses_fenced s worker boot r in
     im_records s' !! id = Some (after_fence hit r) /\
     (hit = true -> forall g, rec_current_grant r = Some g -> withdrawn s' g)).
Proof.
  revert s. induction ord as [|rid ord IH]; intros s Hn Hin; cbv zeta; cbn [foldl].
  - split_and!; [done|reflexivity|done].
  - apply NoDup_cons in Hn as [Hrid Hn]. destruct (Hin rid) as [r0 Hr0]; [by left|].
    destruct (fence_record_spec worker boot s rid r0 Hr0) as (E1 & E2 & E3 & E4).
    set (s1 := fence_record worker boot s rid) in *.
    assert (forall r, uses_fenced s1 worker boot r = uses_fenced s worker boot r) as Eu.
    { intros r. unfold uses_fenced. f_equal. unfold fenced. by rewrite E2. }
    destruct (IH s1 Hn) as (F1 & F2 & F3).
    { intros k Hk. eapply quiet_has_record; [exact E3|]. apply Hin. by right. }
    split_and!; [congruence|by etrans|]. intros id r Hr. destruct (decide (id = rid)) as [->|Hne].
    + assert (r0 = r) as -> by congruence. rewrite (bool_decide_eq_true_2 (rid ∈ rid :: ord)) by by left.
      cbn [andb]. destruct (F3 rid (after_fence (uses_fenced s worker boot r) r)) as [F _].
      { by rewrite E1, lookup_insert_eq. }
      rewrite (bool_decide_eq_false_2 (rid ∈ ord)) in F by done. split; [done|].
      intros Hh g Hg. eapply withdrawn_quiet; [exact F2|]. by apply E4.
    + destruct (F3 id r) as [F G]; [by rewrite E1, lookup_insert_ne|]. rewrite Eu in F, G.
      rewrite (bool_decide_ext (id ∈ rid :: ord) (id ∈ ord)) by (rewrite elem_of_cons; tauto). done.
Qed.
Lemma fence_participant_runs worker boot p : runs_on worker boot (fence_participant worker boot p) = runs_on worker boot p /\
  (runs_on worker boot p = true -> p_ready (fence_participant worker boot p) = false).
Proof. unfold fence_participant. destruct (runs_on worker boot p) eqn:E; [|by rewrite E]. by split. Qed.

(** C9: fencing a worker incarnation.  It never throws, and afterwards: no
    participant of that incarnation is bound by any evidence, so no grant over
    one of them revalidates fresh participants or completes; of the live
    collectives using one, those that were READY, ELIGIBLE, QUEUED, GRANTED,
    DISPATCHING or ACTIVE are in REVALIDATION_REQUIRED, and those still DECLARED,
    WAITING or DRAINING, or in REVALIDATION_REQUIRED already, stay as they are; the
    grant any of them holds is terminal; every other collective's record is as
    before. *)
Theorem fencing_withdraws s ord worker boot : enumerates ord (im_records s) ->
  exists s', returns (fenceWorkerBoot ord worker boot) s tt s' /\
    (forall pid gen, fenced s worker boot pid = true -> ~ participant_bound s' (pid, gen)) /\
    (forall g pid wb sb, fenced s worker boot pid = true ->
       pid ∈ g_participants g ->
       returns (complete_locked g wb sb) s' None s') /\
    (forall id r, im_records s !! id = Some r ->
       let hit := uses_fenced s worker boot r in
       im_records s' !! id = Some (after_fence hit r) /\
       rec_lifecycle (after_fence hit r) =
         (if hit && revalidates (rec_lifecycle r) then LifecycleState.REVALIDATION_REQUIRED else rec_lifecycle r) /\
       (hit = true -> forall g, rec_current_grant r = Some g -> withdrawn s' g)).
Proof.
  intros [Hn Hord]. set (s1 := s <| im_participants ::= fmap (fence_participant worker boot) |>).
  destruct (fence_fold_spec worker boot ord s1 Hn) as (E1 & E2 & E3).
  { intros k Hk. by apply Hord. }
  set (s' := foldl (fence_record worker boot) s1 ord) in *. exists s'.
  assert (forall pid, fenced s1 worker boot pid = fenced s worker boot pid) as Ef.
  { intros pid. unfold fenced. cbn [im_participants s1 set]. unfold s1. cbn [im_participants set].
    rewrite lookup_fmap. destruct (im_participants s !! pid); [|done]. apply fence_participant_runs. }
  assert (forall pid gen, fenced s worker boot pid = true -> ~ participant_bound s' (pid, gen)) as Hb.
  { intros pid gen Hf (p & Hp & _ & Hl). rewrite E1 in Hp. unfold s1 in Hp. cbn [im_participants set fst] in Hp.
    rewrite lookup_fmap in Hp. unfold fenced in Hf. destruct (im_participants s !! pid) as [p0|]; [|done].
    injection Hp as <-. destruct Hl as [Hl _]. pose proof (proj2 (fence_participant_runs worker boot p0) Hf). congruence. }
  split_and!; [reflexivity|exact Hb| |].
  - intros g pid wb sb Hf Hin. apply complete_locked_refused. intros r gs Hc.
    rewrite <- (bindings_of_fst _ (g_participant_gens g)) in Hin. apply list_elem_of_fmap in Hin as ([pid' gen] & -> & Hin).
    pose proof (cp_participants _ _ _ _ _ _ Hc) as HF. rewrite Forall_forall in HF.
    apply (Hb pid' gen Hf). by apply HF.
  - intros id r Hr. destruct (E3 id r Hr) as [F G]. rewrite bool_decide_eq_true_2 in F, G by (apply Hord; by eexists).
    assert (uses_fenced s1 worker boot r = uses_fenced s worker boot r) as Eu.
    { unfold uses_fenced. f_equal. induction (rq_participants (rec_request r)) as [|pid ps IH]; [done|].
      cbn [existsb]. by rewrite Ef, IH. }
    rewrite Eu in F, G. split_and!; [done|apply after_fence_lifecycle|done].
Qed.
Example fencing_withdraws_witness : exists s',
  returns (fenceWorkerBoot [mkId 1] (mkId 7) (mkId 70)) sample_active tt s' /\
  returns (complete_locked sample_grant (mkId 70) (mkId 100)) s' None s'.
Proof.
  destruct (fencing_withdraws sample_active [mkId 1] (mkId 7) (mkId 70)) as (s' & E & _ & H & _).
  - apply enumerates_check. by vm_compute.
  - refine (ex_intro _ s' (conj E _)). apply (H sample_grant (mkId 1)); [by vm_compute|].
    refine (bool_decide_eq_true_1 _ _). by vm_compute.
Defined.

(** ** Rounds of reachable states *)

(** C8: the invariant of the scheduler and the totality of scheduling.  Every state
    reached from a fresh scheduler is well-formed: each record is filed under its
    id, rests in a state of the machine, and holds a grant only for its own
    request generation and only from GRANTED on; each grant is filed under an id
    already taken.  In such a state a round with room for its grant ids returns a
    decision, never an exception. *)
Theorem reachable_rounds s ord gord : reachable s -> enumerates ord (im_records s) ->
  id_value (im_next_grant_id s) + Z.of_nat (length ord) <= U64_MAX ->
  wf s /\ exists dec s', returns (schedule_round ord gord) s dec s' /\ wf s'.
Proof.
  intros Hr Ho Hroom. pose proof (reachable_wf _ Hr) as Hwf. split; [done|].
  destruct (schedule_round_outcome s ord gord (wf_round_ready _ _ Hwf Ho Hroom)) as (dec & gs & s' & E & _).
  exists dec, s'. split; [exact E|]. apply reachable_wf. eapply reachable_step; [exact Hr|].
  pose proof (step_schedule s ord gord Ho Hroom) as Hs. unfold exec in Hs. rewrite E in Hs. exact Hs.
Qed.
Example reachable_rounds_witness : exists dec s', returns (schedule_round [mkId 1] []) sample_submitted dec s'.
Proof.
  destruct (reachable_rounds sample_submitted [mkId 1] [] sample_submitted_reachable) as (_ & dec & s' & E & _).
  - apply enumerates_check. by vm_compute.
  - by vm_compute.
  - exact (ex_intro _ dec (ex_intro _ s' E)).
Defined.

(** ** Dormant collectives *)

Lemma rec_step_dormant r r' : rec_step r r' -> dormant (rec_lifecycle r) = true ->
  gen_value (rq_gen (rec_request r)) < gen_value (rq_gen (rec_request r')) \/
  rec_request r' = rec_request r /\ dormant (rec_lifecycle r') = true.
Proof. intros [H|path E _ Hd _] Ht; [by left|right; auto]. Qed.
Lemma dormant_not_selected s ord gord dec s' id r : wf s -> enumerates ord (im_records s) ->
  id_value (im_next_grant_id s) + Z.of_nat (length ord) <= U64_MAX ->
  im_records s !! id = Some r -> dormant (rec_lifecycle r) = true ->
  returns (schedule_round ord gord) s dec s' -> id ∉ dec_selected dec.
Proof.
  intros Hwf Ho Hroom Hr Hd E Hin. pose proof (wf_round_ready s ord Hwf Ho Hroom) as Hready.
  destruct (schedule_round_outcome s ord gord Hready) as (dec' & gs & s1 & E' & Hout).
  rewrite E in E'. injection E' as <- <-. rewrite (ro_selected _ _ _ _ _ Hout) in Hin.
  destruct (round_candidate s ord Hready id (round_selected_candidates _ _ _ Hin)) as (r' & Hr' & _ & Hok).
  simplify_eq. pose proof (co_lifecycle _ _ Hok) as Hlc. set_unfold in Hlc.
  destruct (rf_lifecycle _ _ _ (refresh_record_frame s r)) as [El|(Hb & _)].
  - rewrite El in Hlc. by destruct Hlc as [H|[H|[H|[]]]]; rewrite H in Hd.
  - by destruct (rec_lifecycle r).
Qed.
(** [g]'s collective is neither selected nor handed over, activated or completed. *)
Record inert (s : Impl) (id : CollectiveRequestId) : Prop := {
  in_round : forall ord gord dec s', enumerates ord (im_records s) ->
    id_value (im_next_grant_id s) + Z.of_nat (length ord) <= U64_MAX ->
    returns (schedule_round ord gord) s dec s' -> id ∉ dec_selected dec;
  in_handoff : forall g, g_request g = id -> returns (handoff_begin g) s false s;
  in_finish : forall g ok, g_request g = id -> exists s', returns (handoff_finish g ok) s true s' /\
    im_records s' = im_records s /\ im_active_grants s' = im_active_grants s /\
    im_active_by_participant s' = im_active_by_participant s;
  in_complete : forall g wb sb, g_request g = id -> returns (complete_locked g wb sb) s None s;
}.
Lemma dormant_inert s id r : wf s -> im_records s !! id = Some r -> dormant (rec_lifecycle r) = true ->
  inert s id.
Proof.
  intros Hwf Hr Hd. split.
  - intros. by eapply dormant_not_selected.
  - intros g <-. by apply (withdrawn_refused s g r).
  - intros g ok <-. by apply (withdrawn_refused s g r).
  - intros g wb sb <-. by apply (withdrawn_refused s g r).
Qed.
Lemma dormant_run s s' id r : wf s -> run s s' -> im_records s !! id = Some r ->
  dormant (rec_lifecycle r) = true -> exists r', im_records s' !! id = Some r' /\
    (gen_value (rq_gen (rec_request r)) < gen_value (rq_gen (rec_request r')) \/
     rec_request r' = rec_request r /\ dormant (rec_lifecycle r') = true /\ inert s' id).
Proof.
  intros Hwf Hrun Hr Hd. destruct (run_safe s s' Hwf Hrun) as [Hwf' Hp].
  destruct (pg_records _ _ Hp id r Hr) as (r' & Hr' & Hs). exists r'. split; [done|].
  destruct (rec_step_dormant _ _ Hs Hd) as [?|[? ?]]; [by left|right]. split_and!; [done..|].
  by eapply dormant_inert.
Qed.

(** C10: new evidence does not bring back a collective that was sent to
    REVALIDATION_REQUIRED or is terminal: in every later state, until a higher
    request generation supersedes it, no round selects it and none of its grants
    is handed over, made active or completed. *)
Theorem dormant_until_superseded s s' id r : reachable s -> run s s' ->
  im_records s !! id = Some r -> dormant (rec_lifecycle r) = true ->
  exists r', im_records s' !! id = Some r' /\
    (gen_value (rq_gen (rec_request r)) < gen_value (rq_gen (rec_request r')) \/
     rec_request r' = rec_request r /\ dormant (rec_lifecycle r') = true /\ inert s' id).
Proof. intros Hreach%reachable_wf. by apply dormant_run. Qed.
(** The worker of a granted collective is fenced and comes back at once. *)
Definition sample_revived : Impl :=
  exec (publishParticipant (sample_participant 1))
    (exec (fenceWorkerBoot [mkId 1] (mkId 7) (mkId 70)) sample_granted).
Example dormant_until_superseded_witness : exists r', im_records sample_revived !! mkId 1 = Some r' /\
  inert sample_revived (mkId 1).
Proof.
  set (s := exec (fenceWorkerBoot [mkId 1] (mkId 7) (mkId 70)) sample_granted).
  assert (reachable s) as Hreach.
  { eapply reachable_step; [apply sample_granted_reachable|]. apply step_fence.
    apply enumerates_check. by vm_compute. }
  destruct (im_records s !! mkId 1) as [r|] eqn:Er; [|by vm_compute in Er].
  destruct (dormant_until_superseded s sample_revived (mkId 1) r Hreach
    (rtc_once _ _ (step_publishParticipant _ _)) Er) as (r' & Hr' & H).
  - vm_compute in Er. by injection Er as <-.
  - destruct H as [H|(_ & _ & H)].
    + vm_compute in Er. injection Er as <-. vm_compute in Hr'. injection Hr' as <-. by vm_compute in H.
    + exact (ex_intro _ r' (conj Hr' H)).
Defined.
