(* ===== verification/Drain.v ===== *)
(** * Drain: rounds until nothing is left to start

    [drain_order] of test_property.cpp drives a scheduler the way a coordinator
    with one willing fabric does: it schedules a round, hands every grant of the
    round over and has it completed, and goes on until a round selects nothing.
    The file proves that this serves every collective that can start. *)
From S2P Require Import Prelude Enums Identity Error Float64 Domain Lifecycle Conflict State.
From S2P Require Import Eligibility Ranking Schedule Samples Rounds Ports Operations Safety Guarantees.

(** ** The loop *)
Section drain.
Context {W : Type} `{!Ports W}.
Abbreviation Call := (M scheduler_error (Impl * W)).
(** The iteration orders of the records and the grants, whatever they are in a
    state. *)
Variables (ordf : Impl -> list CollectiveRequestId) (gordf : Impl -> list CollectiveGrantId).
(** The boots on whose behalf grants are completed. *)
Variables (wb : WorkerBootId) (sb : SourceBootId).

(** The body of the loop over [dec.grants]: the collective it pushes, if any. *)
Definition drain_grant (gid : CollectiveGrantId) : Call (option Z) :=
  '(s, _) ← get_state;
  match grantById s gid with
  | None => mret None
  | Some g =>
      taken ← handoff g;
      if negb taken then mret None
      else
        done ← complete g wb sb;
        mret (if (done : bool) then Some (id_value (g_collective g)) else None)
  end.
Fixpoint drain_grants (gids : list CollectiveGrantId) : Call (list Z) :=
  match gids with
  | [] => mret []
  | gid :: gids' =>
      c ← drain_grant gid;
      cs ← drain_grants gids';
      mret (option_list c ++ cs)
  end.
(** [prog] is whether the round pushed anything. *)
Fixpoint drain (maxc : nat) : Call (list Z) :=
  match maxc with
  | O => mret []
  | S maxc' =>
      '(s, _) ← get_state;
      dec ← schedule (ordf s) (gordf s);
      if is_empty (dec_selected dec) then mret []
      else
        order ← drain_grants (dec_grants dec);
        if is_empty order then mret []
        else
          rest ← drain maxc';
          mret (order ++ rest)
  end.
End drain.
(** [drain_order(s, maxc)]. *)
Definition drain_order {W} `{!Ports W} ordf gordf (maxc : nat) :=
  drain (W := W) ordf gordf (mkId 11) (mkId 100) maxc.

(** ** What can start *)

Definition pending (r : SRecord) : Prop :=
  rec_lifecycle r ∈ [LifecycleState.DECLARED; LifecycleState.WAITING; LifecycleState.READY].
(** [id] is not yet granted and nothing stands in the way of granting it but the
    other collectives. *)
Definition can_start (s : Impl) (id : CollectiveRequestId) : Prop :=
  exists r, im_records s !! id = Some r /\ pending r /\ startable s (rec_request r).
(** One of the participants runs on the completing boots. *)
Definition served_by (wb : WorkerBootId) (sb : SourceBootId) (s : Impl) (req : CollectiveRequest) : Prop :=
  Exists (fun b => exists p, im_participants s !! b.1 = Some p /\
    p_worker_boot p = wb /\ p_source_boot p = sb) (bindings req).
(** No grant is out. *)
Record idle (s : Impl) : Prop := {
  idle_wf : wf s;
  idle_count : im_active_grants s = 0;
  idle_index : forall pid gid, ~ active_on s pid gid;
}.

Lemma startable_proper s1 s2 req : same_evidence s1 s2 -> startable s1 req -> startable s2 req.
Proof.
  intros E [[Hp Hpl Hd Hr Hc Hca] Hw Hg].
  destruct (same_evidence_fields _ _ E) as (En & _ & Ep & Epl & Ed & Er & Erg & Ec & Eca).
  unfold participant_bound, plan_bound, dependency_met, reservation_bound, congestion_blocks,
    capacity_exceeded, window_open in *.
  rewrite ?En, ?Ep, ?Epl, ?Ed, ?Er, ?Erg, ?Ec, ?Eca in *.
  by split; [split|..].
Qed.
Lemma served_proper wb sb s1 s2 req : same_evidence s1 s2 -> served_by wb sb s1 req -> served_by wb sb s2 req.
Proof. intros E. unfold served_by. by destruct (same_evidence_fields _ _ E) as (_ & _ & -> & _). Qed.
Lemma revalidate_grant_proper s1 s2 g : same_evidence s1 s2 -> im_epoch s1 = im_epoch s2 ->
  im_records s1 !! g_request g = im_records s2 !! g_request g -> revalidate_grant s1 g = revalidate_grant s2 g.
Proof.
  intros E Ee Er. destruct (same_evidence_fields _ _ E) as (_ & _ & _ & Epl & Ed & _ & Erg & Ec & _).
  unfold revalidate_grant, plan_current, dependency_fresh. rewrite Er, Ee, Epl, Erg, Ec.
  destruct (im_records s2 !! g_request g); [|done]. rewrite (participants_current_proper _ _ E _ _ eq_refl).
  by rewrite Ed.
Qed.

(** In a well-formed state the candidates of a round are what can start. *)
Lemma pending_before_granted r : resting (rec_lifecycle r) = true ->
  before_granted (rec_lifecycle r) = true <-> pending r.
Proof. unfold pending. intros H. set_unfold. destruct (rec_lifecycle r); try done; naive_solver. Qed.
Lemma candidates_can_start s ord id : wf s -> round_ready s ord ->
  id ∈ round_candidates s ord <-> can_start s id.
Proof.
  intros Hwf Hready. split.
  - intros Hc. destruct (round_candidate s ord Hready id Hc) as (r & Hr & _ & Hok). exists r. split; [done|].
    pose proof (rf_request _ _ _ (refresh_record_frame s r)) as Q. split.
    + apply pending_before_granted; [apply (rw_resting _ _ _ _ (wf_records _ Hwf id r Hr))|].
      pose proof (co_lifecycle _ _ Hok) as Hl. set_unfold in Hl.
      destruct (rf_lifecycle _ _ _ (refresh_record_frame s r)) as [<-|[? _]]; [|done].
      by destruct Hl as [->|[->|[->|[]]]].
    + destruct Hok as [_ _ _ [] He _]. rewrite Q in *. by split.
  - intros (r & Hr & Hl & Hs). by eapply startable_candidate.
Qed.
Lemma idle_no_conflicts s s' r : (forall pid gid, ~ active_on s pid gid) ->
  im_active_by_participant s' = im_active_by_participant s -> active_conflicts s' r = 0.
Proof.
  intros Hi E. assert (active_candidates s' r = []) as Ea.
  { unfold active_candidates. rewrite E. induction (rq_participants (rec_request r)) as [|pid ps IH]; [done|].
    cbn [flat_map]. destruct (im_active_by_participant s !! pid) as [st|] eqn:Es; [|exact IH].
    assert (st = ∅) as ->; [|by rewrite elements_empty].
    apply set_eq. intros gid. split; [|set_solver]. intros Hg. exfalso. apply (Hi pid gid).
    unfold active_on. by rewrite Es. }
  unfold active_conflicts. by rewrite Ea.
Qed.

(** ** One grant: handed over and completed *)

(** What a call leaves alone: the evidence, the epoch and the id counter. *)
Record same_basis (s s' : Impl) : Prop := {
  sb_evidence : same_evidence s s';
  sb_epoch : im_epoch s = im_epoch s';
  sb_next : im_next_grant_id s = im_next_grant_id s';
}.
#[export] Instance same_basis_preorder : PreOrder same_basis.
Proof. split; [by intros s|]. intros s1 s2 s3 [] []. split; [by etrans|congruence..]. Qed.

(** A grant as a round leaves it: GRANTED, current, and over what the request
    binds. *)
Record just_granted (s : Impl) (g : CollectiveGrant) (r : SRecord) : Prop := {
  jg_record : im_records s !! g_request g = Some r;
  jg_grant : im_grants s !! g_id g = Some (fresh_grant g);
  jg_lifecycle : rec_lifecycle r = LifecycleState.GRANTED;
  jg_current : rec_current_grant r = Some g;
  jg_valid : revalidate_grant s g = GrantAdjudication.VALID;
  jg_requires : require_fresh_participants (g_revalidation g) = true;
  jg_bindings : bindings_of (g_participants g) (g_participant_gens g) = bindings (rec_request r);
}.
(** The record and the grant after its completion. *)
Definition done_record (r : SRecord) : SRecord :=
  completed_record (r <| rec_lifecycle := LifecycleState.ACTIVE |>).
Definition done_grant (wb : WorkerBootId) (sb : SourceBootId) (g : CollectiveGrant) : GrantState :=
  completed_grant wb sb (handed_off g true (fresh_grant g)).
Record grant_done (wb : WorkerBootId) (sb : SourceBootId) (g : CollectiveGrant) (r : SRecord)
    (s s' : Impl) : Prop := {
  gd_records : im_records s' = <[g_request g := done_record r]> (im_records s);
  gd_grants : im_grants s' = <[g_id g := done_grant wb sb g]> (im_grants s);
  gd_basis : same_basis s s';
}.

Lemma just_granted_other s s' g0 g r wb sb r0 : grant_done wb sb g0 r0 s s' ->
  g_id g0 <> g_id g -> g_request g0 <> g_request g -> just_granted s g r -> just_granted s' g r.
Proof.
  intros [Hr Hg [He Hep _]] Hne Hneq []. split; rewrite ?Hr, ?Hg, ?lookup_insert_ne; try done.
  rewrite <- jg_valid0. symmetry. apply revalidate_grant_proper; [done|done|].
  by rewrite Hr, lookup_insert_ne.
Qed.

Section handle.
Context {W : Type} `{!Ports W}.
Hypothesis willing : forall g w, (accept (W := W) g w).1 = true.
Variables (wb : WorkerBootId) (sb : SourceBootId).

Lemma handed_over_completable s g r : just_granted s g r -> served_by wb sb s (rec_request r) ->
  completable (handed_over g r (fresh_grant g) true s) g wb sb
    (r <| rec_lifecycle := LifecycleState.ACTIVE |>) (handed_off g true (fresh_grant g)).
Proof using.
  intros [Hr Hg Hl Hc Hv Hrq Hb] Hs.
  destruct (handed_over_fields g r (fresh_grant g) true s) as (Er & Eg & _).
  apply revalidate_grant_iff in Hv as (r' & Hr' & Hcur). simplify_eq.
  destruct Hcur as [Hq Hcg Hep _ _ Hpp _ _ _].
  assert (same_evidence s (handed_over g r (fresh_grant g) true s)) as He by reflexivity.
  split; try done.
  - rewrite Er. apply lookup_insert_eq.
  - rewrite Eg. apply lookup_insert_eq.
  - by exists g.
  - destruct (Hpp Hrq) as [_ HF]. exact HF.
  - rewrite Hb. exact Hs.
Qed.
Lemma completion_fields g r gs s :
  im_records (completion g wb sb r gs s) = <[g_request g := completed_record r]> (im_records s) /\
  im_grants (completion g wb sb r gs s) = <[g_id g := completed_grant wb sb gs]> (im_grants s) /\
  im_active_grants (completion g wb sb r gs s) =
    (if im_active_grants s >? 0 then im_active_grants s - 1 else im_active_grants s) /\
  (forall pid gid, active_on (completion g wb sb r gs s) pid gid <->
     active_on s pid gid /\ ~ (gid = g_id g /\ pid ∈ g_participants g)) /\
  same_basis s (completion g wb sb r gs s).
Proof using.
  split_and!; [done..| |done].
  intros pid gid. exact (deindex_active_on g (set_grant (g_id g) (completed_grant wb sb gs) s) pid gid).
Qed.
Lemma drain_grant_done s w g r : idle s -> just_granted s g r -> served_by wb sb s (rec_request r) ->
  exists s' w', returns (drain_grant wb sb (g_id g)) (s, w) (Some (id_value (g_collective g))) (s', w') /\
    run s s' /\ idle s' /\ grant_done wb sb g r s s'.
Proof using willing.
  intros [Hwf Hn Hi] Hj Hs. pose proof Hj as [Hr Hg Hl Hc Hv _ _].
  destruct (handoff_done g s w r (fresh_grant g)) as [E1 R1]; [by split|done|].
  rewrite willing in E1, R1. pose proof (handed_over_completable s g r Hj Hs) as Hcomp.
  destruct (handed_over_fields g r (fresh_grant g) true s) as (Er & Eg & Ea & Eo).
  assert (same_basis s (handed_over g r (fresh_grant g) true s)) as Hb by done.
  set (s1 := handed_over g r (fresh_grant g) true s) in *. clearbody s1.
  pose proof (complete_locked_done _ _ _ _ _ _ Hcomp) as E2.
  set (r1 := r <| rec_lifecycle := LifecycleState.ACTIVE |>) in *.
  set (gs1 := handed_off g true (fresh_grant g)) in *.
  destruct (completion_fields g r1 gs1 s1) as (Er2 & Eg2 & Ea2 & Eo2 & Hb2).
  set (s2 := completion g wb sb r1 gs1 s1) in *. clearbody s2.
  assert (run s s2) as Hrun.
  { eapply rtc_r; [exact R1|]. pose proof (step_complete s1 g wb sb) as S2. unfold exec in S2. by rewrite E2 in S2. }
  exists s2. eexists. split_and!; [|exact Hrun| |].
  - unfold drain_grant. rewrite bind_get. unfold grantById. rewrite Hg. cbn [fmap option_fmap option_map gs_grant fresh_grant].
    rewrite (bind_ok _ _ _ _ _ E1). cbn [negb].
    erewrite (bind_ok _ _ _ true); [reflexivity|]. unfold complete.
    erewrite bind_ok; [|unfold locked; rewrite E2; reflexivity]. reflexivity.
  - split.
    + by eapply run_safe.
    + rewrite Ea2, Ea, Hn. reflexivity.
    + intros pid gid. rewrite Eo2, Eo. intros [[H|(_ & H)] Hno]; [by apply (Hi pid gid)|by apply Hno].
  - split.
    + by rewrite Er2, Er, insert_insert_eq.
    + by rewrite Eg2, Eg, insert_insert_eq.
    + by etrans.
Qed.

(** All the grants of a round, one after the other. *)
Record grants_done (gs : list CollectiveGrant) (s s' : Impl) : Prop := {
  gsd_other : forall id, id ∉ g_request <$> gs -> im_records s' !! id = im_records s !! id;
  gsd_other_grants : forall gid, gid ∉ g_id <$> gs -> im_grants s' !! gid = im_grants s !! gid;
  gsd_done : forall g r, g ∈ gs -> im_records s !! g_request g = Some r ->
    im_records s' !! g_request g = Some (done_record r) /\ im_grants s' !! g_id g = Some (done_grant wb sb g);
  gsd_basis : same_basis s s';
}.
Lemma drain_grants_done gs s w : idle s -> NoDup (g_request <$> gs) -> NoDup (g_id <$> gs) ->
  Forall (fun g => exists r, just_granted s g r /\ served_by wb sb s (rec_request r)) gs ->
  exists s' w', returns (drain_grants wb sb (g_id <$> gs)) (s, w)
      ((fun g => id_value (g_collective g)) <$> gs) (s', w') /\
    run s s' /\ idle s' /\ grants_done gs s s'.
Proof using willing.
  revert s w. induction gs as [|g gs IH]; intros s w Hi Hnr Hng HF.
  { exists s, w. split_and!; [done|apply rtc_refl|done|]. split; [done|done| |reflexivity]. by intros ? ? ?%elem_of_nil. }
  apply NoDup_cons in Hnr as [Hr0 Hnr], Hng as [Hg0 Hng].
  apply Forall_cons in HF as [(r & Hj & Hs) HF].
  destruct (drain_grant_done s w g r Hi Hj Hs) as (s1 & w1 & E1 & R1 & Hi1 & Hd). pose proof Hd as [Dr Dg Db].
  destruct (IH s1 w1 Hi1 Hnr Hng) as (s2 & w2 & E2 & R2 & Hi2 & [Fo Fg Fd Fb]).
  { rewrite Forall_forall in HF |- *. intros g' Hin. destruct (HF g' Hin) as (r' & Hj' & Hs'). exists r'. split.
    - eapply just_granted_other; [exact Hd| | |exact Hj']; intros E.
      + apply Hg0. rewrite E. by apply list_elem_of_fmap_2.
      + apply Hr0. rewrite E. by apply list_elem_of_fmap_2.
    - by eapply served_proper; [apply Db|]. }
  exists s2, w2. split_and!; [|by etrans|done|].
  - cbn [drain_grants fmap list_fmap]. rewrite (bind_ok _ _ _ _ _ E1), (bind_ok _ _ _ _ _ E2). reflexivity.
  - split; [| | |by etrans].
    + intros id Hid. rewrite fmap_cons, not_elem_of_cons in Hid. destruct Hid as [Hne Hid].
      by rewrite Fo, Dr, lookup_insert_ne.
    + intros gid Hid. rewrite fmap_cons, not_elem_of_cons in Hid. destruct Hid as [Hne Hid].
      by rewrite Fg, Dg, lookup_insert_ne.
    + intros g' r' Hin Hr'. apply elem_of_cons in Hin as [->|Hin].
      * rewrite (jg_record _ _ _ Hj) in Hr'. injection Hr' as <-.
        by rewrite Fo, Dr, Fg, Dg, !lookup_insert_eq.
      * apply Fd; [done|]. rewrite Dr, lookup_insert_ne; [done|]. intros E. apply Hr0.
        rewrite E. by apply list_elem_of_fmap_2.
Qed.
End handle.

(** ** The ids a round takes *)
Lemma id_incr_bound {tag} (a : Id tag) : id_value (id_incr a) <= id_value a + 1.
Proof. unfold id_incr. destruct (_ <? _); simpl; lia. Qed.
Lemma create_grants_next dec sel s :
  id_value (im_next_grant_id (exec (create_grants dec sel) s)) <=
  id_value (im_next_grant_id s) + Z.of_nat (length sel).
Proof.
  revert s. induction sel as [|id sel IH]; intros s; [unfold exec; simpl; lia|].
  unfold exec in *. cbn [create_grants]. unfold mbind, M_bind.
  destruct (with_record id (attempt promote_to_granted) s) as [x s1] eqn:E.
  assert (im_next_grant_id s1 = im_next_grant_id s) as E1.
  { unfold with_record in E. destruct (attempt promote_to_granted (record_at s id)). by injection E as <- <-. }
  rewrite <- E1. clear E E1. destruct x as [[]|e].
  - unfold create_grant. set (s2 := match _ with Some _ => _ | None => _ end).
    assert (id_value (im_next_grant_id s2) <= id_value (im_next_grant_id s1) + 1) as E2.
    { unfold s2. destruct (im_grants _ !! _); apply id_incr_bound. }
    specialize (IH s2). destruct (create_grants dec sel s2) as [[gs|e] s3]; unfold mret, M_ret; cbn [snd length] in *; lia.
  - specialize (IH s1). cbn [length]. lia.
  - cbn [snd length]. lia.
Qed.
Lemma schedule_round_next s ord gord : round_ready s ord ->
  id_value (im_next_grant_id (exec (schedule_round ord gord) s)) <=
  id_value (im_next_grant_id s) + Z.of_nat (length (round_selected s ord)).
Proof.
  intros [Ho Hk He _ _]. unfold exec. rewrite schedule_round_unfold by done. cbv zeta.
  pose proof (create_grants_next (round_decision s) (round_selected s ord) (round_state s)) as H. unfold exec in H.
  unfold mbind at 1, M_bind at 1. destruct (create_grants _ _ _) as [[gs|e] s1]; [|exact H].
  rewrite (bind_ok _ _ _ _ _ (form_group_ok _ s1)), bind_get, bind_put, bind_get. unfold mret, M_ret. cbn [snd] in *.
  destruct (account_fairness_frame (round_selected s ord) (round_candidates s ord)
    (group_counters (round_selected s ord) s1)) as (_ & E1 & _).
  destruct (group_counters_frame (round_selected s ord) s1) as (_ & _ & E2 & _). cbn [snd].
  etrans; [|exact H]. by rewrite <- E2, <- E1.
Qed.

(** ** One round *)

(** A record that a round passes over or has no business with. *)
Definition passed_by (r r' : SRecord) : Prop :=
  rec_request r' = rec_request r /\ rec_current_grant r' = rec_current_grant r /\
  (rec_lifecycle r' = rec_lifecycle r \/
   before_granted (rec_lifecycle r) = true /\
   rec_lifecycle r' ∈ [LifecycleState.READY; LifecycleState.WAITING; LifecycleState.REVALIDATION_REQUIRED]).
#[export] Instance passed_by_preorder : PreOrder passed_by.
Proof.
  split; [by intros r; split_and!; [..|left]|]. intros r1 r2 r3 (Q1 & G1 & H1) (Q2 & G2 & H2).
  split_and!; [congruence..|]. destruct H1 as [E1|[B1 I1]], H2 as [E2|[B2 I2]].
  - left. congruence.
  - right. by rewrite <- E1.
  - right. by rewrite E2.
  - by right.
Qed.
(** The grant [gid] was completed on behalf of these boots. *)
Definition attributed (wb : WorkerBootId) (sb : SourceBootId) (s : Impl) (gid : CollectiveGrantId) : Prop :=
  exists gs, im_grants s !! gid = Some gs /\ gs_terminal gs = true /\
    gs_completed_by gs = wb /\ gs_completed_by_source gs = sb.
(** The collective was granted and completed. *)
Definition served_record (wb : WorkerBootId) (sb : SourceBootId) (s : Impl) (r r' : SRecord) : Prop :=
  rec_request r' = rec_request r /\ rec_lifecycle r' = LifecycleState.COMPLETED /\
  exists g, rec_current_grant r' = Some g /\ attributed wb sb s (g_id g).

Lemma attributed_run wb sb s s' gid : wf s -> run s s' -> attributed wb sb s gid -> attributed wb sb s' gid.
Proof.
  intros Hwf Hrun (gs & Hg & Ht & E1 & E2). destruct (run_safe s s' Hwf Hrun) as [_ Hp].
  destruct (pg_grants _ _ Hp gid gs Hg) as (gs' & Hg' & Hs). destruct (Hs Ht) as (? & ? & ?).
  exists gs'. split_and!; congruence.
Qed.
Lemma served_passed wb sb s s' r r1 r2 : wf s -> run s s' ->
  served_record wb sb s r r1 -> passed_by r1 r2 -> served_record wb sb s' r r2.
Proof.
  intros Hwf Hrun (Q1 & L1 & g & G1 & A1) (Q2 & G2 & L2). split_and!; [congruence| |].
  - destruct L2 as [L2|[B _]]; [congruence|]. by rewrite L1 in B.
  - exists g. split; [congruence|]. by eapply attributed_run.
Qed.

Section round.
Variables (s : Impl) (ord : list CollectiveRequestId) (dec : ScheduleDecision)
  (gs : list CollectiveGrant) (s' : Impl).
Hypothesis Hwf : wf s.
Hypothesis Hready : round_ready s ord.
Hypothesis Hout : round_outcome s ord dec gs s'.

Lemma granted_just id g : granted_in s s' ord id g ->
  g_request g = id /\ exists r r', im_records s !! id = Some r /\ just_granted s' g r' /\
    rec_request r' = rec_request r /\ g_collective g = rq_collective (rec_request r).
Proof using Hwf Hready Hout.
  intros Hg. pose proof (outcome_valid s ord dec gs s' Hready Hout id g (wf_congestion _ Hwf) Hg) as Hv.
  destruct Hg as (r & Hr & _ & Eg & Hr' & Hgr & _).
  assert (g_request g = id) as Eq by (rewrite Eg; exact (rr_keyed _ _ Hready id r Hr)).
  split; [done|]. exists r, (final_record s ord (Some g) id r). split_and!; [done| |apply final_record_request|by rewrite Eg].
  split; rewrite ?final_record_lifecycle, ?final_record_grant, ?final_record_request; [by rewrite Eq|done..| |].
  - by rewrite Eg.
  - by rewrite Eg.
Qed.
Lemma selected_requests : dec_selected dec = g_request <$> gs.
Proof using Hwf Hready Hout.
  apply list_eq_Forall2, Forall2_fmap_r. eapply Forall2_impl; [apply (ro_granted _ _ _ _ _ Hout)|].
  intros id g Hg. symmetry. by apply granted_just.
Qed.
Lemma granted_ids : NoDup (g_id <$> gs).
Proof using Hwf Hready Hout.
  pose proof (round_selected_NoDup s ord Hready) as Hn.
  rewrite <- (ro_selected _ _ _ _ _ Hout), selected_requests in Hn.
  apply NoDup_fmap_2_strong; [|by eapply NoDup_fmap_1]. intros g1 g2 H1 H2 E.
  pose proof (ro_granted _ _ _ _ _ Hout) as HF.
  assert (forall g, g ∈ gs -> im_grants s' !! g_id g = Some (fresh_grant g)) as Hin.
  { intros g [i Hi]%list_elem_of_lookup. destruct (Forall2_lookup_r _ _ _ _ _ HF Hi) as (id & _ & Hg).
    destruct (granted_just id g Hg) as (_ & r & r' & _ & Hj & _). apply Hj. }
  pose proof (Hin g1 H1) as E1. pose proof (Hin g2 H2) as E2. rewrite E, E2 in E1. by injection E1.
Qed.
(** The records that got no grant. *)
Lemma outcome_passed id r : id ∉ dec_selected dec -> im_records s !! id = Some r ->
  exists r', im_records s' !! id = Some r' /\ passed_by r r'.
Proof using Hout.
  intros Hn Hr. rewrite (ro_records _ _ _ _ _ Hout id Hn), Hr. eexists. split; [done|].
  unfold passed_by. rewrite final_record_request, final_record_grant, final_record_lifecycle.
  split_and!; [done|done|]. destruct (rf_lifecycle _ _ _ (refresh_record_frame s r)) as [E|(B & _ & I)]; [by left|by right].
Qed.
(** One that could start still can. *)
Lemma outcome_still_pending id r : wf s' -> id ∉ dec_selected dec -> im_records s !! id = Some r ->
  pending r -> startable s (rec_request r) -> can_start s' id.
Proof using Hwf Hready Hout.
  intros Hwf' Hn Hr Hp Hs. pose proof (ro_records _ _ _ _ _ Hout id Hn) as Hr'. rewrite Hr in Hr'. cbn in Hr'.
  destruct (outcome_evidence s ord dec gs s' Hout) as (He & _ & _).
  assert (id ∈ round_candidates s ord) as Hc by (by eapply startable_candidate).
  destruct (round_candidate s ord Hready id Hc) as (r0 & Hr0 & _ & Hok). simplify_eq.
  eexists. split; [exact Hr'|]. split.
  - apply pending_before_granted; [apply (rw_resting _ _ _ _ (wf_records _ Hwf' id _ Hr'))|].
    rewrite final_record_lifecycle. pose proof (co_lifecycle _ _ Hok) as Hl. set_unfold in Hl.
    by destruct Hl as [->|[->|[->|[]]]].
  - rewrite final_record_request. by eapply startable_proper; [symmetry|].
Qed.
End round.

(** ** The loop drains the scheduler *)

(** What became of every record when exactly [ids] were served. *)
Record fate (wb : WorkerBootId) (sb : SourceBootId) (ids : list CollectiveRequestId) (s s' : Impl) : Prop := {
  ft_records : forall id r, im_records s !! id = Some r -> exists r', im_records s' !! id = Some r' /\
    if decide (id ∈ ids) then served_record wb sb s' r r' else passed_by r r';
  ft_domain : forall id, is_Some (im_records s' !! id) -> is_Some (im_records s !! id);
}.
Lemma fate_app wb sb ids1 ids2 s s1 s2 : wf s1 -> run s1 s2 ->
  fate wb sb ids1 s s1 -> fate wb sb ids2 s1 s2 -> (forall id, id ∈ ids1 -> id ∉ ids2) ->
  fate wb sb (ids1 ++ ids2) s s2.
Proof.
  intros Hwf Hrun [R1 D1] [R2 D2] Hd. split; [|auto]. intros id r Hr.
  destruct (R1 id r Hr) as (r1 & Hr1 & H1). destruct (R2 id r1 Hr1) as (r2 & Hr2 & H2). exists r2. split; [done|].
  destruct (decide (id ∈ ids1)) as [Hi|Hn].
  - rewrite decide_True by set_solver. rewrite decide_False in H2 by auto. by eapply served_passed.
  - destruct (decide (id ∈ ids2)).
    + rewrite decide_True by set_solver. destruct H1 as (Q1 & _), H2 as (Q2 & ?). split; [congruence|done].
    + rewrite decide_False by set_solver. by etrans.
Qed.
(** Nothing can start afterwards that could not before. *)
Lemma fate_rest wb sb ids s s' id : wf s -> same_evidence s s' -> fate wb sb ids s s' ->
  can_start s' id -> can_start s id /\ id ∉ ids.
Proof.
  intros Hwf He [R D] (r' & Hr' & Hp & Hs). destruct (D id) as [r Hr]; [by eexists|].
  destruct (R id r Hr) as (r0 & Hr0 & H). simplify_eq. destruct (decide (id ∈ ids)) as [Hi|Hn].
  - destruct H as (_ & L & _). unfold pending in Hp. rewrite L in Hp. set_solver.
  - destruct H as (Q & _ & L). split; [|done]. exists r. split; [done|]. split.
    + apply pending_before_granted; [apply (rw_resting _ _ _ _ (wf_records _ Hwf id r Hr))|].
      destruct L as [L|[B _]]; [|done]. unfold pending in Hp. rewrite L in Hp. set_unfold in Hp.
      by destruct Hp as [->|[->|[->|[]]]].
    + rewrite <- Q. by eapply startable_proper; [symmetry|].
Qed.

Section drains.
Context {W : Type} `{!Ports W}.
Hypothesis willing : forall g w, (accept (W := W) g w).1 = true.
Variables (ordf : Impl -> list CollectiveRequestId) (gordf : Impl -> list CollectiveGrantId).
Hypothesis orders : forall s, enumerates (ordf s) (im_records s).
Variables (wb : WorkerBootId) (sb : SourceBootId).

Abbreviation waiting s := (round_candidates s (ordf s)).
Record drainable (s : Impl) : Prop := {
  dr_idle : idle s;
  dr_active : 0 < max_active_grants (pol_bounds (im_policy s));
  dr_group : 0 < max_overlap_group (pol_bounds (im_policy s));
  dr_served : forall id r, im_records s !! id = Some r -> can_start s id -> served_by wb sb s (rec_request r);
  dr_room : id_value (im_next_grant_id s) + Z.of_nat (length (ordf s)) + Z.of_nat (length (waiting s)) <= U64_MAX;
}.
Lemma drainable_ready s : drainable s -> round_ready s (ordf s).
Proof using orders. intros [[Hwf _ _] _ _ _ Hroom]. apply wf_round_ready; [done|apply orders|lia]. Qed.
Lemma waiting_can_start s id : drainable s -> id ∈ waiting s <-> can_start s id.
Proof using orders. intros Hd. apply candidates_can_start; [apply (dr_idle _ Hd)|by apply drainable_ready]. Qed.

Lemma notifies {A} (f : A -> W -> W) l s w :
  exists w', returns (mfor (fun x => notify (f x)) l) (s, w) tt (s, w').
Proof.
  revert w. induction l as [|x l IH]; intros w; [by exists w|]. destruct (IH (f x w)) as [w' E]. exists w'.
  cbn [mfor]. erewrite bind_ok; [exact E|reflexivity].
Qed.
Lemma schedule_call ord gord s w dec s' : returns (schedule_round ord gord) s dec s' ->
  exists w', returns (schedule ord gord) (s, w) dec (s', w').
Proof.
  intros E. unfold schedule.
  destruct (notifies (fun ev => request_preemption (pie_holder ev) (pie_requester ev) (pie_action ev))
    (dec_priority_inversions dec) s' w) as [w' E'].
  exists w'. erewrite bind_ok; [|unfold locked; rewrite E; reflexivity]. by rewrite (bind_ok _ _ _ _ _ E').
Qed.

(** One turn of the loop. *)
Record turn (s : Impl) (w : W) (dec : ScheduleDecision) (ids : list CollectiveRequestId)
    (s1 : Impl) (w1 : W) (s2 : Impl) (w2 : W) : Prop := {
  tn_schedule : returns (schedule (ordf s) (gordf s)) (s, w) dec (s1, w1);
  tn_grants : returns (drain_grants wb sb (dec_grants dec)) (s1, w1) (collective_of s <$> ids) (s2, w2);
  tn_selected : dec_selected dec = ids;
  tn_count : length (dec_grants dec) = length ids;
  tn_nodup : NoDup ids;
  tn_progress : forall id, can_start s id -> ids <> [];
  tn_run : run s s2;
  tn_idle : idle s2;
  tn_evidence : same_evidence s s2;
  tn_next : id_value (im_next_grant_id s2) <= id_value (im_next_grant_id s) + Z.of_nat (length ids);
  tn_fate : fate wb sb ids s s2;
  tn_ids : forall id, id ∈ ids -> can_start s id;
  tn_rest : forall id, can_start s2 id <-> can_start s id /\ id ∉ ids;
}.

(** A round from [s] to [s1], whose grants are then handled. *)
Section one_turn.
Variables (s s1 s2 : Impl) (dec : ScheduleDecision) (gs : list CollectiveGrant).
Hypothesis Hd : drainable s.
Hypothesis Hout : round_outcome s (ordf s) dec gs s1.
Hypothesis Hdone : grants_done wb sb gs s1 s2.
Hypothesis Hwf1 : wf s1.

Lemma turn_selected id : id ∈ dec_selected dec -> can_start s id.
Proof using Hd Hout orders.
  intros Hid. apply (waiting_can_start s id Hd). rewrite (ro_selected _ _ _ _ _ Hout) in Hid.
  by apply round_selected_candidates.
Qed.
Lemma turn_grant g : g ∈ gs -> exists r r', im_records s !! g_request g = Some r /\ just_granted s1 g r' /\
  rec_request r' = rec_request r /\ g_collective g = rq_collective (rec_request r).
Proof using Hd Hout orders.
  intros [i Hi]%list_elem_of_lookup.
  destruct (Forall2_lookup_r _ _ _ _ _ (ro_granted _ _ _ _ _ Hout) Hi) as (id & _ & Hg).
  destruct (granted_just s (ordf s) dec gs s1 (idle_wf _ (dr_idle _ Hd)) (drainable_ready s Hd) Hout id g Hg) as (-> & H).
  exact H.
Qed.
Lemma turn_ids : dec_selected dec = g_request <$> gs.
Proof using Hd Hout orders.
  exact (selected_requests s (ordf s) dec gs s1 (idle_wf _ (dr_idle _ Hd)) (drainable_ready s Hd) Hout).
Qed.
Lemma turn_evidence : same_evidence s s2.
Proof using Hout Hdone.
  destruct (outcome_evidence s (ordf s) dec gs s1 Hout) as (He & _). symmetry in He.
  etrans; [exact He|]. apply (gsd_basis _ _ _ _ _ Hdone).
Qed.
Lemma turn_served : Forall (fun g => exists r, just_granted s1 g r /\ served_by wb sb s1 (rec_request r)) gs.
Proof using Hd Hout orders.
  apply Forall_forall. intros g Hg. destruct (turn_grant g Hg) as (r & r' & Hr & H & Q & _). exists r'.
  split; [done|]. rewrite Q. destruct (outcome_evidence s (ordf s) dec gs s1 Hout) as (He & _).
  eapply served_proper; [symmetry; exact He|]. eapply (dr_served _ Hd); [exact Hr|]. apply turn_selected.
  rewrite turn_ids. by apply list_elem_of_fmap_2.
Qed.
Lemma turn_collectives :
  (fun g => id_value (g_collective g)) <$> gs = collective_of s <$> dec_selected dec.
Proof using Hd Hout orders.
  rewrite turn_ids, <- list_fmap_compose. apply list_fmap_ext. intros i g Hi%list_elem_of_lookup_2.
  destruct (turn_grant g Hi) as (r & r' & Hr & _ & _ & ->). unfold collective_of; simpl.
  by rewrite (record_at_lookup _ _ _ Hr).
Qed.
Lemma turn_fate : fate wb sb (dec_selected dec) s s2.
Proof using Hd Hout Hdone orders.
  destruct Hdone as [Ho _ Hg _]. split.
  - intros id r Hr. destruct (decide (id ∈ dec_selected dec)) as [Hi|Hn].
    + rewrite turn_ids in Hi. apply list_elem_of_fmap in Hi as (g & -> & Hgin).
      destruct (turn_grant g Hgin) as (r0 & r1 & Hr0 & Hj & Q & _). simplify_eq.
      destruct (Hg g r1 Hgin (jg_record _ _ _ Hj)) as [Hr2 Hg2]. exists (done_record r1). split; [done|].
      split; [exact Q|]. split; [reflexivity|]. exists (g <| g_active := false |>). split.
      * unfold done_record, completed_record. cbn [rec_current_grant set]. by rewrite (jg_current _ _ _ Hj).
      * exists (done_grant wb sb g). by split_and!.
    + destruct (outcome_passed s (ordf s) dec gs s1 Hout id r Hn Hr) as (r1 & Hr1 & Hp). exists r1.
      split; [|done]. rewrite Ho; [done|]. by rewrite <- turn_ids.
  - intros id Hid. destruct (decide (id ∈ dec_selected dec)) as [Hi|Hn].
    + destruct (turn_selected id Hi) as (r & Hr & _). by eexists.
    + rewrite Ho in Hid by by rewrite <- turn_ids. rewrite (ro_records _ _ _ _ _ Hout id Hn) in Hid.
      destruct (im_records s !! id); [by eexists|]. by destruct Hid.
Qed.
Lemma turn_rest id : can_start s2 id <-> can_start s id /\ id ∉ dec_selected dec.
Proof using Hd Hout Hdone Hwf1 orders.
  split.
  - eapply fate_rest; [apply (dr_idle _ Hd)|apply turn_evidence|apply turn_fate].
  - intros [(r & Hr & Hp & Hs) Hn].
    destruct (outcome_still_pending s (ordf s) dec gs s1 (idle_wf _ (dr_idle _ Hd)) (drainable_ready s Hd) Hout
      id r Hwf1 Hn Hr Hp Hs) as (r1 & Hr1 & Hp1 & Hs1).
    exists r1. split_and!; [|done|].
    + rewrite (gsd_other _ _ _ _ _ Hdone); [done|]. by rewrite <- turn_ids.
    + eapply startable_proper; [apply (gsd_basis _ _ _ _ _ Hdone)|done].
Qed.
Lemma turn_progress id : can_start s id -> dec_selected dec <> [].
Proof using Hd Hout orders.
  intros Hs. pose proof Hs as (r & Hr & _). destruct Hd as [[Hwf Hn Hi] Hba Hbg _ _].
  eapply outcome_not_empty; [exact Hout| |exact Hr| | | |done].
  - by rewrite Hn.
  - by apply waiting_can_start.
  - by eapply idle_no_conflicts.
  - by rewrite Hn.
Qed.
End one_turn.

Lemma drain_turn s w : drainable s -> exists dec ids s1 w1 s2 w2, turn s w dec ids s1 w1 s2 w2.
Proof using willing orders.
  intros Hd. pose proof (drainable_ready s Hd) as Hready. pose proof Hd as [[Hwf Hn Hi] _ _ _ Hroom].
  destruct (schedule_round_outcome s (ordf s) (gordf s) Hready) as (dec & gs & s1 & E & Hout).
  destruct (schedule_call (ordf s) (gordf s) s w dec s1 E) as [w1 Ec].
  pose proof (ro_frame _ _ _ _ _ Hout) as Ef. unfold beside_round in Ef.
  pose proof (turn_ids s s1 dec gs Hd Hout) as Esel.
  assert (step s s1) as Hstep.
  { pose proof (step_schedule s (ordf s) (gordf s) (orders s)) as H. unfold exec in H. rewrite E in H. apply H. lia. }
  assert (idle s1) as Hi1.
  { split; [by eapply step_safe|congruence|]. intros pid gid. unfold active_on.
    assert (im_active_by_participant s1 = im_active_by_participant s) as -> by congruence. apply Hi. }
  assert (NoDup (dec_selected dec)) as Hnd.
  { rewrite (ro_selected _ _ _ _ _ Hout). by apply round_selected_NoDup. }
  destruct (drain_grants_done willing wb sb gs s1 w1 Hi1) as (s2 & w2 & Eg & Hrun & Hi2 & Hgs);
    [by rewrite <- Esel|by eapply granted_ids|by eapply turn_served|].
  exists dec, (dec_selected dec), s1, w1, s2, w2. split; try done.
  - by rewrite (ro_grants _ _ _ _ _ Hout), <- (turn_collectives s s1 dec gs Hd Hout).
  - by rewrite (ro_grants _ _ _ _ _ Hout), Esel, !length_fmap.
  - intros id. by eapply turn_progress.
  - by eapply rtc_l.
  - by eapply turn_evidence.
  - rewrite <- (sb_next _ _ (gsd_basis _ _ _ _ _ Hgs)), (ro_selected _ _ _ _ _ Hout).
    pose proof (schedule_round_next s (ordf s) (gordf s) Hready) as H. unfold exec in H. by rewrite E in H.
  - by eapply turn_fate.
  - intros id. by eapply turn_selected.
  - intros id. eapply turn_rest; try done. apply (idle_wf _ Hi1).
Qed.
Lemma turn_drainable s w dec ids s1 w1 s2 w2 : drainable s -> turn s w dec ids s1 w1 s2 w2 ->
  drainable s2 /\ (length (waiting s2) + length ids <= length (waiting s))%nat.
Proof using orders.
  intros Hd [_ _ _ _ Hnd _ Hrun Hi2 He Hnext [R D] Hids Hrest].
  assert (length (ordf s2) = length (ordf s)) as Elen.
  { apply Permutation_length, (enumerates_perm (im_records s)); [|apply orders]. destruct (orders s2) as [Ho1 Ho2].
    split; [done|]. intros id. rewrite Ho2. split; [apply D|]. intros [r Hr].
    destruct (R id r Hr) as (r' & ? & _). by eexists. }
  pose proof Hd as [[Hwf _ _] Hba Hbg Hsv Hroom]. destruct (same_evidence_fields _ _ He) as (_ & Epol & _).
  assert (forall id, id ∈ waiting s2 <-> can_start s2 id) as Hw2.
  { intros id. apply candidates_can_start; [apply Hi2|]. apply wf_round_ready; [apply Hi2|apply orders|].
    assert (length ids <= length (waiting s))%nat; [|lia]. apply submseteq_length, NoDup_submseteq; [done|].
    intros x Hx. by apply (waiting_can_start s x Hd), Hids. }
  assert (length (waiting s2) + length ids <= length (waiting s))%nat as Hlen.
  { rewrite <- length_app. apply submseteq_length, NoDup_submseteq.
    - apply NoDup_app. split_and!; [apply candidates_NoDup, orders| |done].
      intros id Hid%Hw2. by apply Hrest in Hid as [_ ?].
    - intros id [Hid%Hw2|Hid]%elem_of_app; apply (waiting_can_start s id Hd);
        [by apply Hrest in Hid as [? _]|by apply Hids]. }
  split; [|done]. split; [done|by rewrite <- Epol..| |lia].
  intros id r Hr Hs. pose proof Hs as (Hs0 & Hn)%Hrest. destruct (Hs0) as (r0 & Hr0 & _).
  destruct (R id r0 Hr0) as (r' & Hr' & H). simplify_eq. rewrite decide_False in H by done. destruct H as (-> & _).
  eapply served_proper; [exact He|]. by eapply Hsv.
Qed.

Lemma drain_loop maxc s w : drainable s -> (length (waiting s) <= maxc)%nat -> exists ids s' w',
  returns (drain ordf gordf wb sb maxc) (s, w) (collective_of s <$> ids) (s', w') /\
  NoDup ids /\ (forall id, id ∈ ids <-> can_start s id) /\
  run s s' /\ idle s' /\ same_evidence s s' /\ fate wb sb ids s s'.
Proof using willing orders.
  revert s w. induction maxc as [|maxc IH]; intros s w Hd Hlen.
  - exists [], s, w. split_and!; [done|constructor| |apply rtc_refl|apply Hd|done|].
    + intros id. rewrite <- waiting_can_start by done. by destruct (waiting s); [|simpl in Hlen; lia].
    + split; [|done]. intros id r Hr. exists r. split; [done|]. rewrite decide_False by apply not_elem_of_nil. reflexivity.
  - destruct (drain_turn s w Hd) as (dec & ids & s1 & w1 & s2 & w2 & Ht).
    destruct (turn_drainable _ _ _ _ _ _ _ _ Hd Ht) as [Hd2 Hlen2].
    destruct Ht as [Es Eg Esel Ecnt Hnd Hprog Hrun Hi2 He _ Hf Hids Hrest].
    cbn [drain]. rewrite bind_get. destruct ids as [|id0 ids].
    + destruct (dec_grants dec) as [|]; [|discriminate Ecnt]. injection Eg as <- <-.
      exists [], s1, w1. rewrite (bind_ok _ _ _ _ _ Es), Esel. split_and!; try done.
      intros id. split; [by intros ?%elem_of_nil|]. intros Hs. by destruct (Hprog id Hs).
    + destruct (IH s2 w2 Hd2) as (ids' & s' & w' & E & Hnd' & Hids' & Hrun' & Hi' & He' & Hf');
        [cbn [length] in *; lia|].
      assert (forall id, id ∈ id0 :: ids -> id ∉ ids') as Hdisj.
      { intros id Hid Hid'%Hids'. by apply Hrest in Hid' as [_ ?]. }
      exists ((id0 :: ids) ++ ids'), s', w'. split_and!; [| | |by etrans|done|by etrans|].
      * rewrite (bind_ok _ _ _ _ _ Es), Esel. cbn [is_empty].
        rewrite (bind_ok _ _ _ _ _ Eg). cbn [is_empty fmap list_fmap].
        rewrite (bind_ok _ _ _ _ _ E), fmap_app. unfold mret, M_ret. do 3 f_equal. cbn [fmap list_fmap].
        apply list_fmap_ext. intros i id Hi%list_elem_of_lookup_2%Hids'. apply Hrest in Hi as [(r & Hr & _) Hn].
        destruct (ft_records _ _ _ _ _ Hf id r Hr) as (r' & Hr' & H). rewrite decide_False in H by done.
        destruct H as (Q & _). unfold collective_of.
        by rewrite (record_at_lookup _ _ _ Hr), (record_at_lookup _ _ _ Hr'), Q.
      * apply NoDup_app. by split_and!.
      * intros id. rewrite elem_of_app, Hids', Hrest. split; [by intros [Hid|[? _]]; [apply Hids|]|].
        intros Hs. destruct (decide (id ∈ id0 :: ids)); [by left|by right].
      * eapply fate_app; [apply Hi2|exact Hrun'|done..].
Qed.
End drains.

(** The loop over any completing boots; the bounds on ids and turns in terms of the
    number of records. *)
Lemma drain_all {W} `{!Ports W} ordf gordf wb sb maxc s w :
  (forall g w, (accept (W := W) g w).1 = true) ->
  (forall s, enumerates (ordf s) (im_records s)) ->
  idle s -> 0 < max_active_grants (pol_bounds (im_policy s)) -> 0 < max_overlap_group (pol_bounds (im_policy s)) ->
  (forall id r, im_records s !! id = Some r -> can_start s id -> served_by wb sb s (rec_request r)) ->
  id_value (im_next_grant_id s) + 2 * Z.of_nat (base.size (im_records s)) <= U64_MAX ->
  (base.size (im_records s) <= maxc)%nat ->
  exists ids s' w', returns (drain ordf gordf wb sb maxc) (s, w) (collective_of s <$> ids) (s', w') /\
    run s s' /\ NoDup ids /\ (forall id, id ∈ ids <-> can_start s id) /\
    (forall id r, im_records s !! id = Some r -> exists r', im_records s' !! id = Some r' /\
       if decide (id ∈ ids) then served_record wb sb s' r r' else passed_by r r') /\
    (forall id, ~ can_start s' id) /\ idle s'.
Proof.
  intros Hw Ho Hi Ha Hg Hsv Hroom Hmax.
  assert (length (ordf s) = base.size (im_records s)) as Elen.
  { rewrite (Permutation_length (enumerates_perm _ _ _ (Ho s) (keys_enumerates (im_records s)))).
    unfold keys. by rewrite length_fmap, <- length_map_to_list. }
  assert (length (round_candidates s (ordf s)) <= length (ordf s))%nat as Hle.
  { unfold round_candidates, candidates_of. apply List.filter_length_le. }
  destruct (drain_loop Hw ordf gordf Ho wb sb maxc s w) as (ids & s' & w' & E & Hnd & Hids & Hrun & Hi' & He & Hf).
  { split; [done..|]. lia. }
  { lia. }
  exists ids, s', w'. split_and!; try done; [apply Hf|].
  intros id Hs. destruct (fate_rest _ _ _ _ _ id (idle_wf _ Hi) He Hf Hs) as [H Hn]. by apply Hn, Hids.
Qed.

(** C5: everything that can start is served.  Take a scheduler with no grant out,
    both bounds above zero and room for its grant ids, a fabric that accepts
    every grant, and a completer that runs one participant of each collective
    that can start.  Then [drain_order], with at least one turn per record,
    completes exactly the collectives that could start, each once, in whatever
    order the hash maps are iterated, on behalf of that completer;
    every other record keeps its request and its grant and moves at most among the
    states before granting or to REVALIDATION_REQUIRED; afterwards nothing can
    start and no grant is out. *)
Theorem drain_serves {W} `{!Ports W} ordf gordf maxc s w :
  (forall g w, (accept (W := W) g w).1 = true) ->
  (forall s, enumerates (ordf s) (im_records s)) ->
  idle s -> 0 < max_active_grants (pol_bounds (im_policy s)) -> 0 < max_overlap_group (pol_bounds (im_policy s)) ->
  (forall id r, im_records s !! id = Some r -> can_start s id -> served_by (mkId 11) (mkId 100) s (rec_request r)) ->
  id_value (im_next_grant_id s) + 2 * Z.of_nat (base.size (im_records s)) <= U64_MAX ->
  (base.size (im_records s) <= maxc)%nat ->
  exists ids s' w', returns (drain_order ordf gordf maxc) (s, w) (collective_of s <$> ids) (s', w') /\
    run s s' /\ NoDup ids /\ (forall id, id ∈ ids <-> can_start s id) /\
    (forall id r, im_records s !! id = Some r -> exists r', im_records s' !! id = Some r' /\
       if decide (id ∈ ids) then served_record (mkId 11) (mkId 100) s' r r' else passed_by r r') /\
    (forall id, ~ can_start s' id) /\ idle s'.
Proof. exact (drain_all ordf gordf (mkId 11) (mkId 100) maxc s w). Qed.

(** ** A drained scheduler *)

(** The collectives of Samples, submitted to a scheduler whose participants run
    on the completing boots. *)
Definition drain_participant (pid : Z) : Participant := sample_participant pid <| p_worker_boot := mkId 11 |>.
Definition drain_sample : Impl :=
  foldl (fun s f => f s) Scheduler_default
    (((fun pid => exec (publishParticipant (drain_participant pid))) <$> [1; 2; 3; 4]) ++
     ((fun pl => exec (publishPlan pl)) <$> [sample_plan 5 50; sample_plan 6 60]) ++
     ((fun rq => exec (submit rq)) <$> [request1; request2; request3])).
Definition run_drain (maxc : nat) :=
  drain_order (W := RecordingCollectiveFabric) (fun s => keys (im_records s)) (fun s => keys (im_grants s)) maxc
    (drain_sample, fabric_default).
(** Collectives 11 and 12 run together, 13 after them. *)
Example drain_sample_order : (run_drain 400).1 = Ok [11; 12; 13] /\ (run_drain 1).1 = Ok [11; 12].
Proof. split; by vm_compute. Qed.

Definition serves_all (s : Impl) : bool :=
  forallb (fun kr : CollectiveRequestId * SRecord =>
    existsb (fun b => match im_participants s !! b.1 with
      | Some p => (id_value (p_worker_boot p) =? 11) && (id_value (p_source_boot p) =? 100)
      | None => false
      end) (bindings (rec_request kr.2))) (map_to_list (im_records s)).
Lemma serves_all_served s id r : serves_all s = true -> im_records s !! id = Some r ->
  served_by (mkId 11) (mkId 100) s (rec_request r).
Proof.
  intros H Hr. pose proof (map_check (fun _ r => existsb _ (bindings (rec_request r))) _ H id r Hr) as Hb.
  apply existsb_exists in Hb as (b & Hin & Hb). apply Exists_exists. exists b. split; [by apply list_elem_of_In|].
  destruct (im_participants s !! b.1) as [p|]; [|done]. exists p. split; [done|].
  apply andb_true_iff in Hb as [E1%Z.eqb_eq E2%Z.eqb_eq]. by split; apply id_eq.
Qed.
Lemma drain_sample_idle : idle drain_sample.
Proof.
  split.
  - apply reachable_wf. unfold drain_sample. cbn [fmap list_fmap app foldl].
    repeat first
      [ eapply reachable_step; [|apply step_submit; by vm_compute]
      | eapply reachable_step; [|apply step_publishPlan]
      | eapply reachable_step; [|apply step_publishParticipant] ].
    exists (mkGen 1), PolicyConfig_default. apply rtc_refl.
  - by vm_compute.
  - assert (im_active_by_participant drain_sample = ∅) as E by by vm_compute.
    intros pid gid. unfold active_on. rewrite E, lookup_empty. cbn [default]. apply not_elem_of_empty.
Qed.
Example drain_serves_witness : exists ids s' w',
  run_drain 400 = (Ok (collective_of drain_sample <$> ids), (s', w')) /\ mkId 1 ∈ ids /\ ~ can_start s' (mkId 1).
Proof.
  assert (forall g (w : RecordingCollectiveFabric), (accept g w).1 = true) as Hw by reflexivity.
  destruct (drain_serves (fun s => keys (im_records s)) (fun s => keys (im_grants s)) 400 drain_sample fabric_default
    Hw (fun s => keys_enumerates (im_records s)) drain_sample_idle) as (ids & s' & w' & E & _ & _ & Hids & _ & Hno & _).
  - by vm_compute.
  - by vm_compute.
  - intros id r Hr _. apply (serves_all_served drain_sample id r); [by vm_compute|done].
  - by vm_compute.
  - apply (bool_decide_unpack _). by vm_compute.
  - refine (ex_intro _ ids (ex_intro _ s' (ex_intro _ w' (conj E (conj _ (Hno (mkId 1))))))).
    apply (proj2 (Hids (mkId 1))). apply (candidates_can_start drain_sample [mkId 1; mkId 2; mkId 3]); [apply drain_sample_idle| |].
    + apply wf_round_ready; [apply drain_sample_idle|apply enumerates_check; by vm_compute|by vm_compute].
    + apply (bool_decide_unpack _). by vm_compute.
Defined.
