(* ===== verification/Evidence.v ===== *)
(** * Evidence: published state never goes back

    The publish operations and the index from participants to requests: the
    generations of published evidence only grow along a run, the index covers
    every request, and so a participant's new incarnation reaches every
    collective bound to an older one. *)
From S2P Require Import Prelude Enums Identity Error Float64 Domain Lifecycle Conflict State Eligibility.
From S2P Require Import Ranking Schedule Samples Rounds Ports Operations Safety Guarantees.

(** ** The part of the state the publish operations watch over *)

(** The generations of the published evidence. *)
Record generations (s s' : Impl) : Prop := {
  gn_participants : forall k a, im_participants s !! k = Some a ->
    exists a', im_participants s' !! k = Some a' /\ gen_value (p_gen a) <= gen_value (p_gen a');
  gn_plans : forall k a, im_plans s !! k = Some a ->
    exists a', im_plans s' !! k = Some a' /\ gen_value (pl_gen a) <= gen_value (pl_gen a');
  gn_deps : forall k a, im_deps s !! k = Some a ->
    exists a', im_deps s' !! k = Some a' /\ gen_value (dep_gen a) <= gen_value (dep_gen a');
  gn_congestion : forall a, im_congestion s = Some a ->
    exists a', im_congestion s' = Some a' /\ gen_value (cong_gen a) <= gen_value (cong_gen a');
  gn_capacity : forall a, im_capacity s = Some a ->
    exists a', im_capacity s' = Some a' /\ gen_value (cap_gen a) <= gen_value (cap_gen a');
}.
(** Every request is indexed under each of its participants. *)
Definition indexed (s : Impl) : Prop := forall id r pid,
  im_records s !! id = Some r -> pid ∈ rq_participants (rec_request r) ->
  id ∈ default ∅ (im_participant_requests s !! pid).
(** What an operation may do to both. *)
Definition watched (s s' : Impl) : Prop := generations s s' /\ (indexed s -> indexed s').

Definition view (s : Impl) :=
  (rec_request <$> im_records s, im_participant_requests s, p_gen <$> im_participants s,
   im_plans s, im_deps s, im_congestion s, im_capacity s).

#[export] Instance generations_preorder : PreOrder generations.
Proof.
  split.
  - intros s. split; intros; eexists; (split; [eassumption|lia]).
  - intros s1 s2 s3 [A1 B1 C1 D1 E1] [A2 B2 C2 D2 E2]. split.
    + intros k a (b & (c & ? & ?)%A2 & ?)%A1. exists c. split; [done|lia].
    + intros k a (b & (c & ? & ?)%B2 & ?)%B1. exists c. split; [done|lia].
    + intros k a (b & (c & ? & ?)%C2 & ?)%C1. exists c. split; [done|lia].
    + intros a (b & (c & ? & ?)%D2 & ?)%D1. exists c. split; [done|lia].
    + intros a (b & (c & ? & ?)%E2 & ?)%E1. exists c. split; [done|lia].
Qed.
#[export] Instance watched_preorder : PreOrder watched.
Proof.
  split; [intros s; by split|]. intros s1 s2 s3 [G1 I1] [G2 I2]. split; [by etrans|auto].
Qed.
Lemma fmap_eq_lookup {K A B} `{Countable K} (f : A -> B) (m m' : gmap K A) k a :
  f <$> m = f <$> m' -> m !! k = Some a -> exists a', m' !! k = Some a' /\ f a' = f a.
Proof.
  intros E Hk. apply (f_equal (lookup k)) in E. rewrite !lookup_fmap, Hk in E.
  destruct (m' !! k) as [a'|]; [|done]. injection E as E. by exists a'.
Qed.
Lemma view_watched s s' : view s' = view s -> watched s s'.
Proof.
  unfold view. intros E. injection E as E1 E2 E3 E4 E5 E6 E7. split; [split|].
  - intros k a Hk. destruct (fmap_eq_lookup _ _ _ _ _ (eq_sym E3) Hk) as (a' & ? & E). exists a'.
    split; [done|]. rewrite E. lia.
  - intros k a Hk. exists a. rewrite E4. split; [done|lia].
  - intros k a Hk. exists a. rewrite E5. split; [done|lia].
  - intros a Hk. exists a. rewrite E6. split; [done|lia].
  - intros a Hk. exists a. rewrite E7. split; [done|lia].
  - intros Hi id r pid Hr Hp. rewrite E2. destruct (fmap_eq_lookup _ _ _ _ _ E1 Hr) as (r0 & Hr0 & E).
    rewrite <- E in Hp. by apply (Hi id r0 pid).
Qed.
Lemma view_set_record id r r' s : im_records s !! id = Some r -> rec_request r' = rec_request r ->
  view (set_record id r' s) = view s.
Proof.
  intros Hr E. unfold view. 
  change (im_records (set_record id r' s)) with (<[id := r']> (im_records s)).
  rewrite fmap_insert, E, <- fmap_insert, insert_id by done. reflexivity.
Qed.
Lemma view_terminate gid gs s : view (terminate_grant gid gs s) = view s.
Proof. reflexivity. Qed.

(** ** Operations that publish nothing *)
Lemma rec_transition_request to r : rec_request (rec_transition to r).2 = rec_request r.
Proof. unfold rec_transition. by destruct (transition _ _). Qed.
Lemma try_transition_request to r : rec_request (try_transition to r) = rec_request r.
Proof. apply rec_transition_request. Qed.
Lemma force_transition_request to r : rec_request (force_transition to r) = rec_request r.
Proof. unfold force_transition, rec_transition. by destruct (transition _ _). Qed.

Lemma view_cancel id s : view (exec (cancel_locked id) s) = view s.
Proof.
  unfold cancel_locked. rewrite exec_get. destruct (im_records s !! id) as [r|] eqn:Hr; [|done].
  destruct (is_terminal_state _); [done|].
  set (om := match rec_current_grant r with Some g => _ | None => _ end).
  assert (view om.2 = view s /\ im_records om.2 = im_records s) as [Ev Er].
  { subst om. destruct (rec_current_grant r) as [g|]; [|done].
    destruct (im_grants s !! g_id g) as [gs|]; [|done]. destruct (gs_terminal gs); [done|].
    cbn [snd]. by destruct (gs_active gs). }
  destruct om as [out s1]. cbn [snd] in *. rewrite exec_put_bind, <- Ev.
  apply (view_set_record id r); [by rewrite Er|apply force_transition_request].
Qed.
Lemma view_handoff_begin g s : view (exec (handoff_begin g) s) = view s.
Proof.
  unfold handoff_begin. rewrite exec_get. destruct (negb _); [done|].
  destruct (im_records s !! g_request g) as [r|] eqn:Hr; [|done].
  assert (forall s1, view s1 = view s -> view match im_grants s1 !! g_id g with
    | Some gs => set_grant (g_id g) (gs <| gs_handed_off := true |> <| gs_grant := g |>) s1
    | None => s1 end = view s) as Hg by (intros s1 E; by destruct (im_grants s1 !! g_id g)).
  unfold exec, mbind, M_bind, with_record, attempt. rewrite (record_at_lookup _ _ _ Hr).
  unfold rec_transition. destruct (transition _ _) as [st|e].
  - apply (Hg (set_record (g_request g) (r <| rec_lifecycle := st |>) s)). by apply (view_set_record _ r).
  - by apply (view_set_record _ r).
Qed.
Lemma view_handoff_finish g b s : view (exec (handoff_finish g b) s) = view s.
Proof.
  unfold handoff_finish. rewrite exec_get. destruct (im_records s !! g_request g) as [r|] eqn:Hr; [|done].
  cbv zeta. set (r1 := if _ && _ then _ else r).
  assert (view (set_record (g_request g) r1 s) = view s) as <-.
  { apply (view_set_record _ r); [done|]. subst r1. destruct (_ && _); [apply try_transition_request|done]. }
  clearbody r1.
  destruct (im_grants _ !! _); [|reflexivity]. by destruct (bool_decide _).
Qed.
Lemma view_complete g wb sb s : view (exec (complete_locked g wb sb) s) = view s.
Proof.
  unfold complete_locked. rewrite exec_get. destruct (im_records s !! g_request g) as [r|] eqn:Hr; [|done].
  destruct (im_grants s !! g_id g) as [gs|]; [|done]. destruct (negb _); [done|].
  destruct (transition _ _) as [st|]; [|done]. rewrite exec_put_bind. unfold exec; cbn [snd].
  etrans; [by apply (view_set_record _ r)|reflexivity].
Qed.
Lemma round_view s ord dec gs s' : round_ready s ord -> round_outcome s ord dec gs s' -> view s' = view s.
Proof.
  intros Hready Hout. pose proof (ro_frame _ _ _ _ _ Hout) as Ef. unfold beside_round, evidence in Ef.
  unfold view. assert (rec_request <$> im_records s' = rec_request <$> im_records s) as ->; [|congruence].
  apply map_eq. intros id. rewrite !lookup_fmap. destruct (decide (id ∈ dec_selected dec)) as [Hin|Hnin].
  - apply list_elem_of_lookup in Hin as [i Hi].
    destruct (Forall2_lookup_l _ _ _ _ _ (ro_granted _ _ _ _ _ Hout) Hi) as (g & _ & r & -> & _ & _ & -> & _).
    simpl. by rewrite final_record_request.
  - rewrite (ro_records _ _ _ _ _ Hout id Hnin). destruct (im_records s !! id) as [r|]; [|done].
    simpl. by rewrite final_record_request.
Qed.
Lemma fence_gen worker boot p : p_gen (fence_participant worker boot p) = p_gen p.
Proof. unfold fence_participant. by destruct (runs_on _ _ _). Qed.
Lemma fence_record_view worker boot s rid : is_Some (im_records s !! rid) ->
  view (fence_record worker boot s rid) = view s.
Proof.
  intros [r Hr]. assert (forall r', rec_request r' = rec_request r -> forall s1, im_records s1 !! rid = Some r' ->
    view (fence_hit rid s1) = view s1 /\ im_records (fence_hit rid s1) !! rid = Some (revalidate_record r')) as Hhit.
  { intros r' E s1 Hr'. destruct (fence_hit_spec rid s1 r' Hr') as (Er & _). split; [|by rewrite Er, lookup_insert_eq].
    unfold fence_hit. rewrite (record_at_lookup _ _ _ Hr'). cbv zeta.
    rewrite <- (view_set_record rid r' (revalidate_record r') s1 Hr') by apply revalidate_record_fields.
    destruct (rec_current_grant r'); [|done]. by destruct (im_grants _ !! _). }
  unfold fence_record. rewrite (record_at_lookup _ _ _ Hr). cbv zeta. destruct (is_terminal_state _); [done|].
  assert (forall ps r' s1, rec_request r' = rec_request r -> im_records s1 !! rid = Some r' ->
    view (foldl (fence_uses worker boot rid) s1 ps) = view s1) as Hf; [|by apply (Hf _ r)].
  induction ps as [|pid ps IH]; intros r' s1 E Hr'; [done|]. cbn [foldl]. unfold fence_uses at 2.
  destruct (im_participants s1 !! pid) as [p|]; [|by apply (IH r')].
  destruct (runs_on worker boot p); [|by apply (IH r')].
  destruct (Hhit r' E s1 Hr') as [Ev Hr2]. rewrite <- Ev. apply (IH (revalidate_record r')); [|done].
  rewrite <- E. apply revalidate_record_fields.
Qed.
Lemma view_fence ord worker boot s : enumerates ord (im_records s) ->
  view (exec (fenceWorkerBoot ord worker boot) s) = view s.
Proof.
  intros [_ Hord]. unfold fenceWorkerBoot. rewrite exec_get. cbv zeta. rewrite exec_put.
  set (s1 := s <| im_participants ::= _ |>).
  assert (view s1 = view s) as <-.
  { unfold view, s1. norm_impl. rewrite <- map_fmap_compose. do 5 f_equal. apply map_fmap_ext.
    intros pid p _. apply fence_gen. }
  assert (forall k, k ∈ ord -> is_Some (im_records s1 !! k)) as Hin by (intros k Hk; by apply Hord).
  clearbody s1. clear Hord s. revert s1 Hin. induction ord as [|rid ord IH]; intros s Hin; [done|]. cbn [foldl].
  rewrite <- (fence_record_view worker boot s rid) by (apply Hin; left). apply IH.
  intros k Hk. eapply quiet_has_record; [apply quiet_fence_record|]; apply Hin; [left|by right].
Qed.

(** ** Publishing *)

(** What publishing [p] does to one record. *)
Definition invalidated (p : Participant) (r : SRecord) : SRecord :=
  if is_terminal_state (rec_lifecycle r) then r
  else if binds_other_gen p r then revalidate_record r else r.
Lemma invalidate_request_spec p s rid :
  view (invalidate_request p s rid) = view s /\
  im_records (invalidate_request p s rid) =
    match im_records s !! rid with
    | Some r => <[rid := invalidated p r]> (im_records s)
    | None => im_records s
    end.
Proof.
  unfold invalidate_request, invalidated. destruct (im_records s !! rid) as [r|] eqn:Hr; [|done].
  destruct (is_terminal_state _); [by rewrite insert_id|].
  destruct (binds_other_gen p r); cbn [negb]; [|by rewrite insert_id].
  split; [|done]. apply (view_set_record rid r); [done|]. apply revalidate_record_fields.
Qed.
Lemma invalidate_all p l s : NoDup l ->
  view (foldl (invalidate_request p) s l) = view s /\
  forall id, im_records (foldl (invalidate_request p) s l) !! id =
    (if bool_decide (id ∈ l) then invalidated p else fun r => r) <$> im_records s !! id.
Proof.
  revert s. induction l as [|rid l IH]; intros s Hn; cbn [foldl].
  - split; [done|]. intros id. by destruct (im_records s !! id).
  - apply NoDup_cons in Hn as [Hrid Hn]. destruct (invalidate_request_spec p s rid) as [Ev Er].
    destruct (IH (invalidate_request p s rid) Hn) as [Fv Fr]. split; [congruence|].
    intros id. rewrite Fr, Er. destruct (decide (id = rid)) as [->|Hne].
    + rewrite (bool_decide_eq_false_2 (rid ∈ l)) by done.
      rewrite (bool_decide_eq_true_2 (rid ∈ rid :: l)) by by left.
      destruct (im_records s !! rid) as [r|] eqn:Hr; [by rewrite lookup_insert_eq|by rewrite Hr].
    + rewrite (bool_decide_ext (id ∈ rid :: l) (id ∈ l)) by (rewrite elem_of_cons; tauto).
      f_equal. destruct (im_records s !! rid); [by rewrite lookup_insert_ne|done].
Qed.
Lemma set_order_perm {tag} (st : gset (Id tag)) : set_order st ≡ₚ elements st.
Proof. unfold set_order. apply stable_sort_perm. Qed.

(** The two outcomes of [publishParticipant]. *)
Lemma publishParticipant_regress p s old : im_participants s !! p_id p = Some old ->
  gen_value (p_gen p) < gen_value (p_gen old) ->
  publishParticipant p s = (Throw (throw_transition "participant generation regress"), s).
Proof.
  intros Hp Hlt. unfold publishParticipant. rewrite bind_get, Hp.
  assert ((gen_value (p_gen p) <? gen_value (p_gen old)) = true) as -> by by apply Z.ltb_lt. reflexivity.
Qed.
(** The new incarnation of a participant: a later generation or another boot. *)
Definition new_incarnation (old p : Participant) : bool :=
  (gen_value (p_gen p) >? gen_value (p_gen old)) ||
  negb (id_value (p_worker_boot old) =? id_value (p_worker_boot p)).
Lemma publishParticipant_ok p s :
  (forall old, im_participants s !! p_id p = Some old -> gen_value (p_gen old) <= gen_value (p_gen p)) ->
  exists s1, returns (publishParticipant p) s tt
    (s1 <| im_participants ::= <[p_id p := p]> |>
        <| im_participant_requests ::= fun m =>
             match m !! p_id p with Some _ => m | None => <[p_id p := ∅]> m end |>) /\
    view s1 = view s /\
    forall id, im_records s1 !! id =
      (if match im_participants s !! p_id p with
          | Some old => new_incarnation old p
          | None => false
          end && bool_decide (id ∈ default ∅ (im_participant_requests s !! p_id p))
       then invalidated p else fun r => r) <$> im_records s !! id.
Proof.
  intros Hle. unfold publishParticipant. rewrite bind_get.
  assert (forall o : option SRecord, o = (fun r : SRecord => r) <$> o) as Hid by by intros [].
  assert (forall b : bool, b && false = false) as Hf by by intros [].
  destruct (im_participants s !! p_id p) as [old|]; [|by exists s].
  specialize (Hle old eq_refl).
  assert ((gen_value (p_gen p) <? gen_value (p_gen old)) = false) as -> by by apply Z.ltb_ge.
  cbv zeta. fold (new_incarnation old p). destruct (new_incarnation old p); cbn [andb]; [|by exists s].
  destruct (im_participant_requests s !! p_id p) as [rids|]; [|exists s; split_and!; [reflexivity|done|]].
  - exists (foldl (invalidate_request p) s (set_order rids)).
    destruct (invalidate_all p (set_order rids) s) as [Ev Er].
    { rewrite set_order_perm. apply NoDup_elements. }
    split_and!; [reflexivity|done|]. intros id. rewrite Er.
    rewrite (bool_decide_ext (id ∈ set_order rids) (id ∈ rids)); [done|].
    by rewrite set_order_perm, elem_of_elements.
  - intros id. cbn [default]. rewrite bool_decide_eq_false_2 by set_solver. apply Hid.
Qed.

(** ** Every operation *)
Lemma insert_grows {K A} `{Countable K} (gen : A -> Z) (m : gmap K A) k a :
  (forall old, m !! k = Some old -> gen old <= gen a) ->
  forall k' b, m !! k' = Some b -> exists b', <[k := a]> m !! k' = Some b' /\ gen b <= gen b'.
Proof.
  intros Hle k' b Hb. destruct (decide (k = k')) as [<-|Hne].
  - rewrite lookup_insert_eq. exists a. auto.
  - rewrite lookup_insert_ne by done. exists b. split; [done|lia].
Qed.
Lemma regresses_false {tag A} (gen : A -> Gen tag) new old : regresses gen new old = false ->
  forall o, old = Some o -> gen_value (gen o) <= gen_value (gen new).
Proof. intros H o ->. by apply Z.ltb_ge. Qed.

(** Replacing one kind of evidence leaves the rest of the view alone. *)
Lemma watched_publishPlan p s : watched s (exec (publishPlan p) s).
Proof.
  unfold publishPlan. rewrite exec_get, exec_guard. destruct (regresses _ _ _) eqn:E; [reflexivity|].
  split; [|done]. destruct (generations_preorder.(PreOrder_Reflexive) s) as [A B C D F]. split; try done.
  apply (insert_grows (fun a => gen_value (pl_gen a))). by apply regresses_false.
Qed.
Lemma watched_publishDependency d s : watched s (exec (publishDependency d) s).
Proof.
  unfold publishDependency. rewrite exec_get, exec_guard. destruct (regresses _ _ _) eqn:E; [reflexivity|].
  split; [|done]. destruct (generations_preorder.(PreOrder_Reflexive) s) as [A B C D F]. split; try done.
  apply (insert_grows (fun a => gen_value (dep_gen a))). by apply regresses_false.
Qed.
Lemma watched_publishCongestion c s : watched s (exec (publishCongestion c) s).
Proof.
  unfold publishCongestion. rewrite exec_get, exec_guard. destruct (regresses _ _ _) eqn:E; [reflexivity|].
  split; [|done]. destruct (generations_preorder.(PreOrder_Reflexive) s) as [A B C D F]. split; try done.
  intros a Ha. exists c. split; [done|]. by apply (regresses_false _ _ _ E).
Qed.
Lemma watched_publishCapacity c s : watched s (exec (publishCapacity c) s).
Proof.
  unfold publishCapacity. rewrite exec_get, exec_guard. destruct (regresses _ _ _) eqn:E; [reflexivity|].
  split; [|done]. destruct (generations_preorder.(PreOrder_Reflexive) s) as [A B C D F]. split; try done.
  intros a Ha. exists c. split; [done|]. by apply (regresses_false _ _ _ E).
Qed.
Lemma default_emplace {K} `{Countable K} {A} `{Countable A} (m : gmap K (gset A)) k k' :
  default ∅ ((match m !! k with Some _ => m | None => <[k := ∅]> m end) !! k') = default ∅ (m !! k').
Proof.
  destruct (m !! k) eqn:E; [done|]. destruct (decide (k = k')) as [<-|Hne].
  - by rewrite lookup_insert_eq, E.
  - by rewrite lookup_insert_ne.
Qed.
Lemma watched_publish_ok p s :
  (forall old, im_participants s !! p_id p = Some old -> gen_value (p_gen old) <= gen_value (p_gen p)) ->
  watched s (exec (publishParticipant p) s).
Proof.
  intros Hle. destruct (publishParticipant_ok p s Hle) as (s1 & E & Ev & _).
  unfold exec. rewrite E. cbn [snd]. etrans; [by apply view_watched|]. split.
  - destruct (generations_preorder.(PreOrder_Reflexive) s1) as [A B C D F]. split; try done.
    apply (insert_grows (fun a => gen_value (p_gen a))). intros old Ho.
    unfold view in Ev. injection Ev as _ _ Ep _ _ _ _.
    destruct (fmap_eq_lookup _ _ _ _ _ Ep Ho) as (o & Ho' & <-). by apply Hle.
  - intros Hi id r pid Hr Hp. cbn [im_participant_requests set]. rewrite default_emplace. by apply (Hi id r pid).
Qed.
Lemma watched_publishParticipant p s : watched s (exec (publishParticipant p) s).
Proof.
  destruct (im_participants s !! p_id p) as [old|] eqn:Hold.
  - destruct (Z.lt_ge_cases (gen_value (p_gen p)) (gen_value (p_gen old))) as [Hlt|Hge].
    + unfold exec. by rewrite (publishParticipant_regress p s old).
    + apply watched_publish_ok. intros old' Ho. rewrite Hold in Ho. by injection Ho as <-.
  - apply watched_publish_ok. by rewrite Hold.
Qed.
Lemma index_request_lookup id ps s pid rid :
  rid ∈ default ∅ (im_participant_requests (index_request id ps s) !! pid) <->
  rid ∈ default ∅ (im_participant_requests s !! pid) \/ rid = id /\ pid ∈ ps.
Proof.
  unfold index_request. cbn [im_participant_requests set]. generalize (im_participant_requests s) as m.
  induction ps as [|p ps IH]; intros m; cbn [foldl].
  - set_solver.
  - rewrite IH, elem_of_cons. destruct (decide (p = pid)) as [->|Hne].
    + rewrite lookup_insert_eq. cbn [default]. set_solver.
    + rewrite lookup_insert_ne by done. intuition congruence.
Qed.

(** A new request, filed and indexed. *)
Lemma watched_new_request id r s s' :
  generations s s' -> im_records s' = <[id := r]> (im_records s) ->
  im_participant_requests s' =
    im_participant_requests (index_request id (rq_participants (rec_request r)) s) ->
  watched s s'.
Proof.
  intros Hg Er Ei. split; [done|]. intros Hi id' r' pid Hr Hp. rewrite Ei, index_request_lookup.
  rewrite Er in Hr. apply lookup_insert_Some in Hr as [[<- <-]|[_ Hr]]; [by right|left]. by apply (Hi id' r' pid).
Qed.
Lemma generations_same s s' :
  (im_participants s', im_plans s', im_deps s', im_congestion s', im_capacity s') =
  (im_participants s, im_plans s, im_deps s, im_congestion s, im_capacity s) -> generations s s'.
Proof.
  intros E. injection E as E1 E2 E3 E4 E5. split; rewrite ?E1, ?E2, ?E3, ?E4, ?E5;
    intros; eexists; (split; [eassumption|lia]).
Qed.
Lemma watched_submit req s : wf s -> watched s (exec (submit req) s).
Proof.
  intros Hwf. unfold submit. rewrite exec_get, exec_guard. destruct (_ >=? _); [reflexivity|].
  cbv zeta. rewrite exec_put_bind, exec_lift. destruct (validate_request _ _); [|by apply view_watched].
  rewrite exec_get, exec_put_bind. unfold exec, mret, M_ret. cbn [snd].
  assert (im_records s !! im_next_request_id s = None) as Hnone.
  { apply eq_None_not_Some. intros [r Hr%(wf_records _ Hwf)]. pose proof (rw_id _ _ _ _ Hr). lia. }
  eapply watched_new_request; [by apply generations_same| |].
  - cbn [im_records set index_request]. rewrite Hnone. reflexivity.
  - reflexivity.
Qed.
Lemma watched_supersede req s : watched s (exec (supersede req) s).
Proof.
  unfold supersede. rewrite exec_get. destruct (im_records s !! rq_id req) as [old|] eqn:Hold; [|reflexivity].
  rewrite exec_guard. destruct (_ <=? _); [reflexivity|]. rewrite exec_lift.
  destruct (validate_request _ _); [|reflexivity]. cbv zeta. rewrite exec_put.
  set (nrec := SRecord_default <| rec_request := _ |> <| rec_enqueue_seq := _ |>
    <| rec_lifecycle := _ |> <| rec_fairness := _ |>).
  set (s1 := match rec_lifecycle old with LifecycleState.COMPLETED | LifecycleState.CANCELLED => s
    | _ => set_record _ _ s end).
  set (s2 := match rec_current_grant old with None => s1 | Some g => _ end).
  assert (view s2 = view s) as Ev%view_watched.
  { transitivity (view s1).
    - subst s2. destruct (rec_current_grant old); [|done]. by destruct (im_grants s1 !! _).
    - subst s1. destruct (rec_lifecycle old); try reflexivity;
        (apply (view_set_record _ old); [exact Hold|apply force_transition_request]). }
  etrans; [exact Ev|]. assert (rec_request nrec = req) as Er by reflexivity.
  clearbody s2 nrec. eapply (watched_new_request (rq_id req) nrec); [by apply generations_same|reflexivity|].
  by rewrite Er.
Qed.
Lemma step_watched s s' : wf s -> step s s' -> watched s s'.
Proof.
  intros Hwf Hs. destruct Hs.
  - apply watched_publishParticipant.
  - apply watched_publishPlan.
  - apply watched_publishDependency.
  - by apply view_watched.
  - apply watched_publishCongestion.
  - apply watched_publishCapacity.
  - by apply view_watched.
  - by apply watched_submit.
  - apply watched_supersede.
  - apply view_watched, view_cancel.
  - apply view_watched. unfold advanceCoordinatorEpoch. rewrite exec_get, exec_guard. by destruct (_ <=? _).
  - by apply view_watched.
  - pose proof (wf_round_ready s ord Hwf H H0) as Hready.
    destruct (schedule_round_outcome s ord gord Hready) as (dec & gs & s' & E & Hout).
    unfold exec. rewrite E. by eapply view_watched, round_view.
  - apply view_watched, view_handoff_begin.
  - apply view_watched, view_handoff_finish.
  - apply view_watched, view_complete.
  - by apply view_watched, view_fence.
Qed.
Lemma run_watched s s' : wf s -> run s s' -> watched s s'.
Proof.
  intros Hwf Hrun. induction Hrun as [s|s s1 s2 Hs Hrun IH]; [reflexivity|].
  etrans; [by apply step_watched|]. apply IH. by apply (step_safe s s1).
Qed.
Lemma reachable_indexed s : reachable s -> indexed s.
Proof.
  intros (epoch & policy & Hrun). apply (run_watched _ _ (wf_new epoch policy) Hrun).
  intros id r pid Hr. cbn in Hr. by rewrite lookup_empty in Hr.
Qed.

(** ** The properties *)

(** C29: published evidence never goes back.  Along every run, a published
    participant, plan, dependency, congestion or capacity state stays published
    and its generation does not decrease. *)
Theorem evidence_monotone s s' : reachable s -> run s s' -> generations s s'.
Proof. intros Hr%reachable_wf Hrun. by apply run_watched. Qed.
Example evidence_monotone_witness : generations sample_granted sample_active.
Proof. exact (evidence_monotone _ _ sample_granted_reachable sample_active_run). Defined.

(** C16: a new incarnation of a participant reaches every collective.  In a
    reachable state, publishing an older generation is refused; publishing a
    later generation or another boot stores it and leaves no live collective
    bound to another generation of the participant READY, GRANTED, DISPATCHING
    or ACTIVE (or queued): each of those requires revalidation. *)
Theorem incarnation_invalidates s p old : reachable s ->
  im_participants s !! p_id p = Some old ->
  (gen_value (p_gen p) < gen_value (p_gen old) ->
     exists e, code e = ErrorCode.ILLEGAL_TRANSITION /\ publishParticipant p s = (Throw e, s)) /\
  (gen_value (p_gen old) <= gen_value (p_gen p) -> new_incarnation old p = true ->
     exists s', returns (publishParticipant p) s tt s' /\ im_participants s' !! p_id p = Some p /\
       forall id r', im_records s' !! id = Some r' ->
         exists r, im_records s !! id = Some r /\ rec_request r' = rec_request r /\
           if binds_other_gen p r && negb (is_terminal_state (rec_lifecycle r))
           then r' = revalidate_record r /\ revalidates (rec_lifecycle r') = false
           else r' = r).
Proof.
  intros Hreach Hold. split.
  - intros Hlt. eexists. split; [|by apply (publishParticipant_regress p s old)]. reflexivity.
  - intros Hle Hinc. destruct (publishParticipant_ok p s) as (s1 & E & Ev & Er).
    { intros o Ho. rewrite Hold in Ho. by injection Ho as <-. }
    eexists. split; [exact E|]. split; [apply lookup_insert_eq|].
    intros id r' Hr'. change (im_records s1 !! id = Some r') in Hr'. rewrite Er, Hold, Hinc in Hr'.
    destruct (im_records s !! id) as [r|] eqn:Hr; [|done]. exists r. split; [done|]. cbn [andb] in Hr'.
    destruct (binds_other_gen p r) eqn:Hb.
    + assert (id ∈ default ∅ (im_participant_requests s !! p_id p)) as Hin.
      { apply (reachable_indexed s Hreach id r); [done|]. unfold binds_other_gen in Hb.
        apply existsb_exists in Hb as ([pid gen] & Hin%list_elem_of_In & Hb).
        apply andb_true_iff in Hb as [->%bool_decide_eq_true _]. rewrite <- (bindings_of_fst (rq_participants (rec_request r)) (rq_participant_gens (rec_request r))).
        by apply (list_elem_of_fmap_2 fst) in Hin. }
      rewrite bool_decide_eq_true_2 in Hr' by done. injection Hr' as <-. unfold invalidated.
      rewrite Hb. destruct (is_terminal_state _); cbn [negb andb]; [done|].
      split; [apply revalidate_record_fields|]. split; [done|]. unfold revalidate_record.
      destruct (revalidates (rec_lifecycle r)) eqn:Erv; [|done].
      rewrite try_transition_move by by destruct (rec_lifecycle r). done.
    + cbn [andb]. assert (r' = r) as ->; [|done].
      destruct (bool_decide _); injection Hr' as <-; [|done]. unfold invalidated. rewrite Hb.
      by destruct (is_terminal_state _).
Qed.
Example incarnation_invalidates_witness : exists s',
  returns (publishParticipant (sample_participant 1 <| p_gen := mkGen 2 |>)) sample_active tt s'.
Proof.
  set (p := sample_participant 1 <| p_gen := mkGen 2 |>).
  destruct (im_participants sample_active !! mkId 1) as [old|] eqn:E; [|by vm_compute in E].
  destruct (incarnation_invalidates sample_active p old sample_active_reachable E) as [_ H].
  destruct H as (s' & Es & _); [by vm_compute in E; injection E as <-..|]. exact (ex_intro _ s' Es).
Defined.
