(* ===== verification/Requests.v ===== *)
(** * Requests: submitting and superseding

    The functional behaviour of [submit] and [supersede] on every branch, and
    what [supersede] and [fenceWorkerBoot] do to the count of active grants that
    bounds admission. *)
From S2P Require Import Prelude Enums Identity Error Float64 Domain Lifecycle Conflict State.
From S2P Require Import Eligibility Ranking Schedule Samples Rounds Ports Operations Safety Guarantees Evidence.

(** ** Submitting *)

(** The request as [submit] files it, and its record. *)
Definition filed (s : Impl) (req : CollectiveRequest) : CollectiveRequest :=
  req <| rq_id := im_next_request_id s |> <| rq_gen := mkGen 1 |>.
Definition declared (s : Impl) (req : CollectiveRequest) : SRecord := SRecord_default
  <| rec_request := filed s req |> <| rec_enqueue_seq := im_next_seq s |>
  <| rec_fairness ::= fun f => f <| fa_cls := rq_fairness_class req |> |>.
Definition full (s : Impl) : Prop :=
  max_collectives (pol_bounds (im_policy s)) <= Z.of_nat (base.size (im_records s)).
(** The effect of filing [r] under [id], which held [old]: every other record and
    all the evidence stay, and the participants' index gains [id]. *)
Record files (s s' : Impl) (id : CollectiveRequestId) (r : SRecord) : Prop := {
  fl_records : im_records s' = <[id := r]> (im_records s);
  fl_index : forall pid rid, rid ∈ default ∅ (im_participant_requests s' !! pid) <->
    rid ∈ default ∅ (im_participant_requests s !! pid) \/
    rid = id /\ pid ∈ rq_participants (rec_request r);
  fl_evidence : same_evidence s' s /\ im_epoch s' = im_epoch s;
}.

Lemma submit_full req s : full s -> exists e,
  submit req s = (Throw e, s) /\ code e = ErrorCode.OUT_OF_BOUNDS.
Proof.
  intros Hf. unfold submit. rewrite bind_get, bind_lift. unfold throw_if.
  rewrite (proj2 (Z.geb_le _ _) Hf). by eexists.
Qed.
Lemma submit_invalid req s e : ~ full s -> validate_request (filed s req) (im_policy s) = Throw e ->
  submit req s = (Throw e, s <| im_next_request_id ::= id_incr |>).
Proof.
  intros Hf Hv. unfold submit. rewrite bind_get, bind_lift. unfold throw_if.
  destruct (Z.geb_spec (Z.of_nat (base.size (im_records s))) (max_collectives (pol_bounds (im_policy s))));
    [by destruct Hf|]. cbv zeta. rewrite bind_put, bind_lift. fold (filed s req). by rewrite Hv.
Qed.
Lemma submit_valid req s : wf s -> ~ full s -> validate_request (filed s req) (im_policy s) = Ok tt ->
  exists s', submit req s = (Ok (im_next_request_id s), s') /\
    files s s' (im_next_request_id s) (declared s req) /\ im_records s !! im_next_request_id s = None /\
    im_grants s' = im_grants s /\ im_active_by_participant s' = im_active_by_participant s /\
    im_active_grants s' = im_active_grants s /\ im_next_request_id s' = id_incr (im_next_request_id s) /\
    im_next_seq s' = add64 (im_next_seq s) 1 /\ im_next_grant_id s' = im_next_grant_id s.
Proof.
  intros Hwf Hf Hv. assert (im_records s !! im_next_request_id s = None) as Hnone.
  { apply eq_None_not_Some. intros [r Hr%(wf_records _ Hwf)]. pose proof (rw_id _ _ _ _ Hr). lia. }
  unfold submit. rewrite bind_get, bind_lift. unfold throw_if.
  destruct (Z.geb_spec (Z.of_nat (base.size (im_records s))) (max_collectives (pol_bounds (im_policy s))));
    [by destruct Hf|]. cbv zeta. rewrite bind_put, bind_lift. fold (filed s req). rewrite Hv, bind_get, bind_put.
  eexists. split; [reflexivity|]. split; [|done]. split.
  - cbn [im_records set index_request]. by rewrite Hnone.
  - intros pid rid. rewrite <- (index_request_lookup (im_next_request_id s) (rq_participants req) s).
    reflexivity.
  - by split.
Qed.

(** C20: [submit] at the bound throws and changes nothing; an invalid request is
    refused with the error of its validation, and the id it would have had is
    spent; otherwise the request is filed under a fresh id as a DECLARED record
    at generation 1, indexed under its participants, and nothing else moves but
    the id and sequence counters. *)
Theorem submit_spec req s : wf s ->
  match submit req s with
  | (Ok id, s') => ~ full s /\ validate_request (filed s req) (im_policy s) = Ok tt /\
      id = im_next_request_id s /\ im_records s !! id = None /\ files s s' id (declared s req) /\
      im_grants s' = im_grants s /\ im_active_by_participant s' = im_active_by_participant s /\
      im_next_request_id s' = id_incr (im_next_request_id s) /\ im_next_seq s' = add64 (im_next_seq s) 1
  | (Throw e, s') =>
      full s /\ code e = ErrorCode.OUT_OF_BOUNDS /\ s' = s \/
      ~ full s /\ validate_request (filed s req) (im_policy s) = Throw e /\
        s' = s <| im_next_request_id ::= id_incr |>
  end.
Proof.
  intros Hwf. assert (full s \/ ~ full s) as [Hf|Hf] by (unfold full; lia).
  { destruct (submit_full req s Hf) as (e & -> & He). left. done. }
  destruct (validate_request (filed s req) (im_policy s)) as [[]|e] eqn:Hv.
  - destruct (submit_valid req s Hwf Hf Hv) as (s' & -> & H). naive_solver.
  - rewrite (submit_invalid req s e Hf Hv). right. done.
Qed.
Example submit_spec_witness : exists s',
  submit request2 sample_submitted = (Ok (mkId 2), s') /\
  files sample_submitted s' (mkId 2) (declared sample_submitted request2).
Proof.
  pose proof (submit_spec request2 sample_submitted (reachable_wf _ sample_submitted_reachable)) as H.
  destruct (submit request2 sample_submitted) as [[id|e] s'] eqn:E.
  - exists s'. destruct H as (_ & _ & -> & _ & H & _). split; [reflexivity|exact H].
  - exfalso. assert (is_ok (submit request2 sample_submitted).1 = true) as H' by (vm_compute; reflexivity).
    rewrite E in H'. discriminate.
Defined.

(** ** Superseding *)

Definition superseding (old : SRecord) (req : CollectiveRequest) : SRecord := SRecord_default
  <| rec_request := req |> <| rec_enqueue_seq := rec_enqueue_seq old |>
  <| rec_lifecycle := LifecycleState.WAITING |> <| rec_fairness := rec_fairness old |>.
(** The grant the old generation held is terminal and no longer active
    anywhere; a record without one leaves the grants as they were. *)
Definition revoked (s s' : Impl) (held : option CollectiveGrant) : Prop :=
  match held with
  | None => im_grants s' = im_grants s /\ im_active_by_participant s' = im_active_by_participant s /\
      im_active_grants s' = im_active_grants s
  | Some g => im_active_grants s' = im_active_grants (drop_active s) /\
      (forall gid, gid <> g_id g -> im_grants s' !! gid = im_grants s !! gid) /\
      forall gs, im_grants s !! g_id g = Some gs ->
        im_grants s' !! g_id g = Some (gs <| gs_terminal := true |> <| gs_active := false |>) /\
        forall pid gid, active_on s' pid gid <->
          active_on s pid gid /\ ~ (gid = g_id (gs_grant gs) /\ pid ∈ g_participants (gs_grant gs))
  end.

Lemma revoked_after (s1 s2 : Impl) held :
  im_grants s2 = im_grants s1 -> im_active_by_participant s2 = im_active_by_participant s1 ->
  im_active_grants s2 = im_active_grants s1 ->
  revoked s1 match held with
    | None => s2
    | Some g => drop_active match im_grants s2 !! g_id g with
        | Some gs => terminate_grant (g_id g) gs s2 | None => s2 end
    end held.
Proof.
  intros Eg Ea En. destruct held as [g|]; [|done]. unfold revoked. rewrite Eg.
  destruct (im_grants s1 !! g_id g) as [gs|] eqn:Hg.
  - unfold terminate_grant, drop_active. split_and!; [cbn [im_active_grants set set_grant deindex_active_grant]; by rewrite En| |].
    + intros gid Hne. change (<[g_id g := gs <| gs_terminal := true |> <| gs_active := false |>]> (im_grants s2) !! gid = im_grants s1 !! gid).
      by rewrite lookup_insert_ne, Eg.
    + intros gs' [= <-]. split; [apply lookup_insert_eq|]. intros pid gid.
      transitivity (active_on (deindex_active_grant (gs_grant gs) s2) pid gid); [reflexivity|].
      rewrite deindex_active_on. unfold active_on. by rewrite Ea.
  - unfold drop_active. split_and!; [cbn [im_active_grants set]; by rewrite En|intros; exact (f_equal (lookup _) Eg)|done].
Qed.
Lemma supersede_ok req s old : im_records s !! rq_id req = Some old ->
  gen_value (rq_gen (rec_request old)) < gen_value (rq_gen req) ->
  validate_request req (im_policy s) = Ok tt ->
  exists s', supersede req s = (Ok tt, s') /\ files s s' (rq_id req) (superseding old req) /\
    revoked s s' (rec_current_grant old).
Proof.
  intros Hold Hg Hv. unfold supersede. rewrite bind_get, Hold, bind_lift. unfold throw_if.
  destruct (Z.leb_spec (gen_value (rq_gen req)) (gen_value (rq_gen (rec_request old)))); [lia|].
  rewrite bind_lift, Hv. cbv zeta. eexists. split; [reflexivity|].
  set (s1 := match rec_lifecycle old with LifecycleState.COMPLETED | LifecycleState.CANCELLED => s
    | _ => set_record _ _ s end).
  assert (exists recs, s1 = s <| im_records := recs |> /\
    forall r, <[rq_id req := r]> recs = <[rq_id req := r]> (im_records s)) as (recs & E1 & Er).
  { subst s1. destruct (rec_lifecycle old);
      first [by exists (im_records s); destruct s|eexists; split; [reflexivity|intros; apply insert_insert_eq]]. }
  pose proof (revoked_after s s1 (rec_current_grant old)) as Hrev. rewrite E1 in Hrev.
  specialize (Hrev eq_refl eq_refl eq_refl). rewrite E1. clear E1 s1.
  set (s2 := match rec_current_grant old with None => _ | Some g => _ end) in *.
  assert (im_records s2 = recs /\ im_participant_requests s2 = im_participant_requests s /\
    same_evidence s2 s /\ im_epoch s2 = im_epoch s) as (E2 & E3 & E4 & E5).
  { subst s2. destruct (rec_current_grant old) as [g|]; [|done].
    by destruct (im_grants _ !! g_id g). }
  clearbody s2. split.
  - split; [cbn [im_records set set_record index_request]; rewrite E2; apply Er| |by split].
    intros pid rid. transitivity (rid ∈ default ∅ (im_participant_requests
      (index_request (rq_id req) (rq_participants req) s2) !! pid)); [reflexivity|].
    rewrite index_request_lookup, E3. reflexivity.
  - exact Hrev.
Qed.

(** C21: [supersede] refuses an unknown request, a generation that does not
    advance and an invalid request, changing nothing; otherwise the new
    generation replaces the old record as WAITING with the old place in the
    queue and the old fairness account and without a grant, and the grant the
    old generation held becomes terminal and inactive. *)
Theorem supersede_spec req s :
  match supersede req s with
  | (Ok _, s') => exists old, im_records s !! rq_id req = Some old /\
      gen_value (rq_gen (rec_request old)) < gen_value (rq_gen req) /\
      validate_request req (im_policy s) = Ok tt /\
      files s s' (rq_id req) (superseding old req) /\ revoked s s' (rec_current_grant old)
  | (Throw e, s') => s' = s /\
      match im_records s !! rq_id req with
      | None => code e = ErrorCode.INVALID_ARGUMENT
      | Some old =>
          gen_value (rq_gen req) <= gen_value (rq_gen (rec_request old)) /\
            code e = ErrorCode.ILLEGAL_TRANSITION \/
          gen_value (rq_gen (rec_request old)) < gen_value (rq_gen req) /\
            validate_request req (im_policy s) = Throw e
      end
  end.
Proof.
  destruct (im_records s !! rq_id req) as [old|] eqn:Hold.
  - destruct (Z.le_gt_cases (gen_value (rq_gen req)) (gen_value (rq_gen (rec_request old)))) as [Hle|Hgt].
    { unfold supersede. rewrite bind_get, Hold, bind_lift. unfold throw_if.
      rewrite (proj2 (Z.leb_le _ _) Hle). split; [done|]. by left. }
    destruct (validate_request req (im_policy s)) as [[]|e] eqn:Hv.
    + destruct (supersede_ok req s old Hold Hgt Hv) as (s' & -> & ? & ?). eauto 10.
    + unfold supersede. rewrite bind_get, Hold, bind_lift. unfold throw_if.
      rewrite (proj2 (Z.leb_gt _ _) Hgt), bind_lift, Hv. split; [done|]. by right.
  - unfold supersede. rewrite bind_get, Hold. by split.
Qed.

(** ** The count of active grants *)

(** Two collectives are granted in one round and the first one runs; then the
    second, which never became active, is superseded. *)
Definition drift_submitted : Impl :=
  exec (submit request2) (exec (submit request1)
    (exec (publishPlan (sample_plan 6 60)) (exec (publishPlan (sample_plan 5 50))
      (exec (publishParticipant (sample_participant 4)) (exec (publishParticipant (sample_participant 3))
        (exec (publishParticipant (sample_participant 2))
          (exec (publishParticipant (sample_participant 1)) Scheduler_default))))))).
Definition drift_granted : Impl := exec (schedule_round [mkId 1; mkId 2] []) drift_submitted.
Definition drift_grant : CollectiveGrant :=
  default CollectiveGrant_default (gs_grant <$> im_grants drift_granted !! mkId 1).
Definition drift_active : Impl :=
  exec (handoff_finish drift_grant true) (exec (handoff_begin drift_grant) drift_granted).
Definition drift_superseded : Impl :=
  exec (supersede (request2 <| rq_gen := mkGen 2 |>)) drift_active.

Lemma drift_reachable : reachable drift_superseded.
Proof.
  eapply reachable_step; [|apply step_supersede]. eapply reachable_step; [|apply step_handoff_finish].
  eapply reachable_step; [|apply step_handoff_begin]. eapply reachable_step; [|apply step_schedule].
  - eapply reachable_step; [|apply step_submit; by vm_compute].
    eapply reachable_step; [|apply step_submit; by vm_compute].
    do 2 (eapply reachable_step; [|apply step_publishPlan]).
    do 4 (eapply reachable_step; [|apply step_publishParticipant]).
    exists (mkGen 1), PolicyConfig_default. apply rtc_refl.
  - apply enumerates_check. by vm_compute.
  - by vm_compute.
Qed.
(** Fencing the worker of the sample's running collective terminates its grant. *)
Definition drift_fenced : Impl := exec (fenceWorkerBoot [mkId 1] (mkId 7) (mkId 70)) sample_active.
Lemma drift_fenced_reachable : reachable drift_fenced.
Proof.
  eapply reachable_step; [apply sample_active_reachable|]. apply step_fence.
  apply enumerates_check. by vm_compute.
Qed.
Definition running (s : Impl) : list CollectiveGrantId :=
  (filter (fun kg : CollectiveGrantId * GrantState => gs_active kg.2 = true /\ gs_terminal kg.2 = false)
    (map_to_list (im_grants s))).*1.

(** The count that admission is bounded by does not count the running grants:
    superseding a collective that was granted but never ran takes one off, so the
    count can be 0 with a grant running, and fencing a worker takes none off, so
    the count can be 1 with no grant running. *)
Theorem active_count_drifts :
  (exists s, reachable s /\ im_active_grants s = 0 /\ running s = [mkId 1]) /\
  (exists s, reachable s /\ im_active_grants s = 1 /\ running s = []).
Proof.
  split.
  - exists drift_superseded. split; [apply drift_reachable|]. by vm_compute.
  - exists drift_fenced. split; [apply drift_fenced_reachable|]. by vm_compute.
Qed.
