(* ===== verification/PropertyTests.v ===== *)
(** * PropertyTests: the randomized scheduler of test_property.cpp, for every seed

    [P], [Plan] and [Req] of test_common.hpp and [build] of test_property.cpp, which
    fills a scheduler with collectives drawn by SplitMix64.  The tests run
    [drain_order] on some seeds and sizes; here its result is proved for all. *)
From S2P Require Import Prelude Enums Identity Error Float64 Domain Lifecycle Conflict State Helpers.
From S2P Require Import Eligibility Ranking Schedule Samples Rounds Ports Operations Safety Guarantees Evidence Requests Drain.

(** ** test_common.hpp *)
Definition P (id gen worker boot : Z) : Participant :=
  Participant_default
    <| p_id := mkId id |> <| p_gen := mkGen gen |> <| p_worker := mkId worker |> <| p_worker_boot := mkId boot |>
    <| p_source := mkId 1 |> <| p_source_boot := mkId 100 |>
    <| p_device := mkId id |> <| p_node := mkId 1 |> <| p_nic := mkId id |>
    <| p_capability_gen := mkGen 1 |> <| p_health_gen := mkGen 1 |> <| p_topology_gen := mkGen 1 |>
    <| p_ready := true |> <| p_readiness_source := ProvenanceStatus.REAL |>
    <| p_provenance := ProvenanceStatus.REAL |>.
(** With the default bandwidth. *)
Definition Plan (id gen : Z) (kind : CollectiveKind.t) (parts : list Z) : CommunicationPlan :=
  CommunicationPlan_default
    <| pl_id := mkId id |> <| pl_gen := mkGen gen |> <| pl_kind := kind |>
    <| pl_topology_gen := mkGen 1 |> <| pl_participants := mkId <$> parts |>
    <| pl_valid := true |> <| pl_provenance := ProvenanceStatus.SYNTHETIC |>
    <| pl_estimated_duration_ns := 1000 |> <| pl_estimated_bandwidth := of_int 1000000 |>.
Definition Req (collective : Z) (kind : CollectiveKind.t) (parts gens : list Z) (planId planGen : Z)
    (overlap : OverlapMode.t) : CollectiveRequest :=
  CollectiveRequest_default
    <| rq_collective := mkId collective |> <| rq_collective_gen := mkGen 1 |> <| rq_kind := kind |>
    <| rq_participants := mkId <$> parts |> <| rq_participant_gens := mkGen <$> gens |>
    <| rq_plan_id := mkId planId |> <| rq_plan_gen := mkGen planGen |>
    <| rq_workload_gen := mkGen 1 |> <| rq_overlap := overlap |>
    <| rq_priority ::= fun p => p <| prio_gen := mkGen 1 |> <| prio_authoritative := true |> |>
    <| rq_window ::= fun w => w <| w_expected_duration_ns := 1000 |> |>
    <| rq_queue_class := QueueClass.STANDARD |>.

(** ** build *)

(** The evidence: eight participants of one worker, four plans. *)
Definition build_evidence (s : Impl) : Impl :=
  let s := foldl (fun s i => exec (publishParticipant (P i 1 1 11)) s) s [1; 2; 3; 4; 5; 6; 7; 8] in
  foldl (fun s i => exec (publishPlan (Plan i 1 CollectiveKind.ALL_REDUCE [1; 2])) s) s [1; 2; 3; 4].
(** The request of one turn of the loop, and the generator after it. *)
Definition draw_request (cid rng : Z) : CollectiveRequest * Z :=
  let '(a, rng) := splitmix_bounded 6 rng in
  let pa := 1 + a in
  let '(b, rng) := splitmix_bounded 6 rng in
  let pb := 1 + b in
  let pb := if pb =? pa then pb mod 6 + 1 else pb in
  let '(o, rng) := splitmix_bounded 2 rng in
  let r := Req cid CollectiveKind.ALL_REDUCE [pa; pb] [1; 1] 1 1
    (if negb (o =? 0) then OverlapMode.OVERLAP_ALLOWED else OverlapMode.UNKNOWN) in
  let '(v, rng) := splitmix_bounded 10 rng in
  let '(au, rng) := splitmix_bounded 2 rng in
  (r <| rq_priority ::= fun p => p <| prio_value := v |> <| prio_authoritative := au =? 0 |> |>, rng).
(** The loop, from turn [c] on; what [submit] throws is dropped. *)
Fixpoint build_loop (turns : nat) (c rng : Z) (s : Impl) : Impl :=
  match turns with
  | O => s
  | S turns' =>
      let '(r, rng) := draw_request (1000 + c) rng in
      build_loop turns' (c + 1) rng (exec (submit r) s)
  end.
Definition build (n : nat) (seed : Z) (s : Impl) : Impl := build_loop n 0 seed (build_evidence s).

(** ** What build makes *)

(** A request as drawn: two different participants among the first six, the first
    plan, no window. *)
Record drawn (cid : Z) (r : CollectiveRequest) : Prop := {
  dw_collective : rq_collective r = mkId cid;
  dw_kind : rq_kind r = CollectiveKind.ALL_REDUCE;
  dw_participants : exists pa pb, 1 <= pa <= 6 /\ 1 <= pb <= 6 /\ pa <> pb /\
    rq_participants r = [mkId pa; mkId pb] /\ rq_participant_gens r = [mkGen 1; mkGen 1];
  dw_plan : rq_plan_id r = mkId 1 /\ rq_plan_gen r = mkGen 1;
  dw_none : rq_resource_claims r = [] /\ rq_dependencies r = [] /\ rq_exclusion_classes r = [] /\
    rq_per_participant_payload r = [] /\ rq_reservation_gen r = None;
  dw_window : rq_window r = SchedulingWindow_default <| w_expected_duration_ns := 1000 |>;
  dw_workload : rq_workload_gen r = mkGen 1;
}.
Lemma draw_request_drawn cid rng : drawn cid (draw_request cid rng).1.
Proof.
  unfold draw_request.
  pose proof (splitmix_bounded_range 6 rng ltac:(done)) as Ha. destruct (splitmix_bounded 6 rng) as [a rng1].
  pose proof (splitmix_bounded_range 6 rng1 ltac:(done)) as Hb. destruct (splitmix_bounded 6 rng1) as [b rng2].
  destruct (splitmix_bounded 2 rng2) as [o rng3]. destruct (splitmix_bounded 10 rng3) as [v rng4].
  destruct (splitmix_bounded 2 rng4) as [au rng5]. cbn [fst] in *. split; try done.
  eexists (1 + a), _. split; [lia|]. split; [|split; [|by split]].
  - destruct (_ =? _); [|lia]. pose proof (Z.mod_pos_bound (1 + b) 6). lia.
  - destruct (Z.eqb_spec (1 + b) (1 + a)) as [E|]; [|done]. rewrite E.
    assert (a = 0 \/ a = 1 \/ a = 2 \/ a = 3 \/ a = 4 \/ a = 5) as H by lia.
    by repeat (destruct H as [->|H]; [done|]); subst.
Qed.
Lemma filed_drawn s cid r : drawn cid r -> drawn cid (filed s r).
Proof. by intros []; split. Qed.
Lemma drawn_valid s cid r : drawn cid r -> validate_request (filed s r) PolicyConfig_default = Ok tt.
Proof.
  intros Hd%(filed_drawn s). destruct Hd as [_ Hk (pa & pb & _ & _ & Hne & Ep & Eg) [Hp1 Hp2] (E1 & E2 & E3 & E4 & E5) Hw _].
  apply validate_request_ok; [by rewrite E4|]. split; rewrite ?Hk, ?Ep, ?Eg, ?Hp1, ?Hp2, ?E1, ?E2, ?E3, ?E4, ?Hw; try done.
  - apply NoDup_cons. split; [|apply NoDup_singleton]. rewrite list_elem_of_singleton. congruence.
  - by left.
  - constructor.
Qed.

(** The evidence the loop finds. *)
Record fixture (s : Impl) : Prop := {
  fx_policy : im_policy s = PolicyConfig_default;
  fx_participants : forall p, 1 <= p <= 6 -> im_participants s !! mkId p = Some (P p 1 1 11);
  fx_plan : im_plans s !! mkId 1 = Some (Plan 1 1 CollectiveKind.ALL_REDUCE [1; 2]);
  fx_open : im_congestion s = None /\ im_capacity s = None;
}.
Lemma fixture_same s s' : same_evidence s s' -> fixture s -> fixture s'.
Proof.
  intros E. destruct (same_evidence_fields _ _ E) as (_ & Epol & Ep & Epl & _ & _ & _ & Ec & Eca).
  intros [H1 H2 H3 H4]. by split; rewrite <- ?Epol, <- ?Ep, <- ?Epl, <- ?Ec, <- ?Eca.
Qed.
Abbreviation base := (build_evidence Scheduler_default).
Lemma base_reachable : reachable base.
Proof.
  unfold build_evidence. cbn [foldl].
  repeat first [eapply reachable_step; [|apply step_publishPlan] | eapply reachable_step; [|apply step_publishParticipant]].
  exists (mkGen 1), PolicyConfig_default. apply rtc_refl.
Qed.
Lemma base_fixture : fixture base.
Proof.
  split; [by vm_compute| |by vm_compute|by split; vm_compute].
  intros p Hp. assert (p = 1 \/ p = 2 \/ p = 3 \/ p = 4 \/ p = 5 \/ p = 6) as H by lia.
  by destruct H as [->|[->|[->|[->|[->| ->]]]]]; vm_compute.
Qed.

(** A drawn request can start, and the boots 11 and 100 serve it. *)
Section drawn.
Variables (s : Impl) (cid : Z) (r : CollectiveRequest).
Hypothesis Hs : fixture s.
Hypothesis Hd : drawn cid r.
Lemma drawn_startable : startable s r.
Proof using Hs Hd.
  destruct Hd as [_ _ (pa & pb & Ha & Hb & _ & Ep & Eg) [Hp1 Hp2] (E1 & E2 & _ & _ & E5) Hw Hwl].
  destruct Hs as [_ Hp Hpl [Hc Hca]]. split.
  - split.
    + unfold bindings. rewrite Ep, Eg. cbn [bindings_of head tail].
      repeat constructor; [exists (P pa 1 1 11)|exists (P pb 1 1 11)]; (split; [by apply Hp|done]).
    + rewrite Hp1, Hp2. by eexists.
    + rewrite E2. constructor.
    + rewrite E5. by intros g.
    + unfold congestion_blocks. by rewrite Hc.
    + unfold capacity_exceeded. by rewrite Hca.
  - rewrite Hw. by repeat split; left.
  - by rewrite Hwl.
Qed.
Lemma drawn_served : served_by (mkId 11) (mkId 100) s r.
Proof using Hs Hd.
  destruct Hd as [_ _ (pa & pb & Ha & _ & _ & Ep & Eg) _ _ _ _].
  unfold served_by, bindings. rewrite Ep, Eg. constructor. exists (P pa 1 1 11). split; [by apply (fx_participants _ Hs)|done].
Qed.
End drawn.

(** After [k] turns. *)
Record built (k : Z) (s : Impl) : Prop := {
  bt_reachable : reachable s;
  bt_fixture : fixture s;
  bt_counts : im_active_grants s = 0 /\ im_active_by_participant s = ∅ /\
    im_next_request_id s = mkId (1 + k) /\ im_next_grant_id s = mkId 1;
  bt_size : Z.of_nat (base.size (im_records s)) = k;
  bt_records : forall id r, im_records s !! id = Some r ->
    1 <= id_value id <= k /\ rec_lifecycle r = LifecycleState.DECLARED /\
    drawn (999 + id_value id) (rec_request r);
  bt_all : forall i, 1 <= i <= k -> is_Some (im_records s !! mkId i);
}.
Lemma built_base : built 0 base.
Proof.
  assert (im_records base = ∅) as E by by vm_compute.
  split; [apply base_reachable|apply base_fixture|split_and!; by vm_compute|by rewrite E| |].
  - intros id r. by rewrite E, lookup_empty.
  - intros i Hi. lia.
Qed.
Lemma built_submit k s r : built k s -> 0 <= k < 100000 -> drawn (1000 + k) r -> built (k + 1) (exec (submit r) s).
Proof.
  intros [Hre He (Ha & Hx & Hq & Hg) Hsz Hr Hall] Hk Hd.
  pose proof (fx_policy _ He) as Epol.
  assert (~ full s) as Hf by (unfold full; rewrite Epol, Hsz; change (~ (100000 <= k)); lia).
  destruct (submit_valid r s (reachable_wf _ Hre) Hf) as (s' & E & [Er _ [He' _]] & Hnone & Egr & Eab & Eag & Eq & _ & Eg).
  { rewrite Epol. by eapply drawn_valid. }
  assert (step s (exec (submit r) s)) as Hst by (apply step_submit; rewrite Hq; unfold U64_MAX; simpl; lia).
  unfold exec in *. rewrite E in *. cbn [snd] in *. rewrite Hq in Er, Hnone.
  split; [by eapply reachable_step|by eapply fixture_same; [symmetry|]|split_and!; [congruence|congruence| |congruence]| | |].
  - rewrite Eq, Hq. unfold id_incr. cbn [id_value]. rewrite (proj2 (Z.ltb_lt _ _)) by (unfold U64_MAX; lia). f_equal. lia.
  - rewrite Er, map_size_insert_None by done. lia.
  - rewrite Er. intros id r' [[<- <-]|[Hne Hid]]%lookup_insert_Some.
    + cbn [id_value]. split; [lia|]. split; [done|]. replace (999 + (1 + k)) with (1000 + k) by lia. by apply filed_drawn.
    + destruct (Hr id r' Hid) as (? & ? & ?). split; [lia|done].
  - intros i Hi. rewrite Er. destruct (decide (i = 1 + k)) as [->|Hne]; [rewrite lookup_insert_eq; by eexists|].
    rewrite lookup_insert_ne by congruence. apply Hall. lia.
Qed.
Lemma built_loop turns k rng s : built k s -> 0 <= k -> k + Z.of_nat turns <= 100000 ->
  built (k + Z.of_nat turns) (build_loop turns k rng s).
Proof.
  revert k rng s. induction turns as [|turns IH]; intros k rng s Hb Hk Hle; cbn [build_loop].
  - by rewrite Z.add_0_r.
  - pose proof (draw_request_drawn (1000 + k) rng) as Hd. destruct (draw_request (1000 + k) rng) as [r rng'].
    replace (k + Z.of_nat (S turns)) with ((k + 1) + Z.of_nat turns) by lia.
    apply IH; [apply built_submit; [done|lia|done]|lia|lia].
Qed.

(** The property test, for every seed.  However many collectives (up to the
    turns of [drain_order]) [build] draws and whatever it draws, with any iteration
    orders of the hash maps and an accepting fabric [drain_order] completes every
    one of them exactly once, and nothing is left to start. *)
Theorem build_drains ordf gordf seed n :
  (forall s, enumerates (ordf s) (im_records s)) -> (n <= 400)%nat ->
  exists order s' w',
    returns (drain_order ordf gordf 400) (build n seed Scheduler_default, fabric_default) order (s', w') /\
    order ≡ₚ seqZ 1000 (Z.of_nat n) /\ (forall id, ~ can_start s' id) /\ idle s'.
Proof.
  intros Hord Hn. set (s := build n seed Scheduler_default).
  assert (built (Z.of_nat n) s) as [Hre He (Ha & Hx & Hq & Hg) Hsz Hr Hall].
  { assert (0 + Z.of_nat n <= 100000) as Hle by lia.
    pose proof (built_loop n 0 seed base built_base (Z.le_refl 0) Hle) as H. rewrite Z.add_0_l in H.
    unfold s, build. exact H. }
  clearbody s.
  assert (forall id, can_start s id <-> 1 <= id_value id <= Z.of_nat n) as Hc.
  { intros id. split; [by intros (r & Hid & _); apply (Hr id r Hid)|]. intros Hi. destruct (Hall (id_value id) Hi) as [r Hid].
    destruct id as [i]. destruct (Hr _ r Hid) as (_ & Hl & Hd). exists r. split; [done|].
    split; [unfold pending; rewrite Hl; by left|by eapply drawn_startable]. }
  assert (forall g (w : RecordingCollectiveFabric), (accept g w).1 = true) as Hw by reflexivity.
  pose proof (fx_policy _ He) as Epol.
  destruct (drain_all ordf gordf (mkId 11) (mkId 100) 400 s fabric_default Hw Hord) as
    (ids & s' & w' & E & _ & Hnd & Hids & _ & Hno & Hi').
  - split; [by apply reachable_wf|done|]. intros pid gid. unfold active_on. rewrite Hx, lookup_empty. apply not_elem_of_empty.
  - by rewrite Epol.
  - by rewrite Epol.
  - intros id r Hid _. destruct (Hr id r Hid) as (_ & _ & Hd). by eapply drawn_served.
  - rewrite Hg. cbn [id_value]. unfold U64_MAX. lia.
  - lia.
  - exists (collective_of s <$> ids), s', w'. split; [exact E|]. split; [|done].
    assert (ids ≡ₚ mkId <$> seqZ 1 (Z.of_nat n)) as ->.
    { apply NoDup_Permutation; [done|apply NoDup_fmap_2_strong; [by intros ? ? _ _ [=]|apply NoDup_seqZ]|]. intros [i].
      rewrite Hids, Hc, list_elem_of_fmap. cbn [id_value]. split.
      - intros Hi. exists i. split; [done|]. apply elem_of_seqZ. lia.
      - intros (j & [= ->] & Hj%elem_of_seqZ). lia. }
    assert (collective_of s <$> (mkId <$> seqZ 1 (Z.of_nat n)) = seqZ (999 + 1) (Z.of_nat n)) as ->; [|done].
    rewrite <- fmap_add_seqZ, <- list_fmap_compose. apply list_fmap_ext.
    intros k i Hi%list_elem_of_lookup_2%elem_of_seqZ. cbn [compose].
    destruct (Hall i) as [r Hid]; [lia|]. destruct (Hr _ r Hid) as (_ & _ & Hd). unfold collective_of.
    by rewrite (record_at_lookup _ _ _ Hid), (dw_collective _ _ Hd).
Qed.
Example build_drains_witness : exists order s' w',
  returns (drain_order (fun s => keys (im_records s)) (fun s => keys (im_grants s)) 400)
    (build 8 1 Scheduler_default, fabric_default) order (s', w') /\ order ≡ₚ [1000; 1001; 1002; 1003; 1004; 1005; 1006; 1007].
Proof.
  destruct (build_drains (fun s => keys (im_records s)) (fun s => keys (im_grants s)) 1 8
    (fun s => keys_enumerates (im_records s)) ltac:(lia)) as (order & s' & w' & E & Hp & _).
  exact (ex_intro _ order (ex_intro _ s' (ex_intro _ w' (conj E Hp)))).
Defined.

(** ** The other tests *)

(** property_insertion_order_independent. *)
Definition insertion_run (rev : bool) : result scheduler_error (list Z) :=
  let s := foldl (fun s i => exec (publishParticipant (P i 1 1 11)) s) Scheduler_default [1; 2; 3; 4] in
  let s := foldl (fun s i => exec (publishPlan (Plan i 1 CollectiveKind.ALL_REDUCE [i; i mod 4 + 1])) s) s [1; 2; 3] in
  let s := foldl (fun s c => exec (submit (Req c CollectiveKind.ALL_REDUCE [c; c mod 4 + 1] [1; 1] c 1
    OverlapMode.OVERLAP_LIMITED)) s) s (if rev then [3; 1; 2] else [1; 2; 3]) in
  eval (drain_order (fun s => keys (im_records s)) (fun s => keys (im_grants s)) 400) (s, fabric_default).
Example insertion_order_independent : insertion_run false = Ok [1; 3; 2] /\ insertion_run true = Ok [1; 3; 2].
Proof. split; by vm_compute. Qed.

(** property_hard_ineligible_never_wins: collective 1 binds a participant
    generation that is not the published one, with the highest priority. *)
Definition stale_run : Impl :=
  let s := foldl (fun s i => exec (publishParticipant (P i 1 1 11)) s) Scheduler_default [1; 2; 3; 4] in
  let s := exec (publishPlan (Plan 1 1 CollectiveKind.ALL_REDUCE [1; 2])) s in
  let s := exec (submit (Req 1 CollectiveKind.ALL_REDUCE [1; 2] [99; 99] 1 1 OverlapMode.UNKNOWN
    <| rq_priority ::= fun p => p <| prio_value := 100 |> <| prio_authoritative := true |> |>)) s in
  exec (submit (Req 2 CollectiveKind.ALL_REDUCE [1; 2] [1; 1] 1 1 OverlapMode.UNKNOWN)) s.
Definition selected_first (ord : list CollectiveRequestId) : list CollectiveRequestId :=
  match eval (schedule_round ord []) stale_run with Ok dec => dec_selected dec | Throw _ => [] end.
Example hard_ineligible_never_wins :
  selected_first [mkId 1; mkId 2] = [mkId 2] /\ selected_first [mkId 2; mkId 1] = [mkId 2].
Proof. split; by vm_compute. Qed.
