(* ===== verification/Starvation.v ===== *)
(** * Starvation: what promotion after [max_bypass_count] bypasses achieves

    The third ranking factor of [Impl::ranking_key] is the starvation pressure, a
    number between 0 and 1, replaced by 1000 for a collective that was passed over
    [max_bypass_count] times in a row.  The file proves both, and that a candidate
    that outranks the others is granted unless a running collective blocks it.
    The factor is one summand of the score among others, though, so that
    promotion is no guarantee: semantics_fairness_starvation_prevention
    (test_semantics.cpp), in which the promoted collective wins, is evaluated
    beside a run in which it is passed over in all of 100 rounds. *)
From S2P Require Import Prelude Enums Identity Error Float64 Domain Lifecycle Conflict State Helpers.
From S2P Require Import Eligibility Ranking Schedule Samples Rounds Ports Operations Safety Guarantees Drain PropertyTests.

(** ** The factor *)

(** Passed over as often as the policy allows. *)
Definition starved (p : PolicyConfig) (f : FairnessAccount) : bool :=
  fa_consecutive_bypasses f >=? pol_max_bypass_count p.

Lemma dle_not_lt a b : isnan a = false -> isnan b = false -> dlt b a = false -> dle a b = true.
Proof.
  intros Ha Hb H. pose proof (dlt_compare b a Hb Ha) as Hl. unfold dle, SpecFloat.SFleb.
  rewrite dcompare_total by done. destruct (double_compare a b) eqn:E; [done..|].
  apply (compare_gt_lt double_compare), Hl in E. congruence.
Qed.
(** The pressure is what the comment says: a value in \[0, 1\], unless it is NaN. *)
Lemma pressure_unit f fp : isnan (starvation_pressure f fp) = false ->
  dle d0 (starvation_pressure f fp) = true /\ dle (starvation_pressure f fp) d1 = true.
Proof.
  unfold starvation_pressure. destruct (negb _); [by split; vm_compute|]. cbv zeta.
  set (x := dadd _ _). destruct (dlt x d0) eqn:E0; [by split; vm_compute|].
  destruct (dgt x d1) eqn:E1; [by split; vm_compute|]. intros Hx.
  split; apply dle_not_lt; try done.
Qed.
(** Promotion: 1000 from [max_bypass_count] on, at most 1 before. *)
Lemma starvation_factor_promotes s r :
  if starved (im_policy s) (rec_fairness r) then starvation_factor s r = d1000
  else isnan (starvation_factor s r) = false ->
       dle d0 (starvation_factor s r) = true /\ dle (starvation_factor s r) d1 = true.
Proof.
  unfold starvation_factor, starved. destruct (_ >=? _); [done|]. apply pressure_unit.
Qed.

(** ** Who ranks first *)

Lemma sorted_head {A} (R : relation A) x l :
  StronglySorted R l -> x ∈ l -> (forall y, y ∈ l -> R y x -> y = x) -> exists l', l = x :: l'.
Proof.
  intros Hs Hx Hmin. destruct l as [|y l]; [by apply elem_of_nil in Hx|]. exists l. f_equal.
  apply StronglySorted_inv in Hs as [_ Hf]. rewrite Forall_forall in Hf.
  apply elem_of_cons in Hx as [->|Hx]; [done|]. apply Hmin; [left|by apply Hf].
Qed.

Section first.
Variables (s : Impl) (ord : list CollectiveRequestId) (id : CollectiveRequestId).
Abbreviation st := (round_state s).
Hypothesis Hready : round_ready s ord.
Hypothesis Hscores : scores_ordered st (round_candidates s ord).
Hypothesis Hcand : id ∈ round_candidates s ord.
(** [id] outranks the other candidates. *)
Hypothesis Hfirst : forall c, c ∈ round_candidates s ord -> c <> id ->
  ranked_before st (rank st id) (rank st c) = true.

Lemma ranked_first : exists l, round_ranking s ord = rank st id :: l.
Proof using Hscores Hcand Hfirst.
  apply (sorted_head (le_of (ranked_before st))).
  - apply (stable_sort_sorted _ (is_rank st)).
    + apply ranked_before_trans.
    + apply ranked_before_total.
    + by apply ranks_is_rank.
  - unfold round_ranking, ranked_list. rewrite stable_sort_perm. by apply list_elem_of_fmap_2.
  - intros y [E Hy]%elem_of_ranked_list Hle.
    destruct (decide (rk_id y = id)) as [Ei|Hid]; [by rewrite E, Ei|].
    pose proof (Hfirst _ Hy Hid) as Hb. rewrite <- E in Hb.
    assert (forall c, c ∈ round_candidates s ord -> is_rank st (rank st c)) as Hr.
    { intros c Hc. unfold scores_ordered in Hscores. rewrite Forall_forall in Hscores. by split; [|apply Hscores]. }
    pose proof (Hr _ Hcand) as Hx. pose proof (Hr _ Hy) as Hy'. rewrite <- E in Hy'.
    destruct Hle as [->|Hle]; [done|].
    pose proof (ranked_before_trans st _ _ _ Hx Hy' Hx Hb Hle) as Hxx.
    by rewrite (ranked_before_irrefl st _ Hx) in Hxx.
Qed.
(** With no running collective in its way and both bounds open it is selected. *)
Lemma first_selected r : u64 (im_active_grants s) -> im_records s !! id = Some r ->
  active_conflicts st (refreshed s r) = 0 ->
  im_active_grants s < max_active_grants (pol_bounds (im_policy s)) ->
  0 < max_overlap_group (pol_bounds (im_policy s)) -> exists l, round_selected s ord = id :: l.
Proof using Hscores Hcand Hfirst.
  intros Hu Hr Hac Hact Hgrp. unfold round_selected. destruct ranked_first as [l ->].
  assert (record_at st id = refreshed s r) as Era by (apply record_at_lookup; by rewrite round_state_lookup, Hr).
  rewrite select_cons. cbn [rk_id rank].
  assert (full_active st [] = false) as ->.
  { change (full_active st []) with (add64 (im_active_grants s) 0 >=? max_active_grants (pol_bounds (im_policy s))).
    unfold add64. rewrite Z.add_0_r, wrap64_small, Z.geb_leb, Z.leb_gt by done. lia. }
  assert (fits st [] id = true) as ->.
  { unfold fits. rewrite Era, Hac. by rewrite orb_true_r. }
  cbn [negb]. change (max_overlap_group (pol_bounds (im_policy st)))
    with (max_overlap_group (pol_bounds (im_policy s))).
  destruct (Z.geb_spec (size (A := CollectiveRequestId) []) (max_overlap_group (pol_bounds (im_policy s)))) as [H|_].
  { unfold size in H. simpl in H. lia. }
  destruct (is_exclusive st id); [by exists []|].
  destruct (select_sublist st l ([] ++ [id])) as (l' & -> & _). by exists l'.
Qed.
End first.

(** The same as a check. *)
Definition outranks (st : Impl) (id : CollectiveRequestId) (l : list CollectiveRequestId) : bool :=
  forallb (fun c => bool_decide (c = id) || ranked_before st (rank st id) (rank st c)) l.
Lemma outranks_all st id l : outranks st id l = true ->
  forall c, c ∈ l -> c <> id -> ranked_before st (rank st id) (rank st c) = true.
Proof.
  unfold outranks. rewrite forallb_Forall, Forall_forall. intros H c Hc Hne.
  by destruct (orb_prop _ _ (H c Hc)) as [?%bool_decide_eq_true_1|].
Qed.

(** A candidate that outranks the others, with no running collective in its way and
    both bounds open, is the first the round grants, and its bypass count is cleared. *)
Theorem first_granted s ord gord id r :
  let st := round_state s in
  let b := pol_bounds (im_policy s) in
  round_ready s ord -> u64 (im_active_grants s) -> scores_ordered st (round_candidates s ord) ->
  id ∈ round_candidates s ord -> im_records s !! id = Some r ->
  (forall c, c ∈ round_candidates s ord -> c <> id -> ranked_before st (rank st id) (rank st c) = true) ->
  active_conflicts st (refreshed s r) = 0 ->
  im_active_grants s < max_active_grants b -> 0 < max_overlap_group b ->
  exists dec s' l r', schedule_round ord gord s = (Ok dec, s') /\
    dec_selected dec = id :: l /\ im_records s' !! id = Some r' /\
    rec_request r' = rec_request r /\ rec_lifecycle r' = LifecycleState.GRANTED /\
    fa_consecutive_bypasses (rec_fairness r') = 0 /\ fa_starved (rec_fairness r') = false.
Proof.
  intros st b Hready Hu Hsc Hc Hr Hfirst Hac Hact Hgrp.
  destruct (schedule_round_outcome s ord gord Hready) as (dec & gs & s' & E & Hout).
  destruct (first_selected s ord id Hsc Hc Hfirst r Hu Hr Hac Hact Hgrp) as [l Hl].
  pose proof (ro_granted _ _ _ _ _ Hout) as Hg. rewrite (ro_selected _ _ _ _ _ Hout), Hl in Hg.
  apply Forall2_cons_inv_l in Hg as (g & gs' & (r0 & Hr0 & _ & _ & Hr' & _) & _ & _). simplify_eq.
  exists dec, s', l, (final_record s ord (Some g) id r). rewrite (ro_selected _ _ _ _ _ Hout).
  rewrite final_record_request, final_record_lifecycle, final_record_fairness, decide_True, Hl by done.
  rewrite bool_decide_true by left. by split_and!.
Qed.

(** ** Sustained competition *)

Section compete.
Context {W : Type} `{!Ports W}.
Variables (ordf : Impl -> list CollectiveRequestId) (gordf : Impl -> list CollectiveGrantId).

(** A collective on participants 1 and 2 with an authoritative priority. *)
Definition contender (serial value : Z) : CollectiveRequest :=
  Req serial CollectiveKind.ALL_REDUCE [1; 2] [1; 1] 1 1 OverlapMode.UNKNOWN
    <| rq_priority ::= fun p => p <| prio_value := value |> <| prio_authoritative := true |> |>.
(** The loop over [cycle]: a fresh collective of priority [value] arrives in every
    one; the cycle in which collective 1 was granted and completed, if any. *)
Fixpoint compete (cycles : nat) (cycle serial value : Z) : M scheduler_error (Impl * W) (option Z) :=
  match cycles with
  | O => mret None
  | S cycles' =>
      _ ← locked (submit (contender serial value));
      '(s, _) ← get_state;
      dec ← schedule (ordf s) (gordf s);
      if is_empty (dec_selected dec) then mret None
      else
        done ← drain_grants (mkId 11) (mkId 100) (dec_grants dec);
        if bool_decide (1 ∈ done) then mret (Some cycle)
        else compete cycles' (cycle + 1) (serial + 1) value
  end.
End compete.
(** The test up to its loop, with the weights and bypass count as given. *)
Definition compete_start (p : PolicyConfig) : Impl :=
  let s := Scheduler_default <| im_policy := p |> in
  let s := foldl (fun s i => exec (publishParticipant (P i 1 1 11)) s) s [1; 2] in
  let s := exec (publishPlan (Plan 1 1 CollectiveKind.ALL_REDUCE [1; 2])) s in
  exec (submit (contender 1 1)) s.
Definition compete_run (p : PolicyConfig) (cycles : nat) (value : Z) :=
  compete (W := RecordingCollectiveFabric) (fun s => keys (im_records s)) (fun s => keys (im_grants s))
    cycles 0 100 value (compete_start p, fabric_default).

(** semantics_fairness_starvation_prevention: the policy of the test. *)
Definition starvation_policy : PolicyConfig :=
  PolicyConfig_default <| pol_max_bypass_count := 3 |> <| pol_aging_growth := d_0_05 |>
    <| pol_w_starvation_risk := of_int 5 |> <| pol_w_fairness_deficit := of_int 5 |>.
(** What the test checks: collective 1, with priority 1 against 5, is granted in
    cycle 3, once it was passed over three times. *)
Example starvation_prevention : (compete_run starvation_policy 40 5).1 = Ok (Some 3).
Proof. by vm_compute. Qed.

(** The account of collective 1 after the run. *)
Definition victim (x : result scheduler_error (option Z) * (Impl * RecordingCollectiveFabric)) : option FairnessAccount :=
  rec_fairness <$> im_records x.2.1 !! mkId 1.
(** With the weights of the default policy promotion is worth 150000 points, and a
    point of priority is worth one: against priority 200000 collective 1 is
    passed over in all of 100 rounds, although [max_bypass_count] is 16. *)
Example promotion_outbid :
  (compete_run PolicyConfig_default 100 200000).1 = Ok None /\
  (fun f => (fa_consecutive_bypasses f, starved PolicyConfig_default f)) <$>
    victim (compete_run PolicyConfig_default 100 200000) = Some (100, true).
Proof. split; by vm_compute. Qed.

(** Collective 1 of the sample ranks first by its identity. *)
Example first_granted_witness : exists dec s' l r',
  schedule_round sample_order [] sample_state = (Ok dec, s') /\
  dec_selected dec = mkId 1 :: l /\ im_records s' !! mkId 1 = Some r' /\
  rec_request r' = request1 /\ rec_lifecycle r' = LifecycleState.GRANTED /\
  fa_consecutive_bypasses (rec_fairness r') = 0 /\ fa_starved (rec_fairness r') = false.
Proof.
  apply (first_granted sample_state sample_order [] (mkId 1) (sample_record request1 0) sample_ready).
  - by vm_compute.
  - apply (bool_decide_unpack _). by vm_compute.
  - apply (bool_decide_unpack _). by vm_compute.
  - reflexivity.
  - apply outranks_all. by vm_compute.
  - by vm_compute.
  - by vm_compute.
  - by vm_compute.
Defined.
