(* ===== verification/Refinement.v ===== *)
(** * Refinement: the scheduler implements an abstract grant authority

    The specification knows of each collective only the generation of its request
    and a phase: pending, granted, dispatching, running, completed, suspended or
    closed; and of grants only which ids were ever issued.  Its one rule for
    grants is that a pending collective may be granted an id never issued before.
    Every step of the machine of Safety (a round touches all the records at
    once) is a sequence of steps of the specification. *)
From S2P Require Import Prelude Enums Identity Error Float64 Domain Lifecycle Conflict State.
From S2P Require Import Eligibility Ranking Schedule Samples Rounds Ports Operations Safety Guarantees Requests.
From Stdlib Require Import Relations.

(** ** The specification *)
Record Spec : Set := mkSpec {
  sp_life : gmap CollectiveRequestId life;
  sp_issued : gset CollectiveGrantId;
}.
Inductive spec_step : Spec -> Spec -> Prop :=
  | spec_submit a id : sp_life a !! id = None ->
      spec_step a (mkSpec (<[id := (1, Pending)]> (sp_life a)) (sp_issued a))
  | spec_move a id x x' : sp_life a !! id = Some x -> move x x' ->
      spec_step a (mkSpec (<[id := x']> (sp_life a)) (sp_issued a))
  | spec_grant a id n g : sp_life a !! id = Some (n, Pending) -> g ∉ sp_issued a ->
      spec_step a (mkSpec (<[id := (n, Granted (Some g))]> (sp_life a)) ({[g]} ∪ sp_issued a)).
Definition spec_init : Spec := mkSpec ∅ ∅.

(** What the specification promises: two collectives never hold the same grant,
    whatever has become of them. *)
Definition holds (p : phase) : option CollectiveGrantId :=
  match p with Granted g | Dispatching g | Running g | Completed g => g | _ => None end.
Record exclusive (a : Spec) : Prop := {
  ex_issued : forall id n p g, sp_life a !! id = Some (n, p) -> holds p = Some g -> g ∈ sp_issued a;
  ex_unique : forall id1 id2 n1 n2 p1 p2 g, sp_life a !! id1 = Some (n1, p1) -> sp_life a !! id2 = Some (n2, p2) ->
    holds p1 = Some g -> holds p2 = Some g -> id1 = id2;
}.
Lemma move_holds n p n' p' : move (n, p) (n', p') -> holds p' = holds p \/ holds p' = None.
Proof. intros H. inversion H; subst; auto. Qed.
Lemma exclusive_insert a id x : exclusive a ->
  (forall g, holds x.2 = Some g -> g ∈ sp_issued a /\
     forall id' n p, id' <> id -> sp_life a !! id' = Some (n, p) -> holds p <> Some g) ->
  exclusive (mkSpec (<[id := x]> (sp_life a)) (sp_issued a)).
Proof.
  intros [H1 H2] Hx. split; cbn [sp_life sp_issued].
  - intros id' n p g [[<- ->]|[_ H]]%lookup_insert_Some Hp; [by apply Hx|by eapply H1].
  - intros id1 id2 n1 n2 p1 p2 g [[<- E1]|[Hn1 E1]]%lookup_insert_Some [[<- E2]|[Hn2 E2]]%lookup_insert_Some Hp1 Hp2;
      [done| | |by eapply H2].
    + subst x. by destruct (proj2 (Hx g Hp1) id2 n2 p2).
    + subst x. by destruct (proj2 (Hx g Hp2) id1 n1 p1).
Qed.
Lemma spec_step_exclusive a b : spec_step a b -> exclusive a -> exclusive b.
Proof.
  intros Hs [H1 H2]. destruct Hs as [a id Hid|a id [n p] [n' p'] Hid Hm|a id n g Hid Hg].
  - by apply exclusive_insert.
  - apply exclusive_insert; [done|]. intros g Hp. cbn [snd] in Hp.
    assert (holds p = Some g) as Hp0 by (destruct (move_holds _ _ _ _ Hm); congruence).
    split; [by eapply H1|]. intros id' n0 p0 Hne Hid' Hp'. by destruct Hne; eapply H2.
  - refine (exclusive_insert (mkSpec (sp_life a) ({[g]} ∪ sp_issued a)) id (n, Granted (Some g)) _ _).
    + split; cbn [sp_life sp_issued]; [|done]. intros. apply elem_of_union_r. by eapply H1.
    + cbn [snd holds sp_life sp_issued]. intros g' [= <-]. split; [by apply elem_of_union_l, elem_of_singleton|].
      intros id' n0 p0 _ Hid' Hp'. apply Hg. by eapply H1.
Qed.

(** ** Many collectives at once *)

(** One entry of a list of changes: the collective, its new life, the id issued. *)
Definition change : Set := CollectiveRequestId * life * option CollectiveGrantId.
Definition allowed (a : Spec) (c : change) : Prop :=
  exists x, sp_life a !! c.1.1 = Some x /\
  match c.2 with
  | None => moves x c.1.2
  | Some g => exists n, x = (n, Pending) /\ c.1.2 = (n, Granted (Some g)) /\ g ∉ sp_issued a
  end.
Lemma spec_moves a id x x' : sp_life a !! id = Some x -> moves x x' ->
  rtc spec_step a (mkSpec (<[id := x']> (sp_life a)) (sp_issued a)).
Proof.
  intros Hx Hm. revert a Hx. induction Hm as [x|x y z Hxy Hyz IH]; intros a Hx.
  - rewrite insert_id by done. by destruct a.
  - eapply rtc_l; [by apply (spec_move a id x y)|].
    specialize (IH (mkSpec (<[id := y]> (sp_life a)) (sp_issued a))). cbn [sp_life sp_issued] in IH.
    rewrite insert_insert_eq in IH. apply IH, lookup_insert_eq.
Qed.
Lemma spec_changes a (cs : list change) : NoDup cs.*1.*1 -> NoDup (omap snd cs) -> Forall (allowed a) cs ->
  rtc spec_step a (mkSpec (list_to_map cs.*1 ∪ sp_life a) (list_to_set (omap snd cs) ∪ sp_issued a)).
Proof.
  induction cs as [|[[id x'] og] cs IH]; intros Hn Hg Hall.
  { cbn. rewrite !(left_id_L ∅ (∪)). by destruct a. }
  rewrite !fmap_cons in Hn. apply NoDup_cons in Hn as [Hid Hn]. apply Forall_cons in Hall as [(x & Hx & Hc) Hall].
  cbn [fst snd] in *. rewrite !fmap_cons. cbn [fst].
  change (list_to_map (M := gmap CollectiveRequestId life) ((id, x') :: cs.*1)) with
    (<[id := x']> (list_to_map (M := gmap CollectiveRequestId life) cs.*1)).
  rewrite <- insert_union_l.
  set (b := mkSpec (list_to_map cs.*1 ∪ sp_life a) (list_to_set (omap snd cs) ∪ sp_issued a)) in *.
  assert (sp_life b !! id = Some x) as Hb.
  { cbn [b sp_life]. rewrite lookup_union_r; [done|]. by apply not_elem_of_list_to_map. }
  destruct og as [g|].
  - change (omap snd ((id, x', Some g) :: cs)) with (g :: omap snd cs) in *. apply NoDup_cons in Hg as [Hgn Hg].
    destruct Hc as (n & -> & -> & Hiss). etrans; [by apply IH|]. eapply rtc_l; [apply (spec_grant b id n g Hb)|].
    + cbn [b sp_issued]. rewrite elem_of_union, elem_of_list_to_set. tauto.
    + cbn [b sp_issued sp_life]. rewrite list_to_set_cons, <- union_assoc_L. apply rtc_refl.
  - change (omap snd ((id, x', None) :: cs)) with (omap snd cs) in *. etrans; [by apply IH|]. by apply (spec_moves b id x x').
Qed.

(** ** The simulation *)

(** The specification state of a scheduler: the collectives' lives, and only
    grant ids below the counter issued. *)
Record implements (s : Impl) (a : Spec) : Prop := {
  im_life : sp_life a = life_of <$> im_records s;
  im_issued : forall g, g ∈ sp_issued a -> id_value g < id_value (im_next_grant_id s);
}.
Definition simulated (s s' : Impl) : Prop :=
  forall a, implements s a -> exists a', rtc spec_step a a' /\ implements s' a'.

Lemma simulated_same s s' : life_of <$> im_records s' = life_of <$> im_records s ->
  im_next_grant_id s' = im_next_grant_id s -> simulated s s'.
Proof. intros Er En a [Hl Hi]. exists a. split; [apply rtc_refl|]. split; [by rewrite Er|by rewrite En]. Qed.

(** From changes of every record to a simulation. *)
Section pointwise.
Variables (s s' : Impl) (og : CollectiveRequestId -> SRecord -> option CollectiveGrantId).
Hypothesis Hkeys : forall id, is_Some (im_records s !! id) <-> is_Some (im_records s' !! id).
Definition changes : list change :=
  (fun kr => (kr.1, life_of kr.2, og kr.1 kr.2)) <$> map_to_list (im_records s').
Lemma changes_issued : omap snd changes = omap (fun kr => og kr.1 kr.2) (map_to_list (im_records s')).
Proof.
  unfold changes. induction (map_to_list (im_records s')) as [|[k r] l IH]; [done|].
  unfold omap in *. cbn. destruct (og k r); [by f_equal|done].
Qed.
Lemma changes_ids : changes.*1 = (prod_map id life_of) <$> map_to_list (im_records s').
Proof. unfold changes. rewrite <- list_fmap_compose. by apply list_fmap_ext. Qed.
Lemma changes_result a : sp_life a = life_of <$> im_records s ->
  list_to_map changes.*1 ∪ sp_life a = life_of <$> im_records s'.
Proof using Hkeys.
  intros Hl. rewrite changes_ids, list_to_map_fmap, list_to_map_to_list.
  apply map_eq. intros id. rewrite lookup_union, !lookup_fmap, Hl, lookup_fmap.
  destruct (im_records s' !! id) as [r'|] eqn:E'; simpl.
  - by destruct (im_records s !! id).
  - destruct (im_records s !! id) as [r|] eqn:E; [|done].
    destruct (proj1 (Hkeys id) (ex_intro _ r E)) as [r' Hr']. congruence.
Qed.
Lemma changes_NoDup : NoDup changes.*1.*1.
Proof.
  rewrite changes_ids, <- list_fmap_compose.
  rewrite (list_fmap_ext _ fst) by done. apply NoDup_fst_map_to_list.
Qed.
Lemma pointwise_simulated :
  (forall id r r', im_records s !! id = Some r -> im_records s' !! id = Some r' ->
     match og id r' with
     | None => moves (life_of r) (life_of r')
     | Some g => exists n, life_of r = (n, Pending) /\ life_of r' = (n, Granted (Some g)) /\
         id_value (im_next_grant_id s) <= id_value g < id_value (im_next_grant_id s')
     end) ->
  (forall id1 id2 r1 r2 g, im_records s' !! id1 = Some r1 -> im_records s' !! id2 = Some r2 ->
     og id1 r1 = Some g -> og id2 r2 = Some g -> id1 = id2) ->
  id_value (im_next_grant_id s) <= id_value (im_next_grant_id s') ->
  simulated s s'.
Proof using Hkeys.
  intros Hmv Huniq Hle a [Hl Hi].
  exists (mkSpec (list_to_map changes.*1 ∪ sp_life a) (list_to_set (omap snd changes) ∪ sp_issued a)). split.
  - apply spec_changes; [apply changes_NoDup| |].
    + rewrite changes_issued.
      pose proof (NoDup_map_to_list (im_records s')) as Hn.
      assert (forall kr, kr ∈ map_to_list (im_records s') -> im_records s' !! kr.1 = Some kr.2) as Hin
        by (intros [k r] Hkr; by apply elem_of_map_to_list).
      revert Hn Hin. generalize (map_to_list (im_records s')) as l.
      induction l as [|[k r] l IH]; intros Hn Hin; [constructor|]. apply NoDup_cons in Hn as [Hkr Hn].
      simpl. destruct (og k r) as [g|] eqn:Eg; [|apply IH; [done|intros; apply Hin; by right]].
      constructor; [|apply IH; [done|intros; apply Hin; by right]].
      intros ([k2 r2] & Hk2 & E2)%list_elem_of_omap. cbn in E2.
      assert (k = k2) as <-.
      { eapply (Huniq k k2 r r2 g); [apply (Hin (k, r)); left|apply (Hin (k2, r2)); by right|done|done]. }
      pose proof (Hin (k, r) ltac:(left)) as H1. pose proof (Hin (k, r2) ltac:(by right)) as H2. cbn in *. congruence.
    + apply Forall_forall. intros c ([id r'] & -> & Hr')%list_elem_of_fmap.
      apply elem_of_map_to_list in Hr'. destruct (proj2 (Hkeys id)) as [r Hr]; [by eexists|].
      exists (life_of r). cbn. split; [by rewrite Hl, lookup_fmap, Hr|].
      specialize (Hmv id r r' Hr Hr'). destruct (og id r') as [g|]; [|done].
      destruct Hmv as (n & ? & ? & ? & ?). exists n. split_and!; [done..|]. intros Hg%Hi. lia.
  - split; cbn [sp_life sp_issued]; [by apply changes_result|].
    intros g [Hg|Hg%Hi]%elem_of_union; [|lia].
    apply elem_of_list_to_set, list_elem_of_omap in Hg as (c & ([id r'] & -> & Hr')%list_elem_of_fmap & Eg).
    apply elem_of_map_to_list in Hr'. destruct (proj2 (Hkeys id)) as [r Hr]; [by eexists|].
    specialize (Hmv id r r' Hr Hr'). cbn in Eg. rewrite Eg in Hmv. destruct Hmv as (n & _ & _ & _ & ?). lia.
Qed.
End pointwise.

Lemma quiet_simulated s s' : quiet s s' -> simulated s s'.
Proof.
  intros [C Hr _]. unfold counters in C. injection C as _ E2 _ _ _.
  apply (pointwise_simulated s s' (fun _ _ => None)).
  - intros id. specialize (Hr id). destruct Hr; [|done]. by split; eexists.
  - intros id r r' H1 H2. specialize (Hr id). rewrite H1, H2 in Hr. inversion Hr as [? ? [_ [_ ?]]|]; by subst.
  - done.
  - by rewrite E2.
Qed.

(** ** Each step *)

Lemma submit_simulated req s : wf s -> simulated s (exec (submit req) s).
Proof.
  intros Hwf. unfold exec. destruct (decide (full s)) as [Hf|Hf].
  { destruct (submit_full req s Hf) as (e & -> & _). by apply simulated_same. }
  destruct (validate_request (filed s req) (im_policy s)) as [[]|e] eqn:Hv.
  2: { rewrite (submit_invalid req s e Hf Hv). by apply simulated_same. }
  destruct (submit_valid req s Hwf Hf Hv) as (s' & E & Hfl & Hnone & _ & _ & _ & _ & _ & En).
  rewrite E. intros a [Hl Hi]. exists (mkSpec (<[im_next_request_id s := (1, Pending)]> (sp_life a)) (sp_issued a)).
  split.
  - apply rtc_once, spec_submit. by rewrite Hl, lookup_fmap, Hnone.
  - split; cbn [snd sp_life sp_issued]; [|by rewrite En].
    by rewrite (fl_records _ _ _ _ Hfl), fmap_insert, Hl.
Qed.

(** A round: the records it grants go from pending to granted, the others keep
    their phase or are suspended by their readiness. *)
Lemma refreshed_pending s r : candidate_ok s (refreshed s r) ->
  phase_of (rec_lifecycle r) (g_id <$> rec_current_grant r) = Pending.
Proof.
  intros Hok. pose proof (co_lifecycle _ _ Hok) as Hl.
  destruct (rf_lifecycle _ _ _ (refresh_record_frame s r)) as [E|(Hb & _)].
  - rewrite E in Hl. set_unfold in Hl. by destruct Hl as [->|[->|[->|[]]]].
  - by destruct (rec_lifecycle r).
Qed.
Lemma refreshed_moves s ord id r : moves (life_of r) (life_of (final_record s ord None id r)).
Proof.
  unfold life_of. rewrite final_record_request, final_record_lifecycle, final_record_grant.
  destruct (rf_lifecycle _ _ _ (refresh_record_frame s r)) as [->|(Hb & _ & Hl)]; [done|].
  assert (phase_of (rec_lifecycle r) (g_id <$> rec_current_grant r) = Pending) as -> by by destruct (rec_lifecycle r).
  set_unfold in Hl. destruct Hl as [->|[->|[->|[]]]]; [done|done|]. by apply rtc_once, mv_suspend.
Qed.

Section round_simulated.
Variables (s : Impl) (ord : list CollectiveRequestId) (dec : ScheduleDecision)
  (gs : list CollectiveGrant) (s' : Impl).
Hypothesis Hwf : wf s.
Hypothesis Hready : round_ready s ord.
Hypothesis Hout : round_outcome s ord dec gs s'.

Definition granted_id (id : CollectiveRequestId) (r : SRecord) : option CollectiveGrantId :=
  if decide (id ∈ dec_selected dec) then g_id <$> rec_current_grant r else None.
Lemma selected_granted id : id ∈ dec_selected dec -> exists g, granted_in s s' ord id g.
Proof using Hout.
  intros [i Hi]%list_elem_of_lookup.
  destruct (Forall2_lookup_l _ _ _ _ _ (ro_granted _ _ _ _ _ Hout) Hi) as (g & _ & Hg). by exists g.
Qed.
Lemma granted_id_spec id r' g : im_records s' !! id = Some r' -> granted_id id r' = Some g -> exists gr,
  granted_in s s' ord id gr /\ g_id gr = g /\ g_request gr = id.
Proof using Hready Hout.
  unfold granted_id. case_decide as Hin; [|done]. intros Hr' Hg.
  destruct (selected_granted id Hin) as (gr & Hgr). exists gr. split; [done|].
  pose proof Hgr as (r & Hr & _ & Eg & Hr2 & _). rewrite Hr' in Hr2. injection Hr2 as ->.
  rewrite final_record_grant in Hg. injection Hg as Hg. split; [done|]. rewrite Eg. by apply (rr_keyed _ _ Hready).
Qed.
Lemma round_simulated : simulated s s'.
Proof using Hwf Hready Hout.
  apply (pointwise_simulated s s' granted_id).
  - intros id. pose proof (round_records_safe s ord dec gs s' Hwf Hout id) as H.
    destruct (im_records s !! id), (im_records s' !! id); try done; split; by eexists.
  - intros id r r' Hr Hr'. destruct (granted_id id r') as [g|] eqn:Eg.
    + destruct (granted_id_spec id r' g Hr' Eg) as (gr & (r0 & Hr0 & Hok & _ & Hr2 & Hgs & Hle) & <- & _).
      rewrite Hr in Hr0. injection Hr0 as <-. rewrite Hr' in Hr2. injection Hr2 as ->.
      exists (gen_value (rq_gen (rec_request r))). unfold life_of.
      rewrite (refreshed_pending _ _ Hok), final_record_request, final_record_lifecycle, final_record_grant.
      split_and!; [done|done|done|]. apply (ro_fresh _ _ _ _ _ Hout). by eexists.
    + unfold granted_id in Eg. case_decide as Hin.
      * destruct (selected_granted id Hin) as (g & r0 & _ & _ & _ & Hr2 & _).
        rewrite Hr' in Hr2. injection Hr2 as ->. by rewrite final_record_grant in Eg.
      * rewrite (ro_records _ _ _ _ _ Hout id Hin), Hr in Hr'. injection Hr' as <-. apply refreshed_moves.
  - intros id1 id2 r1 r2 g H1 H2 E1 E2.
    destruct (granted_id_spec id1 r1 g H1 E1) as (g1 & (_ & _ & _ & _ & _ & G1 & _) & K1 & <-).
    destruct (granted_id_spec id2 r2 g H2 E2) as (g2 & (_ & _ & _ & _ & _ & G2 & _) & K2 & <-).
    rewrite K1 in G1. rewrite K2, G1 in G2. unfold fresh_grant in G2. by injection G2 as ->.
  - apply (ro_new _ _ _ _ _ Hout).
Qed.
End round_simulated.

Lemma step_simulated s s' : wf s -> step s s' -> simulated s s'.
Proof.
  intros Hwf Hs. destruct Hs.
  - apply quiet_simulated, quiet_publishParticipant.
  - unfold publishPlan. rewrite exec_get, exec_guard. destruct (regresses _ _ _); by apply simulated_same.
  - unfold publishDependency. rewrite exec_get, exec_guard. destruct (regresses _ _ _); by apply simulated_same.
  - by apply simulated_same.
  - unfold publishCongestion. rewrite exec_get, exec_guard. destruct (regresses _ _ _); by apply simulated_same.
  - unfold publishCapacity. rewrite exec_get, exec_guard. destruct (regresses _ _ _); by apply simulated_same.
  - by apply simulated_same.
  - by apply submit_simulated.
  - apply quiet_simulated, quiet_supersede.
  - by apply quiet_simulated, quiet_cancel.
  - unfold advanceCoordinatorEpoch. rewrite exec_get, exec_guard. destruct (_ <=? _); by apply simulated_same.
  - by apply simulated_same.
  - pose proof (wf_round_ready s ord Hwf H H0) as Hready.
    destruct (schedule_round_outcome s ord gord Hready) as (dec & gs & s' & E & Hout).
    unfold exec. rewrite E. by eapply round_simulated.
  - apply quiet_simulated, quiet_handoff_begin.
  - apply quiet_simulated, quiet_handoff_finish.
  - apply quiet_simulated, quiet_complete.
  - by apply quiet_simulated, quiet_fence.
Qed.
Lemma run_simulated s s' : wf s -> run s s' -> simulated s s'.
Proof.
  intros Hwf Hrun. induction Hrun as [s|s s1 s2 Hs Hrun IH]; [by apply simulated_same|].
  intros a Ha. destruct (step_simulated s s1 Hwf Hs a Ha) as (b & Hab & Hb).
  destruct (IH (proj1 (step_safe _ _ Hwf Hs)) b Hb) as (c & Hbc & Hc). exists c. split; [by etrans|done].
Qed.
Lemma spec_reachable_exclusive a : rtc spec_step spec_init a -> exclusive a.
Proof.
  intros H. assert (exclusive spec_init) as Hi by by split. revert Hi.
  induction H as [|a b c Hab _ IH]; [done|]. intros Ha. by eapply IH, spec_step_exclusive.
Qed.

(** C2: the scheduler refines the specification: a reachable state implements a
    reachable state of the specification, and whatever run the scheduler makes
    from it, the specification has a run to a state the scheduler's new state
    implements.  So in every reachable state two collectives never hold the same
    grant, be they granted, dispatching, running or completed. *)
Theorem scheduler_refines s s' : reachable s -> run s s' -> exists a a',
  rtc spec_step spec_init a /\ implements s a /\
  rtc spec_step a a' /\ implements s' a' /\ exclusive a' /\
  (forall id1 id2 r1 r2 n1 n2 p1 p2 g, im_records s' !! id1 = Some r1 -> im_records s' !! id2 = Some r2 ->
     life_of r1 = (n1, p1) -> life_of r2 = (n2, p2) -> holds p1 = Some g -> holds p2 = Some g -> id1 = id2).
Proof.
  intros (epoch & policy & Hr) Hrun.
  assert (implements (Scheduler_new epoch policy) spec_init) as H0.
  { split; [|done]. symmetry. apply fmap_empty. }
  destruct (run_simulated _ _ (wf_new epoch policy) Hr _ H0) as (a & Ha & Hsa).
  pose proof (proj1 (run_safe _ _ (wf_new epoch policy) Hr)) as Hwf.
  destruct (run_simulated _ _ Hwf Hrun _ Hsa) as (a' & Haa' & Hsa').
  assert (exclusive a') as Hx by (apply spec_reachable_exclusive; by etrans).
  exists a, a'. split_and!; try done. intros id1 id2 r1 r2 n1 n2 p1 p2 g H1 H2 L1 L2 P1 P2.
  apply (ex_unique _ Hx id1 id2 n1 n2 p1 p2 g); try done; by rewrite (im_life _ _ Hsa'), lookup_fmap, ?H1, ?H2; simpl; f_equal.
Qed.
Example scheduler_refines_witness : exists a a', implements sample_granted a /\
  rtc spec_step a a' /\ implements sample_active a' /\ exclusive a'.
Proof.
  destruct (scheduler_refines _ _ sample_granted_reachable sample_active_run) as (a & a' & _ & H1 & H2 & H3 & H4 & _).
  exists a, a'. exact (conj H1 (conj H2 (conj H3 H4))).
Defined.
