(* ===== verification/Persistence.v ===== *)
(** * Persistence: saving and restoring the durable state

    [Scheduler::serializeState], [Scheduler::deserializeState] (scheduler.cpp)
    and [Persistence::save], [restore], [header] (persistence.cpp).  The records
    are written in the iteration order [ord] of their hash map. *)
From S2P Require Import Prelude Enums Identity Error Float64 Domain Lifecycle Conflict Codec Serialize.
From S2P Require Import State Eligibility Ranking Schedule Samples Rounds Ports Operations Safety Guarantees.

(** ** The durable state *)

(** [persist_enum_ok]: the byte names an enumerator. *)
Definition persist_enum_ok (v : LifecycleState.t) : bool :=
  match v with LifecycleState.other _ => false | _ => true end.

(** The body of the record loop. *)
Definition serialize_record (r : SRecord) : list Z :=
  serialize_request (rec_request r) ++
  w_enum (rec_lifecycle r) ++
  w_u64 (rec_enqueue_seq r) ++
  w_u64 (rec_age_ticks r) ++
  serialize_fairness (rec_fairness r).
Definition deserialize_record : R SRecord :=
  request ← deserialize_request;
  lc ← r_enum;
  lift (throw_if (negb (persist_enum_ok lc))
    (throw_malformed "invalid lifecycle enum in persistence"));;
  seq ← r_u64;
  age ← r_u64;
  fairness ← deserialize_fairness;
  mret (SRecord_default
    <| rec_request := request |>
    <| rec_lifecycle := lc |>
    <| rec_enqueue_seq := seq |>
    <| rec_age_ticks := age |>
    <| rec_fairness := fairness |>).

(** The ten counters and the record count that precede the records. *)
Record Counters : Set := mkCounters {
  ct_epoch : CoordinatorEpoch;
  ct_request_id : CollectiveRequestId;
  ct_schedule_id : CollectiveScheduleId;
  ct_grant_id : CollectiveGrantId;
  ct_group_id : CollectiveGroupId;
  ct_schedule_gen : CollectiveScheduleGeneration;
  ct_grant_gen : CollectiveGrantGeneration;
  ct_group_gen : CollectiveGroupGeneration;
  ct_seq : Z;
  ct_policy_gen : PolicyGeneration;
}.
Definition counters_of (s : Impl) : Counters := {|
  ct_epoch := im_epoch s;
  ct_request_id := im_next_request_id s;
  ct_schedule_id := im_next_schedule_id s;
  ct_grant_id := im_next_grant_id s;
  ct_group_id := im_next_group_id s;
  ct_schedule_gen := im_next_schedule_gen s;
  ct_grant_gen := im_next_grant_gen s;
  ct_group_gen := im_next_group_gen s;
  ct_seq := im_next_seq s;
  ct_policy_gen := im_policy_gen s;
|}.
Definition serialize_counters (c : Counters) : list Z :=
  w_gen (ct_epoch c) ++ w_id (ct_request_id c) ++ w_id (ct_schedule_id c) ++
  w_id (ct_grant_id c) ++ w_id (ct_group_id c) ++ w_gen (ct_schedule_gen c) ++
  w_gen (ct_grant_gen c) ++ w_gen (ct_group_gen c) ++ w_u64 (ct_seq c) ++ w_gen (ct_policy_gen c).
Definition deserialize_counters : R Counters :=
  epoch ← r_gen; nrid ← r_id; nsid ← r_id; ngid ← r_id; ngrpid ← r_id;
  nschedule_gen ← r_gen; ngrant_gen ← r_gen; ngroup_gen ← r_gen;
  nseq ← r_u64; npol ← r_gen;
  mret (mkCounters epoch nrid nsid ngid ngrpid nschedule_gen ngrant_gen ngroup_gen nseq npol).

(** [Scheduler::serializeState]. *)
Definition serializeState (s : Impl) (ord : list CollectiveRequestId) : list Z :=
  serialize_counters (counters_of s) ++
  w_u64 (Z.of_nat (base.size (im_records s))) ++
  concat ((fun id => serialize_record (record_at s id)) <$> ord).

(** The loop that files and indexes the records read. *)
Definition install_record (s : Impl) (r : SRecord) : Impl :=
  let id := rq_id (rec_request r) in
  index_request id (rq_participants (rec_request r)) s
    <| im_records ::= fun m => match m !! id with Some _ => m | None => <[id := r]> m end |>.
(** The assignments of [Scheduler::deserializeState], after everything is read. *)
Definition install_counters (c : Counters) (s : Impl) : Impl :=
  s
    <| im_epoch := ct_epoch c |>
    <| im_next_request_id := ct_request_id c |>
    <| im_next_schedule_id := ct_schedule_id c |>
    <| im_next_grant_id := ct_grant_id c |>
    <| im_next_group_id := ct_group_id c |>
    <| im_next_schedule_gen := ct_schedule_gen c |>
    <| im_next_grant_gen := ct_grant_gen c |>
    <| im_next_group_gen := ct_group_gen c |>
    <| im_next_seq := ct_seq c |>
    <| im_policy_gen := ct_policy_gen c |>
    <| im_records := ∅ |>
    <| im_participant_requests := ∅ |>
    <| im_grants := ∅ |>
    <| im_active_by_participant := ∅ |>
    <| im_active_grants := 0 |>.
Definition install (c : Counters) (recs : list SRecord) (s : Impl) : Impl :=
  foldl install_record (install_counters c s) recs.
(** [Scheduler::deserializeState]: the state afterwards.  Every throw comes
    before the first assignment. *)
Definition deserializeState (s : Impl) : R Impl :=
  c ← deserialize_counters;
  nrec ← r_u64;
  lift (throw_if (nrec >? max_history_records (pol_bounds (im_policy s)))
    (throw_bounds "persistence record count exceeds bound"));;
  recs ← read_vec nrec deserialize_record;
  mret (install c recs s).

(** ** Files *)
Definition kMagic : Z := 0x43535058.
Definition kVersion : Z := 1.
Definition kCheckSeed : Z := 0x4b2f9a8d1c7e3f5a.

(** [Persistence::header]. *)
Definition header : list Z := w_u32 kMagic ++ w_u16 kVersion.
(** [Persistence::save]. *)
Definition save (s : Impl) (ord : list CollectiveRequestId) : list Z :=
  let w := header ++ serializeState s ord in
  w ++ w_u64 (fnv1a64 w kCheckSeed).

(** Run a reader of a fresh buffer inside a scheduler operation. *)
Definition reading {A} (rd : R A) (r : Reader) : res (A * Reader) :=
  match rd r with (Ok a, r') => Ok (a, r') | (Throw e, _) => Throw e end.
(** [Persistence::restore]. *)
Definition restore (bytes : list Z) : SM unit :=
  let len := Z.of_nat (length bytes) in
  lift (throw_if (len <? 4 + 2 + 8) (throw_malformed "persistence truncated"));;
  '(magic, head) ← lift (reading r_u32 (make_reader bytes len len));
  '(ver, _) ← lift (reading r_u16 head);
  lift (throw_if (negb (magic =? kMagic)) (throw_malformed "bad persistence magic"));;
  lift (throw_if (negb (ver =? kVersion)) (throw_malformed "unsupported persistence version"));;
  let body_len := len - 8 in
  let stored := get_le 8 (drop (Z.to_nat body_len) bytes) in
  let calc := fnv1a64 (take (Z.to_nat body_len) bytes) kCheckSeed in
  lift (throw_if (negb (stored =? calc)) (throw_malformed "persistence checksum mismatch"));;
  let state_len := body_len - 6 in
  s ← get_state;
  '(s', r) ← lift (reading (deserializeState s) (make_reader (drop 6 bytes) state_len state_len));
  put_state s';;
  lift (reading expect_end r);;
  resetDynamicStateForRecovery.

(** ** Records and counters as durable data *)

(** What of a record reaches the file. *)
Definition durable (r : SRecord) : SRecord := SRecord_default
  <| rec_request := rec_request r |>
  <| rec_lifecycle := rec_lifecycle r |>
  <| rec_enqueue_seq := rec_enqueue_seq r |>
  <| rec_age_ticks := rec_age_ticks r |>
  <| rec_fairness := rec_fairness r |>.
Record durable_ok (r : SRecord) : Prop := {
  du_request : CollectiveRequest_ok (rec_request r);
  du_lifecycle : persist_enum_ok (rec_lifecycle r) = true;
  du_seq : u64 (rec_enqueue_seq r);
  du_age : u64 (rec_age_ticks r);
  du_fairness : FairnessAccount_ok (rec_fairness r);
}.
Record Counters_ok (c : Counters) : Prop := {
  ok_ct_epoch : gen_ok (ct_epoch c);
  ok_ct_request_id : id_ok (ct_request_id c);
  ok_ct_schedule_id : id_ok (ct_schedule_id c);
  ok_ct_grant_id : id_ok (ct_grant_id c);
  ok_ct_group_id : id_ok (ct_group_id c);
  ok_ct_schedule_gen : gen_ok (ct_schedule_gen c);
  ok_ct_grant_gen : gen_ok (ct_grant_gen c);
  ok_ct_group_gen : gen_ok (ct_group_gen c);
  ok_ct_seq : u64 (ct_seq c);
  ok_ct_policy_gen : gen_ok (ct_policy_gen c);
}.
#[export] Instance rt_Counters : RoundTrip Counters_ok serialize_counters deserialize_counters.
Proof. solve_round_trip. Qed.

Lemma persist_enum_u8 l : persist_enum_ok l = true -> enum_ok l.
Proof. by destruct l. Qed.
Lemma reads_record r : durable_ok r -> reads deserialize_record (serialize_record r) (durable r).
Proof.
  intros [H1 H2 H3 H4 H5]. unfold deserialize_record, serialize_record.
  eapply reads_bind; [by apply round_trip|].
  eapply reads_bind; [apply (round_trip (ok := enum_ok)); by apply persist_enum_u8|].
  apply reads_guard; [by rewrite H2|].
  eapply reads_bind; [by apply (round_trip (ok := u64))|].
  eapply reads_bind; [by apply (round_trip (ok := u64))|].
  eapply reads_bind_last; [by apply round_trip|apply reads_ret].
Qed.
(** Serializing ignores what is not durable. *)
#[export] Instance rt_record :
  RoundTrip (fun r => durable_ok r /\ durable r = r) serialize_record deserialize_record.
Proof.
  split.
  - intros r [Hr E]. pose proof (reads_record r Hr) as H. by rewrite E in H.
  - intros []. discriminate.
  - intros r [[H1 H2 H3 H4 H5] _]. unfold serialize_record.
    split_bytes; [by apply ser_bytes|apply (ser_bytes (ok := enum_ok)); by apply persist_enum_u8|
      by apply (ser_bytes (ok := u64))..|by apply ser_bytes].
Qed.
Lemma durable_durable r : durable_ok r -> durable_ok (durable r) /\ durable (durable r) = durable r.
Proof. by intros []. Qed.

(** ** The durable state *)

(** The values of the state fit the file format, and records are filed under
    their ids. *)
Record state_ok (s : Impl) : Prop := {
  so_counters : Counters_ok (counters_of s);
  so_records : map_Forall (fun id r => durable_ok r /\ rq_id (rec_request r) = id) (im_records s);
  so_count : Z.of_nat (base.size (im_records s)) < 2 ^ 64;
}.
Lemma enumerates_length {K A} `{Countable K} (ord : list K) (m : gmap K A) :
  enumerates ord m -> length ord = base.size m.
Proof.
  intros Ho. rewrite (Permutation_length (enumerates_perm m ord (keys m) Ho (keys_enumerates m))).
  unfold keys. by rewrite length_fmap, length_map_to_list.
Qed.
Lemma record_at_ok s id : state_ok s -> is_Some (im_records s !! id) ->
  durable_ok (record_at s id) /\ rq_id (rec_request (record_at s id)) = id.
Proof. intros Hs [r Hr]. rewrite (record_at_lookup _ _ _ Hr). by apply (so_records s Hs). Qed.

(** What the file says of the records, in the order it was written. *)
Definition durable_records (s : Impl) (ord : list CollectiveRequestId) : list SRecord :=
  (fun id => durable (record_at s id)) <$> ord.
Lemma serialize_durable s ord :
  concat ((fun id => serialize_record (record_at s id)) <$> ord) =
  concat (serialize_record <$> durable_records s ord).
Proof. unfold durable_records. by rewrite <- list_fmap_compose. Qed.

(** The reading half of [deserializeState]. *)
Lemma reads_state s ord s0 : state_ok s -> enumerates ord (im_records s) ->
  Z.of_nat (base.size (im_records s)) <= max_history_records (pol_bounds (im_policy s0)) ->
  reads (deserializeState s0) (serializeState s ord)
    (install (counters_of s) (durable_records s ord) s0).
Proof.
  intros Hs Ho Hmax. unfold deserializeState, serializeState.
  eapply reads_bind; [apply round_trip; apply Hs|].
  eapply reads_bind; [apply (round_trip (ok := u64)); split; [lia|apply Hs]|].
  apply reads_guard; [rewrite Z.gtb_ltb, Z.ltb_ge; exact Hmax|].
  rewrite serialize_durable, <- (enumerates_length ord (im_records s) Ho).
  replace (length ord) with (length (durable_records s ord)) by apply length_fmap.
  eapply reads_bind_last; [|apply reads_ret]. eapply read_vec_reads; [apply rt_record|].
  unfold durable_records. apply Forall_fmap, Forall_forall. intros id Hid.
  apply durable_durable, record_at_ok; [done|]. by apply Ho.
Qed.

(** ** Installing the records *)
Lemma install_records (f : CollectiveRequestId -> SRecord) ord s : NoDup ord ->
  (forall id, id ∈ ord -> rq_id (rec_request (f id)) = id /\ im_records s !! id = None) ->
  exists recs idx, foldl install_record s (f <$> ord) =
      s <| im_records := recs |> <| im_participant_requests := idx |> /\
    forall id, recs !! id = if decide (id ∈ ord) then Some (f id) else im_records s !! id.
Proof.
  revert s. induction ord as [|id0 ord IH]; intros s Hn Hord; cbn [fmap list_fmap foldl].
  - exists (im_records s), (im_participant_requests s). split; [by destruct s|done].
  - apply NoDup_cons in Hn as [Hid0 Hn]. destruct (Hord id0) as [Ek Hnone]; [by left|].
    destruct (IH (install_record s (f id0)) Hn) as (recs & idx & -> & Hrecs).
    + intros id Hid. destruct (Hord id) as [E En]; [by right|]. split; [done|].
      unfold install_record. cbn [im_records set]. rewrite Ek.
      change (im_records (index_request id0 _ s)) with (im_records s). rewrite Hnone.
      rewrite lookup_insert_ne; [done|]. by intros ->.
    + exists recs, idx. split; [reflexivity|]. intros id. rewrite Hrecs.
      assert (im_records (install_record s (f id0)) = <[id0 := f id0]> (im_records s)) as ->.
      { unfold install_record. cbn [im_records set]. rewrite Ek.
        change (im_records (index_request id0 _ s)) with (im_records s). by rewrite Hnone. }
      destruct (decide (id ∈ ord)), (decide (id ∈ id0 :: ord)) as [Hin|Hin]; try done.
      * exfalso. apply Hin. by right.
      * apply elem_of_cons in Hin as [->|?]; [by rewrite lookup_insert_eq|done].
      * rewrite lookup_insert_ne; [done|]. intros ->. apply Hin. by left.
Qed.

(** ** Restoring what was saved *)

(** The scheduler that restarts from the file of [s], started as [s0]: the
    counters and the durable part of the records, made to revalidate; no evidence
    and no grants. *)
Definition restored (s s0 : Impl) : Impl := s0
  <| im_epoch := im_epoch s |>
  <| im_next_request_id := im_next_request_id s |>
  <| im_next_schedule_id := im_next_schedule_id s |>
  <| im_next_grant_id := im_next_grant_id s |>
  <| im_next_group_id := im_next_group_id s |>
  <| im_next_schedule_gen := im_next_schedule_gen s |>
  <| im_next_grant_gen := im_next_grant_gen s |>
  <| im_next_group_gen := im_next_group_gen s |>
  <| im_next_seq := im_next_seq s |>
  <| im_policy_gen := im_policy_gen s |>
  <| im_records := (fun r => recover_record (durable r)) <$> im_records s |>
  <| im_participants := ∅ |> <| im_plans := ∅ |> <| im_deps := ∅ |> <| im_reservations := ∅ |>
  <| im_congestion := None |> <| im_capacity := None |> <| im_participant_requests := ∅ |>
  <| im_congestion_gen := mkGen 0 |> <| im_capacity_gen := mkGen 0 |>
  <| im_reservation_gen := mkGen 0 |> <| im_active_grants := 0 |> <| im_grants := ∅ |>
  <| im_active_by_participant := ∅ |>.
Lemma installed_records s ord s0 : state_ok s -> enumerates ord (im_records s) ->
  exists idx, install (counters_of s) (durable_records s ord) s0 =
    install_counters (counters_of s) s0 <| im_records := durable <$> im_records s |>
      <| im_participant_requests := idx |>.
Proof.
  intros Hs [Hn Hord]. unfold install, durable_records.
  destruct (install_records (fun id => durable (record_at s id)) ord (install_counters (counters_of s) s0) Hn)
    as (recs & idx & -> & Hrecs).
  { intros id Hid. split; [|done]. by apply (record_at_ok s id Hs), Hord. }
  exists idx. assert (recs = durable <$> im_records s) as ->; [|done].
  apply map_eq. intros id. rewrite Hrecs, lookup_fmap.
  change (im_records (install_counters (counters_of s) s0)) with (∅ : gmap CollectiveRequestId SRecord).
  case_decide as Hid.
  - apply Hord in Hid as [r Hr]. by rewrite (record_at_lookup _ _ _ Hr), Hr.
  - rewrite lookup_empty. destruct (im_records s !! id) eqn:E; [|done]. exfalso. apply Hid, Hord. by eexists.
Qed.
Lemma reset_installed s ord s0 : state_ok s -> enumerates ord (im_records s) ->
  resetDynamicStateForRecovery (install (counters_of s) (durable_records s ord) s0) =
  (Ok tt, restored s s0).
Proof.
  intros Hs Ho. destruct (installed_records s ord s0 Hs Ho) as (idx & ->).
  unfold resetDynamicStateForRecovery, restored, install_counters, counters_of. rewrite bind_get. unfold put_state.
  norm_impl. cbn [ct_epoch ct_request_id ct_schedule_id ct_grant_id ct_group_id ct_schedule_gen
    ct_grant_gen ct_group_gen ct_seq ct_policy_gen]. by rewrite <- map_fmap_compose.
Qed.

Lemma reading_reads {A} (rd : R A) bs rest a r : reads rd bs a -> rd_ok r -> rd_rest r = bs ++ rest ->
  reading rd r = Ok (a, rd_skip (length bs) r).
Proof. intros Hr Hok E. unfold reading. by rewrite (Hr r rest Hok E). Qed.
Lemma make_reader_take p n : 0 <= n -> n <= Z.of_nat (length p) -> n < 2 ^ 63 ->
  rd_ok (make_reader p n n) /\ rd_rest (make_reader p n n) = take (Z.to_nat n) p /\
  rd_len (make_reader p n n) = n.
Proof.
  intros H0 Hl H63. unfold make_reader, rd_ok, rd_rest, rd_len. cbn [rd_pos rd_buf rd_max].
  change (Z.to_nat 0) with 0%nat. rewrite drop_0, length_take. split_and!; try done; lia.
Qed.
Lemma expect_end_ok r : rd_pos r = rd_len r -> expect_end r = (Ok tt, r).
Proof. intros E. unfold expect_end, at_end. by rewrite E, Z.eqb_refl. Qed.

(** A file, as [save] lays it out around the serialized state. *)
Definition file_of (st : list Z) : list Z := (header ++ st) ++ w_u64 (fnv1a64 (header ++ st) kCheckSeed).
Lemma file_length st : Z.of_nat (length (file_of st)) = 14 + Z.of_nat (length st).
Proof. unfold file_of. rewrite !length_app. change (length header) with 6%nat. unfold w_u64. rewrite put_le_length. lia. Qed.
Lemma file_header st : Z.of_nat (length (file_of st)) < 2 ^ 63 ->
  let r := make_reader (file_of st) (Z.of_nat (length (file_of st))) (Z.of_nat (length (file_of st))) in
  reading r_u32 r = Ok (kMagic, rd_skip 4 r) /\ reading r_u16 (rd_skip 4 r) = Ok (kVersion, rd_skip 2 (rd_skip 4 r)).
Proof.
  intros Hl. cbv zeta. destruct (make_reader_rest (file_of st) Hl) as [Hok E].
  set (r := make_reader _ _ _) in *. unfold file_of, header in E. rewrite <- !app_assoc in E. split.
  - by apply (reading_reads r_u32 (w_u32 kMagic) _ _ _ (r_u32_reads kMagic ltac:(by vm_compute)) Hok E).
  - pose proof (rd_skip_ok _ _ _ Hok E) as Hok'. pose proof (rd_skip_rest _ _ _ Hok E) as E'.
    by apply (reading_reads r_u16 (w_u16 kVersion) _ _ _ (r_u16_reads kVersion ltac:(by vm_compute)) Hok' E').
Qed.
(** [restore] of a file whose checksum matches is [deserializeState] on its middle
    part; the scheduler is assigned before the end of the input is checked. *)
Lemma restore_middle all s0 : Z.of_nat (length (file_of all)) < 2 ^ 63 ->
  exists r, rd_ok r /\ rd_rest r = all /\ rd_pos r = 0 /\ rd_len r = Z.of_nat (length all) /\
    restore (file_of all) s0 =
      ('(s', r') ← lift (reading (deserializeState s0) r);
       put_state s';; lift (reading expect_end r');; resetDynamicStateForRecovery) s0.
Proof.
  intros Hl. pose proof (file_length all) as Hlen.
  destruct (file_header all Hl) as [E1 E2].
  unfold restore. cbv zeta. rewrite bind_lift.
  destruct (Z.ltb_spec (Z.of_nat (length (file_of all))) (4 + 2 + 8)); [lia|]. cbn [throw_if].
  rewrite bind_lift, E1, bind_lift, E2, !bind_lift, !Z.eqb_refl. cbn [negb throw_if]. clear E1 E2.
  assert (Z.to_nat (Z.of_nat (length (file_of all)) - 8) = length (header ++ all)) as Hbody.
  { rewrite length_app. change (length header) with 6%nat. lia. }
  rewrite Hbody. unfold file_of at 1 2. rewrite drop_app_length, take_app_length. unfold w_u64 at 1.
  rewrite <- (app_nil_r (put_le 8 _)), get_put_le by (apply fnv1a64_u64; by vm_compute).
  rewrite Z.eqb_refl. cbn [negb throw_if]. rewrite bind_get.
  destruct (make_reader_take (drop 6 (file_of all)) (Z.of_nat (length (file_of all)) - 8 - 6))
    as (Hok & Erest & Erl); [lia|rewrite length_drop; lia|lia|].
  set (r := make_reader (drop 6 (file_of all)) _ _) in *. exists r. split_and!; [done| |done|lia|done].
  rewrite Erest, Hlen. unfold file_of. rewrite <- app_assoc. unfold header. cbn [app drop].
  rewrite <- ?app_assoc. apply take_app_length'. lia.
Qed.
Lemma restore_file st extra s0 s1 : Z.of_nat (length (file_of (st ++ extra))) < 2 ^ 63 ->
  reads (deserializeState s0) st s1 ->
  restore (file_of (st ++ extra)) s0 =
    match extra with
    | [] => resetDynamicStateForRecovery s1
    | _ => (Throw (throw_malformed "persistence trailing garbage"), s1)
    end.
Proof.
  intros Hl Hst. destruct (restore_middle (st ++ extra) s0 Hl) as (r & Hok & Er & Ep & Erl & ->).
  rewrite bind_lift, (reading_reads _ _ _ _ _ Hst Hok Er), bind_put, bind_lift.
  assert (rd_pos (rd_skip (length st) r) = Z.of_nat (length st)) as Hpos.
  { unfold rd_skip. cbn [rd_pos set]. lia. }
  assert (rd_len (rd_skip (length st) r) = Z.of_nat (length st) + Z.of_nat (length extra)) as Hend.
  { rewrite length_app in Erl. unfold rd_skip, rd_len in *. cbn [rd_buf set] in *. lia. }
  unfold reading. destruct extra as [|b extra].
  - rewrite expect_end_ok; [reflexivity|]. rewrite Hpos, Hend. simpl. lia.
  - unfold expect_end, at_end. rewrite Hpos, Hend, (proj2 (Z.eqb_neq _ _)); [reflexivity|]. simpl. lia.
Qed.
(** A file with more records than the policy allows is refused before the
    scheduler is touched. *)
Lemma restore_overfull s ord s0 : state_ok s -> Z.of_nat (length (save s ord)) < 2 ^ 63 ->
  max_history_records (pol_bounds (im_policy s0)) < Z.of_nat (base.size (im_records s)) ->
  restore (save s ord) s0 = (Throw (throw_bounds "persistence record count exceeds bound"), s0).
Proof.
  intros Hs Hl Hmax. destruct (restore_middle (serializeState s ord) s0 Hl) as (r & Hok & Er & _ & _ & E).
  unfold save. fold (file_of (serializeState s ord)). rewrite E, bind_lift. clear E.
  enough (reading (deserializeState s0) r = Throw (throw_bounds "persistence record count exceeds bound")) as -> by done.
  unfold reading. enough ((deserializeState s0 r).1 = Throw (throw_bounds "persistence record count exceeds bound")) as H
    by (destruct (deserializeState s0 r); cbn in *; by subst).
  unfold deserializeState. pose proof (round_trip (counters_of s) (so_counters s Hs)) as Hc.
  unfold serializeState in Er. rewrite <- ?app_assoc in Er.
  rewrite (bind_ok _ _ _ _ _ (Hc r _ Hok Er)).
  pose proof (rd_skip_ok _ _ _ Hok Er) as Hok'. pose proof (rd_skip_rest _ _ _ Hok Er) as Er'.
  assert (u64 (Z.of_nat (base.size (im_records s)))) as Hn by (split; [lia|apply Hs]).
  rewrite (bind_ok _ _ _ _ _ (r_u64_reads _ Hn _ _ Hok' Er')), bind_lift, Z.gtb_ltb, (proj2 (Z.ltb_lt _ _) Hmax). done.
Qed.
Lemma restore_saved s ord s0 : state_ok s -> enumerates ord (im_records s) ->
  Z.of_nat (base.size (im_records s)) <= max_history_records (pol_bounds (im_policy s0)) ->
  Z.of_nat (length (save s ord)) < 2 ^ 63 -> restore (save s ord) s0 = (Ok tt, restored s s0).
Proof.
  intros Hs Ho Hmax Hlen. rewrite <- (reset_installed s ord s0 Hs Ho).
  unfold save. rewrite <- (app_nil_r (serializeState s ord)) at 1 2.
  apply (restore_file (serializeState s ord) []); [by rewrite app_nil_r|]. by apply reads_state.
Qed.
Lemma recover_durable r : let r' := recover_record (durable r) in
  rec_request r' = rec_request r /\ rec_enqueue_seq r' = rec_enqueue_seq r /\
  rec_age_ticks r' = rec_age_ticks r /\ rec_fairness r' = rec_fairness r /\
  rec_current_grant r' = None /\ rec_hard_eligible r' = false /\
  rec_lifecycle r' = if is_terminal_state (rec_lifecycle r) then rec_lifecycle r
                     else LifecycleState.REVALIDATION_REQUIRED.
Proof.
  cbv zeta. unfold recover_record. cbn [rec_lifecycle durable set].
  change (rec_lifecycle (durable r)) with (rec_lifecycle r).
  destruct (is_terminal_state (rec_lifecycle r)); [done|].
  unfold force_transition, rec_transition. destruct (transition _ _) eqn:E; [|done].
  by apply transition_ok in E as [_ ->].
Qed.

(** The sample state, in a form the file can hold. *)
Lemma sample_state_ok : state_ok sample_state.
Proof.
  split; [by split; vm_compute| |by vm_compute].
  assert (durable_ok (sample_record request1 0) /\ durable_ok (sample_record request2 1) /\
    durable_ok (sample_record request3 2)) as (H1 & H2 & H3) by (split_and!; concrete_ok).
  intros id r Hr. apply elem_of_list_to_map_2 in Hr.
  rewrite !elem_of_cons in Hr. destruct Hr as [[= -> ->]|[[= -> ->]|[[= -> ->]|Hr]]]; [by split..|].
  by apply elem_of_nil in Hr.
Qed.

(** C11: a restart is lossless for what is durable and conservative for the rest.
    Restoring the file of a state into any scheduler whose bound admits its
    records succeeds; the counters and every record's request, queue position,
    age and fairness account are those saved; terminal collectives keep their
    outcome and all others require revalidation; no grant and no evidence
    survives.  The result does not depend on the order the records were written
    in. *)
Theorem restart_round_trip s ord s0 : state_ok s -> enumerates ord (im_records s) ->
  Z.of_nat (base.size (im_records s)) <= max_history_records (pol_bounds (im_policy s0)) ->
  Z.of_nat (length (save s ord)) < 2 ^ 63 ->
  exists s1, restore (save s ord) s0 = (Ok tt, s1) /\
    counters_of s1 = counters_of s /\ im_policy s1 = im_policy s0 /\
    (forall id, option_Forall2 (fun r r1 =>
       rec_request r1 = rec_request r /\ rec_enqueue_seq r1 = rec_enqueue_seq r /\
       rec_age_ticks r1 = rec_age_ticks r /\ rec_fairness r1 = rec_fairness r /\
       rec_current_grant r1 = None /\ rec_hard_eligible r1 = false /\
       rec_lifecycle r1 = if is_terminal_state (rec_lifecycle r) then rec_lifecycle r
                          else LifecycleState.REVALIDATION_REQUIRED)
       (im_records s !! id) (im_records s1 !! id)) /\
    im_grants s1 = ∅ /\ im_active_grants s1 = 0 /\ im_participants s1 = ∅ /\ im_plans s1 = ∅ /\
    im_deps s1 = ∅ /\ im_reservations s1 = ∅ /\ im_congestion s1 = None /\ im_capacity s1 = None /\
    (forall ord', enumerates ord' (im_records s) -> Z.of_nat (length (save s ord')) < 2 ^ 63 ->
       restore (save s ord') s0 = (Ok tt, s1)).
Proof.
  intros Hs Ho Hmax Hlen. exists (restored s s0). split; [by apply restore_saved|].
  split_and!; try reflexivity.
  - intros id. change (im_records (restored s s0)) with
      ((fun r => recover_record (durable r)) <$> im_records s).
    rewrite lookup_fmap. destruct (im_records s !! id) as [r|]; constructor. apply recover_durable.
  - intros ord' Ho' Hlen'. by apply restore_saved.
Qed.
Example restart_round_trip_witness : exists s1,
  restore (save sample_state sample_order) Scheduler_default = (Ok tt, s1) /\ im_grants s1 = ∅.
Proof.
  destruct (restart_round_trip sample_state sample_order Scheduler_default) as (s1 & E & _ & _ & _ & Hg & _);
    [apply sample_state_ok|apply sample_ready|by vm_compute|by vm_compute|].
  exact (ex_intro _ s1 (conj E Hg)).
Defined.

(** ** After a restart *)

Lemma restored_wf s s0 : wf s -> wf (restored s s0).
Proof.
  intros Hwf. split.
  - intros id r1 Hr1.
    change (im_records (restored s s0)) with ((fun r => recover_record (durable r)) <$> im_records s) in Hr1.
    rewrite lookup_fmap in Hr1. apply fmap_Some in Hr1 as (r & Hr & ->).
    pose proof (wf_records _ Hwf id r Hr) as [Hk Hi Hl _].
    destruct (recover_durable r) as (E1 & _ & _ & _ & E5 & _ & E7).
    split; rewrite ?E1, ?E5, ?E7; [done|done| |done]. by destruct (is_terminal_state _).
  - apply map_Forall_empty.
  - done.
Qed.

(** After a restart nothing that was in the file runs again by itself: along
    every run of the restarted scheduler, whatever evidence is published anew, a
    restored collective is not selected and none of its grants (an old one
    brought back by a worker, say) is handed over, made active or completed,
    until a higher generation supersedes the request. *)
Theorem restart_inert s ord s0 s1 s2 id r : wf s -> state_ok s -> enumerates ord (im_records s) ->
  Z.of_nat (base.size (im_records s)) <= max_history_records (pol_bounds (im_policy s0)) ->
  Z.of_nat (length (save s ord)) < 2 ^ 63 ->
  s1 = exec (restore (save s ord)) s0 -> run s1 s2 -> im_records s !! id = Some r ->
  exists r2, im_records s2 !! id = Some r2 /\
    (gen_value (rq_gen (rec_request r)) < gen_value (rq_gen (rec_request r2)) \/
     rec_request r2 = rec_request r /\ inert s2 id).
Proof.
  intros Hwf Hok Ho Hmax Hlen -> Hrun Hr.
  assert (exec (restore (save s ord)) s0 = restored s s0) as E
    by (unfold exec; by rewrite restore_saved).
  rewrite E in Hrun. destruct (recover_durable r) as (E1 & _ & _ & _ & _ & _ & E7).
  assert (im_records (restored s s0) !! id = Some (recover_record (durable r))) as Hr1.
  { change (((fun r => recover_record (durable r)) <$> im_records s) !! id = Some (recover_record (durable r))).
    by rewrite lookup_fmap, Hr. }
  destruct (dormant_run _ s2 id _ (restored_wf s s0 Hwf) Hrun Hr1) as (r2 & Hr2 & H).
  { rewrite E7. by destruct (rec_lifecycle r). }
  rewrite E1 in H. exists r2. split; [done|]. destruct H as [?|(? & _ & ?)]; [by left|by right].
Qed.
Lemma sample_wf : wf sample_state.
Proof.
  split; [|apply map_Forall_empty|done]. intros id r Hr. apply elem_of_list_to_map_2 in Hr.
  rewrite !elem_of_cons in Hr. destruct Hr as [[= -> ->]|[[= -> ->]|[[= -> ->]|Hr]]]; [by split..|].
  by apply elem_of_nil in Hr.
Qed.
Example restart_inert_witness :
  inert (exec (publishParticipant (sample_participant 1))
    (exec (restore (save sample_state sample_order)) Scheduler_default)) (mkId 1).
Proof.
  set (s1 := exec (restore (save sample_state sample_order)) Scheduler_default).
  destruct (restart_inert sample_state sample_order Scheduler_default s1
    (exec (publishParticipant (sample_participant 1)) s1) (mkId 1) (sample_record request1 0))
    as (r2 & Hr2 & H).
  - apply sample_wf.
  - apply sample_state_ok.
  - apply sample_ready.
  - by vm_compute.
  - by vm_compute.
  - reflexivity.
  - apply rtc_once. apply step_publishParticipant.
  - reflexivity.
  - destruct H as [H|[_ H]]; [|exact H]. exfalso.
    assert (gen_value (rq_gen (rec_request r2)) = 1) as E.
    { vm_compute in Hr2. injection Hr2 as <-. reflexivity. }
    rewrite E in H. by vm_compute in H.
Defined.

(** ** Damaged files *)
Lemma state_bytes s ord : state_ok s -> enumerates ord (im_records s) -> Forall u8 (serializeState s ord).
Proof.
  intros Hs [_ Ho]. unfold serializeState.
  split_bytes; [apply ser_bytes; apply Hs|apply put_le_bytes|].
  rewrite serialize_durable. eapply concat_bytes; [apply rt_record|]. unfold durable_records.
  apply Forall_fmap, Forall_forall. intros id Hid. apply durable_durable, record_at_ok; [done|]. by apply Ho.
Qed.
Lemma reading_le n r : (exists v r', reading (r_le n) r = Ok (v, r')) \/
  exists e, reading (r_le n) r = Throw e /\ code e = ErrorCode.MALFORMED_REQUEST.
Proof.
  unfold reading, r_le, need, mbind, M_bind, next_bytes, mret, M_ret.
  destruct (_ >? _); [right; eauto|]. destruct (_ >? _); [right; eauto|left; eauto].
Qed.
(** A file whose checksum does not match. *)
Lemma restore_bad_checksum p s0 : 14 <= Z.of_nat (length p) ->
  get_le 8 (drop (Z.to_nat (Z.of_nat (length p) - 8)) p) <>
    fnv1a64 (take (Z.to_nat (Z.of_nat (length p) - 8)) p) kCheckSeed ->
  exists e, restore p s0 = (Throw e, s0) /\ code e = ErrorCode.MALFORMED_REQUEST.
Proof.
  intros Hl Hne. unfold restore. cbv zeta. rewrite bind_lift.
  destruct (Z.ltb_spec (Z.of_nat (length p)) (4 + 2 + 8)); [lia|]. cbn [throw_if]. rewrite bind_lift.
  destruct (reading_le 4 (make_reader p (Z.of_nat (length p)) (Z.of_nat (length p))))
    as [(v & r & E)|(e & E & Hc)]; unfold r_u32; rewrite E; [|eauto]. rewrite bind_lift.
  destruct (reading_le 2 r) as [(v' & r' & E')|(e & E' & Hc)]; unfold r_u16; rewrite E'; [|eauto].
  rewrite bind_lift. destruct (negb (v =? kMagic)); cbn [throw_if]; [eauto|]. rewrite bind_lift.
  destruct (negb (v' =? kVersion)); cbn [throw_if]; [eauto|]. rewrite bind_lift.
  rewrite (proj2 (Z.eqb_neq _ _) Hne). cbn [negb throw_if]. eauto.
Qed.

(** C38: a damaged file is refused.  When any one byte of a saved file is changed,
    [restore] throws and leaves the scheduler as it was. *)
Theorem file_corruption_detected s ord s0 l1 x y l2 : state_ok s -> enumerates ord (im_records s) ->
  save s ord = l1 ++ x :: l2 -> u8 y -> y <> x ->
  exists e, restore (l1 ++ y :: l2) s0 = (Throw e, s0) /\ code e = ErrorCode.MALFORMED_REQUEST.
Proof.
  intros Hs Ho E Hy Hne. pose proof (file_length (serializeState s ord)) as Hl.
  change (file_of (serializeState s ord)) with (save s ord) in Hl. rewrite E, length_app in Hl. cbn [length] in Hl.
  assert (Z.of_nat (length (l1 ++ y :: l2)) = 14 + Z.of_nat (length (serializeState s ord))) as Hl'
    by (rewrite length_app; cbn [length]; lia).
  apply restore_bad_checksum; [lia|].
  replace (Z.to_nat (Z.of_nat (length (l1 ++ y :: l2)) - 8)) with (length (header ++ serializeState s ord))
    by (rewrite length_app; change (length header) with 6%nat; lia).
  rewrite <- (app_nil_r l2). apply (checksum_detects _ kCheckSeed l1 x y l2 []); try done.
  apply Forall_app_2; [|by apply state_bytes]. by apply Forall_app_2; apply put_le_bytes.
Qed.
Example file_corruption_detected_witness :
  let f := save sample_state sample_order in
  exists e, restore (take 40 f ++ 77 :: drop 41 f) Scheduler_default = (Throw e, Scheduler_default).
Proof.
  set (f := save sample_state sample_order). cbv zeta.
  destruct (file_corruption_detected sample_state sample_order Scheduler_default (take 40 f) 0 77 (drop 41 f))
    as (e & E & _); [apply sample_state_ok|apply sample_ready|by vm_compute|by vm_compute|done|].
  exact (ex_intro _ e E).
Defined.

(** [restore] is not atomic.  A file with a matching checksum whose state is
    followed by further bytes makes [restore] throw after the scheduler has been
    overwritten: the records are those of the file, not reset for recovery, so
    that a collective saved as GRANTED is GRANTED again without a grant. *)
Theorem trailing_bytes_not_atomic s ord s0 b extra : state_ok s -> enumerates ord (im_records s) ->
  Z.of_nat (base.size (im_records s)) <= max_history_records (pol_bounds (im_policy s0)) ->
  Z.of_nat (length (file_of (serializeState s ord ++ b :: extra))) < 2 ^ 63 ->
  exists s1, restore (file_of (serializeState s ord ++ b :: extra)) s0 =
      (Throw (throw_malformed "persistence trailing garbage"), s1) /\
    im_records s1 = durable <$> im_records s /\ im_epoch s1 = im_epoch s.
Proof.
  intros Hs Ho Hmax Hlen. exists (install (counters_of s) (durable_records s ord) s0).
  split; [apply (restore_file (serializeState s ord) (b :: extra)); [exact Hlen|]; by apply reads_state|].
  destruct (installed_records s ord s0 Hs Ho) as (idx & ->). done.
Qed.
Example trailing_bytes_not_atomic_witness : exists s1,
  restore (file_of (serializeState sample_state sample_order ++ [0])) Scheduler_default =
    (Throw (throw_malformed "persistence trailing garbage"), s1) /\ im_epoch s1 = mkGen 1.
Proof.
  destruct (trailing_bytes_not_atomic sample_state sample_order Scheduler_default 0 []) as (s1 & E & _ & Ee);
    [apply sample_state_ok|apply sample_ready|by vm_compute|by vm_compute|].
  exact (ex_intro _ s1 (conj E Ee)).
Defined.
