(* ===== verification/Typing.v ===== *)
(** * Typing: what the scheduler computes stays in range

    The ids, generations and sequence numbers the scheduler counts with, the ages
    and the fairness accounts it keeps stay within their C++ types along every
    run, so a reachable state whose inputs are in range can be written to a file
    and read back. *)
From S2P Require Import Prelude Enums Identity Error Float64 Domain Lifecycle Conflict Codec Serialize.
From S2P Require Import State Eligibility Ranking Schedule Samples Rounds Ports Operations Safety Guarantees RecordInvariant Persistence.

(** ** The invariant *)

(** The numbers of a record that the scheduler computes, and the vectors its loops
    index together. *)
Record tally_ok (r : SRecord) : Prop := {
  ta_seq : u64 (rec_enqueue_seq r);
  ta_age : u64 (rec_age_ticks r);
  ta_grants : u64 (fa_observed_grants (rec_fairness r));
  ta_service : double_ok (fa_observed_service (rec_fairness r));
  ta_deficit : double_ok (fa_deficit (rec_fairness r));
  ta_wait : u64 (fa_wait_ticks (rec_fairness r));
  ta_bypasses : u64 (fa_consecutive_bypasses (rec_fairness r));
  ta_share : double_ok (fa_target_share (rec_fairness r));
  ta_id : u64 (id_value (rq_id (rec_request r)));
  ta_parallel : length (rq_participant_gens (rec_request r)) = length (rq_participants (rec_request r));
}.
Record typed (s : Impl) : Prop := {
  ty_counters : Forall u64 (counter_values s);
  ty_records : map_Forall (fun _ r => tally_ok r) (im_records s);
}.

Lemma tally_default : tally_ok SRecord_default.
Proof. by split. Qed.
Lemma typed_new epoch policy : typed (Scheduler_new epoch policy).
Proof. split; [by repeat constructor|apply map_Forall_empty]. Qed.
Lemma typed_record_at s id : typed s -> tally_ok (record_at s id).
Proof.
  intros Ht. unfold record_at. destruct (im_records s !! id) as [r|] eqn:Hr; [|apply tally_default].
  by apply (ty_records s Ht id).
Qed.
Lemma typed_frame s s' : typed s -> counter_values s' = counter_values s ->
  im_records s' = im_records s -> typed s'.
Proof. intros [Hc Hr] Ec Er. split; [by rewrite Ec|by rewrite Er]. Qed.
Lemma typed_set_record id r s : typed s -> tally_ok r -> typed (set_record id r s).
Proof. intros [Hc Hr] Ht. split; [exact Hc|]. by apply map_Forall_insert_2. Qed.
(** The counters of a typed state as hypotheses, and a typed state's from them. *)
Ltac open_counters Ht :=
  let Hc := fresh in
  pose proof (ty_counters _ Ht) as Hc; unfold counter_values in Hc; rewrite !Forall_cons in Hc;
  destruct Hc as (H1 & H2 & H3 & H4 & H5 & H6 & H7 & H8 & H9 & Hnow & Hactive & _); pose proof (ty_records _ Ht) as Hr.
Ltac counters_ok :=
  unfold counter_values; repeat (apply Forall_cons_2; [simpl; auto with ranges|]); apply Forall_nil_2.

(** A state that also counts its active grants differently. *)
Lemma typed_active s s' : typed s ->
  counter_values s' = counter_values (s <| im_active_grants := im_active_grants s' |>) ->
  u64 (im_active_grants s') -> im_records s' = im_records s -> typed s'.
Proof.
  intros Ht Ec Ha Er. open_counters Ht. split; [|by rewrite Er]. rewrite Ec. counters_ok.
Qed.
Lemma drop_active_u64 n : u64 n -> u64 (if n >? 0 then n - 1 else n).
Proof. unfold u64. destruct (Z.gtb_spec n 0); lia. Qed.
Lemma active_u64 s : typed s -> u64 (im_active_grants s).
Proof. intros Ht. by open_counters Ht. Qed.

(** ** Records keep their tallies *)
Definition tally (r : SRecord) := (rec_enqueue_seq r, rec_age_ticks r, rec_fairness r, rec_request r).
Lemma tally_same r r' : tally r' = tally r -> tally_ok r -> tally_ok r'.
Proof. unfold tally. intros [= E1 E2 E3 E4] []. split; congruence. Qed.
Lemma rec_transition_tally to r : tally (rec_transition to r).2 = tally r.
Proof. unfold rec_transition. by destruct (transition _ _). Qed.
Lemma try_transition_tally to r : tally_ok r -> tally_ok (try_transition to r).
Proof. apply tally_same, rec_transition_tally. Qed.
Lemma force_transition_tally to r : tally_ok r -> tally_ok (force_transition to r).
Proof. apply tally_same. unfold force_transition, rec_transition. by destruct (transition _ _). Qed.
Lemma revalidate_tally r : tally_ok r -> tally_ok (revalidate_record r).
Proof. unfold revalidate_record. destruct (revalidates _); [apply try_transition_tally|done]. Qed.
Lemma refreshed_tally s r : tally_ok r -> tally_ok (exec (refresh_record s) r).
Proof.
  intros Ht. fold (refreshed s r). pose proof (refresh_record_frame s r) as [Er Es Ef _ _].
  assert (u64 (rec_age_ticks (refreshed s r))) as Ha.
  { unfold refreshed, exec. rewrite refresh_record_unfold.
    destruct (is_terminal_state (rec_lifecycle r)); [apply Ht|]. unfold mbind, M_bind.
    assert (u64 (rec_age_ticks (aged s r))) as Ha by apply wrap64_u64.
    destruct (derive_lifecycle_frame (rec_last_readiness (aged s r)) (aged s r)) as (l & E & _ & _).
    destruct (derive_lifecycle _ _) as [[[]|e] r1]; cbn [snd] in E; subst r1; try exact Ha.
    by destruct (consider_cases s (aged s r <| rec_lifecycle := l |>)) as [(r' & -> & [->|[reasons ->]])|(_ & _ & ->)]. }
  destruct Ht. split; rewrite ?Er, ?Es, ?Ef; done.
Qed.
Lemma charge_tally p b r : tally_ok r -> tally_ok (r <| rec_fairness ::= charge_fairness p b |>).
Proof.
  intros []. split; try done; unfold charge_fairness; destruct b; cbn; try done;
    try (apply wrap64_u64 || apply dadd_ok). destruct (dgt _ _); [auto with ranges|done].
Qed.

Lemma promote_tally r : tally_ok r -> tally_ok (exec (attempt promote_to_granted) r).
Proof. destruct r as [req lc rd sq age fa rs he iq fp cg ep]. intros []. by destruct lc; split. Qed.
#[export] Instance tally_stable : StableRecord tally_ok.
Proof.
  split; [exact revalidate_tally|exact refreshed_tally|exact promote_tally| |exact charge_tally].
  by intros r g [].
Qed.
#[export] Instance typed_invariant : RecordInvariant typed tally_ok.
Proof.
  split; [intros; by apply typed_record_at|intros; by apply typed_set_record|intros s s' Ht Hc Hr _; by apply (typed_frame s)|..];
    intros s Ht; open_counters Ht; (split; [|exact Hr]).
  all: counters_ok.
Qed.

(** ** The operations *)
Lemma typed_submit req s : typed s -> typed (exec (submit req) s).
Proof.
  intros Ht. open_counters Ht.
  unfold submit. rewrite exec_get, exec_guard. destruct (_ >=? _); [done|]. cbv zeta.
  rewrite exec_put_bind, exec_lift. destruct (validate_request _ _) as [[]|e] eqn:Hv.
  - rewrite exec_get, exec_put_bind. unfold exec, mret, M_ret. cbn [snd]. split; [counters_ok|].
    cbn [im_records set index_request]. destruct (im_records s !! _); [done|].
    apply map_Forall_insert_2; [|done]. apply validate_request_parallel in Hv. by split.
  - split; [counters_ok|done].
Qed.
Lemma typed_supersede req s : wf s -> typed s -> typed (exec (supersede req) s).
Proof.
  intros Hwf Ht. unfold supersede. rewrite exec_get. destruct (im_records s !! rq_id req) as [old|] eqn:Hold; [|done].
  pose proof (ty_records s Ht _ _ Hold) as Ho.
  rewrite exec_guard. destruct (_ <=? _); [done|]. rewrite exec_lift.
  destruct (validate_request _ _) as [[]|e] eqn:Hv; [|done]. cbv zeta. rewrite exec_put.
  apply validate_request_parallel in Hv. apply typed_set_record.
  2: { assert (rq_id (rec_request old) = rq_id req) as Ek by apply (rw_key _ _ _ _ (wf_records _ Hwf _ _ Hold)).
       destruct Ho as [? ? ? ? ? ? ? ? Hi ?]. rewrite Ek in Hi. by split. }
  set (s1 := match rec_lifecycle old with LifecycleState.COMPLETED | LifecycleState.CANCELLED => s
    | _ => set_record _ _ s end).
  assert (typed s1) as H1.
  { subst s1. destruct (rec_lifecycle old); try done; by apply typed_set_record, force_transition_tally. }
  clearbody s1. destruct (rec_current_grant old) as [g|]; [|by apply (typed_frame s1)].
  destruct (im_grants s1 !! g_id g); (eapply typed_active; [exact H1|reflexivity| |reflexivity]);
    exact (drop_active_u64 _ (active_u64 _ H1)).
Qed.
Lemma typed_cancel id s : typed s -> typed (exec (cancel_locked id) s).
Proof.
  intros Ht. unfold cancel_locked. rewrite exec_get. destruct (im_records s !! id) as [r|] eqn:Hr; [|done].
  destruct (is_terminal_state _); [done|].
  set (om := match rec_current_grant r with Some g => _ | None => _ end).
  assert (typed om.2) as Ho.
  { subst om. destruct (rec_current_grant r) as [g|]; [|done]. destruct (im_grants s !! g_id g) as [gs|]; [|done].
    destruct (gs_terminal gs); [done|]. cbn [snd]. destruct (gs_active gs); [|by apply (typed_frame s)].
    apply (typed_active s); try done. exact (drop_active_u64 _ (active_u64 _ Ht)). }
  destruct om as [out s1]. cbn [snd] in *. rewrite exec_put_bind.
  apply typed_set_record; [done|]. by apply force_transition_tally, (ty_records s Ht id).
Qed.
Lemma typed_handoff_begin g s : typed s -> typed (exec (handoff_begin g) s).
Proof.
  intros Ht. unfold handoff_begin. rewrite exec_get. destruct (negb _); [done|].
  destruct (im_records s !! g_request g); [|done]. apply (inv_bind typed).
  - apply (inv_with_record typed tally_ok); [|done]. intros r Hr. unfold exec, attempt.
    pose proof (rec_transition_tally LifecycleState.DISPATCHING r) as E.
    destruct (rec_transition _ _). by eapply tally_same.
  - intros [] s1 H1; [|done]. cbn [negb]. rewrite exec_get, exec_put_bind.
    apply (typed_frame s1); [done|..]; unfold exec, mret, M_ret; cbn [snd]; by destruct (im_grants s1 !! g_id g).
Qed.
Lemma typed_handoff_finish g b s : typed s -> typed (exec (handoff_finish g b) s).
Proof.
  intros Ht. unfold handoff_finish. rewrite exec_get. destruct (im_records s !! g_request g) as [r|] eqn:Hr; [|done].
  cbv zeta. set (r1 := if _ && _ then _ else r). assert (tally_ok r1) as H1.
  { pose proof (ty_records s Ht _ _ Hr) as Hok. subst r1. destruct (_ && _); [by apply try_transition_tally|done]. }
  pose proof (typed_set_record (g_request g) r1 s Ht H1) as Hs. clearbody r1.
  destruct (im_grants _ !! _); [|done]. destruct (bool_decide _); [|by apply (typed_frame _ _ Hs)].
  apply (typed_active _ _ Hs); try done. apply add64_u64.
Qed.
Lemma typed_complete g wb sb s : typed s -> typed (exec (complete_locked g wb sb) s).
Proof.
  intros Ht. unfold complete_locked. rewrite exec_get. destruct (im_records s !! g_request g) as [r|] eqn:Hr; [|done].
  destruct (im_grants s !! g_id g) as [gs|]; [|done]. destruct (negb _); [done|].
  destruct (transition _ _) as [st|]; [|done]. rewrite exec_put_bind.
  apply typed_set_record; [|by destruct (ty_records s Ht _ _ Hr)].
  apply (typed_active s); try done. exact (drop_active_u64 _ (active_u64 _ Ht)).
Qed.
(** ** Runs *)
Lemma step_typed s s' : step s s' -> wf s -> typed s -> typed s'.
Proof.
  intros Hs Hwf Ht. destruct Hs.
  - by apply (inv_publishParticipant typed tally_ok).
  - unfold publishPlan. rewrite exec_get. by apply (inv_guarded typed tally_ok).
  - unfold publishDependency. rewrite exec_get. by apply (inv_guarded typed tally_ok).
  - by apply (typed_frame s).
  - unfold publishCongestion. rewrite exec_get. by apply (inv_guarded typed tally_ok).
  - unfold publishCapacity. rewrite exec_get. by apply (inv_guarded typed tally_ok).
  - open_counters Ht. split; [counters_ok|exact Hr].
  - by apply typed_submit.
  - by apply typed_supersede.
  - by apply typed_cancel.
  - unfold advanceCoordinatorEpoch. rewrite exec_get. by apply (inv_guarded typed tally_ok).
  - open_counters Ht. split; [|exact Hr]. unfold advanceTime. rewrite exec_get, exec_put. unfold advance. counters_ok.
  - by apply (inv_schedule typed tally_ok).
  - by apply typed_handoff_begin.
  - by apply typed_handoff_finish.
  - by apply typed_complete.
  - by apply (inv_fence typed tally_ok).
Qed.
Lemma run_typed s s' : run s s' -> wf s -> typed s -> typed s'.
Proof.
  induction 1 as [|s s1 s2 Hs Hrun IH]; [done|]. intros Hwf Ht.
  apply IH; [by eapply step_safe|by apply (step_typed s s1)].
Qed.

(** What the callers chose is in range: the requests but for the id, which the
    scheduler assigns, their fairness classes and the epoch. *)
Definition inputs_ok (s : Impl) : Prop :=
  map_Forall (fun _ r => CollectiveRequest_ok (rec_request r <| rq_id := mkId 0 |>) /\
    enum_ok (fa_cls (rec_fairness r))) (im_records s) /\ gen_ok (im_epoch s).
Lemma request_with_id req : CollectiveRequest_ok (req <| rq_id := mkId 0 |>) -> u64 (id_value (rq_id req)) ->
  CollectiveRequest_ok req.
Proof. by intros [] Hi; split. Qed.

(** Ids below the counter are few enough to count in 64 bits. *)
Lemma few_ids {A} (m : gmap CollectiveRequestId A) n : 0 <= n ->
  (forall id a, m !! id = Some a -> 0 <= id_value id < n) -> Z.of_nat (base.size m) <= n.
Proof.
  intros Hn Hm. rewrite <- size_dom.
  assert (dom m ⊆ (list_to_set (mkId <$> seqZ 0 n) : gset CollectiveRequestId)) as Hsub.
  { intros id [a Ha]%elem_of_dom. apply elem_of_list_to_set, list_elem_of_fmap.
    exists (id_value id). split; [by destruct id|]. apply elem_of_seqZ. pose proof (Hm id a Ha). lia. }
  apply subseteq_size in Hsub. rewrite size_list_to_set in Hsub.
  - rewrite length_fmap, length_seqZ in Hsub. lia.
  - apply NoDup_fmap_2; [|apply NoDup_seqZ]. by intros x y [= ->].
Qed.
Lemma resting_persists l : resting l = true -> persist_enum_ok l = true.
Proof. by destruct l. Qed.

(** C30: in every reachable state whose inputs are values of their C++ types (the
    requests apart from the ids, which [submit] assigns, their fairness classes and
    the epoch), what the scheduler computed into the counters and the records is
    one too: ids, generations, sequence numbers, the time, the number of active
    grants, ages, fairness counters and sums, lifecycle bytes and the number of
    records.  Every request binds each of its participants, so the loops over
    participants never index past the end of the generations.  The state can be
    saved; restoring the file, of a size below 2^63, succeeds in a scheduler whose
    policy allows that many records ([max_history_records]) and is refused by any
    other.  The contents of grants, which hand-off takes over from its caller, are
    not covered. *)
Theorem reachable_state_ok s ord s0 : reachable s -> inputs_ok s ->
  state_ok s /\ u64 (im_now s) /\ u64 (im_active_grants s) /\
  (forall id r, im_records s !! id = Some r -> bindings (rec_request r) =
     prod_map Datatypes.id Some <$> zip (rq_participants (rec_request r)) (rq_participant_gens (rec_request r))) /\
  (enumerates ord (im_records s) -> Z.of_nat (length (save s ord)) < 2 ^ 63 ->
   if Z.of_nat (base.size (im_records s)) <=? max_history_records (pol_bounds (im_policy s0))
   then restore (save s ord) s0 = (Ok tt, restored s s0)
   else exists e, restore (save s ord) s0 = (Throw e, s0) /\ code e = ErrorCode.OUT_OF_BOUNDS).
Proof.
  intros Hreach [Hin Hep]. pose proof (reachable_wf s Hreach) as Hwf.
  destruct Hreach as (epoch & policy & Hrun). pose proof (run_typed _ _ Hrun (wf_new epoch policy) (typed_new epoch policy)) as Ht.
  assert (state_ok s) as Hok; [|split_and!; [done| | | |]].
  2: by open_counters Ht.
  2: by apply active_u64.
  2: { intros id r Hid. apply bindings_of_zip, (ty_records s Ht id r Hid). }
  2: { intros Ho Hl. destruct (Z.leb_spec (Z.of_nat (base.size (im_records s))) (max_history_records (pol_bounds (im_policy s0)))).
       - by apply restore_saved.
       - eexists. split; [by apply restore_overfull|done]. }
  open_counters Ht. split.
  - by split.
  - intros id r Hid. destruct (Hin id r Hid) as [Hreq Hcls]. pose proof (wf_records _ Hwf id r Hid) as Hw.
    split; [|apply Hw]. destruct (Hr id r Hid). split; try done; [by apply request_with_id|].
    apply resting_persists, Hw.
  - apply Z.le_lt_trans with U64_MAX; [|done]. transitivity (id_value (im_next_request_id s)); [|unfold u64, U64_MAX in *; lia].
    apply few_ids; [apply H1|]. intros id r Hid. pose proof (wf_records _ Hwf id r Hid) as Hw.
    pose proof (rw_id _ _ _ _ Hw). pose proof (ta_id _ (Hr id r Hid)) as Hi. rewrite (rw_key _ _ _ _ Hw) in Hi.
    unfold u64 in Hi. lia.
Qed.
Example reachable_state_ok_witness :
  restore (save sample_submitted [mkId 1]) Scheduler_default = (Ok tt, restored sample_submitted Scheduler_default).
Proof.
  destruct (reachable_state_ok sample_submitted [mkId 1] Scheduler_default sample_submitted_reachable) as (_ & _ & _ & _ & H).
  - split; [|by vm_compute].
    intros id r Hr%elem_of_map_to_list.
    assert (map_to_list (im_records sample_submitted) = [(mkId 1, record_at sample_submitted (mkId 1))]) as E
      by (vm_compute; reflexivity).
    rewrite E in Hr. apply list_elem_of_singleton in Hr. injection Hr as -> ->.
    assert (rec_request (record_at sample_submitted (mkId 1)) = request1 /\
      fa_cls (rec_fairness (record_at sample_submitted (mkId 1))) = rq_fairness_class request1) as [-> ->]
      by (vm_compute; by split).
    split; [|done]. concrete_ok.
  - exact (H ltac:(apply enumerates_check; by vm_compute) ltac:(by vm_compute)).
Defined.
