(* ===== verification/Coordinator.v ===== *)
(** * Coordinator: the message loop of the reference coordinator (coordinator.cpp)

    [handle_message] dispatches one decoded message to the scheduler and sends
    the replies; [session] is the receive loop of Protocol with it.
    One session is here the sequence of chunks [recv] returns,
    and what is sent is recorded in order as (socket, frame) pairs.  The save
    file is its contents.  [ord] and [gord] are the iteration orders of the
    records and grants hash maps, as functions of the state. *)
From S2P Require Import Prelude Enums Identity Error Float64 Domain Lifecycle Conflict Codec Serialize.
From S2P Require Import Protocol State Samples Eligibility Ranking Schedule Ports Operations Persistence.

Section data.
Context {W : Type}.

(** [class Coordinator::Impl], the scheduler's world, the file and the sockets. *)
Record Coordinator : Type := mkCoordinator {
  co_scheduler : Impl;
  co_world : W;
  co_sessions : list Z;
  co_running : bool;
  co_stale_rejections : Z;
  co_grants_issued : Z;
  co_file : option (list Z);
  co_sent : list (Z * list Z);
}.
#[global] Instance Coordinator_eta : Eta Coordinator := fun c =>
  mkCoordinator (co_scheduler c) (co_world c) (co_sessions c) (co_running c)
    (co_stale_rejections c) (co_grants_issued c) (co_file c) (co_sent c).
Abbreviation CO := (M scheduler_error Coordinator).

Definition modify (f : Coordinator -> Coordinator) : CO unit := fun c => (Ok tt, f c).
(** A call of the scheduler. *)
Definition call {A} (m : M scheduler_error (Impl * W) A) : CO A := fun c =>
  let '(x, (s, w)) := m (co_scheduler c, co_world c) in
  (x, c <| co_scheduler := s |> <| co_world := w |>).
(** [try { m } catch (...) {}]. *)
Definition swallow (m : CO unit) : CO unit := fun c => (Ok tt, exec m c).
(** [send_frame]. *)
Definition send_frame (fd : Z) (type : MsgType.t) (seq : Z) (payload : list Z) : CO unit :=
  modify (fun c => c <| co_sent ::= fun l => l ++ [(fd, encode_frame type seq payload)] |>).
(** [++n] on a [std::atomic<int>] wraps. *)
Definition atomic_incr (n : Z) : Z := to_i32 (wrap32 (n + 1)).

(** ** Preserved predicates *)

(** [m] preserves [I], whether it returns or throws. *)
Definition preserves {A} (I : Coordinator -> Prop) (m : CO A) : Prop := forall c, I c -> I (exec m c).
Section preserves.
Variable I : Coordinator -> Prop.
Lemma preserves_ret {A} (a : A) : preserves I (mret a).
Proof. by intros c. Qed.
Lemma preserves_bind {A B} (m : CO A) (k : A -> CO B) :
  preserves I m -> (forall a, preserves I (k a)) -> preserves I (m ≫= k).
Proof.
  intros Hm Hk c Hc. specialize (Hm c Hc). unfold exec, mbind, M_bind in *.
  destruct (m c) as [[a|e] c1]; [|done]. by apply Hk.
Qed.
Lemma preserves_lift {A} (r : res A) : preserves I (lift r).
Proof. by intros c. Qed.
Lemma preserves_get : preserves I get_state.
Proof. by intros c. Qed.
Lemma preserves_swallow m : preserves I m -> preserves I (swallow m).
Proof. intros Hm c. apply Hm. Qed.
Lemma preserves_modify f : (forall c, I c -> I (f c)) -> preserves I (modify f).
Proof. intros Hf c. apply Hf. Qed.
Lemma preserves_mfor {A} (f : A -> CO unit) l : (forall x, x ∈ l -> preserves I (f x)) -> preserves I (mfor f l).
Proof.
  induction l as [|x l IH]; intros Hf; cbn [mfor]; [apply preserves_ret|].
  apply preserves_bind; [apply Hf; left|]. intros _. apply IH. intros y Hy. apply Hf. by right.
Qed.
End preserves.
(** [try { m } catch (...) { bad }]. *)
Lemma preserves_try I (m bad : CO unit) : preserves I m -> preserves I bad ->
  preserves I (fun c => match m c with (Ok _, c') => (Ok tt, c') | (Throw _, c') => bad c' end).
Proof.
  intros Hm Hb c Hc. specialize (Hm c Hc). unfold preserves, exec in *.
  destruct (m c) as [[a|e] c1]; [done|by apply Hb].
Qed.

End data.

(** Goes through the sequence; the calls of the scheduler are left to the caller. *)
Ltac preserves := repeat lazymatch goal with
  | |- preserves _ (swallow _) => apply preserves_swallow
  | |- preserves _ (mbind _ _) => apply preserves_bind; [|intros ?]
  | |- preserves _ (mfor _ _) => apply preserves_mfor; intros ? _
  | |- preserves _ (modify _) => apply preserves_modify; intros ?; exact id
  | |- preserves _ (send_frame _ _ _ _) => apply preserves_modify; intros ?; exact id
  | |- preserves _ (if ?b then _ else _) => destruct b
  | |- preserves _ (match ?x with _ => _ end) => destruct x
  | |- preserves _ (lift _) => apply preserves_lift
  | |- preserves _ get_state => apply preserves_get
  | |- preserves _ (mret _) => apply preserves_ret
  end.

Section coordinator.
Context {W : Type} `{!Ports W}.
Variable ord : Impl -> list CollectiveRequestId.
Variable gord : Impl -> list CollectiveGrantId.
(** [opts_.persist_file] is not empty. *)
Variable persists : bool.
Abbreviation Co := (Coordinator (W := W)).
Abbreviation CO := (M scheduler_error Co).

Definition parse {A} (rd : R A) (payload : list Z) : CO A := lift (parse_all rd payload).
(** The [PUBLISH_PARTICIPANT] and [UPDATE_*] cases. *)
Definition publish {A} (rd : R A) (op : A -> SM unit) (payload : list Z) : CO unit :=
  swallow (a ← parse rd payload; call (locked (op a))).

Definition parse_complete : R (CollectiveGrant * WorkerBootId * SourceBootId) :=
  g ← deserialize_grant; wb ← r_id; sb ← r_id; mret (g, wb, sb).
Definition parse_fence : R (WorkerId * WorkerBootId) := wid ← r_id; wb ← r_id; mret (wid, wb).

(** The [QUERY_SCHEDULE] case; [schedule()] is outside any [try]. *)
Definition query_schedule (fd seq : Z) : CO unit :=
  c ← get_state;
  dec ← call (schedule (ord (co_scheduler c)) (gord (co_scheduler c)));
  c ← get_state;
  let issued := omap (grantById (co_scheduler c)) (dec_grants dec) in
  modify (fun c => c <| co_grants_issued ::= fun n => foldl (fun n _ => atomic_incr n) n issued |>);;
  mfor (fun g => mfor (fun sess => send_frame sess MsgType.GRANT seq (serialize_grant g)) (co_sessions c))
    issued;;
  c ← get_state;
  send_frame fd MsgType.HELLO seq
    (w_u64 (Z.of_nat (length (dec_selected dec))) ++ w_u64 (wrap64 (co_grants_issued c)) ++
     w_u64 (wrap64 (co_stale_rejections c))).

(** [Coordinator::handle_message]. *)
Definition handle_message (fd : Z) (m : Msg) : CO unit :=
  let seq := m_seq m in
  let payload := m_payload m in
  match m_type m with
  | MsgType.HELLO | MsgType.REGISTER => send_frame fd MsgType.HELLO seq []
  | MsgType.PUBLISH_PARTICIPANT => publish deserialize_participant publishParticipant payload
  | MsgType.UPDATE_PLAN => publish deserialize_plan publishPlan payload
  | MsgType.UPDATE_CONGESTION => publish deserialize_congestion publishCongestion payload
  | MsgType.UPDATE_RESERVATION => publish deserialize_reservation publishReservation payload
  | MsgType.UPDATE_CAPACITY => publish deserialize_capacity publishCapacity payload
  | MsgType.UPDATE_DEPENDENCY => publish deserialize_dependency publishDependency payload
  | MsgType.SUBMIT_COLLECTIVE => fun c =>
      match (req ← parse deserialize_request payload;
             id ← call (locked (submit req));
             send_frame fd MsgType.ERROR seq (w_id id)) c with
      | (Ok _, c') => (Ok tt, c')
      | (Throw _, c') => send_frame fd MsgType.ERROR seq [] c'
      end
  | MsgType.QUERY_SCHEDULE => query_schedule fd seq
  | MsgType.COMPLETE =>
      swallow ('(g, wb, sb) ← parse parse_complete payload;
        done ← call (complete g wb sb);
        if (done : bool) then mret tt
        else modify (fun c => c <| co_stale_rejections ::= atomic_incr |>))
  | MsgType.FENCE_WORKER =>
      swallow ('(wid, wb) ← parse parse_fence payload;
        c ← get_state;
        call (locked (fenceWorkerBoot (ord (co_scheduler c)) wid wb));;
        send_frame fd MsgType.HELLO seq [])
  | MsgType.SAVE =>
      if persists then
        modify (fun c => c <| co_file := Some (save (co_scheduler c) (ord (co_scheduler c))) |>)
      else mret tt
  | MsgType.SHUTDOWN => modify (fun c => c <| co_running := false |>)
  | _ => mret tt
  end.

(** The loop of [Coordinator::session] over the chunks [recv] returns. *)
Definition session_loop (fd : Z) (chunks : list (list Z)) : CO unit :=
  receive (fun c => negb (co_running c)) (handle_message fd) [] chunks.
(** [Coordinator::session]: the socket leaves the session list at the end. *)
Definition session (fd : Z) (chunks : list (list Z)) : CO unit :=
  session_loop fd chunks;;
  modify (fun c => c <| co_sessions ::= List.filter (fun x => negb (x =? fd)) |>).

(** The startup part of [Coordinator::run]: restore the file, whatever comes of
    it, and move to the configured epoch. *)
Definition startup (epoch : CoordinatorEpoch) : CO unit :=
  c ← get_state;
  (if persists then
    match co_file c with
    | Some bytes => swallow (call (locked (restore bytes)))
    | None => mret tt
    end
  else mret tt);;
  c ← get_state;
  if gen_value (coordinatorEpoch (co_scheduler c)) <? gen_value epoch
  then call (locked (advanceCoordinatorEpoch epoch)) else mret tt.

(** ** The receive loop *)

Lemma running_call {A} b (m : M scheduler_error (Impl * W) A) : preserves (fun c => co_running c = b) (call m).
Proof. intros c Hc. unfold exec, call. by destruct (m _) as [x [s w]]. Qed.
Lemma handle_running fd m b : m_type m <> MsgType.SHUTDOWN ->
  preserves (fun c => co_running c = b) (handle_message fd m).
Proof.
  intros Hm. unfold handle_message, publish, query_schedule, parse.
  destruct (m_type m); try (preserves; apply running_call); try done.
  apply preserves_try; preserves. apply running_call.
Qed.

(** What a session does to the coordinator is the handling of the messages
    that were sent, each once and in order, however TCP cuts the stream into
    chunks. *)
Theorem session_any_cut fd ms chunks c : Forall msg_ok ms ->
  Forall (fun m => m_type m <> MsgType.SHUTDOWN) ms ->
  concat chunks = encode_all ms -> Forall (fun ch => ch <> []) chunks -> co_running c = true ->
  session_loop fd chunks c = mfor (handle_message fd) ms c.
Proof.
  intros Hok Hms Ec Hne Hrun. apply receive_any_cut; try done. apply continues_keeps_on; [|by rewrite Hrun].
  eapply Forall_impl; [exact Hms|]. intros m Hm s. by rewrite (handle_running fd m (co_running s) Hm s).
Qed.

(** ** Messages and scheduler calls *)

(** A serialized value in a payload. *)
Definition fits {A} (ok : A -> Prop) (ser : A -> list Z) (v : A) : Prop :=
  ok v /\ Z.of_nat (length (ser v)) < 2 ^ 63.
Lemma parse_fits {A} (ok : A -> Prop) ser de `{!RoundTrip ok ser de} v : fits ok ser v ->
  parse_all de (ser v) = Ok v.
Proof.
  intros [Hv Hl]. rewrite <- (app_nil_r (ser v)) in Hl.
  exact (proj1 (parse_all_round_trip ok ser de v [] Hv Hl)).
Qed.
(** The message has the effect of [f] on the scheduler and no other. *)
Definition delivers (fd : Z) (type : MsgType.t) (payload : list Z) (f : Impl -> Impl) : Prop :=
  forall seq c, handle_message fd (mkMsg type seq payload) c = (Ok tt, c <| co_scheduler ::= f |>).
Lemma call_locked {A} (m : SM A) (c : Co) : call (locked m) c =
  ((m (co_scheduler c)).1, c <| co_scheduler ::= exec m |>).
Proof.
  unfold call, locked, exec. destruct c as [s w ss r st gi f snt]. cbn [co_scheduler co_world].
  unfold set. cbn [co_scheduler co_world co_sessions co_running co_stale_rejections co_grants_issued co_file co_sent].
  by destruct (m s) as [x s'].
Qed.
(** What a call with port calls after the critical section does to the scheduler. *)
Lemma call_schedule o g (c : Co) : co_scheduler (exec (call (schedule o g)) c) = exec (schedule_round o g) (co_scheduler c).
Proof.
  unfold exec, call, schedule, locked, mbind, M_bind.
  destruct (schedule_round o g (co_scheduler c)) as [[dec|e] s']; [|done].
  generalize (co_world c) as w. induction (dec_priority_inversions dec) as [|ev evs IH]; intros w; [done|]. apply IH.
Qed.
Lemma call_complete g wb sb (c : Co) : co_scheduler (exec (call (complete g wb sb)) c) =
  exec (complete_locked g wb sb) (co_scheduler c).
Proof.
  unfold exec, call, complete, locked, mbind, M_bind. by destruct (complete_locked g wb sb (co_scheduler c)) as [[[wl|]|e] s'].
Qed.
Lemma publish_delivers {A} (ok : A -> Prop) ser de `{!RoundTrip ok ser de} (op : A -> SM unit) v (c : Co) :
  fits ok ser v -> publish de op (ser v) c = (Ok tt, c <| co_scheduler ::= exec (op v) |>).
Proof.
  intros Hv. unfold publish, swallow, parse, exec at 1. rewrite bind_lift, (parse_fits ok ser de v Hv).
  by rewrite call_locked.
Qed.
Lemma parse_complete_reads g wb sb : CollectiveGrant_ok g -> id_ok wb -> id_ok sb ->
  reads parse_complete (serialize_grant g ++ w_id wb ++ w_id sb) (g, wb, sb).
Proof.
  intros Hg Hw Hs. unfold parse_complete. eapply reads_bind; [by apply (round_trip (ok := CollectiveGrant_ok))|].
  eapply reads_bind; [by apply (round_trip (ok := id_ok))|].
  eapply reads_bind_last; [by apply (round_trip (ok := id_ok))|apply reads_ret].
Qed.
Definition complete_payload (g : CollectiveGrant) (wb : WorkerBootId) (sb : SourceBootId) : list Z :=
  serialize_grant g ++ w_id wb ++ w_id sb.
Lemma complete_total g wb sb s w : exists done s' w', complete g wb sb (s, w) = (Ok done, (s', w')).
Proof.
  unfold complete, locked, mbind, M_bind.
  assert (exists o s', complete_locked g wb sb s = (Ok o, s')) as (o & s' & ->).
  { unfold complete_locked. rewrite bind_get. destruct (im_records s !! _) as [r|]; [|by do 2 eexists].
    destruct (im_grants s !! _) as [gs|]; [|by do 2 eexists]. destruct (negb _); [by do 2 eexists|].
    destruct (transition _ _); by do 2 eexists. }
  destruct o; by do 3 eexists.
Qed.
(** What the coordinator does with a completion. *)
Definition completed (g : CollectiveGrant) (wb : WorkerBootId) (sb : SourceBootId) (c : Co) : Co :=
  match complete g wb sb (co_scheduler c, co_world c) with
  | (Ok true, (s, w)) => c <| co_scheduler := s |> <| co_world := w |>
  | (_, (s, w)) => c <| co_scheduler := s |> <| co_world := w |> <| co_stale_rejections ::= atomic_incr |>
  end.
(** The reply to a submission: the new id, or nothing. *)
Definition submit_reply (x : res CollectiveRequestId) : list Z :=
  match x with Ok id => w_id id | Throw _ => [] end.

Lemma submit_delivers fd seq req (c : Co) : fits CollectiveRequest_ok serialize_request req ->
  handle_message fd (mkMsg MsgType.SUBMIT_COLLECTIVE seq (serialize_request req)) c =
  (Ok tt, c <| co_scheduler ::= exec (submit req) |>
            <| co_sent ::= fun l => l ++ [(fd, encode_frame MsgType.ERROR seq
                 (submit_reply (submit req (co_scheduler c)).1))] |>).
Proof.
  intros Hreq. unfold handle_message, parse. cbn [m_type m_seq m_payload].
  rewrite bind_lift, (parse_fits CollectiveRequest_ok serialize_request deserialize_request req Hreq).
  pose proof (call_locked (submit req) c) as E. unfold exec in *.
  destruct (submit req (co_scheduler c)) as [[id|e] s'] eqn:Es; cbn [fst snd] in E.
  - rewrite (bind_ok _ _ _ _ _ E). unfold send_frame, modify, set. by rewrite Es.
  - rewrite (bind_throw _ _ _ _ _ E). unfold send_frame, modify, set. by rewrite Es.
Qed.
Lemma complete_delivers fd seq g wb sb (c : Co) : CollectiveGrant_ok g -> id_ok wb -> id_ok sb ->
  Z.of_nat (length (complete_payload g wb sb)) < 2 ^ 63 ->
  handle_message fd (mkMsg MsgType.COMPLETE seq (complete_payload g wb sb)) c = (Ok tt, completed g wb sb c).
Proof.
  intros Hg Hw Hs Hl. unfold handle_message, swallow, parse, exec. cbn [m_type m_seq m_payload].
  pose proof (parse_all_reads parse_complete _ [] _ (parse_complete_reads g wb sb Hg Hw Hs)) as E.
  fold (complete_payload g wb sb) in E. rewrite !app_nil_r in E. rewrite bind_lift, (E Hl). unfold completed.
  destruct (complete_total g wb sb (co_scheduler c) (co_world c)) as (d & s' & w' & Ec).
  assert (call (complete g wb sb) c = (Ok d, c <| co_scheduler := s' |> <| co_world := w' |>)) as E2
    by (unfold call; by rewrite Ec).
  rewrite (bind_ok _ _ _ _ _ E2), Ec. by destruct d.
Qed.

(** C32: the coordinator's messages are the scheduler's calls: a message that
    carries a serialized evidence record publishes it, a submission is submitted
    and answered with its id (or with an empty reply when it is refused), and a
    completion is the call of [complete] with the grant and boots it names,
    counted as a stale rejection when it is refused. *)
Theorem messages_drive_scheduler fd :
  (forall p, fits Participant_ok serialize_participant p ->
     delivers fd MsgType.PUBLISH_PARTICIPANT (serialize_participant p) (exec (publishParticipant p))) /\
  (forall p, fits CommunicationPlan_ok serialize_plan p ->
     delivers fd MsgType.UPDATE_PLAN (serialize_plan p) (exec (publishPlan p))) /\
  (forall p, fits CongestionState_ok serialize_congestion p ->
     delivers fd MsgType.UPDATE_CONGESTION (serialize_congestion p) (exec (publishCongestion p))) /\
  (forall p, fits Reservation_ok serialize_reservation p ->
     delivers fd MsgType.UPDATE_RESERVATION (serialize_reservation p) (exec (publishReservation p))) /\
  (forall p, fits CapacityState_ok serialize_capacity p ->
     delivers fd MsgType.UPDATE_CAPACITY (serialize_capacity p) (exec (publishCapacity p))) /\
  (forall p, fits DependencyState_ok serialize_dependency p ->
     delivers fd MsgType.UPDATE_DEPENDENCY (serialize_dependency p) (exec (publishDependency p))) /\
  (forall req seq c, fits CollectiveRequest_ok serialize_request req ->
     handle_message fd (mkMsg MsgType.SUBMIT_COLLECTIVE seq (serialize_request req)) c =
     (Ok tt, c <| co_scheduler ::= exec (submit req) |>
               <| co_sent ::= fun l => l ++ [(fd, encode_frame MsgType.ERROR seq
                    (submit_reply (submit req (co_scheduler c)).1))] |>)) /\
  (forall g wb sb seq c, CollectiveGrant_ok g -> id_ok wb -> id_ok sb ->
     Z.of_nat (length (complete_payload g wb sb)) < 2 ^ 63 ->
     handle_message fd (mkMsg MsgType.COMPLETE seq (complete_payload g wb sb)) c = (Ok tt, completed g wb sb c)).
Proof.
  split_and!; try (intros p Hp seq c; exact (publish_delivers _ _ _ _ p c Hp)).
  - intros. by apply submit_delivers.
  - intros. by apply complete_delivers.
Qed.
End coordinator.

(** ** A concrete coordinator *)

(** With the default ports and one client on socket 3. *)
Definition sample_coordinator : Coordinator (W := RecordingCollectiveFabric) :=
  mkCoordinator Scheduler_default fabric_default [3] true 0 0 None [].
Definition record_order (s : Impl) : list CollectiveRequestId := keys (im_records s).
Definition grant_order (s : Impl) : list CollectiveGrantId := keys (im_grants s).
Definition sample_messages : list Msg :=
  [ mkMsg MsgType.HELLO 0 [];
    mkMsg MsgType.PUBLISH_PARTICIPANT 2 (serialize_participant (sample_participant 1)) ].
Definition sample_stream : list Z := encode_all sample_messages.

Lemma sample_messages_ok : Forall msg_ok sample_messages.
Proof.
  assert (Forall u8 (serialize_participant (sample_participant 1))) as Hb.
  { apply (ser_bytes (ok := Participant_ok)). concrete_ok. }
  repeat constructor; try done.
Qed.
(** The stream arrives byte by byte at first, then in one piece. *)
Example session_any_cut_witness :
  session_loop record_order grant_order false 3 [take 1 sample_stream; take 30 (drop 1 sample_stream); drop 31 sample_stream]
    sample_coordinator =
  mfor (handle_message record_order grant_order false 3) sample_messages sample_coordinator.
Proof.
  apply session_any_cut.
  - apply sample_messages_ok.
  - by repeat constructor.
  - vm_compute. reflexivity.
  - repeat constructor; by vm_compute.
  - reflexivity.
Defined.
Example messages_drive_scheduler_witness : exists c,
  handle_message record_order grant_order false 3
    (mkMsg MsgType.PUBLISH_PARTICIPANT 2 (serialize_participant (sample_participant 1))) sample_coordinator = (Ok tt, c) /\
  co_scheduler c = exec (publishParticipant (sample_participant 1)) Scheduler_default.
Proof.
  destruct (messages_drive_scheduler record_order grant_order false (W := RecordingCollectiveFabric) 3) as [H _].
  eexists. split; [apply H|reflexivity]. split; [concrete_ok|by vm_compute].
Defined.
