(* ===== verification/Lifetimes.v ===== *)
(** * Lifetimes: the coordinator across crashes and restarts

    A coordinator process writes its file when it is told to SAVE, may die at any
    moment, and is started again with the file that is there and an epoch from the
    command line ([Coordinator.startup]).  Here the machine of Safety and the file
    make a transition relation over all the lifetimes of the process, and what was
    saved is followed through them. *)
From S2P Require Import Prelude Enums Identity Error Float64 Domain Lifecycle Conflict State Samples.
From S2P Require Import Eligibility Ranking Schedule Rounds Ports Operations Safety Guarantees Codec Persistence Coordinator.

(** ** Starting a process *)

(** [class Coordinator::Impl] as constructed, with what the path of
    [persist_file] holds. *)
Definition new_process (file : option (list Z)) : Coordinator (W := RecordingCollectiveFabric) :=
  mkCoordinator Scheduler_default fabric_default [] true 0 0 file [].
(** The scheduler a process starts serving with. *)
Definition started_with (file : option (list Z)) (epoch : CoordinatorEpoch) : Impl :=
  co_scheduler (exec (Coordinator.startup true epoch) (new_process file)).

(** The state can be written to the file and read back. *)
Record savable (s : Impl) (ord : list CollectiveRequestId) : Prop := {
  sv_values : state_ok s;
  sv_order : enumerates ord (im_records s);
  sv_count : Z.of_nat (base.size (im_records s)) <= max_history_records (pol_bounds PolicyConfig_default);
  sv_size : Z.of_nat (length (save s ord)) < 2 ^ 63;
}.
(** The epoch is raised to the configured one. *)
Definition raise_epoch (epoch : CoordinatorEpoch) (s : Impl) : Impl :=
  if gen_value (im_epoch s) <? gen_value epoch then s <| im_epoch := epoch |> else s.

Lemma exec_raise_epoch epoch (c : Coordinator (W := RecordingCollectiveFabric)) :
  co_scheduler (exec (if gen_value (coordinatorEpoch (co_scheduler c)) <? gen_value epoch
    then call (locked (advanceCoordinatorEpoch epoch)) else mret tt) c) = raise_epoch epoch (co_scheduler c).
Proof.
  unfold raise_epoch, coordinatorEpoch. destruct (Z.ltb_spec (gen_value (im_epoch (co_scheduler c))) (gen_value epoch)); [|done].
  unfold exec. rewrite call_locked. change (exec (advanceCoordinatorEpoch epoch) (co_scheduler c) =
    co_scheduler c <| im_epoch := epoch |>).
  unfold advanceCoordinatorEpoch. rewrite exec_get, exec_guard.
  destruct (Z.leb_spec (gen_value epoch) (gen_value (im_epoch (co_scheduler c)))); [lia|done].
Qed.
Lemma started_new epoch : started_with None epoch = raise_epoch epoch Scheduler_default.
Proof. exact (exec_raise_epoch epoch (new_process None)). Qed.
Lemma started_restores bytes epoch :
  started_with (Some bytes) epoch = raise_epoch epoch (exec (restore bytes) Scheduler_default).
Proof.
  etrans; [|exact (exec_raise_epoch epoch (new_process (Some bytes) <| co_scheduler ::= exec (restore bytes) |>))].
  unfold started_with, Coordinator.startup. rewrite exec_get. cbn [co_file new_process].
  unfold exec at 1, mbind at 1, M_bind at 1, swallow, exec at 1. rewrite call_locked. reflexivity.
Qed.
Lemma started_saved s ord epoch : savable s ord ->
  started_with (Some (save s ord)) epoch = raise_epoch epoch (restored s Scheduler_default).
Proof. intros []. rewrite started_restores. unfold exec. by rewrite restore_saved. Qed.

(** ** Lives *)

(** The scheduler of the process that runs, and the file. *)
Record Life : Type := mkLife { lf_scheduler : Impl; lf_file : option (list Z) }.
Section lives.
(** The epochs the process is started with are at least this. *)
Variable floor : Z.
Inductive life_step : Life -> Life -> Prop :=
  | life_works s s' file : step s s' -> life_step (mkLife s file) (mkLife s' file)
  | life_saves s ord file : savable s ord -> life_step (mkLife s file) (mkLife s (Some (save s ord)))
  | life_restarts s file epoch : floor <= gen_value epoch ->
      life_step (mkLife s file) (mkLife (started_with file epoch) file).
Abbreviation lives := (rtc life_step).

(** What holds of the scheduler, [now], and of the saved state, [kept], once it
    holds of both. *)
Definition survives (now kept : Impl -> Prop) : Prop :=
  (forall s s', wf s -> now s -> step s s' -> now s') /\
  (forall s, wf s -> now s -> kept s) /\
  (forall s epoch, wf s -> kept s -> floor <= gen_value epoch ->
    now (raise_epoch epoch (restored s Scheduler_default))).
Definition life_ok (now kept : Impl -> Prop) (l : Life) : Prop :=
  wf (lf_scheduler l) /\ now (lf_scheduler l) /\
  exists s ord, lf_file l = Some (save s ord) /\ savable s ord /\ wf s /\ kept s.

Lemma raise_epoch_wf epoch s : wf s -> wf (raise_epoch epoch s).
Proof. intros [? ? ?]. unfold raise_epoch. by destruct (_ <? _). Qed.
Lemma lives_keep now kept l l' : survives now kept -> life_ok now kept l -> lives l l' -> life_ok now kept l'.
Proof.
  intros (Hstep & Hsave & Hre) Hl Hrun. induction Hrun as [|l1 l2 l3 H _ IH]; [done|]. apply IH. clear IH.
  destruct Hl as (Hwf & Hn & s0 & ord0 & Ef & Hs0 & Hwf0 & Hk). destruct H as [s s' f H|s ord f H|s f epoch He];
    unfold life_ok; cbn [lf_scheduler lf_file] in *.
  - split; [exact (proj1 (step_safe _ _ Hwf H))|]. split; [exact (Hstep _ _ Hwf Hn H)|by exists s0, ord0].
  - split; [done|]. split; [done|]. exists s, ord. split; [done|]. split; [done|]. split; [done|by apply Hsave].
  - rewrite Ef, started_saved by done. split; [by apply raise_epoch_wf, restored_wf|].
    split; [by apply Hre|by exists s0, ord0].
Qed.
End lives.

Lemma raise_epoch_records epoch s : im_records (raise_epoch epoch s) = im_records s.
Proof. unfold raise_epoch. by destruct (_ <? _). Qed.
Lemma raise_epoch_grants epoch s : im_grants (raise_epoch epoch s) = im_grants s /\
  im_next_grant_id (raise_epoch epoch s) = im_next_grant_id s.
Proof. unfold raise_epoch. by destruct (_ <? _). Qed.
Lemma raise_epoch_ge epoch s : gen_value epoch <= gen_value (im_epoch (raise_epoch epoch s)).
Proof. unfold raise_epoch. destruct (Z.ltb_spec (gen_value (im_epoch s)) (gen_value epoch)); simpl; lia. Qed.
(** The record a restart makes of a saved one. *)
Lemma restarted_record s epoch id r : im_records s !! id = Some r ->
  im_records (raise_epoch epoch (restored s Scheduler_default)) !! id = Some (recover_record (durable r)).
Proof.
  intros Hr. rewrite raise_epoch_records.
  change (((fun r => recover_record (durable r)) <$> im_records s) !! id = Some (recover_record (durable r))).
  by rewrite lookup_fmap, Hr.
Qed.

(** ** What survives *)

(** The request of [r] was superseded, or it is the same and its record [good]. *)
Definition remembers (id : CollectiveRequestId) (r : SRecord) (good : LifecycleState.t -> Prop) (s : Impl) : Prop :=
  exists r', im_records s !! id = Some r' /\
    (gen_value (rq_gen (rec_request r)) < gen_value (rq_gen (rec_request r')) \/
     rec_request r' = rec_request r /\ good (rec_lifecycle r')).
Lemma remembers_step id r (good : LifecycleState.t -> Prop) s s' :
  (forall r1 r2, good (rec_lifecycle r1) -> rec_request r1 = rec_request r -> rec_step r1 r2 ->
     gen_value (rq_gen (rec_request r1)) < gen_value (rq_gen (rec_request r2)) \/
     rec_request r2 = rec_request r1 /\ good (rec_lifecycle r2)) ->
  wf s -> remembers id r good s -> step s s' -> remembers id r good s'.
Proof.
  intros Hg Hwf (r1 & Hr1 & H) Hs. destruct (step_safe s s' Hwf Hs) as [_ Hp].
  destruct (pg_records _ _ Hp id r1 Hr1) as (r2 & Hr2 & Hst). exists r2. split; [done|].
  destruct H as [H|[E H]].
  - left. destruct Hst as [Hlt|path Eq _ _ _]; [lia|by rewrite Eq].
  - destruct (Hg r1 r2 H E Hst) as [Hlt|[Eq ?]]; [left|right]; by rewrite <- E.
Qed.
Lemma remembers_restart id r (good good' : LifecycleState.t -> Prop) s epoch :
  (forall l, good l -> good' (if is_terminal_state l then l else LifecycleState.REVALIDATION_REQUIRED)) ->
  remembers id r good s -> remembers id r good' (raise_epoch epoch (restored s Scheduler_default)).
Proof.
  intros Hg (r1 & Hr1 & H). destruct (recover_durable r1) as (Eq & _ & _ & _ & _ & _ & El).
  exists (recover_record (durable r1)). split; [by apply restarted_record|]. rewrite Eq, El.
  destruct H as [H|[E H]]; [by left|right]. split; [done|by apply Hg].
Qed.
Lemma remembers_saved id r (good good' : LifecycleState.t -> Prop) s :
  (forall l, good l -> good' l) -> remembers id r good s -> remembers id r good' s.
Proof. intros Hg (r1 & Hr1 & H). exists r1. naive_solver. Qed.

(** Terminal collectives. *)
Definition outcome (l0 l : LifecycleState.t) : Prop := l ∈ [l0; LifecycleState.RETIRED].
Lemma outcome_terminal l0 l : is_terminal_state l0 = true -> outcome l0 l -> is_terminal_state l = true.
Proof. unfold outcome. set_unfold. by intros ? [->|[->|[]]]. Qed.
Lemma outcome_survives floor id r : is_terminal_state (rec_lifecycle r) = true ->
  let P := remembers id r (outcome (rec_lifecycle r)) in survives floor P P.
Proof.
  intros Ht. split_and!.
  - intros s s' Hwf. apply remembers_step; [|done]. intros r1 r2 Hg E Hst.
    destruct (rec_step_terminal r1 r2 Hst (outcome_terminal _ _ Ht Hg)) as [?|[Eq Hin]]; [by left|right].
    split; [done|]. apply elem_of_cons in Hin as [-> | ->%list_elem_of_singleton]; [done|]. right. left.
  - done.
  - intros s epoch _ H _. eapply remembers_restart; [|exact H]. intros l Hl. by rewrite (outcome_terminal _ _ Ht Hl).
Qed.
(** Collectives that were in the file of a restart. *)
Lemma dormant_survives floor id r :
  survives floor (remembers id r (fun l => dormant l = true)) (remembers id r (fun _ => True)).
Proof.
  split_and!.
  - intros s s' Hwf. apply remembers_step; [|done]. intros r1 r2 Hg E Hst. by apply rec_step_dormant.
  - intros s _. by apply remembers_saved.
  - intros s epoch _ H _. eapply remembers_restart; [|exact H]. intros l _. by destruct l.
Qed.

(** Grants of the ids that were taken when the file was written. *)
Definition ids_spent (n : Z) (s : Impl) : Prop :=
  n <= id_value (im_next_grant_id s) /\
  forall gid, id_value gid < n -> im_grants s !! gid = None.
Lemma ids_spent_same n s s' : im_grants s' = im_grants s -> im_next_grant_id s' = im_next_grant_id s ->
  ids_spent n s -> ids_spent n s'.
Proof. unfold ids_spent. by intros -> ->. Qed.
Lemma ids_spent_quiet n s s' : quiet s s' -> ids_spent n s -> ids_spent n s'.
Proof.
  intros [C _ Hg] [Hn H]. unfold counters in C. injection C as _ E _ _ _. split; [by rewrite E|].
  intros gid Hlt. apply eq_None_not_Some. intros [gs' Hgs'].
  destruct (evolves_back _ _ _ _ _ Hg Hgs') as (gs & Hgs & _). by rewrite H in Hgs.
Qed.
Lemma submit_grants req s : im_grants (exec (submit req) s) = im_grants s /\
  im_next_grant_id (exec (submit req) s) = im_next_grant_id s.
Proof.
  unfold submit. rewrite exec_get, exec_guard. destruct (_ >=? _); [done|]. cbv zeta.
  rewrite exec_put_bind, exec_lift. by destruct (validate_request _ _).
Qed.
Lemma ids_spent_step n s s' : wf s -> ids_spent n s -> step s s' -> ids_spent n s'.
Proof.
  intros Hwf H Hs. destruct Hs.
  all: try (unfold publishPlan, publishDependency, publishCongestion, publishCapacity, advanceCoordinatorEpoch;
    rewrite exec_get, exec_guard; case_match; [exact H|exact (ids_spent_same n s _ eq_refl eq_refl H)]).
  - eapply ids_spent_quiet; [apply quiet_publishParticipant|done].
  - exact (ids_spent_same n s _ eq_refl eq_refl H).
  - exact (ids_spent_same n s _ eq_refl eq_refl H).
  - destruct (submit_grants req s) as [E1 E2]. exact (ids_spent_same n s _ E1 E2 H).
  - eapply ids_spent_quiet; [apply quiet_supersede|done].
  - eapply ids_spent_quiet; [by apply quiet_cancel|done].
  - exact (ids_spent_same n s _ eq_refl eq_refl H).
  - destruct (schedule_round_outcome s ord gord (wf_round_ready s ord Hwf H0 H1)) as (dec & gs & s' & E & Hout).
    unfold exec. rewrite E. cbn [snd]. destruct H as [Hn Hg]. split.
    + pose proof (proj1 (ro_new _ _ _ _ _ Hout)). lia.
    + intros gid Hlt. rewrite (ro_old_grants _ _ _ _ _ Hout); [by apply Hg|lia].
  - eapply ids_spent_quiet; [apply quiet_handoff_begin|done].
  - eapply ids_spent_quiet; [apply quiet_handoff_finish|done].
  - eapply ids_spent_quiet; [apply quiet_complete|done].
  - eapply ids_spent_quiet; [by apply quiet_fence|done].
Qed.
Lemma spent_survives floor n : survives floor (ids_spent n) (fun s => n <= id_value (im_next_grant_id s)).
Proof.
  split_and!.
  - intros s s'. apply ids_spent_step.
  - by intros s _ [].
  - intros s epoch _ H _. destruct (raise_epoch_grants epoch (restored s Scheduler_default)) as [E1 E2].
    split; [by rewrite E2|]. intros gid _. rewrite E1. apply lookup_empty.
Qed.
(** The epoch. *)
Lemma epoch_survives floor : survives floor (fun s => floor <= gen_value (im_epoch s)) (fun _ => True).
Proof.
  split_and!; [|done|].
  - intros s s' Hwf H Hs. destruct (step_safe s s' Hwf Hs) as [_ Hp]. pose proof (pg_epoch _ _ Hp). lia.
  - intros s epoch _ _ He. pose proof (raise_epoch_ge epoch (restored s Scheduler_default)). lia.
Qed.

(** ** Guarantees over lifetimes *)

Lemma saved_life now kept s ord : savable s ord -> wf s -> now s -> kept s ->
  life_ok now kept (mkLife s (Some (save s ord))).
Proof. intros. split; [done|]. split; [done|]. by exists s, ord. Qed.
Lemma restarted_life floor now kept s ord epoch : survives floor now kept -> savable s ord -> wf s -> kept s ->
  floor <= gen_value epoch -> life_ok now kept (mkLife (started_with (Some (save s ord)) epoch) (Some (save s ord))).
Proof.
  intros (_ & _ & Hre) Hs Hwf Hk He. unfold life_ok. cbn [lf_scheduler lf_file]. rewrite started_saved by done.
  split; [by apply raise_epoch_wf, restored_wf|]. split; [by apply Hre|by exists s, ord].
Qed.

(** The invariant of the scheduler holds in every state of every lifetime, from
    the first start without a file on. *)
Theorem lifetimes_wf floor epoch l : rtc (life_step floor) (mkLife (started_with None epoch) None) l ->
  wf (lf_scheduler l).
Proof.
  set (ok := fun l => wf (lf_scheduler l) /\
    (lf_file l = None \/ exists s ord, lf_file l = Some (save s ord) /\ savable s ord /\ wf s)).
  assert (forall l l', rtc (life_step floor) l l' -> ok l -> ok l') as Hrun.
  { intros l1 l2 Hr. induction Hr as [|l1 l2 l3 H _ IH]; [done|]. intros Hl. apply IH. clear IH.
    destruct Hl as (Hwf & Hf). destruct H as [s s' f H|s ord f H|s f e He]; unfold ok; cbn [lf_scheduler lf_file] in *.
    - split; [exact (proj1 (step_safe _ _ Hwf H))|done].
    - split; [done|right]. by exists s, ord.
    - split; [|done]. destruct Hf as [->|(s0 & ord0 & -> & Hs0 & Hwf0)].
      + rewrite started_new. apply raise_epoch_wf, wf_new.
      + rewrite started_saved by done. by apply raise_epoch_wf, restored_wf. }
  intros Hr. apply (Hrun _ _ Hr). split; [|by left]. cbn [lf_scheduler]. rewrite started_new. apply raise_epoch_wf, wf_new.
Qed.

(** The sample state after collective 3 was cancelled, and what it saves. *)
Definition cancelled_record : SRecord :=
  sample_record request3 2 <| rec_lifecycle := LifecycleState.CANCELLED |>.
Definition sample_cancelled : Impl :=
  sample_state <| im_records ::= <[mkId 3 := cancelled_record]> |>.
Lemma cancelled_durable : durable_ok cancelled_record.
Proof.
  destruct (so_records _ sample_state_ok (mkId 3) (sample_record request3 2) eq_refl) as [[H1 H2 H3 H4 H5] _].
  unfold cancelled_record. generalize dependent (sample_record request3 2). intros r H1 _ H3 H4 H5. by split.
Qed.
Lemma sample_cancelled_wf : wf sample_cancelled.
Proof. apply (step_safe sample_state _ sample_wf (step_cancel sample_state (mkId 3))). Qed.
Lemma sample_savable : savable sample_cancelled sample_order.
Proof.
  split; [|apply enumerates_check; by vm_compute|by vm_compute|by vm_compute].
  destruct sample_state_ok as [Hc Hr _]. split; [| |by vm_compute].
  { assert (counters_of sample_cancelled = counters_of sample_state) as -> by (vm_compute; reflexivity). exact Hc. }
  intros id r. unfold sample_cancelled. cbn [im_records set]. revert Hr. generalize (im_records sample_state) as m.
  intros m Hr Hid. apply lookup_insert_Some in Hid as [[<- <-]|[_ Hid]]; [|by apply (Hr id r)].
  split; [apply cancelled_durable|reflexivity].
Qed.

(** C13: an outcome that was saved is final for good.  From a save on, through any
    number of crashes and restarts, with whatever work between them and whatever
    later saves, a collective that was COMPLETED or CANCELLED (or otherwise
    terminal) when it was saved still has that outcome for the same request, or is
    RETIRED, or a higher generation has superseded it. *)
Theorem saved_outcome_final floor s ord id r l : savable s ord -> wf s ->
  im_records s !! id = Some r -> is_terminal_state (rec_lifecycle r) = true ->
  rtc (life_step floor) (mkLife s (Some (save s ord))) l ->
  exists r', im_records (lf_scheduler l) !! id = Some r' /\
    (gen_value (rq_gen (rec_request r)) < gen_value (rq_gen (rec_request r')) \/
     rec_request r' = rec_request r /\ rec_lifecycle r' ∈ [rec_lifecycle r; LifecycleState.RETIRED]).
Proof.
  intros Hs Hwf Hr Ht Hrun. assert (remembers id r (outcome (rec_lifecycle r)) s) as H0.
  { exists r. split; [done|]. right. split; [done|]. by left. }
  destruct (lives_keep floor _ _ _ l (outcome_survives floor id r Ht) (saved_life _ _ s ord Hs Hwf H0 H0) Hrun)
    as (_ & H & _). exact H.
Qed.
(** The process dies and is started again, twice, and a participant is published. *)
Example saved_outcome_final_witness : exists r',
  im_records (started_with (Some (save sample_cancelled sample_order)) (mkGen 4)) !! mkId 3 = Some r' /\
  rec_lifecycle r' ∈ [LifecycleState.CANCELLED; LifecycleState.RETIRED].
Proof.
  set (file := Some (save sample_cancelled sample_order)).
  assert (rtc (life_step 2) (mkLife sample_cancelled file) (mkLife (started_with file (mkGen 4)) file)) as Hrun.
  { eapply rtc_l; [apply (life_restarts 2 _ file (mkGen 2)); by vm_compute|].
    eapply rtc_l; [apply life_works, (step_publishParticipant _ (sample_participant 1))|].
    eapply rtc_l; [apply (life_restarts 2 _ file (mkGen 4)); by vm_compute|]. apply rtc_refl. }
  assert (im_records sample_cancelled !! mkId 3 = Some cancelled_record) as Hr by (vm_compute; reflexivity).
  destruct (saved_outcome_final 2 sample_cancelled sample_order (mkId 3)
    cancelled_record _ sample_savable sample_cancelled_wf
    Hr eq_refl Hrun) as (r' & Hr' & H).
  cbn [lf_scheduler] in Hr'. refine (ex_intro _ r' (conj Hr' _)). destruct H as [H|[_ H]]; [|exact H]. exfalso.
  assert ((fun r => gen_value (rq_gen (rec_request r))) <$>
    im_records (started_with file (mkGen 4)) !! mkId 3 = Some 1) as E by (vm_compute; reflexivity).
  rewrite Hr' in E. cbn [fmap option_fmap option_map] in E. injection E as E. rewrite E in H. by vm_compute in H.
Defined.

(** C12: nothing that was in the file of a restart runs again by itself, in that
    lifetime or a later one: each saved collective is, until a higher generation
    supersedes its request, neither selected nor handed over, activated or
    completed, whatever evidence is published. *)
Theorem restarts_inert floor s ord epoch id r l : savable s ord -> wf s -> im_records s !! id = Some r ->
  floor <= gen_value epoch ->
  rtc (life_step floor) (mkLife (started_with (Some (save s ord)) epoch) (Some (save s ord))) l ->
  exists r', im_records (lf_scheduler l) !! id = Some r' /\
    (gen_value (rq_gen (rec_request r)) < gen_value (rq_gen (rec_request r')) \/
     rec_request r' = rec_request r /\ inert (lf_scheduler l) id).
Proof.
  intros Hs Hwf Hr He Hrun. assert (remembers id r (fun _ => True) s) as H0.
  { exists r. split; [done|]. by right. }
  destruct (lives_keep floor _ _ _ l (dormant_survives floor id r)
    (restarted_life floor _ _ s ord epoch (dormant_survives floor id r) Hs Hwf H0 He) Hrun) as (Hwf' & (r' & Hr' & H) & _).
  exists r'. split; [done|]. destruct H as [H|[E Hd]]; [by left|right]. split; [done|]. by eapply dormant_inert.
Qed.
Example restarts_inert_witness :
  inert (exec (publishParticipant (sample_participant 1))
    (started_with (Some (save sample_cancelled sample_order)) (mkGen 2))) (mkId 1).
Proof.
  set (file := Some (save sample_cancelled sample_order)).
  assert (rtc (life_step 2) (mkLife (started_with file (mkGen 2)) file)
    (mkLife (exec (publishParticipant (sample_participant 1)) (started_with file (mkGen 2))) file)) as Hrun
    by (apply rtc_once, life_works, step_publishParticipant).
  assert (im_records sample_cancelled !! mkId 1 = Some (sample_record request1 0)) as Hr by (vm_compute; reflexivity).
  destruct (restarts_inert 2 sample_cancelled sample_order (mkGen 2) (mkId 1) (sample_record request1 0) _
    sample_savable sample_cancelled_wf Hr (Z.le_refl 2) Hrun) as (r2 & Hr2 & [H|[_ H]]); [|exact H].
  exfalso. cbn [lf_scheduler] in Hr2. assert ((fun r => gen_value (rq_gen (rec_request r))) <$>
    im_records (exec (publishParticipant (sample_participant 1)) (started_with file (mkGen 2))) !! mkId 1 = Some 1) as E
    by (vm_compute; reflexivity).
  rewrite Hr2 in E. cbn [fmap option_fmap option_map] in E. injection E as E. rewrite E in H. by vm_compute in H.
Defined.

(** C14: grants of earlier lifetimes have no authority.  After a restart, in that
    lifetime and all later ones: a grant whose id had been taken when the file was
    written completes nothing, and a grant of an epoch below those the process is
    started with is neither handed over nor completed. *)
Theorem old_grants_rejected floor s ord epoch l : savable s ord -> wf s -> floor <= gen_value epoch ->
  rtc (life_step floor) (mkLife (started_with (Some (save s ord)) epoch) (Some (save s ord))) l ->
  let s' := lf_scheduler l in
  (forall g wb sb, id_value (g_id g) < id_value (im_next_grant_id s) -> returns (complete_locked g wb sb) s' None s') /\
  (forall g, gen_value (ev_epoch (g_evidence g)) < floor ->
     returns (handoff_begin g) s' false s' /\ forall wb sb, returns (complete_locked g wb sb) s' None s').
Proof.
  intros Hs Hwf He Hrun s'. split.
  - intros g wb sb Hlt. pose proof (spent_survives floor (id_value (im_next_grant_id s))) as Hsu.
    destruct (lives_keep floor _ _ _ l Hsu (restarted_life floor _ _ s ord epoch Hsu Hs Hwf (Z.le_refl _) He) Hrun)
      as (_ & [_ Hn] & _).
    apply complete_locked_refused. intros r gs Hc. pose proof (cp_grant _ _ _ _ _ _ Hc) as Hg.
    unfold s' in Hg. by rewrite Hn in Hg.
  - intros g Hlt. pose proof (epoch_survives floor) as Hsu.
    destruct (lives_keep floor _ _ _ l Hsu (restarted_life floor _ _ s ord epoch Hsu Hs Hwf I He) Hrun) as (_ & Hep & _).
    assert (ev_epoch (g_evidence g) <> im_epoch s') as Hne by (intros E; rewrite E in Hlt; unfold s' in Hlt; lia).
    split; [|intros wb sb; by apply complete_epoch]. apply handoff_begin_invalid. rewrite revalidate_grant_iff.
    intros (r & _ & Hc). by apply Hne, Hc.
Qed.
Example old_grants_rejected_witness :
  let s := started_with (Some (save sample_cancelled sample_order)) (mkGen 2) in
  returns (handoff_begin sample_grant) s false s.
Proof.
  cbv zeta. set (file := Some (save sample_cancelled sample_order)).
  refine (proj1 (proj2 (old_grants_rejected 2 sample_cancelled sample_order (mkGen 2)
    (mkLife (started_with file (mkGen 2)) file) sample_savable sample_cancelled_wf (Z.le_refl 2) (rtc_refl _ _))
    sample_grant _)).
  by vm_compute.
Defined.

(** ** What a restart loses *)

(** [fopen(path, "wb")] empties the file before it is written: a process that
    dies there starts the next one without any history. *)
Lemma interrupted_save_loses_all epoch : started_with (Some []) epoch = started_with None epoch.
Proof. by rewrite started_restores, started_new. Qed.

(** Ids taken after the last save are taken again.  A scheduler with its evidence
    is saved; a collective is submitted and granted; the process dies and is
    started again in the same epoch; another collective is submitted, granted and
    handed over.  The old grant, which is for the other collective, completes it. *)
Definition lost_lifetime : Impl :=
  exec (schedule_round [mkId 1] []) (exec (submit request1) sample_evidence).
Definition lost_grant : CollectiveGrant :=
  match im_grants lost_lifetime !! mkId 1 with Some gs => gs_grant gs | None => CollectiveGrant_default end.
Definition next_lifetime : Impl :=
  let s := started_with (Some (save sample_evidence [])) (mkGen 1) in
  let s := foldl (fun s f => f s) s
    (((fun pid => exec (publishParticipant (sample_participant pid))) <$> [1; 2]) ++
     [exec (publishPlan (sample_plan 5 50)); exec (submit (request1 <| rq_collective := mkId 99 |>));
      exec (schedule_round [mkId 1] [])]) in
  match im_grants s !! mkId 1 with
  | Some gs => exec (handoff_finish (gs_grant gs) true) (exec (handoff_begin (gs_grant gs)) s)
  | None => s
  end.
Lemma lost_ids_are_reused : g_collective lost_grant = mkId 11 /\
  (rq_collective ∘ rec_request <$> im_records next_lifetime !! mkId 1) = Some (mkId 99) /\
  eval (complete_locked lost_grant (mkId 70) (mkId 100)) next_lifetime = Ok (Some (mkId 500)) /\
  (rec_lifecycle <$> im_records (exec (complete_locked lost_grant (mkId 70) (mkId 100)) next_lifetime) !! mkId 1) =
    Some LifecycleState.COMPLETED.
Proof. split_and!; by vm_compute. Qed.
