(* ===== verification/Worker.v ===== *)
(** * Worker: the reference worker process (worker.cpp)

    After connecting, the worker greets the coordinator, registers and publishes
    its participants ([startup]); then it answers every grant of a collective one
    of its participants takes part in with EXECUTION_ACCEPTED and COMPLETE
    ([handle]).  As in Coordinator the socket is the sequence of chunks [recv]
    returns and the list of frames sent; the command line is the parameters of
    the section.  [deserialize_grant] and [expect_end] are outside any [try], so
    an unreadable grant ends the process with an exception. *)
From S2P Require Import Prelude Enums Identity Error Float64 Domain Lifecycle Conflict Codec Serialize.
From S2P Require Import Protocol State Samples Eligibility Ranking Schedule Rounds Ports Operations Safety Guarantees.
From S2P Require Import Persistence Coordinator.

Section worker.
(** [--worker], [--boot], [--participant ...]. *)
Variables (worker boot : Z) (participants : list Z).

(** The variables of [main] that outlive an iteration. *)
Record Worker : Set := mkWorker { wk_quit : bool; wk_sent : list (list Z) }.
#[global] Instance Worker_eta : Eta Worker := fun w => mkWorker (wk_quit w) (wk_sent w).
Abbreviation WK := (M scheduler_error Worker).

Definition send (type : MsgType.t) (seq : Z) (payload : list Z) : WK unit :=
  fun w => (Ok tt, w <| wk_sent ::= fun l => l ++ [encode_frame type seq payload] |>).

(** The participant the worker publishes for each [--participant]. *)
Definition own_participant (pid : Z) : Participant :=
  Participant_default
    <| p_id := mkId pid |> <| p_gen := mkGen 1 |>
    <| p_worker := mkId worker |> <| p_worker_boot := mkId boot |>
    <| p_source := mkId 1 |> <| p_source_boot := mkId 100 |>
    <| p_device := mkId pid |> <| p_node := mkId 1 |> <| p_nic := mkId pid |>
    <| p_capability_gen := mkGen 1 |> <| p_health_gen := mkGen 1 |> <| p_topology_gen := mkGen 1 |>
    <| p_ready := true |> <| p_readiness_source := ProvenanceStatus.REAL |>
    <| p_provenance := ProvenanceStatus.REAL |>.
(** The messages before the receive loop. *)
Definition startup : WK unit :=
  send MsgType.HELLO 0 [];;
  send MsgType.REGISTER 1 (w_u64 worker ++ w_u64 boot);;
  mfor (fun pid => send MsgType.PUBLISH_PARTICIPANT 2 (serialize_participant (own_participant pid)))
    participants.

(** [am_participant]. *)
Definition am_participant (g : CollectiveGrant) : bool :=
  existsb (fun pid => existsb (fun mine => id_value pid =? mine) participants) (g_participants g).
(** The body of the message loop. *)
Definition handle (m : Msg) : WK unit :=
  match m_type m with
  | MsgType.GRANT =>
      g ← lift (parse_all deserialize_grant (m_payload m));
      if am_participant g && negb (g_terminal g) then
        send MsgType.EXECUTION_ACCEPTED (m_seq m) (serialize_grant g ++ w_id (g_workload g));;
        send MsgType.COMPLETE (add64 (m_seq m) 1) (serialize_grant g ++ w_u64 boot ++ w_u64 100)
      else mret tt
  | MsgType.SHUTDOWN => fun w => (Ok tt, w <| wk_quit := true |>)
  | _ => mret tt
  end.
(** [while (!quit)] over the chunks [recv] returns. *)
Definition loop (chunks : list (list Z)) : WK unit := receive wk_quit handle [] chunks.
(** [main] after the connection. *)
Definition main (chunks : list (list Z)) : WK unit :=
  startup;; loop chunks;; send MsgType.SHUTDOWN 999 [].

(** ** What the worker sends *)

(** The frames of the replies to one message. *)
Definition replies (m : Msg) (g : CollectiveGrant) : list Msg :=
  if am_participant g && negb (g_terminal g) then
    [ mkMsg MsgType.EXECUTION_ACCEPTED (m_seq m) (serialize_grant g ++ w_id (g_workload g));
      mkMsg MsgType.COMPLETE (add64 (m_seq m) 1) (complete_payload g (mkId boot) (mkId 100)) ]
  else [].
Definition greeting : list Msg :=
  mkMsg MsgType.HELLO 0 [] :: mkMsg MsgType.REGISTER 1 (w_u64 worker ++ w_u64 boot) ::
  ((fun pid => mkMsg MsgType.PUBLISH_PARTICIPANT 2 (serialize_participant (own_participant pid))) <$> participants).
Definition says (w : Worker) (ms : list Msg) : Worker := w <| wk_sent ::= fun l => l ++ (encode_msg <$> ms) |>.

Lemma says_app w l1 l2 : says (says w l1) l2 = says w (l1 ++ l2).
Proof. unfold says. destruct w. unfold set. cbn. by rewrite fmap_app, app_assoc. Qed.
Lemma send_says type seq payload w : send type seq payload w = (Ok tt, says w [mkMsg type seq payload]).
Proof. reflexivity. Qed.
Lemma startup_says w : startup w = (Ok tt, says w greeting).
Proof.
  unfold startup. rewrite (bind_ok _ _ _ _ _ (send_says _ _ _ w)), (bind_ok _ _ _ _ _ (send_says _ _ _ _)).
  rewrite says_app. unfold greeting. cbn [app].
  set (l := [mkMsg MsgType.HELLO _ _; _]).
  change (_ :: _ :: ?x) with (l ++ x). rewrite <- says_app. generalize (says w l). clear w l.
  induction participants as [|pid ps IH]; intros w; cbn [mfor fmap list_fmap].
  - destruct w as [q sent]. unfold says, set. cbn. by rewrite app_nil_r.
  - rewrite (bind_ok _ _ _ _ _ (send_says _ _ _ w)), IH, says_app. reflexivity.
Qed.
Lemma handle_grant seq g w : fits CollectiveGrant_ok serialize_grant g ->
  let m := mkMsg MsgType.GRANT seq (serialize_grant g) in handle m w = (Ok tt, says w (replies m g)).
Proof.
  intros Hg m. unfold handle, m. cbn [m_type m_payload m_seq].
  rewrite bind_lift, (parse_fits CollectiveGrant_ok serialize_grant deserialize_grant g Hg).
  unfold replies. destruct (_ && _).
  - rewrite (bind_ok _ _ _ _ _ (send_says _ _ _ w)), send_says, says_app. reflexivity.
  - destruct w as [q sent]. unfold says, set. cbn. by rewrite app_nil_r.
Qed.
End worker.
