(* ===== verification/System.v ===== *)
(** * System: the coordinator and its workers together

    What the two processes do to each other over a connection: a worker's
    greeting publishes its participants, its answer to a grant is a call of
    [complete]; and, since no message of the coordinator calls [handoff], what
    becomes of those completions. *)
From S2P Require Import Prelude Enums Identity Error Float64 Domain Lifecycle Conflict Codec Serialize.
From S2P Require Import Protocol State Samples Eligibility Ranking Schedule Rounds Ports Operations Safety.
From S2P Require Import RecordInvariant Guarantees Persistence Coordinator Worker.

Section system.
Context {W : Type} `{!Ports W}.
Variable ord : Impl -> list CollectiveRequestId.
Variable gord : Impl -> list CollectiveGrantId.
Variable persists : bool.
Abbreviation Co := (Coordinator (W := W)).
Abbreviation handle_all fd ms := (mfor (handle_message ord gord persists fd) ms).

(** ** One worker, one connection *)

Definition sends (fd : Z) (frames : list (list Z)) (c : Co) : Co :=
  c <| co_sent ::= fun l => l ++ ((fun f => (fd, f)) <$> frames) |>.
Definition published (ps : list Participant) (c : Co) : Co :=
  c <| co_scheduler ::= fun s => foldl (fun s p => exec (publishParticipant p) s) s ps |>.

Lemma own_participant_ok worker boot pid : u64 worker -> u64 boot -> u64 pid ->
  fits Participant_ok serialize_participant (own_participant worker boot pid).
Proof.
  intros. split; [|by vm_compute]. split; done.
Qed.
Lemma publish_all fd seq ps c : Forall (fits Participant_ok serialize_participant) ps ->
  handle_all fd ((fun p => mkMsg MsgType.PUBLISH_PARTICIPANT seq (serialize_participant p)) <$> ps) c =
  (Ok tt, published ps c).
Proof.
  intros Hps. revert c. induction Hps as [|p ps Hp Hps IH]; intros c.
  - unfold published. by destruct c.
  - rewrite fmap_cons. cbn [mfor].
    assert (handle_message ord gord persists fd (mkMsg MsgType.PUBLISH_PARTICIPANT seq (serialize_participant p)) c =
      (Ok tt, published [p] c)) as E by exact (publish_delivers Participant_ok _ _ publishParticipant p c Hp).
    rewrite (bind_ok _ _ _ _ _ E), IH. reflexivity.
Qed.
Lemma greeting_handled fd worker boot participants c : u64 worker -> u64 boot -> Forall u64 participants ->
  handle_all fd (greeting worker boot participants) c =
  (Ok tt, published (own_participant worker boot <$> participants)
     (sends fd [encode_frame MsgType.HELLO 0 []; encode_frame MsgType.HELLO 1 []] c)).
Proof.
  intros Hw Hb Hps. unfold greeting. cbn [mfor].
  assert (forall seq type c, type = MsgType.HELLO \/ type = MsgType.REGISTER -> forall pl,
    handle_message ord gord persists fd (mkMsg type seq pl) c =
    (Ok tt, sends fd [encode_frame MsgType.HELLO seq []] c)) as Hh by (intros ? ? ? [->| ->]; done).
  rewrite (bind_ok _ _ _ _ _ (Hh _ _ c (or_introl eq_refl) _)), (bind_ok _ _ _ _ _ (Hh _ _ _ (or_intror eq_refl) _)).
  rewrite (list_fmap_compose (own_participant worker boot)
    (fun p => mkMsg MsgType.PUBLISH_PARTICIPANT 2 (serialize_participant p))).
  rewrite publish_all.
  - unfold sends. destruct c. unfold set. cbn. by rewrite <- app_assoc.
  - apply Forall_fmap. eapply Forall_impl; [exact Hps|]. intros pid Hp. by apply own_participant_ok.
Qed.

(** The answer to a grant, and the farewell, are handled as a completion and the
    end of the coordinator. *)
Definition shut_down (c : Co) : Co := c <| co_running := false |>.
Lemma replies_handled fd boot participants seq g c : CollectiveGrant_ok g -> u64 boot ->
  am_participant participants g = true -> g_terminal g = false ->
  Z.of_nat (length (complete_payload g (mkId boot) (mkId 100))) < 2 ^ 63 ->
  handle_all fd (replies boot participants (mkMsg MsgType.GRANT seq (serialize_grant g)) g) c =
  (Ok tt, completed g (mkId boot) (mkId 100) c).
Proof.
  intros Hg Hb Ha Ht Hl. unfold replies. rewrite Ha, Ht. cbn [andb negb mfor].
  assert (forall seq pl c, handle_message ord gord persists fd (mkMsg MsgType.EXECUTION_ACCEPTED seq pl) c = (Ok tt, c))
    as Hx by done.
  rewrite (bind_ok _ _ _ _ _ (Hx _ _ c)).
  rewrite (bind_ok _ _ _ _ _ (complete_delivers ord gord persists fd _ g (mkId boot) (mkId 100) c Hg Hb
    ltac:(done) Hl)). reflexivity.
Qed.
Lemma keeps_on_last fd ms m c : Forall (fun m => m_type m <> MsgType.SHUTDOWN) ms -> co_running c = true ->
  keeps_on (fun c => negb (co_running c)) (handle_message ord gord persists fd) (ms ++ [m]) c.
Proof.
  intros Hms. revert c. induction Hms as [|m1 ms H1 Hms IH]; intros c Hc; cbn [app keeps_on]; rewrite Hc.
  - done.
  - split; [done|]. apply IH. by rewrite (handle_running ord gord persists fd m1 true H1 c Hc).
Qed.
Lemma mfor_ok_app fd ms1 ms2 (c c1 : Co) : handle_all fd ms1 c = (Ok tt, c1) ->
  handle_all fd (ms1 ++ ms2) c = handle_all fd ms2 c1.
Proof. intros E. by rewrite mfor_app, (bind_ok _ _ _ _ _ E). Qed.

Lemma greeting_not_shutdown worker boot participants :
  Forall (fun m => m_type m <> MsgType.SHUTDOWN) (greeting worker boot participants).
Proof. unfold greeting. repeat (constructor; [done|]). apply Forall_fmap, Forall_forall. by intros. Qed.

(** The messages of the whole session, from the worker's side. *)
Definition conversation (worker boot : Z) (participants : list Z) (m : Msg) (g : CollectiveGrant) : list Msg :=
  greeting worker boot participants ++ replies boot participants m g ++ [mkMsg MsgType.SHUTDOWN 999 []].

Lemma worker_says worker boot participants seq g chunks : fits CollectiveGrant_ok serialize_grant g ->
  let m := mkMsg MsgType.GRANT seq (serialize_grant g) in
  msg_ok m -> concat chunks = encode_all [m] -> Forall (fun ch => ch <> []) chunks ->
  main worker boot participants chunks (mkWorker false []) =
  (Ok tt, mkWorker false (encode_msg <$> conversation worker boot participants m g)).
Proof.
  intros Hg m Hm Ec Hne. unfold main. rewrite (bind_ok _ _ _ _ _ (startup_says _ _ _ _)).
  assert (loop boot participants chunks (says (mkWorker false []) (greeting worker boot participants)) =
    (Ok tt, says (says (mkWorker false []) (greeting worker boot participants)) (replies boot participants m g))) as E.
  { unfold loop. rewrite (receive_any_cut wk_quit (handle boot participants) [m]); [|by constructor|done|done|done].
    cbn [mfor]. by rewrite (bind_ok _ _ _ _ _ (handle_grant boot participants seq g _ Hg)). }
  rewrite (bind_ok _ _ _ _ _ E), send_says, !says_app. unfold says, set, conversation. cbn. by rewrite app_assoc.
Qed.

(** ** No hand-off, no completion *)

(** No collective is past its grant. *)
Definition unstarted (l : LifecycleState.t) : bool :=
  match l with
  | LifecycleState.DISPATCHING | LifecycleState.ACTIVE | LifecycleState.DRAINING => false
  | _ => true
  end.
Definition rec_unstarted (r : SRecord) : Prop := unstarted (rec_lifecycle r) = true.
Definition idle (s : Impl) : Prop := map_Forall (fun _ r => rec_unstarted r) (im_records s).

#[local] Instance unstarted_stable : StableRecord rec_unstarted.
Proof.
  unfold rec_unstarted. split; try done.
  - intros r Hr. unfold revalidate_record. destruct (revalidates _); [|done].
    rewrite try_transition_lifecycle. by destruct (can_transition _ _).
  - intros s r Hr. fold (refreshed s r).
    destruct (rf_lifecycle _ _ _ (refresh_record_frame s r)) as [->|(_ & _ & Hin)]; [done|].
    set_unfold in Hin. by destruct Hin as [E|[E|[E|[]]]]; rewrite E.
  - intros [req lc rd sq age fa rs he iq fp cg ep] Hr. by destruct lc.
Qed.
#[local] Instance idle_invariant : RecordInvariant idle rec_unstarted.
Proof.
  split; try done.
  - intros s id Hs. unfold record_at. destruct (im_records s !! id) as [r|] eqn:Hr; [|done].
    by apply (Hs id).
  - intros id r s Hs Hr. by apply map_Forall_insert_2.
  - intros s s' Hs _ E. unfold idle. by rewrite E.
Qed.
Lemma idle_submit req s : idle s -> idle (exec (submit req) s).
Proof.
  intros Hs. unfold submit. rewrite exec_get, exec_guard. destruct (_ >=? _); [done|]. cbv zeta.
  rewrite exec_put_bind, exec_lift. destruct (validate_request _ _); [|done].
  rewrite exec_get, exec_put_bind. unfold exec, mret, M_ret, idle. cbn [snd im_records set index_request].
  destruct (im_records s !! _); [done|]. by apply map_Forall_insert_2.
Qed.
Lemma idle_complete g wb sb s : idle s -> complete_locked g wb sb s = (Ok None, s).
Proof.
  intros Hs. apply complete_locked_refused. intros r gs [Hr _ _ _ Hl _ _ _ _ _].
  specialize (Hs _ _ Hr). unfold rec_unstarted in Hs. by rewrite Hl in Hs.
Qed.

Abbreviation co_idle := (fun c : Co => idle (co_scheduler c)).
Lemma idle_call {A} (m : SM A) : (forall s, idle s -> idle (exec m s)) -> preserves co_idle (call (locked m)).
Proof. intros Hm c Hc. unfold exec. rewrite call_locked. by apply Hm. Qed.
Lemma idle_same {A} (m : SM A) : (forall s, idle s -> im_records (exec m s) = im_records s) ->
  preserves co_idle (call (locked m)).
Proof. intros Hm. apply idle_call. intros s Hs. unfold idle. by rewrite Hm. Qed.
Lemma idle_schedule o g : preserves co_idle (call (schedule o g)).
Proof. intros c Hc. rewrite call_schedule. by apply (inv_schedule idle rec_unstarted). Qed.
Lemma idle_complete_call g wb sb : preserves co_idle (call (complete g wb sb)).
Proof. intros c Hc. rewrite call_complete. unfold exec. by rewrite idle_complete. Qed.
Lemma guarded_records (b : bool) (e : scheduler_error) s s' : im_records s' = im_records s ->
  im_records (exec (lift (throw_if b e) ≫= fun _ => put_state s') s) = im_records s.
Proof. rewrite exec_guard. by destruct b. Qed.
Lemma handle_idle fd m : preserves co_idle (handle_message ord gord persists fd m).
Proof.
  unfold handle_message, publish, query_schedule, parse.
  destruct (m_type m); preserves; try apply idle_schedule; try apply idle_complete_call.
  2: { apply preserves_try; preserves. apply idle_call. intros s. apply idle_submit. }
  all: first [apply idle_call; intros s; apply (inv_publishParticipant idle rec_unstarted)
    | apply idle_call; intros s; apply (inv_fence idle rec_unstarted)
    | apply idle_same; intros s _; first [reflexivity | by apply guarded_records] ].
Qed.

(** C31: the coordinator never lets a collective run to completion.  It has no
    message that hands a grant over, so whatever its clients send, over any
    number of connections and in any order, no collective leaves GRANTED for
    DISPATCHING or ACTIVE, and every COMPLETE of a worker is refused and counted
    as a stale rejection. *)
Theorem coordinator_never_completes (c : Co) (traffic : list (Z * Msg)) g wb sb fd seq :
  idle (co_scheduler c) ->
  let c' := exec (mfor (fun fm => handle_message ord gord persists fm.1 fm.2) traffic) c in
  idle (co_scheduler c') /\
  (CollectiveGrant_ok g -> id_ok wb -> id_ok sb -> Z.of_nat (length (complete_payload g wb sb)) < 2 ^ 63 ->
   handle_message ord gord persists fd (mkMsg MsgType.COMPLETE seq (complete_payload g wb sb)) c' =
   (Ok tt, c' <| co_stale_rejections ::= atomic_incr |>)).
Proof.
  intros Hc c'. assert (idle (co_scheduler c')) as Hc'.
  { apply (preserves_mfor co_idle); [|done]. intros [fd' m] _. apply handle_idle. }
  split; [done|]. intros Hg Hwb Hsb Hl. rewrite complete_delivers by done. unfold completed.
  unfold complete, locked, mbind, M_bind. rewrite (idle_complete g wb sb _ Hc'). by destruct c'.
Qed.

(** One worker over one connection.  The worker that receives a grant for one
    of its participants sends its greeting, EXECUTION_ACCEPTED, COMPLETE and
    SHUTDOWN; and the coordinator that receives those bytes, however cut, has
    published the worker's participants, called [complete] with that grant and
    the worker's boot, and stopped. *)
Theorem worker_session fd worker boot participants seq g wchunks chunks (c : Co) :
  let m := mkMsg MsgType.GRANT seq (serialize_grant g) in
  u64 worker -> u64 boot -> Forall u64 participants -> fits CollectiveGrant_ok serialize_grant g ->
  am_participant participants g = true -> g_terminal g = false ->
  Forall msg_ok (m :: conversation worker boot participants m g) ->
  concat wchunks = encode_all [m] -> Forall (fun ch => ch <> []) wchunks ->
  Forall (fun ch => ch <> []) chunks -> co_running c = true ->
  exists w, main worker boot participants wchunks (mkWorker false []) = (Ok tt, w) /\
    (concat chunks = concat (wk_sent w) ->
     session_loop ord gord persists fd chunks c =
     (Ok tt, shut_down (completed g (mkId boot) (mkId 100)
       (published (own_participant worker boot <$> participants)
         (sends fd [encode_frame MsgType.HELLO 0 []; encode_frame MsgType.HELLO 1 []] c))))).
Proof.
  intros m Hw Hb Hps Hg Ha Ht Hok Ewc Hwc Hc Hrun. apply Forall_cons in Hok as [Hm Hok].
  eexists. split; [by apply worker_says|]. cbn [wk_sent]. intros Ec.
  unfold session_loop. unfold conversation in *. rewrite !app_assoc in *.
  assert (Forall (fun m0 => m_type m0 <> MsgType.SHUTDOWN)
    (greeting worker boot participants ++ replies boot participants m g)) as Hns.
  { apply Forall_app_2.
    - apply greeting_not_shutdown.
    - unfold replies. destruct (_ && _); by repeat constructor. }
  rewrite (receive_any_cut _ _ _ chunks c Hok (keeps_on_last fd _ _ c Hns Hrun) Ec Hc).
  assert (Z.of_nat (length (complete_payload g (mkId boot) (mkId 100))) < 2 ^ 63) as Hl.
  { rewrite !Forall_app in Hok. destruct Hok as [[_ Hr] _]. unfold replies in Hr. rewrite Ha, Ht in Hr.
    cbn [andb negb] in Hr. rewrite !Forall_cons in Hr. destruct Hr as (_ & (_ & _ & Hlen) & _).
    cbn [m_payload] in Hlen. unfold CS_MAX_PROTOCOL_PAYLOAD in Hlen. lia. }
  erewrite mfor_ok_app; [|erewrite mfor_ok_app; [|by apply greeting_handled]].
  2:{ apply replies_handled; try done. apply Hg. }
  reflexivity.
Qed.
End system.

(** ** Concrete runs *)

Lemma idle_new epoch policy : idle (Scheduler_new epoch policy).
Proof. apply map_Forall_empty. Qed.
(** A participant, a request and a query over socket 3; the completion of a grant
    comes over socket 4. *)
Definition sample_traffic : list (Z * Msg) :=
  [ (3, mkMsg MsgType.PUBLISH_PARTICIPANT 2 (serialize_participant (sample_participant 1)));
    (3, mkMsg MsgType.SUBMIT_COLLECTIVE 3 (serialize_request request1));
    (3, mkMsg MsgType.QUERY_SCHEDULE 4 []) ].
Definition wire_grant : CollectiveGrant :=
  CollectiveGrant_default <| g_id := mkId 1 |> <| g_request := mkId 1 |> <| g_participants := [mkId 1] |>
    <| g_participant_gens := [mkGen 1] |>.
Example coordinator_never_completes_witness :
  let c' := exec (mfor (fun fm => handle_message record_order grant_order false fm.1 fm.2) sample_traffic)
    sample_coordinator in
  handle_message record_order grant_order false 4
    (mkMsg MsgType.COMPLETE 5 (complete_payload wire_grant (mkId 70) (mkId 100))) c' =
  (Ok tt, c' <| co_stale_rejections ::= atomic_incr |>).
Proof.
  assert (CollectiveGrant_ok wire_grant) as Hg by concrete_ok.
  assert (id_ok (mkId 70 : WorkerBootId) /\ id_ok (mkId 100 : SourceBootId) /\
    Z.of_nat (length (complete_payload wire_grant (mkId 70) (mkId 100))) < 2 ^ 63) as (H1 & H2 & H3) by by vm_compute.
  exact (proj2 (coordinator_never_completes record_order grant_order false sample_coordinator sample_traffic
    wire_grant (mkId 70) (mkId 100) 4 5 (idle_new _ _)) Hg H1 H2 H3).
Defined.
Example worker_session_witness :
  let m := mkMsg MsgType.GRANT 9 (serialize_grant wire_grant) in
  exists w, main 7 70 [1; 2] [encode_all [m]] (mkWorker false []) = (Ok tt, w).
Proof.
  intros m. assert (fits CollectiveGrant_ok serialize_grant wire_grant) as Hg by (split; [concrete_ok|by vm_compute]).
  destruct (worker_session record_order grant_order false 3 7 70 [1; 2] 9 wire_grant [encode_all [m]]
    [] sample_coordinator) as (w & E & _).
  - by vm_compute.
  - by vm_compute.
  - by repeat constructor.
  - exact Hg.
  - reflexivity.
  - reflexivity.
  - apply msgs_okb_ok. by vm_compute.
  - cbn [concat]. apply app_nil_r.
  - repeat constructor. by vm_compute.
  - constructor.
  - reflexivity.
  - exists w. exact E.
Defined.
