(* ===== verification/Server.v ===== *)
(** * Server: the coordinator process and its connections (coordinator.cpp)

    [Coordinator::run] accepts connections and gives each its own thread running
    [Coordinator::session].  Here each loop is a state machine and the process is
    their interleaving: a step is one test of a [while (running)], one [accept],
    one [recv] or the handling of one message.  Which step comes next, what the
    sockets return and when clients hang up is the list of events. *)
From S2P Require Import Prelude Enums Identity Error Float64 Domain Lifecycle Conflict Codec Serialize.
From S2P Require Import Protocol State Samples Eligibility Ranking Schedule Ports Operations Persistence Coordinator.

Section server.
Context {W : Type} `{!Ports W}.
Variable ord : Impl -> list CollectiveRequestId.
Variable gord : Impl -> list CollectiveGrantId.
Variable persists : bool.
Abbreviation Co := (Coordinator (W := W)).
Abbreviation handle := (handle_message ord gord persists).

(** Where the thread of a session is: in [recv], or in the [for] over the
    messages of a chunk with these left ([Handling []] is before the test of the
    [while]).  [buf] lives across the iterations. *)
Inductive session_at : Set :=
  | Receiving
  | Handling (msgs : list Msg).
Record Session : Set := mkSession { ss_buf : list Z; ss_at : session_at }.
(** Where the accept loop of [run] is. *)
Inductive listener_at : Set := Testing | Accepting | Stopped.
Record Server : Type := mkServer {
  sv_co : Co;
  sv_sessions : gmap Z Session;
  sv_listener : listener_at;
}.
#[global] Instance Server_eta : Eta Server := fun s => mkServer (sv_co s) (sv_sessions s) (sv_listener s).

Inductive event : Set :=
  | ListenerTests            (* while (impl_->running) in run *)
  | Accepts (fd : Z)         (* accept returns a new socket *)
  | AcceptFails
  | SessionTests (fd : Z)    (* while (impl_->running) in session *)
  | Receives (fd : Z) (chunk : list Z)
  | HangsUp (fd : Z)         (* recv returns 0 or fails *)
  | Handles (fd : Z).

(** The end of [session]: the socket leaves the list. *)
Definition forget (fd : Z) (c : Co) : Co :=
  c <| co_sessions ::= List.filter (fun x => negb (x =? fd)) |>.
Definition end_session (fd : Z) (s : Server) : Server :=
  s <| sv_co ::= forget fd |> <| sv_sessions ::= delete fd |>.
Definition session_goes (fd : Z) (buf : list Z) (at_ : session_at) (s : Server) : Server :=
  s <| sv_sessions ::= <[fd := mkSession buf at_]> |>.

(** One step; [None] where the event cannot happen.  A message whose handler
    throws ends the process ([std::terminate]): it has no successor. *)
Definition serve (e : event) (s : Server) : option Server :=
  let running := co_running (sv_co s) in
  match e with
  | ListenerTests =>
      match sv_listener s with
      | Testing => Some (s <| sv_listener := if running then Accepting else Stopped |>)
      | _ => None
      end
  | Accepts fd =>
      match sv_listener s, sv_sessions s !! fd with
      | Accepting, None =>
          Some (session_goes fd [] (Handling []) (s <| sv_listener := Testing |>
            <| sv_co ::= fun c => c <| co_sessions ::= fun l => l ++ [fd] |> |>))
      | _, _ => None
      end
  | AcceptFails =>
      match sv_listener s with
      | Accepting => Some (s <| sv_listener := Stopped |>)
      | _ => None
      end
  | SessionTests fd =>
      match sv_sessions s !! fd with
      | Some (mkSession buf (Handling [])) =>
          Some (if running then session_goes fd buf Receiving s else end_session fd s)
      | _ => None
      end
  | Receives fd chunk =>
      match sv_sessions s !! fd with
      | Some (mkSession buf Receiving) =>
          match decode_frames (buf ++ chunk) [] with
          | (true, buf', msgs) => Some (session_goes fd buf' (Handling msgs) s)
          | (false, _, _) => Some (end_session fd s)
          end
      | _ => None
      end
  | HangsUp fd =>
      match sv_sessions s !! fd with
      | Some (mkSession _ Receiving) => Some (end_session fd s)
      | _ => None
      end
  | Handles fd =>
      match sv_sessions s !! fd with
      | Some (mkSession buf (Handling (m :: msgs))) =>
          match handle fd m (sv_co s) with
          | (Ok _, c) => Some (session_goes fd buf (Handling msgs) (s <| sv_co := c |>))
          | (Throw _, _) => None
          end
      | _ => None
      end
  end.
Definition serve_all (evs : list event) (s : Server) : option Server :=
  foldl (fun o e => o ≫= serve e) (Some s) evs.
(** [run] after the startup, and the state in which it returns: the accept loop
    is over and every thread has been joined. *)
Definition started (c : Co) : Server := mkServer c ∅ Testing.
Definition returned (s : Server) : Prop := sv_listener s = Stopped /\ sv_sessions s = ∅.

(** ** What a run does to the coordinator *)

(** The effects of a run on the coordinator, in order. *)
Inductive effect : Set :=
  | Opened (fd : Z)
  | Handled (fd : Z) (m : Msg)
  | Closed (fd : Z).
Definition affect (c : Co) (e : effect) : Co :=
  match e with
  | Opened fd => c <| co_sessions ::= fun l => l ++ [fd] |>
  | Handled fd m => exec (handle fd m) c
  | Closed fd => forget fd c
  end.
Definition affected (c : Co) (log : list effect) : Co := foldl affect c log.
(** A descriptor names one connection after another: [accept] may return it again
    once it was closed.  So the bytes and the messages of [fd] are kept per
    connection, the latest first. *)
Definition extend {A} (l : list A) (xs : list (list A)) : list (list A) :=
  match xs with [] => [] | x :: xs => (x ++ l) :: xs end.
Definition deliver (fd : Z) (sts : list (list Z)) (e : event) : list (list Z) :=
  match e with
  | Accepts fd' => if fd' =? fd then [] :: sts else sts
  | Receives fd' chunk => if fd' =? fd then extend chunk sts else sts
  | _ => sts
  end.
Definition enact (fd : Z) (hs : list (list Msg)) (e : effect) : list (list Msg) :=
  match e with
  | Opened fd' => if fd' =? fd then [] :: hs else hs
  | Handled fd' m => if fd' =? fd then extend [m] hs else hs
  | Closed _ => hs
  end.
(** What each connection on [fd] delivered, and what was handled of it. *)
Definition received (fd : Z) (evs : list event) : list (list Z) := foldl (deliver fd) [] evs.
Definition handled (fd : Z) (log : list effect) : list (list Msg) := foldl (enact fd) [] log.
Definition bytes_event (e : event) : Prop := match e with Receives _ chunk => Forall u8 chunk | _ => True end.
Definition pending (a : session_at) : list Msg := match a with Receiving => [] | Handling ms => ms end.

Lemma received_snoc fd evs e : received fd (evs ++ [e]) = deliver fd (received fd evs) e.
Proof. unfold received. by rewrite foldl_app. Qed.
Lemma handled_snoc fd log e : handled fd (log ++ [e]) = enact fd (handled fd log) e.
Proof. unfold handled. by rewrite foldl_app. Qed.
Lemma serve_all_snoc evs e s : serve_all (evs ++ [e]) s = serve_all evs s ≫= serve e.
Proof. unfold serve_all. by rewrite foldl_app. Qed.
Lemma affected_snoc c0 log e : affected c0 (log ++ [e]) = affect (affected c0 log) e.
Proof. unfold affected. by rewrite foldl_app. Qed.
(** Events and effects of other connections, or of none. *)
Definition elsewhere (fd : Z) (e : event) : Prop :=
  match e with Accepts fd' | Receives fd' _ => fd' <> fd | _ => True end.
Lemma received_elsewhere fd evs e : elsewhere fd e -> received fd (evs ++ [e]) = received fd evs.
Proof. rewrite received_snoc. destruct e; cbn; try done; intros H; by rewrite (proj2 (Z.eqb_neq _ fd) H). Qed.
Lemma handled_elsewhere fd log e :
  match e with Opened fd' | Handled fd' _ => fd' <> fd | Closed _ => True end ->
  handled fd (log ++ [e]) = handled fd log.
Proof. rewrite handled_snoc. destruct e; cbn; try done; intros H; by rewrite (proj2 (Z.eqb_neq _ fd) H). Qed.
Lemma received_bytes fd evs : Forall bytes_event evs -> Forall (Forall u8) (received fd evs).
Proof.
  induction evs as [|e evs IH] using rev_ind; [constructor|].
  intros [Hb [He _]%Forall_cons]%Forall_app. specialize (IH Hb). rewrite received_snoc.
  destruct e as [|fd'| | |fd' chunk| |]; cbn; try done; (destruct (fd' =? fd); [|done]).
  - by constructor.
  - destruct IH as [|st sts]; constructor; [by apply Forall_app|done].
Qed.

(** A connection that has ended: what was handled is a prefix of its messages. *)
Definition served (st : list Z) (h : list Msg) : Prop :=
  exists ms ok rest, parses st ms ok rest /\ h `prefix_of` ms.
(** What is known of descriptor [fd] after the events: of the connections that
    ended nothing more is handled, and all that the open one delivered has been
    handled or waits to be. *)
Definition in_order (sts : list (list Z)) (hs : list (list Msg)) (o : option Session) : Prop :=
  match o with
  | Some ss => exists st sts' h hs', sts = st :: sts' /\ hs = h :: hs' /\
      parses st (h ++ pending (ss_at ss)) true (ss_buf ss) /\ Forall2 served sts' hs'
  | None => Forall2 served sts hs
  end.
Lemma in_order_end sts hs ss : in_order sts hs (Some ss) -> in_order sts hs None.
Proof.
  intros (st & sts' & h & hs' & -> & -> & Hp & HF). constructor; [|done].
  exists (h ++ pending (ss_at ss)), true, (ss_buf ss). split; [done|by apply prefix_app_r].
Qed.

(** A state reached by [evs] from [started c0], with the effects so far. *)
Record run_inv (c0 : Co) (evs : list event) (log : list effect) (s : Server) : Prop := {
  iv_co : sv_co s = affected c0 log;
  iv_order : forall fd, in_order (received fd evs) (handled fd log) (sv_sessions s !! fd);
}.
(** A step of descriptor [fd]: the others are as before. *)
Lemma run_inv_step c0 evs e log log' s s' fd : run_inv c0 evs log s ->
  sv_co s' = affected c0 log' ->
  (forall fd', fd' <> fd -> sv_sessions s' !! fd' = sv_sessions s !! fd' /\
     received fd' (evs ++ [e]) = received fd' evs /\ handled fd' log' = handled fd' log) ->
  in_order (received fd (evs ++ [e])) (handled fd log') (sv_sessions s' !! fd) -> run_inv c0 (evs ++ [e]) log' s'.
Proof.
  intros [Hc Ho] Hc' Hother Hin. split; [done|].
  intros fd'. destruct (decide (fd' = fd)) as [->|Hne]; [done|].
  destruct (Hother fd' Hne) as (-> & -> & ->). apply Ho.
Qed.
Lemma run_inv_quiet c0 evs e log s s' : run_inv c0 evs log s -> sv_co s' = sv_co s ->
  sv_sessions s' = sv_sessions s -> (forall fd, elsewhere fd e) -> run_inv c0 (evs ++ [e]) log s'.
Proof.
  intros [Hc Ho] Ec Es Er. split; [congruence|]. intros fd. rewrite Es, received_elsewhere by done. apply Ho.
Qed.
(** The end of a session. *)
Lemma run_inv_end c0 evs e log s fd : run_inv c0 evs log s ->
  (forall fd', fd' <> fd -> elsewhere fd' e) ->
  in_order (received fd (evs ++ [e])) (handled fd log) None ->
  run_inv c0 (evs ++ [e]) (log ++ [Closed fd]) (end_session fd s).
Proof.
  intros Hi Hr Hin. apply (run_inv_step c0 evs e log _ s _ fd); [done| | |].
  - rewrite affected_snoc, <- (iv_co _ _ _ _ Hi). reflexivity.
  - intros fd' Hne. split_and!; [by apply lookup_delete_ne|by apply received_elsewhere, Hr|by apply handled_elsewhere].
  - rewrite handled_elsewhere by done. cbn [sv_sessions end_session set]. by rewrite lookup_delete_eq.
Qed.

(** The events, one at a time, from a state reached. *)
Section event.
Variables (c0 : Co) (evs : list event) (log : list effect) (s s' : Server) (fd : Z).
Hypothesis Hi : run_inv c0 evs log s.
Abbreviation kept e := (exists log', run_inv c0 (evs ++ [e]) log' s').

Lemma listens_inv e : (forall fd', elsewhere fd' e) ->
  sv_co s' = sv_co s -> sv_sessions s' = sv_sessions s -> kept e.
Proof using Hi. intros He Ec Es. exists log. by eapply run_inv_quiet. Qed.
Lemma accepts_inv : serve (Accepts fd) s = Some s' -> kept (Accepts fd).
Proof using Hi.
  cbn [serve]. intros Hs. destruct (sv_listener s); [done| |done].
  destruct (sv_sessions s !! fd) eqn:Hfd; [done|]. injection Hs as <-.
  exists (log ++ [Opened fd]). eapply (run_inv_step _ _ _ _ _ _ _ fd); [exact Hi| | |].
  - rewrite affected_snoc, <- (iv_co _ _ _ _ Hi). reflexivity.
  - intros fd' Hne. split_and!; [by apply lookup_insert_ne|by apply received_elsewhere|by apply handled_elsewhere].
  - pose proof (iv_order _ _ _ _ Hi fd) as Ho. rewrite Hfd in Ho. cbn [sv_sessions session_goes set].
    rewrite lookup_insert_eq, received_snoc, handled_snoc. cbn [deliver enact]. rewrite Z.eqb_refl.
    exists [], (received fd evs), [], (handled fd log). split_and!; [done|done|by constructor|done].
Qed.
(** A session that ends with nothing received. *)
Lemma ends_inv e ss : (forall fd', elsewhere fd' e) ->
  sv_sessions s !! fd = Some ss -> s' = end_session fd s -> kept e.
Proof using Hi.
  intros He Hfd ->. pose proof (iv_order _ _ _ _ Hi fd) as Ho. rewrite Hfd in Ho.
  exists (log ++ [Closed fd]). apply run_inv_end; [exact Hi|by intros|].
  rewrite received_elsewhere by done. by eapply in_order_end.
Qed.
Lemma tests_inv : serve (SessionTests fd) s = Some s' -> kept (SessionTests fd).
Proof using Hi.
  cbn [serve]. intros Hs. pose proof (iv_order _ _ _ _ Hi fd) as Ho.
  destruct (sv_sessions s !! fd) as [[buf [|[|]]]|] eqn:Hfd; try done. injection Hs as Hs.
  destruct (co_running (sv_co s)); [|by eapply ends_inv]. subst s'.
  exists log. eapply (run_inv_step _ _ _ _ _ _ _ fd); [exact Hi|apply Hi| |].
  - intros fd' Hne. split_and!; [by apply lookup_insert_ne|by apply received_elsewhere|done].
  - cbn [sv_sessions session_goes set]. by rewrite lookup_insert_eq, received_elsewhere.
Qed.
Lemma receives_inv chunk : Forall bytes_event evs -> Forall u8 chunk ->
  serve (Receives fd chunk) s = Some s' -> kept (Receives fd chunk).
Proof using Hi.
  cbn [serve]. intros Hb Hc Hs. pose proof (iv_order _ _ _ _ Hi fd) as Ho.
  destruct (sv_sessions s !! fd) as [[buf [|]]|] eqn:Hfd; try done.
  destruct Ho as (st & sts & h & hs & Est & Eh & Hp & HF). cbn [pending ss_at ss_buf] in Hp. rewrite app_nil_r in Hp.
  assert (received fd (evs ++ [Receives fd chunk]) = (st ++ chunk) :: sts) as Er
    by (rewrite received_snoc, Est; cbn; by rewrite Z.eqb_refl).
  pose proof (received_bytes fd _ Hb) as Hu. rewrite Est in Hu. apply Forall_cons in Hu as [Hu _].
  pose proof (parses_bytes _ _ _ _ Hu Hp) as Hbuf.
  destruct (decode_frames_parses (buf ++ chunk) []) as (ms & ok & rest & Hp' & E); [by apply Forall_app|].
  rewrite E in Hs. pose proof (parses_app _ _ _ _ _ _ _ Hu Hp Hp') as Hall.
  assert (forall fd', fd' <> fd -> elsewhere fd' (Receives fd chunk)) as Hr by (intros fd' Hne; cbn; congruence).
  destruct ok; injection Hs as <-.
  - exists log. eapply (run_inv_step _ _ _ _ _ _ _ fd); [exact Hi|apply Hi| |].
    + intros fd' Hne. split_and!; [by apply lookup_insert_ne|by apply received_elsewhere, Hr|done].
    + cbn [sv_sessions session_goes set]. rewrite lookup_insert_eq, Er, Eh. by exists (st ++ chunk), sts, h, hs.
  - exists (log ++ [Closed fd]). apply run_inv_end; [exact Hi|exact Hr|]. rewrite Er, Eh. constructor; [|done].
    exists (h ++ ms), false, rest. split; [done|by apply prefix_app_r].
Qed.
Lemma handles_inv : serve (Handles fd) s = Some s' -> kept (Handles fd).
Proof using Hi.
  cbn [serve]. intros Hs. pose proof (iv_order _ _ _ _ Hi fd) as Ho.
  destruct (sv_sessions s !! fd) as [[buf [|[|m ms]]]|] eqn:Hfd; try done.
  destruct (handle fd m (sv_co s)) as [[[]|] c] eqn:Eh; [|done]. injection Hs as <-.
  exists (log ++ [Handled fd m]). eapply (run_inv_step _ _ _ _ _ _ _ fd); [exact Hi| | |].
  - rewrite affected_snoc, <- (iv_co _ _ _ _ Hi). cbn [affect]. unfold exec. by rewrite Eh.
  - intros fd' Hne. split_and!; [by apply lookup_insert_ne|by apply received_elsewhere|apply handled_elsewhere; congruence].
  - destruct Ho as (st & sts & h & hs & Est & Ehs & Hp & HF). cbn [sv_sessions session_goes set].
    rewrite lookup_insert_eq, received_elsewhere, handled_snoc, Est, Ehs by done. cbn [enact]. rewrite Z.eqb_refl.
    exists st, sts, (h ++ [m]), hs. split_and!; [done|done| |done]. by rewrite <- app_assoc.
Qed.
End event.

Lemma serve_inv c0 evs e log s s' : run_inv c0 evs log s -> serve e s = Some s' ->
  Forall bytes_event (evs ++ [e]) -> exists log', run_inv c0 (evs ++ [e]) log' s'.
Proof.
  intros Hi Hs [Hb [He _]%Forall_cons]%Forall_app. destruct e as [|fd| |fd|fd chunk|fd|fd].
  - cbn [serve] in Hs. destruct (sv_listener s); try done. injection Hs as <-. by eapply listens_inv.
  - by eapply accepts_inv.
  - cbn [serve] in Hs. destruct (sv_listener s); try done. injection Hs as <-. by eapply listens_inv.
  - by eapply tests_inv.
  - by eapply receives_inv.
  - cbn [serve] in Hs. destruct (sv_sessions s !! fd) as [[buf [|]]|] eqn:Hfd; try done. injection Hs as <-.
    by eapply ends_inv.
  - by eapply handles_inv.
Qed.
Lemma serve_all_inv c0 evs s : serve_all evs (started c0) = Some s ->
  Forall bytes_event evs -> exists log, run_inv c0 evs log s.
Proof.
  revert s. induction evs as [|e evs IH] using rev_ind; intros s Hs Hb.
  - injection Hs as <-. exists []. split; [done|]. intros fd. constructor.
  - rewrite serve_all_snoc in Hs. destruct (serve_all evs (started c0)) as [s1|]; [|done].
    pose proof Hb as [Hb1 _]%Forall_app. destruct (IH s1 eq_refl Hb1) as (log & Hi). by eapply serve_inv.
Qed.

(** The messages in the bytes a connection delivered. *)
Definition sent (st : list Z) : list Msg := (decode_frames st []).2.
Lemma served_sent st h : Forall u8 st -> served st h -> h `prefix_of` sent st.
Proof. intros Hu (ms & ok & rest & Hp & Hpre). unfold sent. by rewrite (decode_frames_iff _ _ _ _ _ Hu Hp). Qed.
Lemma all_served sts hs : Forall (Forall u8) sts -> Forall2 served sts hs ->
  Forall2 (fun st h => h `prefix_of` sent st) sts hs.
Proof.
  intros Hu HF. revert Hu. induction HF as [|st h sts hs Hs HF IH]; [constructor|].
  intros [Hu Hus]%Forall_cons. constructor; [by apply served_sent|by apply IH].
Qed.

(** C35: however the coordinator's threads interleave, however the clients'
    streams are cut and however often [accept] returns a descriptor again that was
    closed, what has been done to the coordinator is a sequence of openings,
    closings and whole messages, in which every connection's messages come in the
    order it sent them, each once: of each connection, one for each time its
    descriptor was accepted, what was handled is a prefix of the messages in the
    bytes it delivered, and for a connection still open the rest waits in its
    thread. *)
Theorem connections_in_order c0 evs s : serve_all evs (started c0) = Some s ->
  Forall bytes_event evs ->
  exists log, sv_co s = affected c0 log /\
    forall fd,
      Forall2 (fun st h => h `prefix_of` sent st) (received fd evs) (handled fd log) /\
      (forall ss, sv_sessions s !! fd = Some ss -> exists st sts h hs,
         received fd evs = st :: sts /\ handled fd log = h :: hs /\ h ++ pending (ss_at ss) = sent st).
Proof.
  intros Hs Hb. destruct (serve_all_inv c0 evs s Hs Hb) as (log & [Hc Ho]). exists log.
  split; [done|]. intros fd. specialize (Ho fd). pose proof (received_bytes fd evs Hb) as Hu. split.
  - apply all_served; [done|]. destruct (sv_sessions s !! fd); [by eapply in_order_end|done].
  - intros ss Hss. rewrite Hss in Ho. destruct Ho as (st & sts & h & hs & Est & Eh & Hp & _).
    exists st, sts, h, hs. split_and!; [done|done|]. rewrite Est in Hu. apply Forall_cons in Hu as [Hu _].
    unfold sent. by rewrite (decode_frames_iff _ _ _ _ _ Hu Hp).
Qed.

(** SHUTDOWN does not end the process: as long as the accept loop waits for a
    connection, [run] does not return. *)
Lemma accepting_not_returned evs s s' : serve_all evs s = Some s' -> sv_listener s = Accepting ->
  Forall (fun e => match e with Accepts _ | AcceptFails => False | _ => True end) evs ->
  sv_listener s' = Accepting /\ ~ returned s'.
Proof.
  intros Hs Hl Hev. enough (sv_listener s' = Accepting) as H; [split; [done|]; intros [? _]; congruence|].
  revert s' Hs. induction evs as [|e evs IH] using rev_ind; intros s' Hs; [by injection Hs as <-|].
  apply Forall_app in Hev as [Hev [He _]%Forall_cons]. rewrite serve_all_snoc in Hs.
  destruct (serve_all evs s) as [s1|]; [|done]. specialize (IH Hev s1 eq_refl). cbn [mbind option_bind] in Hs.
  destruct e; try done; cbn [serve] in Hs; rewrite ?IH in Hs; try done; repeat case_match; by simplify_eq.
Qed.
End server.

(** ** Two clients *)

(** A worker on socket 3, whose stream is cut in the middle of a frame, and a
    client on socket 4 that hangs up after its HELLO; the next client gets socket 4
    again and sends SHUTDOWN: the worker's thread is in [recv] when the coordinator
    stops, handles what comes and ends; the accept loop still waits. *)
Definition sample_events : list event :=
  [ ListenerTests; Accepts 3; SessionTests 3; ListenerTests; Receives 3 (take 40 sample_stream);
    Accepts 4; ListenerTests; SessionTests 4;
    Receives 4 (encode_all [mkMsg MsgType.HELLO 7 []]);
    Handles 3; Handles 4; SessionTests 4; HangsUp 4; Accepts 4; ListenerTests; SessionTests 4;
    Receives 4 (encode_all [mkMsg MsgType.HELLO 7 []; mkMsg MsgType.SHUTDOWN 8 []]);
    Handles 4; SessionTests 3; Handles 4; Receives 3 (drop 40 sample_stream); Handles 3;
    SessionTests 4; SessionTests 3 ].
Definition sample_server : Server (W := RecordingCollectiveFabric) :=
  started (sample_coordinator <| co_sessions := [] |>).
Example connections_in_order_witness : exists s log,
  serve_all record_order grant_order false sample_events sample_server = Some s /\
  sv_co s = affected record_order grant_order false (sample_coordinator <| co_sessions := [] |>) log /\
  length (handled 4 log) = 2%nat /\ sv_listener s = Accepting.
Proof.
  assert (Forall bytes_event sample_events) as Hb.
  { unfold sample_events. repeat (apply Forall_cons_2;
      [first [exact I | cbn [bytes_event]; apply (bool_decide_unpack _); vm_compute; exact I]|]). constructor. }
  assert (match serve_all record_order grant_order false sample_events sample_server with
    | Some s => sv_listener s = Accepting | None => False end) as Hs by (vm_compute; reflexivity).
  destruct (serve_all record_order grant_order false sample_events sample_server) as [s|] eqn:E; [|destruct Hs].
  destruct (connections_in_order record_order grant_order false _ _ s E Hb) as (log & Hc & Ho).
  assert (length (received 4 sample_events) = 2%nat) as Hl by (vm_compute; reflexivity).
  pose proof (Forall2_length _ _ _ (proj1 (Ho 4))) as El. rewrite Hl in El.
  exists s, log. exact (conj eq_refl (conj Hc (conj (eq_sym El) Hs))).
Defined.
