(* ===== verification/Threads.v ===== *)
(** * Threads: message handlers that run at the same time (coordinator.cpp)

    In Server a message is handled in one step.  In the program the threads of
    two sessions run their handlers side by side and only some pieces are atomic:
    a critical section of the scheduler's mutex, a call of a port, an increment
    of an atomic counter, the sending of a frame, a critical section of
    [sessions_mu].  Here a handler is the tree of those pieces ([handler]), a
    step of the process runs one piece of one thread ([tick]), and the theorems
    relate this process to the one of Server. *)
From S2P Require Import Prelude Enums Identity Error Float64 Domain Lifecycle Conflict Codec Serialize.
From S2P Require Import Protocol State Samples Eligibility Ranking Schedule Ports Operations Persistence Coordinator Server.

Section threads.
Context {W : Type} `{!Ports W}.
Variable ord : Impl -> list CollectiveRequestId.
Variable gord : Impl -> list CollectiveGrantId.
Variable persists : bool.
Abbreviation Co := (Coordinator (W := W)).
Abbreviation handle := (handle_message ord gord persists).

(** ** Handlers as trees of atomic actions *)

(** A running handler: what it does next.  [Lock] and [Unlock] are those of
    [sessions_mu]; [Crash] is an exception that leaves the handler. *)
Inductive proc : Type :=
  | Done
  | Crash (e : scheduler_error)
  | Lock (k : proc)
  | Unlock (k : proc)
  | Act {A : Type} (f : Co -> A * Co) (k : A -> proc).

(** One critical section of the scheduler, with what it returns or throws. *)
Definition critical {A} (m : Co -> SM A) (c : Co) : res A * Co :=
  let '(x, s) := m c (co_scheduler c) in (x, c <| co_scheduler := s |>).
Definition effects (f : Co -> Co) (k : proc) : proc := Act (fun c => (tt, f c)) (fun _ => k).
Definition port_call (f : W -> W) : Co -> Co := fun c => c <| co_world ::= f |>.
Definition sent_frame (fd : Z) (type : MsgType.t) (seq : Z) (payload : list Z) : Co -> Co :=
  fun c => c <| co_sent ::= fun l => l ++ [(fd, encode_frame type seq payload)] |>.
Fixpoint in_turn (fs : list (Co -> Co)) (k : proc) : proc :=
  match fs with
  | [] => k
  | f :: fs => effects f (in_turn fs k)
  end.

(** [catch (...) {}] around a parse and a critical section. *)
Definition on_ok {A} (x : res A) (k : A -> proc) : proc :=
  match x with Ok a => k a | Throw _ => Done end.
Definition publisher {A} (rd : R A) (op : A -> SM unit) (payload : list Z) : proc :=
  on_ok (parse_all rd payload) (fun a => Act (critical (fun _ => op a)) (fun _ => Done)).

(** The loop over [dec.grants]: look the grant up, count it, keep it. *)
Fixpoint collect (gids : list CollectiveGrantId) (issued : list CollectiveGrant)
    (k : list CollectiveGrant -> proc) : proc :=
  match gids with
  | [] => k issued
  | gid :: gids =>
      Act (fun c => (grantById (co_scheduler c) gid, c)) (fun o =>
        match o with
        | None => collect gids issued k
        | Some g => effects (fun c => c <| co_grants_issued ::= atomic_incr |>)
                      (collect gids (issued ++ [g]) k)
        end)
  end.
(** The frames sent while [sessions_mu] is held. *)
Definition grant_frames (seq : Z) (issued : list CollectiveGrant) (sessions : list Z) : list (Co -> Co) :=
  flat_map (fun g => (fun sess => sent_frame sess MsgType.GRANT seq (serialize_grant g)) <$> sessions) issued.

(** [Coordinator::handle_message], piece by piece. *)
Definition handler (fd : Z) (m : Msg) : proc :=
  let seq := m_seq m in
  let payload := m_payload m in
  match m_type m with
  | MsgType.HELLO | MsgType.REGISTER => effects (sent_frame fd MsgType.HELLO seq []) Done
  | MsgType.PUBLISH_PARTICIPANT => publisher deserialize_participant publishParticipant payload
  | MsgType.UPDATE_PLAN => publisher deserialize_plan publishPlan payload
  | MsgType.UPDATE_CONGESTION => publisher deserialize_congestion publishCongestion payload
  | MsgType.UPDATE_RESERVATION => publisher deserialize_reservation publishReservation payload
  | MsgType.UPDATE_CAPACITY => publisher deserialize_capacity publishCapacity payload
  | MsgType.UPDATE_DEPENDENCY => publisher deserialize_dependency publishDependency payload
  | MsgType.SUBMIT_COLLECTIVE =>
      match parse_all deserialize_request payload with
      | Throw _ => effects (sent_frame fd MsgType.ERROR seq []) Done
      | Ok req => Act (critical (fun _ => submit req)) (fun x =>
          effects (sent_frame fd MsgType.ERROR seq (submit_reply x)) Done)
      end
  | MsgType.QUERY_SCHEDULE =>
      Act (critical (fun c => schedule_round (ord (co_scheduler c)) (gord (co_scheduler c)))) (fun x =>
        match x with
        | Throw e => Crash e
        | Ok dec =>
            in_turn ((fun ev => port_call (request_preemption (pie_holder ev) (pie_requester ev) (pie_action ev)))
                       <$> dec_priority_inversions dec)
            (collect (dec_grants dec) [] (fun issued =>
              Lock (Act (fun c => (co_sessions c, c)) (fun sessions =>
              in_turn (grant_frames seq issued sessions)
              (Unlock (Act (fun c => (co_grants_issued c, c)) (fun n =>
               Act (fun c => (co_stale_rejections c, c)) (fun stale =>
               effects (sent_frame fd MsgType.HELLO seq
                 (w_u64 (Z.of_nat (length (dec_selected dec))) ++ w_u64 (wrap64 n) ++ w_u64 (wrap64 stale)))
               Done))))))))
        end)
  | MsgType.COMPLETE =>
      on_ok (parse_all parse_complete payload) (fun '(g, wb, sb) =>
        Act (critical (fun _ => complete_locked g wb sb)) (fun x =>
          on_ok x (fun wl => match wl with
            | Some wl => effects (port_call (release wl)) Done
            | None => effects (fun c => c <| co_stale_rejections ::= atomic_incr |>) Done
            end)))
  | MsgType.FENCE_WORKER =>
      on_ok (parse_all parse_fence payload) (fun '(wid, wb) =>
        Act (critical (fun c => fenceWorkerBoot (ord (co_scheduler c)) wid wb)) (fun x =>
          on_ok x (fun _ => effects (sent_frame fd MsgType.HELLO seq []) Done)))
  | MsgType.SAVE =>
      if persists then
        (* serializeState under the lock; fopen("wb") truncates; fwrite fills from the start *)
        Act (fun c => (save (co_scheduler c) (ord (co_scheduler c)), c)) (fun bytes =>
          effects (fun c => c <| co_file := Some [] |>)
          (effects (fun c => c <| co_file ::= fun old =>
              Some (bytes ++ drop (length bytes) (default [] old)) |>) Done))
      else Done
  | MsgType.SHUTDOWN => effects (fun c => c <| co_running := false |>) Done
  | _ => Done
  end.

(** ** One handler by itself is [handle_message] *)

Fixpoint run_proc (p : proc) : M scheduler_error Co unit :=
  match p with
  | Done => mret tt
  | Crash e => throw e
  | Lock k | Unlock k => run_proc k
  | Act f k => fun c => let '(a, c') := f c in run_proc (k a) c'
  end.

Lemma run_effects f k c : run_proc (effects f k) c = run_proc k (f c).
Proof. reflexivity. Qed.
Lemma run_in_turn fs k c : run_proc (in_turn fs k) c = run_proc k (foldl (fun c f => f c) c fs).
Proof. revert c. induction fs as [|f fs IH]; intros c; [done|]. cbn [in_turn foldl]. by rewrite run_effects, IH. Qed.
Lemma run_critical {A} (m : Co -> SM A) k c : run_proc (Act (critical m) k) c =
  run_proc (k (m c (co_scheduler c)).1) (c <| co_scheduler := exec (m c) (co_scheduler c) |>).
Proof. unfold exec. cbn [run_proc]. unfold critical. by destruct (m c (co_scheduler c)) as [x s]. Qed.
Lemma run_collect gids issued k c : let found := omap (grantById (co_scheduler c)) gids in
  run_proc (collect gids issued k) c =
  run_proc (k (issued ++ found)) (c <| co_grants_issued ::= fun n => foldl (fun n _ => atomic_incr n) n found |>).
Proof.
  revert issued c. induction gids as [|gid gids IH]; intros issued c; cbn [collect omap list_omap].
  - rewrite app_nil_r. by destruct c.
  - cbn [run_proc]. destruct (grantById _ gid) as [g|]; [|by rewrite IH].
    rewrite run_effects, IH. rewrite <- app_assoc. by destruct c.
Qed.
(** Sending the frames of the inner loops one after the other. *)
Lemma mfor_frames seq issued sessions c :
  mfor (fun g => mfor (fun sess => send_frame sess MsgType.GRANT seq (serialize_grant g)) sessions) issued c =
  (Ok tt, foldl (fun c f => f c) c (grant_frames seq issued sessions)).
Proof.
  revert c. induction issued as [|g issued IH]; intros c; [done|]. cbn [mfor].
  change (grant_frames seq (g :: issued) sessions) with
    (((fun sess => sent_frame sess MsgType.GRANT seq (serialize_grant g)) <$> sessions) ++ grant_frames seq issued sessions).
  rewrite foldl_app.
  assert (forall ss c, mfor (fun sess => send_frame sess MsgType.GRANT seq (serialize_grant g)) ss c =
    (Ok tt, foldl (fun c f => f c) c ((fun sess => sent_frame sess MsgType.GRANT seq (serialize_grant g)) <$> ss))) as E.
  { clear. intros ss. induction ss as [|s ss IH]; intros c; [done|]. exact (IH _). }
  by rewrite (bind_ok _ _ _ _ _ (E sessions c)), IH.
Qed.
(** The notifications of [schedule], as actions. *)
Lemma schedule_runs o g (c : Co) : call (schedule o g) c =
  let c' := c <| co_scheduler := exec (schedule_round o g) (co_scheduler c) |> in
  match (schedule_round o g (co_scheduler c)).1 with
  | Throw e => (Throw e, c')
  | Ok dec => (Ok dec, foldl (fun c f => f c) c' ((fun ev =>
      port_call (request_preemption (pie_holder ev) (pie_requester ev) (pie_action ev))) <$> dec_priority_inversions dec))
  end.
Proof.
  unfold exec, call, schedule, locked, mbind at 1, M_bind at 1. cbv zeta.
  destruct (schedule_round o g (co_scheduler c)) as [[dec|e] s]; cbn [fst snd]; [|by destruct c].
  assert (forall evs c1, (let '(x, (s', w')) :=
      (mfor (fun ev => notify (request_preemption (pie_holder ev) (pie_requester ev) (pie_action ev))) evs;; mret dec)
        (co_scheduler c1, co_world c1) in (x, c1 <| co_scheduler := s' |> <| co_world := w' |>)) =
    (Ok dec : res ScheduleDecision, foldl (fun c f => f c) c1 ((fun ev =>
      port_call (request_preemption (pie_holder ev) (pie_requester ev) (pie_action ev))) <$> evs))) as E.
  { intros evs. induction evs as [|ev evs IH]; intros c1; [by destruct c1|].
    rewrite fmap_cons. cbn [foldl]. rewrite <- IH. by destruct c1. }
  specialize (E (dec_priority_inversions dec) (c <| co_scheduler := s |>)). destruct c. exact E.
Qed.
Lemma bind_modify {A} f (k : unit -> M scheduler_error Co A) c : (modify f ≫= k) c = k tt (f c).
Proof. reflexivity. Qed.
Lemma query_runs fd seq payload c : run_proc (handler fd (mkMsg MsgType.QUERY_SCHEDULE seq payload)) c = query_schedule ord gord fd seq c.
Proof.
  unfold query_schedule. rewrite bind_get. unfold handler. cbn [m_type m_seq m_payload].
  rewrite run_critical. pose proof (schedule_runs (ord (co_scheduler c)) (gord (co_scheduler c)) c) as E.
  cbv zeta in E. destruct (schedule_round _ _ (co_scheduler c)).1 as [dec|e]; [|by rewrite (bind_throw _ _ _ _ _ E)].
  rewrite (bind_ok _ _ _ _ _ E), bind_get, run_in_turn, run_collect. cbv zeta. cbn [app].
  set (c1 := foldl _ _ _). clearbody c1. clear E.
  set (found := omap _ _). rewrite bind_modify.
  rewrite (bind_ok _ _ _ _ _ (mfor_frames _ _ _ _)), bind_get.
  cbn [run_proc]. rewrite run_in_turn. reflexivity.
Qed.

Lemma publish_runs {A} (rd : R A) op payload c : run_proc (publisher rd op payload) c = publish rd op payload c.
Proof.
  unfold publisher, publish, swallow, exec, parse. rewrite bind_lift.
  destruct (parse_all rd payload) as [a|e]; [|done]. cbn [on_ok]. rewrite run_critical.
  by rewrite call_locked.
Qed.
Lemma complete_runs fd seq payload c :
  run_proc (handler fd (mkMsg MsgType.COMPLETE seq payload)) c = handle fd (mkMsg MsgType.COMPLETE seq payload) c.
Proof.
  unfold handler, handle_message, swallow, parse, exec. cbn [m_type m_seq m_payload]. rewrite bind_lift.
  destruct (parse_all parse_complete payload) as [[[g wb] sb]|e]; [|done]. cbn [on_ok]. rewrite run_critical.
  unfold exec, call, complete, locked. unfold mbind, M_bind.
  destruct (complete_locked g wb sb (co_scheduler c)) as [[[wl|]|e] s]; by destruct c.
Qed.
(** A handler that runs with no other thread in between is [handle_message]. *)
Lemma handler_runs fd m c : run_proc (handler fd m) c = handle fd m c.
Proof.
  destruct m as [type seq payload]. destruct type; try reflexivity; try apply publish_runs.
  - unfold handler, handle_message, parse. cbn [m_type m_seq m_payload]. rewrite bind_lift.
    destruct (parse_all deserialize_request payload) as [req|e]; [|done]. rewrite run_critical.
    pose proof (call_locked (submit req) c) as E.
    destruct (submit req (co_scheduler c)).1 as [id|e] eqn:Es;
      [rewrite (bind_ok _ _ _ _ _ E)|rewrite (bind_throw _ _ _ _ _ E)]; reflexivity.
  - apply query_runs.
  - apply complete_runs.
  - unfold handler, handle_message. cbn [m_type m_seq m_payload]. unfold swallow, parse, exec at 1. rewrite bind_lift.
    destruct (parse_all parse_fence payload) as [[wid wb]|e]; [|done]. cbn [on_ok]. rewrite run_critical, bind_get.
    pose proof (call_locked (fenceWorkerBoot (ord (co_scheduler c)) wid wb) c) as E.
    destruct (fenceWorkerBoot _ _ _ (co_scheduler c)).1 as [[]|e];
      [rewrite (bind_ok _ _ _ _ _ E)|rewrite (bind_throw _ _ _ _ _ E)]; reflexivity.
  - unfold handler, handle_message. cbn [m_type]. destruct persists; [|done].
    cbn [run_proc]. rewrite !run_effects. cbn [run_proc]. unfold modify. generalize (save (co_scheduler c) (ord (co_scheduler c))).
    intros bytes. destruct c. unfold set. cbn. by rewrite drop_nil, app_nil_r.
Qed.

(** ** What a handler does to the shared state *)

(** What the critical sections and the loops depend on. *)
Definition core (c : Co) : Impl * bool * list Z := (co_scheduler c, co_running c, co_sessions c).

(** Actions that leave the core alone and end without an exception. *)
Fixpoint quiet (p : proc) : Prop :=
  match p with
  | Done => True
  | Crash _ => False
  | Lock k | Unlock k => quiet k
  | Act f k => (forall c, core (f c).2 = core c) /\ forall a, quiet (k a)
  end.
(** All that a handler does to the core it does in its first action, whose
    outcome is determined by the core. *)
Definition leads (p : proc) : Prop :=
  match p with
  | Done => True
  | Act f k =>
      (forall c c', core c = core c' -> (f c).1 = (f c').1 /\ core (f c).2 = core (f c').2) /\
      (forall a, quiet (k a) \/ exists e, k a = Crash e)
  | _ => False
  end.

Lemma quiet_effects f k : (forall c, core (f c) = core c) -> quiet k -> quiet (effects f k).
Proof. by split. Qed.
Lemma quiet_in_turn fs k : Forall (fun f => forall c, core (f c) = core c) fs -> quiet k -> quiet (in_turn fs k).
Proof. induction 1; [done|]. intros Hk. apply quiet_effects; auto. Qed.
Lemma quiet_collect gids issued k : (forall l, quiet (k l)) -> quiet (collect gids issued k).
Proof.
  intros Hk. revert issued. induction gids as [|gid gids IH]; intros issued; cbn [collect]; [apply Hk|].
  split; [done|]. intros [g|]; [by apply quiet_effects|done].
Qed.
Lemma quiet_run p c : quiet p -> exists c', run_proc p c = (Ok tt, c') /\ core c' = core c.
Proof.
  revert c. induction p as [|e|k IH|k IH|A f k IH]; intros c Hp; cbn [run_proc]; eauto; [done|].
  destruct Hp as [Hf Hk]. specialize (Hf c). destruct (f c) as [a c1]. cbn [snd] in Hf.
  destruct (IH a c1 (Hk a)) as (c' & E & Hc). exists c'. split; [done|]. congruence.
Qed.

Lemma leads_effects f k : (forall c c', core c = core c' -> core (f c) = core (f c')) -> quiet k -> leads (effects f k).
Proof. intros Hf Hk. split; [intros c c' E; split; [done|by apply Hf]|by left]. Qed.
Lemma leads_critical {A} (m : Impl -> SM A) k : (forall a, quiet (k a) \/ exists e, k a = Crash e) ->
  leads (Act (critical (fun c => m (co_scheduler c))) k).
Proof.
  intros Hk. split; [|done]. intros c c' E. unfold core in E. injection E as E1 E2 E3.
  unfold critical. rewrite E1. destruct (m _ _) as [x s]. split; [done|]. unfold core, set. cbn. congruence.
Qed.
Lemma frames_quiet seq issued sessions :
  Forall (fun f : Co -> Co => forall c, core (f c) = core c) (grant_frames seq issued sessions).
Proof.
  unfold grant_frames. induction issued as [|g issued IH]; [constructor|]. cbn [flat_map].
  apply Forall_app. split; [|done]. apply Forall_fmap, Forall_forall. by intros.
Qed.
Lemma handler_leads fd m : leads (handler fd m).
Proof.
  assert (forall {A} (rd : R A) op payload, leads (publisher rd op payload)) as Hpub.
  { intros A rd op payload. unfold publisher. destruct (parse_all rd payload) as [a|]; [|done].
    apply (leads_critical (fun _ => op a)). by left. }
  destruct m as [type seq payload].
  destruct type; cbn [handler m_type m_payload m_seq]; try done; try apply Hpub; try by apply leads_effects.
  - destruct (parse_all _ _) as [req|]; [|by apply leads_effects].
    apply (leads_critical (fun _ => submit req)). left. by apply quiet_effects.
  - apply (leads_critical (fun s => schedule_round (ord s) (gord s))). intros [dec|e]; [left|right; by eexists].
    apply quiet_in_turn; [by apply Forall_fmap, Forall_forall; intros|]. apply quiet_collect. intros issued.
    split; [done|]. intros sessions. apply quiet_in_turn; [apply frames_quiet|by repeat split].
  - destruct (parse_all _ _) as [[[g wb] sb]|]; [|done]. cbn [on_ok].
    apply (leads_critical (fun _ => complete_locked g wb sb)). left.
    destruct a as [[wl|]|e]; cbn [on_ok]; try apply quiet_effects; done.
  - destruct (parse_all _ _) as [[wid wb]|]; [|done]. cbn [on_ok].
    apply (leads_critical (fun s => fenceWorkerBoot (ord s) wid wb)). left.
    destruct a as [[]|e]; cbn [on_ok]; try apply quiet_effects; done.
  - destruct persists; [|done]. split.
    + intros c c' E. unfold core in *. injection E as E1 E2 E3. cbn. by rewrite E1, E2, E3.
    + intros bytes. left. by repeat apply quiet_effects.
  - apply leads_effects; [|done]. intros c c' E. unfold core, set in *. injection E as E1 E2 E3. cbn. congruence.
Qed.
(** The first action of a handler has the effect of the whole message. *)
Lemma handler_commits fd m c c' : core c = core c' ->
  match handler fd m with
  | Done => core (exec (handle fd m) c') = core c /\ is_ok (handle fd m c').1 = true
  | Act f k => forall k', k (f c).1 = k' -> (forall e, k' <> Crash e) ->
      quiet k' /\ core (exec (handle fd m) c') = core (f c).2 /\ is_ok (handle fd m c').1 = true
  | _ => True
  end.
Proof.
  intros E. pose proof (handler_leads fd m) as Hl. pose proof (handler_runs fd m c') as Hr.
  unfold exec. destruct (handler fd m) as [|e|k|k|A f k]; try done.
  - rewrite <- Hr. cbn. by rewrite E.
  - intros k' <- Hk. destruct Hl as [Hf Hq]. destruct (Hf c c' E) as [E1 E2].
    destruct (Hq (f c).1) as [Hq'|[e He]]; [|by destruct (Hk e)]. split; [done|].
    rewrite E1 in Hq'. rewrite E2, <- Hr. cbn [run_proc]. destruct (f c') as [a c1]. cbn [fst snd] in *.
    destruct (quiet_run (k a) c1 Hq') as (c2 & -> & Ec). by rewrite <- Ec.
Qed.

(** ** The process *)

(** The process of Server, in which a thread that has taken a message out of
    its list is running its handler, and the holder of [sessions_mu]. *)
Record Threads : Type := mkThreads {
  th_server : Server (W := W);
  th_procs : gmap Z proc;
  th_mu : option Z;
}.
#[global] Instance Threads_eta : Eta Threads := fun t => mkThreads (th_server t) (th_procs t) (th_mu t).

Inductive tick : Type :=
  | Outside (e : event)      (* a step of a loop, as in Server *)
  | Begins (fd : Z)          (* the next message of a chunk: handle_message is called *)
  | Acts (fd : Z).           (* the next action of its handler *)

(** The thread a step belongs to. *)
Definition event_fd (e : event) : option Z :=
  match e with
  | Accepts fd | SessionTests fd | Receives fd _ | HangsUp fd | Handles fd => Some fd
  | ListenerTests | AcceptFails => None
  end.
Definition in_handler (t : Threads) (o : option Z) : bool :=
  match o with Some fd => bool_decide (is_Some (th_procs t !! fd)) | None => false end.
(** The step pushes to or erases from the session list, so it takes [sessions_mu]. *)
Definition changes_sessions (s s' : Server (W := W)) : bool :=
  negb (bool_decide (co_sessions (sv_co s') = co_sessions (sv_co s))).
Definition running (fd : Z) (p : proc) (t : Threads) : Threads := t <| th_procs ::= <[fd := p]> |>.
Definition with_co (c : Co) (t : Threads) : Threads := t <| th_server ::= fun s => s <| sv_co := c |> |>.

(** One step; [None] where it cannot happen: a thread that waits for
    [sessions_mu], or an exception, which ends the process. *)
Definition advance_thread (x : tick) (t : Threads) : option Threads :=
  match x with
  | Outside e =>
      match e with Handles _ => None | _ =>
        if in_handler t (event_fd e) then None
        else match serve ord gord persists e (th_server t) with
        | None => None
        | Some s' =>
            if changes_sessions (th_server t) s' && bool_decide (is_Some (th_mu t)) then None
            else Some (t <| th_server := s' |>)
        end
      end
  | Begins fd =>
      match th_procs t !! fd, sv_sessions (th_server t) !! fd with
      | None, Some (mkSession buf (Handling (m :: ms))) =>
          Some (running fd (handler fd m) (t <| th_server ::= session_goes fd buf (Handling ms) |>))
      | _, _ => None
      end
  | Acts fd =>
      match th_procs t !! fd with
      | None | Some (Crash _) => None
      | Some Done => Some (t <| th_procs ::= delete fd |>)
      | Some (Lock k) =>
          match th_mu t with
          | None => Some (running fd k t <| th_mu := Some fd |>)
          | Some _ => None
          end
      | Some (Unlock k) => Some (running fd k t <| th_mu := None |>)
      | Some (Act f k) =>
          let '(a, c) := f (sv_co (th_server t)) in
          match k a with
          | Crash _ => None
          | p => Some (running fd p (with_co c t))
          end
      end
  end.
Definition advance_all (xs : list tick) (t : Threads) : option Threads :=
  foldl (fun o x => o ≫= advance_thread x) (Some t) xs.
Definition spawned (c : Co) : Threads := mkThreads (started c) ∅ None.

(** The steps outside the handlers, in order. *)
Definition outside_events (xs : list tick) : list event :=
  omap (fun x => match x with Outside e => Some e | _ => None end) xs.
Definition is_outside (e : event) : bool := match e with Handles _ => false | _ => true end.

(** ** The simulation *)

(** Thread [fd] of the process against the session of Server: the handler has
    yet to take its first action and the message is still to be handled there,
    or has taken it and the message has been handled. *)
Definition thread_matches (t : Threads) (s : Server (W := W)) (fd : Z) : Prop :=
  match th_procs t !! fd with
  | None => sv_sessions s !! fd = sv_sessions (th_server t) !! fd
  | Some p => exists buf ms, sv_sessions (th_server t) !! fd = Some (mkSession buf (Handling ms)) /\
      ((quiet p /\ sv_sessions s !! fd = Some (mkSession buf (Handling ms))) \/
       (exists m, p = handler fd m /\ sv_sessions s !! fd = Some (mkSession buf (Handling (m :: ms)))))
  end.
Record simulates (t : Threads) (s : Server (W := W)) : Prop := {
  si_core : core (sv_co (th_server t)) = core (sv_co s);
  si_listener : sv_listener (th_server t) = sv_listener s;
  si_thread : forall fd, thread_matches t s fd;
}.

(** The steps of the loops depend on the core, the listener and the thread's
    own session. *)
Lemma serve_outside e s1 s2 s1' : is_outside e = true -> core (sv_co s1) = core (sv_co s2) ->
  sv_listener s1 = sv_listener s2 ->
  (forall fd, event_fd e = Some fd -> sv_sessions s1 !! fd = sv_sessions s2 !! fd) ->
  serve ord gord persists e s1 = Some s1' ->
  exists s2', serve ord gord persists e s2 = Some s2' /\ core (sv_co s1') = core (sv_co s2') /\
    sv_listener s1' = sv_listener s2' /\
    forall fd, (event_fd e = Some fd /\ sv_sessions s1' !! fd = sv_sessions s2' !! fd) \/
      (sv_sessions s1' !! fd = sv_sessions s1 !! fd /\ sv_sessions s2' !! fd = sv_sessions s2 !! fd).
Proof.
  destruct s1 as [c1 ss1 l1], s2 as [c2 ss2 l2]. unfold core. cbn [sv_co sv_listener sv_sessions].
  intros He [= E1 E2 E3] <- Hfd Hs.
  destruct e as [|fd| |fd|fd chunk|fd|fd]; cbn [serve sv_listener sv_sessions sv_co event_fd is_outside] in *;
    try done; try (rewrite <- (Hfd fd eq_refl)); rewrite <- ?E2; repeat case_match; simplify_eq;
    (eexists; split; [reflexivity|]; unfold end_session, session_goes, forget, set; cbn;
     rewrite ?E1, ?E2, ?E3; split_and!; try (f_equal; congruence); try done;
     intros fd'; first [by right | destruct (decide (fd' = fd)) as [->|Hne];
       [left; split; [done|]; by rewrite ?lookup_insert_eq, ?lookup_delete_eq
       |right; by rewrite ?lookup_insert_ne, ?lookup_delete_ne by done] ]).
Qed.

Lemma serve_handles fd m ms buf (s : Server (W := W)) (c : Co) :
  sv_sessions s !! fd = Some (mkSession buf (Handling (m :: ms))) -> is_ok (handle fd m (sv_co s)).1 = true ->
  serve ord gord persists (Handles fd) s =
  Some (session_goes fd buf (Handling ms) (s <| sv_co := exec (handle fd m) (sv_co s) |>)).
Proof. intros Hs Hok. cbn [serve]. rewrite Hs. unfold exec. by destruct (handle fd m (sv_co s)) as [[]]. Qed.

(** A step of thread [fd], in the process and maybe in Server. *)
Lemma simulates_step fd t s t' s' : simulates t s ->
  core (sv_co (th_server t')) = core (sv_co s') -> sv_listener (th_server t') = sv_listener s' ->
  (forall fd', fd' <> fd -> th_procs t' !! fd' = th_procs t !! fd' /\
     sv_sessions (th_server t') !! fd' = sv_sessions (th_server t) !! fd' /\ sv_sessions s' !! fd' = sv_sessions s !! fd') ->
  thread_matches t' s' fd -> simulates t' s'.
Proof.
  intros [_ _ Ht] Hc Hl Hother Hfd. split; [done|done|]. intros fd'.
  destruct (decide (fd' = fd)) as [->|Hne]; [done|]. specialize (Ht fd'). unfold thread_matches in *.
  by destruct (Hother fd' Hne) as (-> & -> & ->).
Qed.

Section step.
Variables (t : Threads) (s : Server (W := W)).
Hypothesis Hsim : simulates t s.
Abbreviation follows t' evs := (exists s', serve_all ord gord persists evs s = Some s' /\ simulates t' s').

Lemma outside_follows e t' : advance_thread (Outside e) t = Some t' -> is_outside e = true /\ follows t' [e].
Proof using Hsim.
  cbn [advance_thread]. intros Ht.
  assert (is_outside e = true) as He by (by destruct e). split; [done|].
  assert (in_handler t (event_fd e) = false /\ exists s1, serve ord gord persists e (th_server t) = Some s1 /\
    t' = t <| th_server := s1 |>) as (Hin & s1 & Hs1 & ->).
  { destruct e; try done; destruct (in_handler t _); try done; (destruct (serve _ _ _ _ _) as [s1|]; [|done]);
      (destruct (_ && _); [done|]); injection Ht as <-; split; try done; by eexists. }
  destruct Hsim as [Hc Hl Hth].
  assert (forall fd, event_fd e = Some fd -> th_procs t !! fd = None) as Hnone.
  { intros fd E. rewrite E in Hin. cbn in Hin. apply bool_decide_eq_false in Hin. by apply eq_None_not_Some. }
  destruct (serve_outside e (th_server t) s s1 He Hc Hl) as (s2 & Hs2 & Hc2 & Hl2 & Hss); [|done|].
  { intros fd E. specialize (Hth fd). unfold thread_matches in Hth. by rewrite (Hnone fd E) in Hth. }
  exists s2. split; [exact Hs2|]. split; [done|done|]. intros fd. specialize (Hth fd). unfold thread_matches in *.
  cbn [th_procs th_server set]. destruct (Hss fd) as [[E E2]|[-> ->]]; [|done]. by rewrite (Hnone fd E).
Qed.
Lemma begins_follows fd t' : advance_thread (Begins fd) t = Some t' -> follows t' [].
Proof using Hsim.
  cbn [advance_thread]. intros Ht. exists s. split; [done|]. pose proof (si_thread _ _ Hsim fd) as Hfd. unfold thread_matches in Hfd.
  destruct (th_procs t !! fd); [done|]. destruct (sv_sessions (th_server t) !! fd) as [[buf [|[|m ms]]]|]; try done.
  injection Ht as <-. apply (simulates_step fd t s); [done|apply Hsim|apply Hsim| |].
  - intros fd' Hne. cbn. by rewrite !lookup_insert_ne.
  - unfold thread_matches. cbn. rewrite !lookup_insert_eq. exists buf, ms. split; [done|]. right. by exists m.
Qed.
(** The thread has taken its first action, or ends its handler; in Server its
    message has been handled. *)
Lemma settles fd buf ms o t' s' : th_procs t' = partial_alter (fun _ => o) fd (th_procs t) -> from_option quiet True o ->
  sv_sessions (th_server t') = sv_sessions (th_server t) -> sv_sessions (th_server t) !! fd = Some (mkSession buf (Handling ms)) ->
  sv_sessions s' = <[fd := mkSession buf (Handling ms)]> (sv_sessions s) ->
  sv_listener (th_server t') = sv_listener s' -> core (sv_co (th_server t')) = core (sv_co s') -> simulates t' s'.
Proof using Hsim.
  intros Ep Hq Es Hfd Es' Hl Hc. apply (simulates_step fd t s); try done.
  - intros fd' Hne. rewrite Ep, Es, Es'. by rewrite lookup_partial_alter_ne, lookup_insert_ne.
  - unfold thread_matches. rewrite Ep, Es, Es', lookup_partial_alter_eq, lookup_insert_eq, Hfd.
    destruct o as [k|]; [|done]. exists buf, ms. split; [done|]. by left.
Qed.
Lemma acts_follows fd t' : advance_thread (Acts fd) t = Some t' -> follows t' [] \/ follows t' [Handles fd].
Proof using Hsim.
  intros Ht. pose proof (si_thread _ _ Hsim fd) as Hfd. unfold thread_matches in Hfd. cbn [advance_thread] in Ht.
  destruct (th_procs t !! fd) as [p|] eqn:Hp; [|done]. destruct Hfd as (buf & ms & Hfd & Hs).
  assert (exists o, th_procs t' = partial_alter (fun _ => o) fd (th_procs t) /\
    sv_sessions (th_server t') = sv_sessions (th_server t) /\ sv_listener (th_server t') = sv_listener (th_server t) /\
    (quiet p -> from_option quiet True o /\ core (sv_co (th_server t')) = core (sv_co (th_server t))) /\
    (forall m, p = handler fd m -> from_option quiet True o /\
       core (exec (handle fd m) (sv_co s)) = core (sv_co (th_server t')) /\ is_ok (handle fd m (sv_co s)).1 = true))
    as (o & Ep & Es & El & Hquiet & Hcommit).
  { pose proof (handler_leads fd) as Hlead. pose proof (handler_commits fd) as Hcom.
    destruct p as [|e|k|k|A f k]; try done.
    - injection Ht as <-. exists None. split_and!; try done. intros m E. specialize (Hcom m _ _ (si_core _ _ Hsim)).
      rewrite <- E in Hcom. by destruct Hcom.
    - destruct (th_mu t); [done|]. injection Ht as <-. exists (Some k). split_and!; try done.
      intros m E. specialize (Hlead m). by rewrite <- E in Hlead.
    - injection Ht as <-. exists (Some k). split_and!; try done.
      intros m E. specialize (Hlead m). by rewrite <- E in Hlead.
    - destruct (f (sv_co (th_server t))) as [a c] eqn:Ef.
      assert (t' = running fd (k a) (with_co c t) /\ forall e, k a <> Crash e) as [-> Hnc].
      { by destruct (k a); simplify_eq. }
      exists (Some (k a)). split_and!; try done.
      + intros [Hf Hk]. split; [apply Hk|]. specialize (Hf (sv_co (th_server t))). by rewrite Ef in Hf.
      + intros m E. specialize (Hcom m _ _ (si_core _ _ Hsim)). rewrite <- E in Hcom.
        rewrite Ef in Hcom. cbn [fst snd] in Hcom. by destruct (Hcom (k a) eq_refl Hnc) as (? & ? & ?). }
  destruct Hs as [[Hq Hs]|(m & E & Hs)].
  - left. exists s. split; [done|]. destruct (Hquiet Hq) as [Ho Hc].
    eapply settles; try done; [by rewrite insert_id|by rewrite El; apply Hsim|by rewrite Hc; apply Hsim].
  - right. destruct (Hcommit m E) as (Ho & Hc & Hok).
    eexists. split; [cbn [serve_all foldl mbind option_bind]; by apply (serve_handles fd m ms buf s (sv_co s))|].
    eapply settles; try done. by rewrite El; apply Hsim.
Qed.
End step.

Lemma step_follows t s x t' : simulates t s -> advance_thread x t = Some t' ->
  exists evs s', serve_all ord gord persists evs s = Some s' /\ simulates t' s' /\
    List.filter is_outside evs = outside_events [x].
Proof.
  intros Hsim Ht. destruct x as [e|fd|fd].
  - destruct (outside_follows t s Hsim e t' Ht) as (He & s' & Hs & Hsim'). exists [e], s'.
    split_and!; [done|done|]. cbn. by rewrite He.
  - destruct (begins_follows t s Hsim fd t' Ht) as (s' & ? & ?). by exists [], s'.
  - destruct (acts_follows t s Hsim fd t' Ht) as [(s' & ? & ?)|(s' & ? & ?)]; [by exists [], s'|by exists [Handles fd], s'].
Qed.
Lemma advance_all_snoc xs x t : advance_all (xs ++ [x]) t = advance_all xs t ≫= advance_thread x.
Proof. unfold advance_all. by rewrite foldl_app. Qed.
Lemma serve_all_app evs1 evs2 s : serve_all ord gord persists (evs1 ++ evs2) s =
  serve_all ord gord persists evs1 s ≫= serve_all ord gord persists evs2.
Proof.
  unfold serve_all. rewrite foldl_app. destruct (foldl _ (Some s) evs1) as [s1|]; [done|]. cbn.
  induction evs2 as [|e evs2 IH]; [done|]. apply IH.
Qed.

(** The simulation, along a run. *)
Lemma threads_simulated c0 xs t : advance_all xs (spawned c0) = Some t ->
  exists evs s, serve_all ord gord persists evs (started c0) = Some s /\
    List.filter is_outside evs = outside_events xs /\ simulates t s.
Proof.
  revert t. induction xs as [|x xs IH] using rev_ind; intros t Ht.
  - injection Ht as <-. exists [], (started c0). split_and!; [done|done|]. by split.
  - rewrite advance_all_snoc in Ht. destruct (advance_all xs (spawned c0)) as [t1|]; [|done].
    destruct (IH t1 eq_refl) as (evs1 & s1 & Hs1 & He1 & Hsim1).
    destruct (step_follows t1 s1 x t Hsim1 Ht) as (evs2 & s2 & Hs2 & Hsim2 & He2).
    exists (evs1 ++ evs2), s2. rewrite serve_all_app, Hs1. split_and!; [done| |done].
    rewrite List.filter_app, He1, He2. unfold outside_events. by rewrite omap_app.
Qed.

(** C36: the session threads are as good as serialized.  However their critical
    sections, port calls and sends interleave, there is a run of the process in
    which every message is handled in one piece, with the same connections,
    bytes and turns of the loops, that leads to the same scheduler, running flag
    and session list; a connection between two messages is in the same state,
    and a message being handled has been handled there or not at all. *)
Theorem threads_serialize c0 xs t : advance_all xs (spawned c0) = Some t ->
  exists evs s, serve_all ord gord persists evs (started c0) = Some s /\
    List.filter is_outside evs = outside_events xs /\
    co_scheduler (sv_co (th_server t)) = co_scheduler (sv_co s) /\
    co_running (sv_co (th_server t)) = co_running (sv_co s) /\
    co_sessions (sv_co (th_server t)) = co_sessions (sv_co s) /\
    sv_listener (th_server t) = sv_listener s /\
    forall fd, thread_matches t s fd.
Proof.
  intros Ht. destruct (threads_simulated c0 xs t Ht) as (evs & s & Hs & He & [Hc Hl Hth]).
  exists evs, s. unfold core in Hc. by injection Hc as -> -> ->.
Qed.
End threads.

(** ** Two connections at once *)

(** Connection 3 asks for a save and is overtaken, after serializeState, by
    connection 4, which submits a collective and asks for a save as well. *)
Definition two_savers : list event :=
  [ ListenerTests; Accepts 3; ListenerTests; Accepts 4; SessionTests 3; SessionTests 4;
    Receives 3 (encode_all [mkMsg MsgType.SAVE 1 []]);
    Receives 4 (encode_all [mkMsg MsgType.SUBMIT_COLLECTIVE 1 (serialize_request request1); mkMsg MsgType.SAVE 2 []]) ].
Definition both_open : list tick :=
  [ Begins 3; Acts 3;                          (* 3: serializeState *)
    Begins 4; Acts 4; Acts 4; Acts 4;          (* 4: submit, reply, end *)
    Begins 4; Acts 4;                          (* 4: serializeState *)
    Acts 3; Acts 4;                            (* both truncate *)
    Acts 4; Acts 3; Acts 3; Acts 4 ].          (* 4 writes, then 3; end *)
Definition overlapping_saves : list tick := (Outside <$> two_savers) ++ both_open.
Definition two_savers_state : option (Threads (W := RecordingCollectiveFabric)) :=
  advance_all record_order grant_order true overlapping_saves (spawned (sample_coordinator <| co_sessions := [] |>)).
Definition saved_file : list Z :=
  default [] (t ← two_savers_state; co_file (sv_co (th_server t))).

(** The shorter file lands on the longer one: what is left is refused. *)
Example overlapping_saves_corrupt :
  (is_Some two_savers_state /\ (restore saved_file Scheduler_default).1 = Throw (throw_malformed "persistence checksum mismatch")).
Proof. split; [apply (bool_decide_unpack _)|]; vm_compute; reflexivity. Qed.

(** The scheduler itself is the one of a run in which the messages are handled
    one after the other. *)
Example threads_serialize_witness : exists t evs s, two_savers_state = Some t /\
  serve_all record_order grant_order true evs (started (sample_coordinator <| co_sessions := [] |>)) = Some s /\
  List.filter is_outside evs = two_savers /\
  co_scheduler (sv_co (th_server t)) = co_scheduler (sv_co s).
Proof.
  assert (is_Some two_savers_state) as [t Ht] by (apply (bool_decide_unpack _); vm_compute; exact I).
  destruct (threads_serialize record_order grant_order true _ _ t Ht) as (evs & s & Hs & He & Hc & _).
  exists t, evs, s. exact (conj Ht (conj Hs (conj He Hc))).
Defined.
