(* ===== verification/Broadcast.v ===== *)
(** * Broadcast: what the threads of the coordinator send as grants

    QUERY_SCHEDULE runs a round under the scheduler's lock, and only afterwards,
    with other threads in between, looks the new grants up and sends them out.
    Here: whatever the other threads do meanwhile, what goes out is grants the
    scheduler issued, unchanged.  Each action relies on the others to keep the
    issued grants, and guarantees the same ([honest]). *)
From S2P Require Import Prelude Enums Identity Error Float64 Domain Lifecycle Conflict Codec Serialize.
From S2P Require Import Protocol State Samples Eligibility Ranking Schedule Ports Operations Safety RecordInvariant.
From S2P Require Import Persistence Coordinator Server Threads.

(** ** The operations keep the grants *)

#[local] Instance keeps_invariant s0 : RecordInvariant (keeps_grants s0) (fun _ => True).
Proof.
  split; try done.
  - intros s s' H _ _ H'. by etrans.
Qed.
#[local] Instance true_stable : StableRecord (fun _ => True).
Proof. by split. Qed.

Lemma keeps_guarded b (e : scheduler_error) s s' : im_grants s' = im_grants s ->
  keeps_grants s (exec (lift (throw_if b e) ≫= fun _ => put_state s') s).
Proof. intros E. rewrite exec_guard. destruct b; [reflexivity|by apply keeps_same]. Qed.
Lemma keeps_submit req s : keeps_grants s (exec (submit req) s).
Proof.
  unfold submit. rewrite exec_get, exec_guard. destruct (_ >=? _); [reflexivity|]. cbv zeta.
  rewrite exec_put_bind, exec_lift. destruct (validate_request _ _); [|by apply keeps_same].
  rewrite exec_get, exec_put_bind. by apply keeps_same.
Qed.
Lemma keeps_complete g wb sb s : keeps_grants s (exec (complete_locked g wb sb) s).
Proof.
  unfold complete_locked. rewrite exec_get. destruct (im_records s !! g_request g); [|reflexivity].
  destruct (im_grants s !! g_id g) as [gs|] eqn:Hg; [|reflexivity]. destruct (negb _); [reflexivity|].
  destruct (transition _ _); [|reflexivity]. rewrite exec_put_bind. unfold exec. cbn [snd].
  match goal with |- keeps_grants s ?s' =>
    etrans; [apply (keeps_set_grant (g_id g) (gs <| gs_terminal := true |> <| gs_active := false |>
      <| gs_completed_by := wb |> <| gs_completed_by_source := sb |>) s)|by apply (keeps_same _ s')] end.
  intros gs0 E. assert (gs0 = gs) as -> by congruence. done.
Qed.
Lemma keeps_round ord gord s : keeps_grants s (exec (schedule_round ord gord) s).
Proof. exact (inv_schedule (keeps_grants s) (fun _ => True) ord gord s (reflexivity s)). Qed.
Lemma keeps_fence ord wid wb s : keeps_grants s (exec (fenceWorkerBoot ord wid wb) s).
Proof. exact (inv_fence (keeps_grants s) (fun _ => True) ord wid wb s (reflexivity s)). Qed.
Lemma keeps_publishParticipant p s : keeps_grants s (exec (publishParticipant p) s).
Proof. exact (inv_publishParticipant (keeps_grants s) (fun _ => True) p s (reflexivity s)). Qed.

(** A frame determines its type and payload. *)
Lemma encode_frame_inj t seq p t' seq' p' : encode_frame t seq p = encode_frame t' seq' p' -> t = t' /\ p = p'.
Proof.
  intros E. assert (length p = length p') as Hl.
  { apply (f_equal length) in E. unfold encode_frame in E. cbv zeta in E.
    rewrite !length_app, !frame_body_length, !put_le_length in E. lia. }
  apply app_inj_1 in E as [E _]; [|rewrite !frame_body_length; lia]. unfold frame_body in E.
  apply app_inv_head, app_inv_head in E. apply app_inj_1 in E as [Et E]; [|by rewrite !put_le_length].
  apply app_inj_1 in E as [_ E]; [|by rewrite !put_le_length].
  apply app_inj_1 in E as [_ E]; [|by rewrite !put_le_length].
  split; [|done]. by destruct t, t'; vm_compute in Et.
Qed.

Section broadcast.
Context {W : Type} `{!Ports W}.
Variable ord : Impl -> list CollectiveRequestId.
Variable gord : Impl -> list CollectiveGrantId.
Variable persists : bool.
Abbreviation Co := (Coordinator (W := W)).
Abbreviation Proc := (proc (W := W)).

(** The scheduler issued [g]. *)
Definition issued (s : Impl) (g : CollectiveGrant) : Prop := exists gid, grantById s gid = Some g.
(** Every GRANT frame sent carries a grant the scheduler issued. *)
Definition frames_issued (c : Co) : Prop := forall fd seq payload,
  (fd, encode_frame MsgType.GRANT seq payload) ∈ co_sent c ->
  exists g, issued (co_scheduler c) g /\ payload = serialize_grant g.

Lemma issued_keeps s s' g : issued s g -> keeps_grants s s' -> issued s' g.
Proof. intros [gid Hg] Hk. exists gid. by apply Hk. Qed.
Lemma frames_issued_same c c' : frames_issued c -> co_sent c' = co_sent c ->
  keeps_grants (co_scheduler c) (co_scheduler c') -> frames_issued c'.
Proof.
  intros Hc E Hk fd seq payload. rewrite E. intros (g & Hg & ->)%Hc. exists g. split; [by eapply issued_keeps|done].
Qed.
Lemma frames_issued_sent fd type seq payload c : frames_issued c ->
  (type = MsgType.GRANT -> exists g, issued (co_scheduler c) g /\ payload = serialize_grant g) ->
  frames_issued (sent_frame fd type seq payload c).
Proof.
  intros Hc Hf fd' seq' payload'.
  change (co_sent (sent_frame fd type seq payload c)) with (co_sent c ++ [(fd, encode_frame type seq payload)]).
  rewrite elem_of_app, list_elem_of_singleton.
  intros [H|E]; [by apply (Hc fd' seq')|]. apply pair_equal_spec in E as [_ E]. apply encode_frame_inj in E as [<- ->]. by apply Hf.
Qed.

(** What a thread may do next, from a scheduler in which at least the grants of
    [s] are issued: an action keeps the issued grants and sends issued ones,
    whatever the others did before it within the same bounds. *)
Fixpoint honest (s : Impl) (p : Proc) : Prop :=
  match p with
  | Done | Crash _ => True
  | Lock k | Unlock k => honest s k
  | Act f k => forall c, keeps_grants s (co_scheduler c) ->
      keeps_grants (co_scheduler c) (co_scheduler (f c).2) /\
      (frames_issued c -> frames_issued (f c).2) /\
      honest (co_scheduler (f c).2) (k (f c).1)
  end.
Lemma honest_keeps s s' p : honest s p -> keeps_grants s s' -> honest s' p.
Proof.
  revert s s'. induction p as [|e|k IH|k IH|A f k IH]; intros s s' Hp Hk; cbn in *; try done; try by eapply IH.
  intros c Hc. apply Hp. by etrans.
Qed.

(** An action that leaves the scheduler alone. *)
Definition plain (s : Impl) (f : Co -> Co) : Prop := forall c, keeps_grants s (co_scheduler c) ->
  co_scheduler (f c) = co_scheduler c /\ (frames_issued c -> frames_issued (f c)).
Lemma plain_same s f : (forall c, co_scheduler (f c) = co_scheduler c /\ co_sent (f c) = co_sent c) -> plain s f.
Proof.
  intros Hf c _. destruct (Hf c) as [E1 E2]. split; [done|]. intros Hc. apply (frames_issued_same c); [done|done|].
  rewrite E1. reflexivity.
Qed.
Lemma plain_sent s fd type seq payload :
  (type = MsgType.GRANT -> exists g, issued s g /\ payload = serialize_grant g) -> plain s (sent_frame fd type seq payload).
Proof.
  intros Hf c Hk. split; [done|]. intros Hc. apply frames_issued_sent; [done|]. intros Ht.
  destruct (Hf Ht) as (g & Hg & ->). exists g. split; [by eapply issued_keeps|done].
Qed.
Lemma honest_effects s f k : plain s f -> (forall s', keeps_grants s s' -> honest s' k) -> honest s (effects f k).
Proof.
  intros Hf Hk c Hc. destruct (Hf c Hc) as [E Hi]. cbn [fst snd]. rewrite E. split_and!; [reflexivity|done|].
  by apply Hk.
Qed.
Lemma honest_in_turn s fs k : Forall (plain s) fs -> (forall s', keeps_grants s s' -> honest s' k) -> honest s (in_turn fs k).
Proof.
  revert s. induction fs as [|f fs IH]; intros s Hfs Hk; [by apply Hk|]. apply Forall_cons in Hfs as [Hf Hfs].
  cbn [in_turn]. apply honest_effects; [done|]. intros s' Hs'. apply IH.
  - eapply Forall_impl; [exact Hfs|]. intros f' Hf' c Hc. apply Hf'. by etrans.
  - intros s'' H. apply Hk. by etrans.
Qed.
Lemma honest_critical {A} s (m : Impl -> SM A) k : (forall s', keeps_grants s' (exec (m s') s')) ->
  (forall a s', keeps_grants s s' -> honest s' (k a)) ->
  honest s (Act (critical (fun c : Co => m (co_scheduler c))) k).
Proof.
  intros Hm Hk c Hc. specialize (Hm (co_scheduler c)). unfold critical, exec in *.
  destruct (m (co_scheduler c) (co_scheduler c)) as [x s']. cbn [fst snd] in *. split_and!.
  - exact Hm.
  - intros Hi. by apply (frames_issued_same c).
  - apply Hk. etrans; [exact Hc|exact Hm].
Qed.
Lemma honest_collect s gids l k : Forall (issued s) l ->
  (forall s' l', keeps_grants s s' -> Forall (issued s') l' -> honest s' (k l')) -> honest s (collect gids l k).
Proof.
  revert s l. induction gids as [|gid gids IH]; intros s l Hl Hk; cbn [collect]; [by apply Hk|].
  assert (forall s', keeps_grants s s' -> Forall (issued s') l) as Hl'.
  { intros s' Hs'. eapply Forall_impl; [exact Hl|]. intros g Hg. by eapply issued_keeps. }
  intros c Hc. cbn [fst snd]. split_and!; [reflexivity|done|].
  destruct (grantById (co_scheduler c) gid) as [g|] eqn:Hg.
  - apply honest_effects; [by apply plain_same|]. intros s' Hs'. apply IH.
    + apply Forall_app. split; [apply Hl'; by etrans|]. constructor; [|constructor]. exists gid. by apply Hs'.
    + intros s2 l2 H2. apply Hk. etrans; [exact Hc|]. by etrans.
  - apply IH; [by apply Hl'|]. intros s2 l2 H2. apply Hk. by etrans.
Qed.

Lemma honest_publisher {A} s (rd : R A) op payload : (forall a s', keeps_grants s' (exec (op a) s')) ->
  honest s (publisher rd op payload).
Proof.
  intros Hop. unfold publisher. destruct (parse_all rd payload) as [a|]; [|done].
  apply (honest_critical s (fun _ => op a)); [apply Hop|done].
Qed.
Lemma honest_reply s fd type seq payload : type <> MsgType.GRANT ->
  honest s (effects (sent_frame fd type seq payload) Done).
Proof. intros Ht. apply honest_effects; [|done]. by apply plain_sent. Qed.
Lemma plain_grant_frames s seq gs sessions : Forall (issued s) gs -> Forall (plain s) (grant_frames seq gs sessions).
Proof.
  intros Hg. unfold grant_frames. induction Hg as [|g gs Hg _ IH]; [constructor|]. cbn [flat_map].
  apply Forall_app. split; [|done]. apply Forall_fmap, Forall_forall. intros sess _. apply plain_sent. intros _. by exists g.
Qed.
Lemma honest_query s fd seq payload : honest s (handler ord gord persists fd (mkMsg MsgType.QUERY_SCHEDULE seq payload)).
Proof.
  unfold handler. cbn [m_type m_seq]. apply (honest_critical s (fun s => schedule_round (ord s) (gord s))).
  { intros s'. apply keeps_round. }
  intros [dec|e] s1 _; [|done]. apply honest_in_turn.
  { apply Forall_fmap, Forall_forall. intros ev _. by apply plain_same. }
  intros s2 _. apply honest_collect; [constructor|]. intros s3 gs _ Hgs. intros c Hc. cbn [fst snd].
  split_and!; [reflexivity|done|].
  apply honest_in_turn.
  { apply plain_grant_frames. eapply Forall_impl; [exact Hgs|]. intros g Hg. by eapply issued_keeps. }
  intros s4 _ c4 _. cbn [fst snd]. split_and!; [reflexivity|done|].
  intros c5 _. cbn [fst snd]. split_and!; [reflexivity|done|]. by apply honest_reply.
Qed.
Lemma handler_honest s fd m : honest s (handler ord gord persists fd m).
Proof.
  destruct m as [type seq payload].
  destruct type; try apply honest_query; cbn [handler m_type m_payload m_seq]; try done; try by apply honest_reply.
  - apply honest_publisher, keeps_publishParticipant.
  - destruct (parse_all _ _) as [req|]; [|by apply honest_reply].
    apply (honest_critical s (fun _ => submit req)); [apply keeps_submit|]. intros. by apply honest_reply.
  - apply honest_publisher. intros a s'. unfold publishDependency. rewrite exec_get. by apply keeps_guarded.
  - apply honest_publisher. intros a s'. unfold publishPlan. rewrite exec_get. by apply keeps_guarded.
  - apply honest_publisher. intros a s'. by apply keeps_same.
  - apply honest_publisher. intros a s'. unfold publishCongestion. rewrite exec_get. by apply keeps_guarded.
  - apply honest_publisher. intros a s'. unfold publishCapacity. rewrite exec_get. by apply keeps_guarded.
  - destruct (parse_all _ _) as [[[g wb] sb]|]; [|done].
    apply (honest_critical s (fun _ => complete_locked g wb sb)); [apply keeps_complete|].
    intros [[wl|]|] s' _; cbn [on_ok]; try done; (apply honest_effects; [by apply plain_same|done]).
  - destruct (parse_all _ _) as [[wid wb]|]; [|done].
    apply (honest_critical s (fun s => fenceWorkerBoot (ord s) wid wb)); [intros; apply keeps_fence|].
    intros [] s' _; [by apply honest_reply|done].
  - destruct persists; [|done]. intros c _. split_and!; [reflexivity|done|].
    repeat (apply honest_effects; [by apply plain_same|intros ? _]). done.
Qed.

(** ** Every run *)

Record all_honest (t : Threads (W := W)) : Prop := {
  ah_sent : frames_issued (sv_co (th_server t));
  ah_procs : forall fd p, th_procs t !! fd = Some p -> honest (co_scheduler (sv_co (th_server t))) p;
}.
Lemma serve_outside_same e s s' : serve ord gord persists e s = Some s' -> is_outside e = true ->
  co_scheduler (sv_co s') = co_scheduler (sv_co s) /\ co_sent (sv_co s') = co_sent (sv_co s).
Proof. intros Hs He. destruct e; cbn [serve] in Hs; try done; repeat case_match; by simplify_eq. Qed.
Lemma all_honest_step x t t' : all_honest t -> advance_thread ord gord persists x t = Some t' -> all_honest t'.
Proof.
  intros [Hs Hp] Ht. destruct x as [e|fd|fd]; cbn [advance_thread] in Ht.
  - assert (exists s', serve ord gord persists e (th_server t) = Some s' /\ is_outside e = true /\
      t' = t <| th_server := s' |>) as (s' & Hs' & He & ->).
    { destruct e; try done; repeat case_match; simplify_eq; eauto. }
    destruct (serve_outside_same e _ _ Hs' He) as [E1 E2]. split; cbn.
    + apply (frames_issued_same (sv_co (th_server t))); [done|done|]. rewrite E1. reflexivity.
    + intros fd p Hfd. rewrite E1. by apply (Hp fd).
  - repeat case_match; simplify_eq. split; cbn; [done|]. intros fd' p. rewrite lookup_insert_Some.
    intros [[_ <-]|[_ Hfd]]; [apply handler_honest|by apply (Hp fd')].
  - destruct (th_procs t !! fd) as [p|] eqn:Hfd; [|done]. pose proof (Hp fd p Hfd) as Hh.
    destruct p as [|e|k|k|A f k]; try done.
    + simplify_eq. split; cbn; [done|]. intros fd' p. rewrite lookup_delete_Some. intros [_ H]. by apply (Hp fd').
    + destruct (th_mu t); [done|]. simplify_eq. split; cbn; [done|]. intros fd' p. rewrite lookup_insert_Some.
      intros [[_ <-]|[_ H]]; [done|by apply (Hp fd')].
    + simplify_eq. split; cbn; [done|]. intros fd' p. rewrite lookup_insert_Some.
      intros [[_ <-]|[_ H]]; [done|by apply (Hp fd')].
    + cbn [honest] in Hh. destruct (Hh (sv_co (th_server t)) (reflexivity _)) as (Hk & Hi & Hn).
      destruct (f (sv_co (th_server t))) as [a c]. cbn [fst snd] in *.
      assert (t' = running fd (k a) (with_co c t)) as -> by (by destruct (k a); simplify_eq).
      split; cbn; [by apply Hi|]. intros fd' p. rewrite lookup_insert_Some.
      intros [[_ <-]|[_ H]]; [done|]. by eapply honest_keeps; [apply (Hp fd')|].
Qed.

(** C37: whatever the other threads do between the round and the sending (fence
    workers, publish evidence, run rounds of their own), every GRANT frame that
    ever leaves the coordinator carries a grant its scheduler issued, byte for
    byte as it stands under its id, then and in every later state. *)
Theorem broadcast_issued c0 xs t : co_sent c0 = [] -> advance_all ord gord persists xs (spawned c0) = Some t ->
  frames_issued (sv_co (th_server t)).
Proof.
  intros H0 Ht. enough (all_honest t) as [? _] by done. revert t Ht.
  induction xs as [|x xs IH] using rev_ind; intros t Ht.
  - injection Ht as <-. split; [|done]. intros fd seq payload Hin. cbn in Hin. rewrite H0 in Hin. by apply not_elem_of_nil in Hin.
  - rewrite advance_all_snoc in Ht. destruct (advance_all _ _ _ xs _) as [t1|]; [|done].
    by eapply all_honest_step; [apply IH|].
Qed.
End broadcast.

(** ** A worker fenced between the round and the sending *)

Definition fence_in_between : list event :=
  [ ListenerTests; Accepts 3; ListenerTests; Accepts 4; SessionTests 3; SessionTests 4;
    Receives 3 (encode_all [mkMsg MsgType.QUERY_SCHEDULE 1 []]);
    Receives 4 (encode_all [mkMsg MsgType.FENCE_WORKER 2 (w_u64 7 ++ w_u64 70)]) ].
Definition fenced_broadcast : list tick :=
  (Outside <$> fence_in_between) ++
  [ Begins 3; Acts 3;                  (* 3: the round *)
    Begins 4; Acts 4; Acts 4; Acts 4 ] ++ (* 4: fences, replies, ends *)
  replicate 15 (Acts 3).                (* 3: looks up, counts, sends *)
Definition sample_crowd : Coordinator (W := RecordingCollectiveFabric) :=
  sample_coordinator <| co_sessions := [] |> <| co_scheduler := sample_state |>.
Definition fenced_state : option (Threads (W := RecordingCollectiveFabric)) :=
  advance_all record_order grant_order false fenced_broadcast (spawned sample_crowd).
Definition sent_types (c : Coordinator (W := RecordingCollectiveFabric)) : list (Z * list Z) :=
  (fun f => (f.1, take 2 (drop 6 f.2))) <$> co_sent c.

(** Both grants of the round go to both connections, although the fence has made
    them terminal. *)
Example fenced_grants_are_sent : exists t, fenced_state = Some t /\
  sent_types (sv_co (th_server t)) = [(4, [0; 0]); (3, [12; 0]); (4, [12; 0]); (3, [12; 0]); (4, [12; 0]); (3, [0; 0])] /\
  map_Forall (fun _ gs => gs_terminal gs = true) (im_grants (co_scheduler (sv_co (th_server t)))).
Proof.
  assert (match fenced_state with Some t => bool_decide (
      sent_types (sv_co (th_server t)) = [(4, [0; 0]); (3, [12; 0]); (4, [12; 0]); (3, [12; 0]); (4, [12; 0]); (3, [0; 0])] /\
      map_Forall (fun _ gs => gs_terminal gs = true) (im_grants (co_scheduler (sv_co (th_server t)))))
    | None => false end = true) as H by (vm_compute; reflexivity).
  destruct fenced_state as [t|]; [|done]. exists t. split; [done|]. by apply bool_decide_eq_true in H.
Qed.
Example broadcast_issued_witness : exists t, fenced_state = Some t /\ frames_issued (sv_co (th_server t)).
Proof.
  assert (is_Some fenced_state) as [t Ht].
  { destruct fenced_state eqn:E; [by eexists|]. exfalso. revert E. vm_compute. discriminate. }
  exists t. refine (conj Ht (broadcast_issued record_order grant_order false _ _ t _ Ht)). reflexivity.
Defined.

(** Sending a frame is one piece here.  In send_all it is as many calls of ::send
    as the socket asks for, and nothing keeps another thread off the same socket
    between two of them: what the client then receives is refused. *)
Example frames_can_interleave :
  let grant := encode_frame MsgType.GRANT 4 [1; 2; 3] in
  let reply := encode_frame MsgType.HELLO 5 [] in
  decode_frames (take 29 grant ++ reply ++ drop 29 grant) [] = (false, take 29 grant ++ reply ++ drop 29 grant, []).
Proof. vm_compute. reflexivity. Qed.
