(* ===== verification/EndToEnd.v ===== *)
(** * EndToEnd: the coordinator process only runs its scheduler

    The guarantees of Safety, Guarantees, Evidence and Refinement are about the
    runs of the scheduler's machine ([step]).  Here: whatever clients send, over
    any connections, in any interleaving of the session threads, what the
    coordinator process does to its scheduler is such a run, so they hold of it. *)
From S2P Require Import Prelude Enums Identity Error Float64 Domain Lifecycle Conflict Codec Serialize.
From S2P Require Import Protocol State Samples Eligibility Ranking Schedule Ports Operations Safety RecordInvariant.
From S2P Require Import Guarantees Persistence Coordinator Server Threads.

(** ** Room in the counters *)

(** The counters the machine takes ids from are not used up.  They and the table
    of records only grow, so a later state with room says the same of an earlier
    one. *)
Definition room (s : Impl) : Prop :=
  id_value (im_next_request_id s) < U64_MAX /\
  id_value (im_next_grant_id s) + Z.of_nat (base.size (im_records s)) <= U64_MAX.
Record grows (s s' : Impl) : Prop := {
  gr_request : id_value (im_next_request_id s) <= id_value (im_next_request_id s');
  gr_grant : id_value (im_next_grant_id s) <= id_value (im_next_grant_id s');
  gr_records : dom (im_records s) ⊆ dom (im_records s');
}.
#[export] Instance grows_preorder : PreOrder grows.
Proof.
  split; [by intros s; split|]. intros s1 s2 s3 [] []. split; [lia|lia|set_solver].
Qed.
Lemma room_earlier s s' : grows s s' -> room s' -> room s.
Proof.
  intros [H1 H2 H3] [R1 R2]. apply subseteq_size in H3. rewrite !size_dom in H3. unfold room. lia.
Qed.
Lemma grows_frame s s' : im_next_request_id s' = im_next_request_id s -> im_next_grant_id s' = im_next_grant_id s ->
  dom (im_records s) ⊆ dom (im_records s') -> grows s s'.
Proof. intros E1 E2 Hd. by split; rewrite ?E1, ?E2. Qed.
Lemma grows_set_record id r s : grows s (set_record id r s).
Proof. apply grows_frame; [done..|]. cbn. rewrite dom_insert. set_solver. Qed.

#[local] Instance grows_invariant s0 : RecordInvariant (grows s0) (fun _ => True).
Proof.
  split; try done.
  - intros id r s H _. etrans; [exact H|apply grows_set_record].
  - intros s s' H Ec Er _. injection Ec as E1 _ E3 _. etrans; [exact H|]. apply grows_frame; [by destruct (im_next_request_id s'), (im_next_request_id s); cbn in *; congruence|by destruct (im_next_grant_id s'), (im_next_grant_id s); cbn in *; congruence|by rewrite Er].
  - intros s H. etrans; [exact H|]. by apply grows_frame.
  - intros s H. etrans; [exact H|]. split; [done|apply id_incr_le|done].
  - intros s H. etrans; [exact H|]. by apply grows_frame.
Qed.
#[local] Instance any_stable : StableRecord (fun _ => True).
Proof. by split. Qed.

Lemma grows_submit req s : grows s (exec (submit req) s).
Proof.
  unfold submit. rewrite exec_get, exec_guard. destruct (_ >=? _); [reflexivity|]. cbv zeta.
  rewrite exec_put_bind, exec_lift. destruct (validate_request _ _); [|split; [apply id_incr_le|done..]].
  rewrite exec_get, exec_put_bind. split; [apply id_incr_le|done|]. cbn.
  destruct (im_records s !! _); [done|]. rewrite dom_insert. set_solver.
Qed.
Lemma grows_complete g wb sb s : grows s (exec (complete_locked g wb sb) s).
Proof.
  unfold complete_locked. rewrite exec_get. destruct (im_records s !! g_request g) as [r|]; [|reflexivity].
  destruct (im_grants s !! g_id g) as [gs|]; [|reflexivity]. destruct (negb _); [reflexivity|].
  destruct (transition _ _); [|reflexivity]. rewrite exec_put_bind. unfold exec. cbn [snd].
  apply grows_frame; [done..|]. cbn. rewrite dom_insert. set_solver.
Qed.

(** ** A message is a step *)

(** What is reached from [s0], and by a run when there is room. *)
Definition along (s0 s : Impl) : Prop := grows s0 s /\ (room s -> run s0 s).
Lemma along_refl s : along s s.
Proof. split; [reflexivity|]. intros _. constructor. Qed.
Lemma along_step s0 s s' : along s0 s -> grows s s' -> (room s -> step s s') -> along s0 s'.
Proof.
  intros [Hg Hr] Hs Hstep. split; [by etrans|]. intros Hroom. pose proof (room_earlier s s' Hs Hroom) as H.
  eapply rtc_r; [by apply Hr|by apply Hstep].
Qed.

Section process.
Context {W : Type} `{!Ports W}.
Variable ord : Impl -> list CollectiveRequestId.
Variable gord : Impl -> list CollectiveGrantId.
Variable persists : bool.
Hypothesis Hord : forall s, enumerates (ord s) (im_records s).
Abbreviation Co := (Coordinator (W := W)).
Variable s0 : Impl.
Abbreviation co_along := (fun c : Co => along s0 (co_scheduler c)).

Lemma along_call {A} (m : SM A) : (forall s, grows s (exec m s)) -> (forall s, room s -> step s (exec m s)) ->
  preserves co_along (call (locked m)).
Proof. intros Hg Hs c Hc. unfold exec at 1. rewrite call_locked. eapply along_step; [exact Hc|apply Hg|apply Hs]. Qed.
Lemma along_guarded (b : bool) (e : scheduler_error) s s' : counter_values s' = counter_values s ->
  im_records s' = im_records s -> grows s (exec (lift (throw_if b e) ≫= fun _ => put_state s') s).
Proof.
  intros Ec Er. rewrite exec_guard. destruct b; [reflexivity|]. change (grows s s').
  injection Ec as E1 _ E2 _. by split; rewrite ?E1, ?E2, ?Er.
Qed.
Lemma along_round (c : Co) o g : co_along c -> enumerates o (im_records (co_scheduler c)) ->
  co_along (exec (call (schedule o g)) c).
Proof.
  intros Hc Ho. cbn beta. rewrite call_schedule. eapply along_step; [exact Hc| |].
  - exact (inv_schedule (grows _) (fun _ => True) o g _ (reflexivity (co_scheduler c))).
  - intros [_ Hroom]. apply step_schedule; [done|]. rewrite (enumerates_length _ _ Ho). exact Hroom.
Qed.
Lemma along_complete g wb sb : preserves co_along (call (complete g wb sb)).
Proof.
  intros c Hc. rewrite call_complete. eapply along_step; [exact Hc|apply grows_complete|]. intros _. apply step_complete.
Qed.
(** The rest of a handler, after a call at a known state. *)
Lemma along_then {A B} (m : M scheduler_error Co A) (k : A -> M scheduler_error Co B) c :
  co_along (exec m c) -> (forall a, preserves co_along (k a)) -> co_along (exec (m ≫= k) c).
Proof.
  intros Hm Hk. unfold exec, mbind, M_bind in *. destruct (m c) as [[a|e] c1]; [|done]. by apply Hk.
Qed.
Lemma along_fence (c : Co) wid wb : co_along c ->
  co_along (exec (call (locked (fenceWorkerBoot (ord (co_scheduler c)) wid wb))) c).
Proof using Hord.
  intros Hc. unfold exec at 1. rewrite call_locked. eapply along_step; [exact Hc| |].
  - exact (inv_fence (grows _) (fun _ => True) _ wid wb _ (reflexivity (co_scheduler c))).
  - intros _. by apply step_fence.
Qed.
Lemma handle_along fd m : preserves co_along (handle_message ord gord persists fd m).
Proof using Hord.
  unfold handle_message, publish, query_schedule, parse.
  destruct (m_type m); try (preserves; apply along_complete); try (preserves; fail).
  all: try (preserves; apply along_call; [intros s|intros s _; constructor]; first
    [ exact (inv_publishParticipant (grows s) (fun _ => True) _ s (reflexivity s)) | by apply grows_frame | by apply along_guarded ]).
  - apply preserves_try; preserves. apply along_call; [apply grows_submit|]. intros s [Hs _]. by apply step_submit.
  - intros c Hc. unfold exec. rewrite bind_get. apply along_then; [by apply along_round|]. intros dec. preserves.
  - apply preserves_swallow, preserves_bind; [apply preserves_lift|]. intros [wid wb] c Hc. unfold exec. rewrite bind_get.
    apply along_then; [by apply along_fence|]. intros []. preserves.
Qed.

(** ** The process is a run *)

Lemma serve_along e (s s' : Server (W := W)) : serve ord gord persists e s = Some s' -> co_along (sv_co s) -> co_along (sv_co s').
Proof using Hord.
  intros E Hs. destruct e; cbn [serve] in E; repeat case_match; simplify_eq; try done.
  match goal with H : handle_message _ _ _ ?fd ?m ?c = (_, ?c') |- _ =>
    pose proof (handle_along fd m c Hs) as H'; unfold exec in H'; by rewrite H in H' end.
Qed.
Lemma serve_all_along evs (s s' : Server (W := W)) : serve_all ord gord persists evs s = Some s' ->
  co_along (sv_co s) -> co_along (sv_co s').
Proof using Hord.
  intros E Hs. revert s' E. induction evs as [|e evs IH] using rev_ind; intros s' E; [by injection E as <-|].
  rewrite serve_all_app in E. destruct (serve_all ord gord persists evs s) as [s1|]; [|done].
  eapply serve_along; [exact E|by apply IH].
Qed.
End process.

Section theorems.
Context {W : Type} `{!Ports W}.
Variable ord : Impl -> list CollectiveRequestId.
Variable gord : Impl -> list CollectiveGrantId.
Variable persists : bool.
Hypothesis Hord : forall s, enumerates (ord s) (im_records s).

(** C4: the coordinator process only runs its scheduler's machine.  Whatever
    bytes clients send, over any number of connections, however the threads of
    the sessions interleave inside their handlers and whatever the ports answer,
    the scheduler's state is one its operations lead to, each taken with its
    guards, as long as the id counters are not used up at the end: so what is
    shown of the runs and the reachable states of the scheduler (authority of
    grants, completion at most once, fencing, cancellation, epochs) holds of the
    process. *)
Theorem process_runs_scheduler (c0 : Coordinator (W := W)) xs t :
  advance_all ord gord persists xs (spawned c0) = Some t ->
  let s := co_scheduler (sv_co (th_server t)) in
  room s ->
  run (co_scheduler c0) s /\ (reachable (co_scheduler c0) -> reachable s /\ wf s).
Proof using Hord.
  intros Ht s Hroom. destruct (threads_simulated ord gord persists c0 xs t Ht) as (evs & s1 & Hs & _ & [Hc _ _]).
  destruct (serve_all_along ord gord persists Hord (co_scheduler c0) evs _ s1 Hs (along_refl _)) as [_ Hrun].
  assert (s = co_scheduler (sv_co s1)) as E by (unfold s; unfold core in Hc; by injection Hc).
  assert (run (co_scheduler c0) s) as Hr by (rewrite E in *; by apply Hrun). split; [done|].
  intros (epoch & policy & H0). assert (reachable s) as Hreach by (exists epoch, policy; by etrans).
  split; [done|by apply reachable_wf].
Qed.

(** A coordinator that finds no file starts in a reachable state. *)
Lemma startup_reachable (c : Coordinator (W := W)) epoch : co_scheduler c = Scheduler_default -> co_file c = None ->
  reachable (co_scheduler (exec (Coordinator.startup persists epoch) c)).
Proof.
  intros Hs Hf. assert (reachable Scheduler_default) as H0 by (eexists _, _; constructor).
  unfold Coordinator.startup. rewrite exec_get, Hf.
  assert (exec ((if persists then mret tt else mret tt);; c ← get_state;
    if gen_value (coordinatorEpoch (co_scheduler c)) <? gen_value epoch
    then call (locked (advanceCoordinatorEpoch epoch)) else mret tt) c =
    exec (if gen_value (coordinatorEpoch (co_scheduler c)) <? gen_value epoch
    then call (locked (advanceCoordinatorEpoch epoch)) else mret tt) c) as -> by by destruct persists.
  destruct (_ <? _); [|by rewrite <- Hs in H0].
  unfold exec. rewrite call_locked. change (reachable (exec (advanceCoordinatorEpoch epoch) (co_scheduler c))).
  rewrite Hs. eapply reachable_step; [exact H0|constructor].
Qed.
End theorems.

(** The two clients of Threads, from the startup of a fresh coordinator. *)
Example process_runs_scheduler_witness : exists t,
  advance_all record_order grant_order true overlapping_saves (spawned
    (exec (Coordinator.startup true (mkGen 3)) (sample_coordinator <| co_sessions := [] |>))) = Some t /\
  base.size (im_records (co_scheduler (sv_co (th_server t)))) = 1%nat /\
  gen_value (im_epoch (co_scheduler (sv_co (th_server t)))) = 3 /\
  reachable (co_scheduler (sv_co (th_server t))).
Proof.
  set (c0 := exec (Coordinator.startup true (mkGen 3)) (sample_coordinator <| co_sessions := [] |>)).
  assert (option_map (fun t => let s := co_scheduler (sv_co (th_server t)) in
      (base.size (im_records s), gen_value (im_epoch s),
       bool_decide (id_value (im_next_request_id s) < U64_MAX),
       bool_decide (id_value (im_next_grant_id s) + Z.of_nat (base.size (im_records s)) <= U64_MAX)))
    (advance_all record_order grant_order true overlapping_saves (spawned c0)) = Some (1%nat, 3, true, true)) as E
    by (vm_compute; reflexivity).
  assert (reachable (co_scheduler c0)) as Hc0 by (by apply startup_reachable).
  pose proof (process_runs_scheduler record_order grant_order true (fun s => keys_enumerates (im_records s)) c0
    overlapping_saves) as H.
  destruct (advance_all record_order grant_order true overlapping_saves (spawned c0)) as [t|]; [|discriminate].
  cbn [option_map] in E. injection E as E1 E2 E3 E4. exists t.
  refine (conj eq_refl (conj E1 (conj E2 _))).
  refine (proj1 (proj2 (H t eq_refl (conj _ _)) Hc0)).
  - exact (bool_decide_eq_true_1 _ E3).
  - exact (bool_decide_eq_true_1 _ E4).
Defined.
