(* ===== verification/CudaExecutor.v ===== *)
(** * CudaExecutor: the CUDA reference workload (cuda_executor.cu, cuda_executor.hpp)

    [run_cuda_work] copies a vector to the device, runs the kernel
    [cs_axpy_kernel], copies the result back, compares it with the same
    computation on the CPU and frees what it allocated.  The CUDA runtime is not
    part of the program: it is the class [CudaRuntime] of the calls the function
    makes, over an external state [D], and what it documents is the class
    [CudaDocuments].  Every call may fail; [run_cuda_work] looks at the errors of
    the allocations and the queries alone.  Nothing is assumed of what
    [cudaMemGetInfo] reports: the memory in use is the whole device's, whoever
    uses it. *)
From S2P Require Import Prelude.
From Stdlib Require Import SpecFloat.

(** ** [float] *)

(** A [float] is a specification float of precision 24 and [emax] 128. *)
Definition f32 : Set := spec_float.
Definition f32_mul : f32 -> f32 -> f32 := SFmul 24 128.
Definition f32_add : f32 -> f32 -> f32 := SFadd 24 128.
(** [fmaf]: the product is not rounded. *)
Definition f32_product (x y : f32) : spec_float :=
  match x, y with
  | S754_finite sx mx ex, S754_finite sy my ey => S754_finite (xorb sx sy) (mx * my) (ex + ey)
  | _, _ => f32_mul x y
  end.
Definition f32_round (x : spec_float) : f32 :=
  match x with
  | S754_finite s m e => binary_normalize 24 128 (cond_Zopp s (Zpos m)) e s
  | _ => x
  end.
Definition f32_fma (x y z : f32) : f32 := f32_round (f32_add (f32_product x y) z).
Definition f32_zero : f32 := S754_zero false.
(** [static_cast<float>] of an integer. *)
Definition f32_of (n : Z) : f32 := binary_normalize 24 128 n 0 false.
(** [static_cast<std::uint64_t>]: truncation; outside the range, undefined in
    C++, the value is taken modulo 2^64. *)
Definition f32_to_u64 (x : f32) : Z :=
  match x with
  | S754_finite s m e => wrap64 ((if s then -1 else 1) * Z.shiftl (Zpos m) e)
  | _ => 0
  end.

(** Conversion to [int], modulo 2^32. *)
Definition as_int (z : Z) : Z := let w := wrap32 z in if w <? 2 ^ 31 then w else w - 2 ^ 32.
Lemma as_int_small z : 0 <= z < 2 ^ 31 -> as_int z = z.
Proof. intros Hz. unfold as_int, wrap32. cbv zeta. rewrite Z.mod_small by lia. destruct (Z.ltb_spec z (2 ^ 31)); lia. Qed.

(** ** The runtime *)

(** [None] is a return value other than [cudaSuccess]. *)
Class CudaRuntime (D : Type) := {
  contracts : bool;   (* nvcc contracts a * b + c into a fused multiply-add *)
  cudaGetDeviceCount : D -> option Z * D;
  cudaGetDeviceProperties : D -> option (Z * Z) * D;     (* major, minor of device 0 *)
  cudaMemGetInfo : D -> option (Z * Z) * D;              (* free, total *)
  cudaMallocHost : Z -> D -> option Z * D;           (* the address *)
  cudaMalloc : Z -> D -> option Z * D;
  cudaFreeHost : Z -> D -> D;
  cudaFree : Z -> D -> D;
  contents : Z -> nat -> D -> list f32;              (* fresh memory at an address *)
  cudaMemcpy : list f32 -> list f32 -> D -> list f32 * D;   (* old destination, source *)
  launch : (Z -> Z -> list f32 -> list f32) -> Z -> Z -> list f32 -> D -> list f32 * D;
    (* kernel by block and thread, blocks, threads per block, output memory *)
  cudaDeviceSynchronize : D -> D;
}.

(** [struct CudaWorkResult]. *)
Record CudaWorkResult : Set := mkCudaWorkResult {
  parity_ok : bool;
  kernel_sum : Z;
  total_memory_before : Z;
  total_memory_after : Z;
  free_memory_before : Z;
  free_memory_after : Z;
  device_count : Z;
  cc_major : Z;
  cc_minor : Z;
}.
#[export] Instance CudaWorkResult_eta : Eta CudaWorkResult := fun r =>
  mkCudaWorkResult (parity_ok r) (kernel_sum r) (total_memory_before r) (total_memory_after r)
    (free_memory_before r) (free_memory_after r) (device_count r) (cc_major r) (cc_minor r).
Definition CudaWorkResult_default : CudaWorkResult := mkCudaWorkResult false 0 0 0 0 0 0 0 0.

(** [a * x + 1.0f] in the kernel. *)
Definition kernel_value (contracted : bool) (a x : f32) : f32 :=
  if contracted then f32_fma a x (f32_of 1) else f32_add (f32_mul a x) (f32_of 1).
(** [cs_axpy_kernel], run by one thread: what it does to [out]. *)
Definition cs_axpy_kernel (contracted : bool) (inp : list f32) (a : f32) (n : Z) (blockDim : Z)
    (blockIdx threadIdx : Z) (out : list f32) : list f32 :=
  let i := as_int (wrap32 (blockIdx * blockDim) + threadIdx) in
  if i <? n then
    <[Z.to_nat i := kernel_value contracted a (default f32_zero (inp !! Z.to_nat i))]> out
  else out.

Section executor.
Context {D : Type} `{!CudaRuntime D}.

Definition used_bytes (d : D) : Z * D :=
  match cudaMemGetInfo d with
  | (None, d) => (0, d)
  | (Some (freeb, total), d) => (if total >? freeb then total - freeb else 0, d)
  end.
(** The four allocations, each attempted when those before it succeeded:
    [h_in], [h_out], [d_in], [d_out]. *)
Definition allocate (bytes : Z) (d : D) : option (Z * Z * Z * Z) * D :=
  match cudaMallocHost bytes d with
  | (None, d) => (None, d)
  | (Some h_in, d) =>
  match cudaMallocHost bytes d with
  | (None, d) => (None, d)
  | (Some h_out, d) =>
  match cudaMalloc bytes d with
  | (None, d) => (None, d)
  | (Some d_in, d) =>
  match cudaMalloc bytes d with
  | (None, d) => (None, d)
  | (Some d_out, d) => (Some (h_in, h_out, d_in, d_out), d)
  end end end end.

(** [h_in\[i\]]. *)
Definition input_at (seed : Z) (i : nat) : f32 :=
  f32_of (add64 seed (mul64 (Z.of_nat i) 2654435761) mod 1000).
Definition input (seed elements : Z) : list f32 := input_at seed <$> seq 0 (Z.to_nat elements).
(** [2.0f * x + 1.0f]. *)
Definition axpy (x : f32) : f32 := f32_add (f32_mul (f32_of 2) x) (f32_of 1).
Definition sum_u64 (l : list f32) : Z := foldl (fun s x => add64 s (f32_to_u64 x)) 0 l.

(** The part of [run_cuda_work] with the four buffers at hand: [kernel_sum],
    [parity_ok]. *)
Definition compute (seed elements h_out_ptr d_in_ptr d_out_ptr : Z) (d : D) : Z * bool * D :=
  let len := Z.to_nat elements in
  let h_in := input seed elements in
  let '(d_in, d) := cudaMemcpy (contents d_in_ptr len d) h_in d in
  let n := as_int elements in
  let '(d_out, d) := launch (cs_axpy_kernel contracts d_in (f32_of 2) n 256) (Z.quot (n + 255) 256) 256
                       (contents d_out_ptr len d) d in
  let d := cudaDeviceSynchronize d in
  let '(h_out, d) := cudaMemcpy (contents h_out_ptr len d) d_out d in
  let outsum := sum_u64 h_out in
  let parsum := sum_u64 (axpy <$> h_in) in
  (outsum, outsum =? parsum, d).

(** What is asked of the device before the work. *)
Definition queries (d : D) : CudaWorkResult * D :=
  let r := CudaWorkResult_default in
  let '(dev, d) := cudaGetDeviceCount d in
  let r := match dev with Some dev => r <| device_count := dev |> | None => r end in
  let '(prop, d) := cudaGetDeviceProperties d in
  let r := match prop with
    | Some (major, minor) => r <| cc_major := major |> <| cc_minor := minor |>
    | None => r
    end in
  let '(used, d) := used_bytes d in
  let r := r <| total_memory_before := used |> in
  let '(mem, d) := cudaMemGetInfo d in
  (match mem with Some (freeb, _) => r <| free_memory_before := freeb |> | None => r end, d).
(** The allocations, the work and the frees. *)
Definition work (seed elements : Z) (r : CudaWorkResult) (d : D) : CudaWorkResult * D :=
  match allocate (mul64 elements 4) d with
  | (Some (h_in, h_out, d_in, d_out), d) =>
      let '(sum, ok, d) := compute seed elements h_out d_in d_out d in
      (r <| kernel_sum := sum |> <| parity_ok := ok |>,
       cudaFreeHost h_out (cudaFreeHost h_in (cudaFree d_out (cudaFree d_in d))))
  | (None, d) => (r, d)
  end.
Definition run_cuda_work (seed elements : Z) (d : D) : CudaWorkResult * D :=
  let '(r, d) := queries d in
  let '(r, d) := work seed elements r d in
  let d := cudaDeviceSynchronize d in
  let '(used, d) := used_bytes d in
  let r := r <| total_memory_after := used |> in
  let '(mem, d) := cudaMemGetInfo d in
  (match mem with Some (freeb, _) => r <| free_memory_after := freeb |> | None => r end, d).

(** ** The kernel *)

(** The threads of a grid. *)
Definition threads_of (grid block : Z) : list (Z * Z) :=
  flat_map (fun b => (fun t => (b, t)) <$> seqZ 0 block) (seqZ 0 grid).
Definition run_threads (k : Z -> Z -> list f32 -> list f32) (order : list (Z * Z)) (out : list f32) : list f32 :=
  foldl (fun out '(b, t) => k b t out) out order.

Lemma elem_of_threads grid block b t : (b, t) ∈ threads_of grid block <-> 0 <= b < grid /\ 0 <= t < block.
Proof.
  unfold threads_of. rewrite list_elem_of_In, in_flat_map. split.
  - intros (b' & Hb & Ht). rewrite <- list_elem_of_In, elem_of_seqZ in Hb.
    rewrite <- list_elem_of_In, list_elem_of_fmap in Ht. destruct Ht as (t' & [= -> ->] & Ht%elem_of_seqZ). lia.
  - intros [Hb Ht]. exists b. rewrite <- !list_elem_of_In, list_elem_of_fmap. split; [apply elem_of_seqZ; lia|].
    exists t. split; [done|]. apply elem_of_seqZ. lia.
Qed.
(** A thread in bounds writes its own element. *)
Lemma kernel_in_grid c inp n b t out : 0 <= n -> n + 255 < 2 ^ 31 -> 0 <= b < (n + 255) / 256 -> 0 <= t < 256 ->
  cs_axpy_kernel c inp (f32_of 2) n 256 b t out =
  if b * 256 + t <? n then
    <[Z.to_nat (b * 256 + t) := kernel_value c (f32_of 2) (default f32_zero (inp !! Z.to_nat (b * 256 + t)))]> out
  else out.
Proof.
  intros Hn Hmax Hb Ht. assert (b * 256 + t < 2 ^ 31) as Hi.
  { assert (256 * ((n + 255) / 256) <= n + 255) by (apply Z.mul_div_le; lia). lia. }
  unfold cs_axpy_kernel. rewrite as_int_small; unfold wrap32; rewrite (Z.mod_small (b * 256)) by lia; [done|lia].
Qed.
(** After the threads [l], the elements they are responsible for are computed and
    the others as before. *)
Definition responsible (l : list (Z * Z)) (i : nat) : Prop := exists bt, bt ∈ l /\ Z.of_nat i = bt.1 * 256 + bt.2.
Lemma run_threads_spec c inp n l out : n = Z.of_nat (length inp) -> n + 255 < 2 ^ 31 -> length out = length inp ->
  (forall bt, bt ∈ l -> 0 <= bt.1 < (n + 255) / 256 /\ 0 <= bt.2 < 256) ->
  let out' := run_threads (cs_axpy_kernel c inp (f32_of 2) n 256) l out in
  length out' = length inp /\ forall i, (i < length inp)%nat ->
    (responsible l i -> out' !! i = kernel_value c (f32_of 2) <$> inp !! i) /\ (~ responsible l i -> out' !! i = out !! i).
Proof.
  intros Hn Hmax. revert out. induction l as [|[b t] l IH]; intros out Hlen Hl.
  - split; [done|]. intros i Hi. split; [|done]. intros (bt & H & _). by apply not_elem_of_nil in H.
  - destruct (Hl (b, t)) as [Hb Ht]; [left|]. cbn [fst snd] in Hb, Ht. cbv zeta.
    unfold run_threads. cbn [foldl]. fold (run_threads (cs_axpy_kernel c inp (f32_of 2) n 256) l).
    rewrite kernel_in_grid by lia. set (out1 := if b * 256 + t <? n then _ else out).
    assert (length out1 = length inp) as Hlen1 by (subst out1; destruct (_ <? n); by rewrite ?length_insert).
    destruct (IH out1 Hlen1) as [Hlen' Hout]; [intros bt H; apply Hl; by right|]. split; [done|].
    intros i Hi. destruct (Hout i Hi) as [Hyes Hno].
    assert (Z.of_nat i = b * 256 + t -> out1 !! i = kernel_value c (f32_of 2) <$> inp !! i) as Heq.
    { intros E. subst out1. destruct (Z.ltb_spec (b * 256 + t) n); [|lia]. rewrite <- E, Nat2Z.id.
      destruct (lookup_lt_is_Some_2 inp i Hi) as [x Hx]. rewrite Hx. rewrite list_lookup_insert_eq; [reflexivity|by rewrite Hlen]. }
    assert (Z.of_nat i <> b * 256 + t -> out1 !! i = out !! i) as Hne.
    { intros E. subst out1. destruct (_ <? n); [|done]. apply list_lookup_insert_ne. lia. }
    split.
    + intros (bt & Hin & E). apply elem_of_cons in Hin as [->|Hin]; [|apply Hyes; by exists bt].
      destruct (decide (Exists (fun bt => Z.of_nat i = bt.1 * 256 + bt.2) l)) as [He|He].
      * apply Hyes. apply Exists_exists in He as (bt & ? & ?). by exists bt.
      * etrans; [apply Hno|by apply Heq]. intros (bt & H1 & H2). apply He, Exists_exists. by exists bt.
    + intros Hr. etrans; [apply Hno|apply Hne].
      * intros (bt & ? & ?). apply Hr. exists bt. split; [by right|done].
      * intros E. apply Hr. exists (b, t). split; [left|exact E].
Qed.
(** Whatever order the threads run in, the kernel computes its value of every
    element and nothing else. *)
Lemma kernel_computes c inp out n order : n = Z.of_nat (length inp) -> length out = length inp -> n + 255 < 2 ^ 31 ->
  order ≡ₚ threads_of ((n + 255) / 256) 256 ->
  run_threads (cs_axpy_kernel c inp (f32_of 2) n 256) order out = kernel_value c (f32_of 2) <$> inp.
Proof.
  intros Hn Hlen Hmax Hperm.
  destruct (run_threads_spec c inp n order out Hn Hmax Hlen) as [Hlen' Hout].
  { intros [b t]. rewrite Hperm. apply elem_of_threads. }
  apply list_eq. intros i. destruct (decide (i < length inp)%nat) as [Hi|Hi].
  - rewrite list_lookup_fmap. apply (proj1 (Hout i Hi)).
    exists (Z.of_nat i / 256, Z.of_nat i mod 256). pose proof (Z.div_mod (Z.of_nat i) 256) as Hdm. split; [|cbn; lia].
    rewrite Hperm. apply elem_of_threads. split; [split|by apply Z.mod_pos_bound].
    + by apply Z.div_pos; lia.
    + apply Z.div_lt_upper_bound; [lia|]. assert (n <= 256 * ((n + 255) / 256)); [|lia].
      pose proof (Z.div_mod (n + 255) 256). pose proof (Z.mod_pos_bound (n + 255) 256). lia.
  - rewrite !lookup_ge_None_2; [done|rewrite length_fmap; lia|lia].
Qed.
End executor.

(** ** What the runtime documents *)

(** The outcome of an allocation, on the memory in use. *)
Definition allocates (m : gmap Z Z) (bytes : Z) (o : option Z) (m' : gmap Z Z) : Prop :=
  match o with
  | Some p => m !! p = None /\ m' = <[p := bytes]> m
  | None => m' = m
  end.

(** Memory is what this process has allocated and not freed, host and device in one
    address space.  [healthy] is [cudaPeekAtLastError() == cudaSuccess]: an error,
    also one of an asynchronous launch that a later call reports, stays recorded,
    since the program never calls [cudaGetLastError].  A copy, a free or a launch
    that the synchronization after it leaves healthy has done its work; one that
    failed may have done anything to the data. *)
Class CudaDocuments (D : Type) `{!CudaRuntime D} := {
  healthy : D -> bool;
  allocated : D -> gmap Z Z;
  contents_length p n d : length (contents p n d) = n;
  memcpy_copies dst src d : healthy (cudaMemcpy dst src d).2 = true ->
    healthy d = true /\ (length dst = length src -> (cudaMemcpy dst src d).1 = src);
  launch_runs k grid block out d : healthy (cudaDeviceSynchronize (launch k grid block out d).2) = true ->
    healthy d = true /\
    (0 < grid -> exists order, order ≡ₚ threads_of grid block /\ (launch k grid block out d).1 = run_threads k order out);
  free_host_returns p d : healthy (cudaFreeHost p d) = true ->
    healthy d = true /\ allocated (cudaFreeHost p d) = delete p (allocated d);
  free_returns p d : healthy (cudaFree p d) = true ->
    healthy d = true /\ allocated (cudaFree p d) = delete p (allocated d);
  synchronize_reports d : healthy (cudaDeviceSynchronize d) = true -> healthy d = true;
  info_reports d : healthy (cudaMemGetInfo d).2 = true -> healthy d = true;
  malloc_host_takes bytes d : 0 < bytes ->
    allocates (allocated d) bytes (cudaMallocHost bytes d).1 (allocated (cudaMallocHost bytes d).2);
  malloc_takes bytes d : 0 < bytes ->
    allocates (allocated d) bytes (cudaMalloc bytes d).1 (allocated (cudaMalloc bytes d).2);
  count_keeps d : allocated (cudaGetDeviceCount d).2 = allocated d;
  properties_keeps d : allocated (cudaGetDeviceProperties d).2 = allocated d;
  info_keeps d : allocated (cudaMemGetInfo d).2 = allocated d;
  memcpy_keeps dst src d : allocated (cudaMemcpy dst src d).2 = allocated d;
  launch_keeps k grid block out d : allocated (launch k grid block out d).2 = allocated d;
  synchronize_keeps d : allocated (cudaDeviceSynchronize d) = allocated d;
}.

(** ** What [run_cuda_work] returns and leaves *)

(** The values the program computes with: [2 * v + 1] for [v] below 1000, exact
    in a [float]. *)
Definition input_value (seed : Z) (i : nat) : Z := add64 seed (mul64 (Z.of_nat i) 2654435761) mod 1000.
Definition expected_sum (seed elements : Z) : Z :=
  foldl (fun s i => add64 s (2 * input_value seed i + 1)) 0 (seq 0 (Z.to_nat elements)).
(** [2 * v + 1] of the integers below 1000, rounded once or twice. *)
Definition exact (f : f32 -> f32) : Prop := forall v, 0 <= v < 1000 -> f32_to_u64 (f (f32_of v)) = 2 * v + 1.
Lemma exact_check f : forallb (fun v => f32_to_u64 (f (f32_of v)) =? 2 * v + 1) (seqZ 0 1000) = true -> exact f.
Proof.
  rewrite forallb_forall. intros H v Hv. apply Z.eqb_eq, H. rewrite <- list_elem_of_In, elem_of_seqZ. lia.
Qed.
Lemma axpy_exact : exact axpy.
Proof. apply exact_check. vm_compute. reflexivity. Qed.
Lemma kernel_exact c : exact (kernel_value c (f32_of 2)).
Proof. apply exact_check. destruct c; vm_compute; reflexivity. Qed.
Lemma sum_expected f seed elements : exact f -> sum_u64 (f <$> input seed elements) = expected_sum seed elements.
Proof.
  intros Hf. unfold sum_u64, expected_sum, input. generalize 0 as acc. induction (seq 0 (Z.to_nat elements)) as [|i l IH]; intros acc; [done|].
  cbn [fmap list_fmap foldl]. fold (@fmap list _ _ _ f) (@fmap list _ _ _ (input_at seed)).
  rewrite <- IH. unfold input_at at 1. rewrite Hf by (apply Z.mod_pos_bound; lia). reflexivity.
Qed.
Lemma input_length seed elements : length (input seed elements) = Z.to_nat elements.
Proof. unfold input. by rewrite length_fmap, length_seq. Qed.

Section spec.
Context {D : Type} `{!CudaRuntime D}.

(** Parity is the comparison with the sum the CPU computes, and nothing more. *)
Lemma compute_parity seed elements h_out d_in d_out d :
  let x := (compute seed elements h_out d_in d_out d).1 in x.2 = (x.1 =? expected_sum seed elements).
Proof.
  unfold compute. cbv zeta. destruct (cudaMemcpy _ _ d) as [din d1]. destruct (launch _ _ _ _ d1) as [dout d2].
  destruct (cudaMemcpy _ _ _) as [hout d4]. cbn [fst snd]. by rewrite (sum_expected _ _ _ axpy_exact).
Qed.

Context `{!CudaDocuments D}.
Lemma compute_spec seed elements h_out d_in d_out d : 0 < elements -> elements + 255 < 2 ^ 31 ->
  healthy (compute seed elements h_out d_in d_out d).2 = true ->
  (compute seed elements h_out d_in d_out d).1 = (expected_sum seed elements, true).
Proof.
  intros H0 Hmax. unfold compute. cbv zeta. rewrite as_int_small, Z.quot_div_nonneg by lia.
  set (grid := (elements + 255) / 256). assert (0 < grid) as Hgrid by (apply Z.div_str_pos; lia).
  pose proof (memcpy_copies (contents d_in (Z.to_nat elements) d) (input seed elements) d) as Ein.
  rewrite contents_length, input_length in Ein.
  destruct (cudaMemcpy _ (input seed elements) d) as [din d1]. cbn [fst snd] in Ein.
  pose proof (launch_runs (cs_axpy_kernel contracts din (f32_of 2) elements 256) grid 256
    (contents d_out (Z.to_nat elements) d1) d1) as El.
  destruct (launch _ _ _ _ d1) as [dout d2]. cbn [fst snd] in El.
  pose proof (memcpy_copies (contents h_out (Z.to_nat elements) (cudaDeviceSynchronize d2)) dout (cudaDeviceSynchronize d2)) as Eout.
  rewrite contents_length in Eout.
  destruct (cudaMemcpy _ dout _) as [hout d4]. cbn [fst snd] in Eout |- *. intros Hh.
  destruct (Eout Hh) as [Hh3 Ecopy]. destruct (El Hh3) as [Hh1 Erun]. destruct (Ein Hh1) as [_ Edin]. rewrite (Edin eq_refl) in Erun.
  destruct (Erun Hgrid) as (order & Hp & Edout). rewrite Edout in Ecopy.
  rewrite kernel_computes in Ecopy; [|by rewrite input_length; lia|by rewrite contents_length, input_length|lia|done].
  rewrite Ecopy by by rewrite length_fmap, input_length.
  by rewrite (sum_expected _ _ _ (kernel_exact _)), (sum_expected _ _ _ axpy_exact), Z.eqb_refl.
Qed.
Lemma compute_keeps seed elements h_out d_in d_out (d : D) :
  allocated (compute seed elements h_out d_in d_out d).2 = allocated d.
Proof.
  unfold compute. cbv zeta. pose proof (memcpy_keeps (contents d_in (Z.to_nat elements) d) (input seed elements) d) as E1.
  destruct (cudaMemcpy _ _ d) as [din d1]. cbn [snd] in E1.
  pose proof (launch_keeps (cs_axpy_kernel contracts din (f32_of 2) (as_int elements) 256) (Z.quot (as_int elements + 255) 256) 256
    (contents d_out (Z.to_nat elements) d1) d1) as E2.
  destruct (launch _ _ _ _ d1) as [dout d2]. cbn [snd] in E2. pose proof (synchronize_keeps d2) as E3.
  set (d3 := cudaDeviceSynchronize d2) in *. pose proof (memcpy_keeps (contents h_out (Z.to_nat elements) d3) dout d3) as E4.
  destruct (cudaMemcpy _ _ d3) as [hout d4]. cbn [snd] in E4 |- *. congruence.
Qed.
(** All four allocations, or a first one that fails after those before it. *)
Lemma allocate_all bytes (d d' : D) h_in h_out d_in d_out : 0 < bytes ->
  allocate bytes d = (Some (h_in, h_out, d_in, d_out), d') ->
  delete h_out (delete h_in (delete d_out (delete d_in (allocated d')))) = allocated d.
Proof.
  intros Hb. unfold allocate. pose proof (malloc_host_takes bytes d Hb) as H1.
  destruct (cudaMallocHost bytes d) as [[p1|] d1]; [|done]. pose proof (malloc_host_takes bytes d1 Hb) as H2.
  destruct (cudaMallocHost bytes d1) as [[p2|] d2]; [|done]. pose proof (malloc_takes bytes d2 Hb) as H3.
  destruct (cudaMalloc bytes d2) as [[p3|] d3]; [|done]. pose proof (malloc_takes bytes d3 Hb) as H4.
  destruct (cudaMalloc bytes d3) as [[p4|] d4]; [|done]. intros E. injection E as <- <- <- <- <-.
  cbn [fst snd allocates] in *. destruct H1 as [N1 E1], H2 as [N2 E2], H3 as [N3 E3], H4 as [N4 E4].
  rewrite E1 in N2, E2. rewrite E2 in N3, E3. rewrite E3 in N4, E4. rewrite E4. clear E1 E2 E3 E4.
  apply lookup_insert_None in N2 as [N2 ?]. apply lookup_insert_None in N3 as [N3 ?].
  apply lookup_insert_None in N3 as [N3 ?]. apply lookup_insert_None in N4 as [N4 ?].
  apply lookup_insert_None in N4 as [N4 ?]. apply lookup_insert_None in N4 as [N4 ?].
  apply map_eq. intros k. destruct (decide (k = p1)) as [->|]; [by simplify_map_eq|].
  destruct (decide (k = p2)) as [->|]; [by simplify_map_eq|].
  destruct (decide (k = p3)) as [->|]; [by simplify_map_eq|].
  destruct (decide (k = p4)) as [->|]; by simplify_map_eq.
Qed.
Lemma allocate_leaks bytes (d d' : D) p : 0 < bytes -> allocate bytes d = (None, d') -> (cudaMallocHost bytes d).1 = Some p ->
  allocated d !! p = None /\ allocated d' !! p = Some bytes.
Proof.
  intros Hb. unfold allocate. pose proof (malloc_host_takes bytes d Hb) as H1.
  destruct (cudaMallocHost bytes d) as [[p1|] d1]; [|done]. pose proof (malloc_host_takes bytes d1 Hb) as H2.
  cbn [fst snd allocates] in *. destruct H1 as [N1 E1]. intros Ha [= ->]. split; [done|].
  destruct (cudaMallocHost bytes d1) as [[p2|] d2]; [|injection Ha as <-; cbn in H2; rewrite H2, E1; apply lookup_insert_eq].
  cbn [fst snd allocates] in H2. destruct H2 as [N2 E2]. pose proof (malloc_takes bytes d2 Hb) as H3.
  assert (allocated d2 !! p = Some bytes) as P2.
  { rewrite E2, lookup_insert_ne; [by rewrite E1, lookup_insert_eq|]. intros ->. by rewrite E1, lookup_insert_eq in N2. }
  destruct (cudaMalloc bytes d2) as [[p3|] d3]; [|injection Ha as <-; cbn in H3; by rewrite H3].
  cbn [fst snd allocates] in H3. destruct H3 as [N3 E3]. pose proof (malloc_takes bytes d3 Hb) as H4.
  destruct (cudaMalloc bytes d3) as [[p4|] d4]; [done|]. injection Ha as <-. cbn in H4. rewrite H4, E3.
  rewrite lookup_insert_ne; [done|]. intros ->. congruence.
Qed.

(** The three parts of [run_cuda_work]. *)
Lemma queries_spec (d : D) : let '(r, d1) := queries d in
  parity_ok r = false /\ kernel_sum r = 0 /\ device_count r = default 0 (cudaGetDeviceCount d).1 /\
  allocated d1 = allocated d.
Proof.
  unfold queries, used_bytes. cbv zeta. pose proof (count_keeps d) as E1. destruct (cudaGetDeviceCount d) as [dev d1].
  pose proof (properties_keeps d1) as E2. destruct (cudaGetDeviceProperties d1) as [prop d2].
  pose proof (info_keeps d2) as E3. destruct (cudaMemGetInfo d2) as [mem1 d3]. cbn [fst snd] in *.
  assert (allocated d3 = allocated d) as Ed by congruence. clear E1 E2 E3.
  destruct mem1 as [[f1 t1]|]; pose proof (info_keeps d3) as E4; destruct (cudaMemGetInfo d3) as [mem2 d4]; cbn [snd] in E4;
    destruct dev, prop as [[]|], mem2 as [[]|]; cbn; (split_and!; [done|done|done|by rewrite E4]).
Qed.
Lemma work_spec seed elements r r' (d d' : D) : 0 < elements -> elements + 255 < 2 ^ 31 ->
  work seed elements r d = (r', d') ->
  device_count r' = device_count r /\
  match allocate (mul64 elements 4) d with
  | (Some _, _) => parity_ok r' = (kernel_sum r' =? expected_sum seed elements) /\
      (healthy d' = true -> kernel_sum r' = expected_sum seed elements /\ allocated d' = allocated d)
  | (None, d1) => r' = r /\ d' = d1
  end.
Proof.
  intros H0 Hmax. unfold work. assert (0 < mul64 elements 4) as Hb
    by (unfold mul64, wrap64; rewrite Z.mod_small by lia; lia).
  destruct (allocate _ d) as [[[[[h_in h_out] d_in] d_out]|] d1] eqn:Ea; [|by intros [= <- <-]].
  apply allocate_all in Ea; [|done].
  pose proof (compute_parity seed elements h_out d_in d_out d1) as Hp.
  pose proof (compute_spec seed elements h_out d_in d_out d1 H0 Hmax) as Hs.
  pose proof (compute_keeps seed elements h_out d_in d_out d1) as Hk.
  destruct (compute _ _ _ _ _ d1) as [[sum ok] d2]. cbn [fst snd] in Hp, Hs, Hk. intros [= <- <-].
  split; [done|]. split; [exact Hp|]. intros H1.
  destruct (free_host_returns _ _ H1) as [H2 ->]. destruct (free_host_returns _ _ H2) as [H3 ->].
  destruct (free_returns _ _ H3) as [H4 ->]. destruct (free_returns _ _ H4) as [H5 ->].
  rewrite Hk, Ea. split; [|done]. by injection (Hs H5).
Qed.
(** What [run_cuda_work] does after the work leaves the result of it. *)
Lemma run_cuda_work_parts seed elements (d d' : D) r : run_cuda_work seed elements d = (r, d') ->
  let '(r0, d0) := queries d in let '(r1, d1) := work seed elements r0 d0 in
  parity_ok r = parity_ok r1 /\ kernel_sum r = kernel_sum r1 /\ device_count r = device_count r1 /\
  allocated d' = allocated d1 /\ (healthy d' = true -> healthy d1 = true).
Proof.
  unfold run_cuda_work, used_bytes. destruct (queries d) as [r0 d0]. destruct (work _ _ _ d0) as [r1 d1]. cbv zeta.
  pose proof (synchronize_keeps d1) as E0. pose proof (synchronize_reports d1) as H0.
  set (d2 := cudaDeviceSynchronize d1) in *.
  pose proof (info_keeps d2) as E1. pose proof (info_reports d2) as H1. destruct (cudaMemGetInfo d2) as [mem1 d3]. cbn [snd] in E1, H1.
  pose proof (info_keeps d3) as E2. pose proof (info_reports d3) as H2.
  destruct mem1 as [[f1 t1]|]; destruct (cudaMemGetInfo d3) as [mem2 d4]; cbn [snd] in E2, H2; intros [= <- <-];
    destruct mem2 as [[]|]; cbn; (split_and!; [done|done|done|congruence|auto]).
Qed.

(** C34: the CUDA workload of up to 2^31 - 256 elements, on any device that does
    what the runtime documents, whatever order its threads run in and whether or
    not multiply and add are fused.  With the four allocations made, [parity_ok]
    says that [kernel_sum] is the sum over the inputs of twice the value plus one,
    and nothing else, also when a copy or the launch failed; if the runtime has
    recorded no error by the end, it is that sum, and everything allocated has
    been freed.  When an allocation fails the result says no parity, and what was
    allocated before it is never freed.  Nothing is claimed of the memory readings,
    which are the whole device's. *)
Theorem run_cuda_work_spec seed elements (d d' : D) r : 0 < elements -> elements + 255 < 2 ^ 31 ->
  run_cuda_work seed elements d = (r, d') ->
  let d0 := (queries d).2 in
  match allocate (mul64 elements 4) d0 with
  | (Some _, _) =>
      parity_ok r = (kernel_sum r =? expected_sum seed elements) /\
      (healthy d' = true ->
       kernel_sum r = expected_sum seed elements /\ parity_ok r = true /\ allocated d' = allocated d)
  | (None, d1) =>
      parity_ok r = false /\ kernel_sum r = 0 /\ allocated d' = allocated d1 /\
      forall p, (cudaMallocHost (mul64 elements 4) d0).1 = Some p ->
        allocated d !! p = None /\ allocated d' !! p = Some (mul64 elements 4)
  end /\
  device_count r = default 0 (cudaGetDeviceCount d).1.
Proof.
  intros H0 Hmax E. apply run_cuda_work_parts in E. pose proof (queries_spec d) as Hq.
  destruct (queries d) as [r0 d0]. destruct Hq as (Hp0 & Hk0 & Hc0 & Ha0).
  destruct (work seed elements r0 d0) as [r1 d1] eqn:Ew. destruct E as (-> & -> & -> & Ea & Hh).
  destruct (work_spec _ _ _ _ _ _ H0 Hmax Ew) as [Hc Hw]. cbv zeta. cbn [snd]. split; [|congruence].
  destruct (allocate (mul64 elements 4) d0) as [[x|] d2] eqn:Eal.
  - destruct Hw as [Hp Hs]. split; [exact Hp|]. intros H. destruct (Hs (Hh H)) as [Es Em].
    rewrite Hp, Es. split_and!; [done|by apply Z.eqb_refl|congruence].
  - destruct Hw as [-> ->]. split_and!; [done..|]. intros p Hp. rewrite Ea, <- Ha0.
    apply (allocate_leaks _ d0 d2); [|done..]. unfold mul64, wrap64. rewrite Z.mod_small by lia. lia.
Qed.
End spec.

(** ** A concrete device *)

(** [sd_room] allocations succeed; the threads run in descending order; other
    processes take a byte of device memory at every query. *)
Record SampleDevice : Set := mkDevice {
  sd_allocated : gmap Z Z;
  sd_room : nat;
  sd_others : Z;
  sd_healthy : bool;
}.
Definition mkSampleDevice (m : gmap Z Z) (room : nat) : SampleDevice := mkDevice m room 0 true.
Definition sample_malloc (bytes : Z) (d : SampleDevice) : option Z * SampleDevice :=
  match sd_room d with
  | O => (None, mkDevice (sd_allocated d) O (sd_others d) false)
  | S room =>
      let p := fresh (dom (sd_allocated d)) in
      (Some p, mkDevice (<[p := bytes]> (sd_allocated d)) room (sd_others d) (sd_healthy d))
  end.
Definition sample_free (p : Z) (d : SampleDevice) : SampleDevice :=
  mkDevice (delete p (sd_allocated d)) (sd_room d) (sd_others d) (sd_healthy d).
Definition sample_info (d : SampleDevice) : option (Z * Z) * SampleDevice :=
  (Some (1000000 - sd_others d - map_fold (fun _ b n => b + n) 0 (sd_allocated d), 1000000),
   mkDevice (sd_allocated d) (sd_room d) (sd_others d + 1) (sd_healthy d)).
#[export] Instance sample_runtime : CudaRuntime SampleDevice := {
  contracts := true;
  cudaGetDeviceCount d := (Some 1, d);
  cudaGetDeviceProperties d := (Some (12, 0), d);
  cudaMemGetInfo := sample_info;
  cudaMallocHost := sample_malloc;
  cudaMalloc := sample_malloc;
  cudaFreeHost := sample_free;
  cudaFree := sample_free;
  contents _ n _ := replicate n f32_zero;
  cudaMemcpy dst src d := (src, d);
  launch k grid block out d := (run_threads k (reverse (threads_of grid block)) out, d);
  cudaDeviceSynchronize d := d;
}.
Lemma sample_malloc_takes bytes d : let x := sample_malloc bytes d in
  allocates (sd_allocated d) bytes x.1 (sd_allocated x.2).
Proof.
  unfold sample_malloc. destruct (sd_room d); [done|]. cbn [fst snd allocates sd_allocated]. split; [|done].
  apply not_elem_of_dom, is_fresh.
Qed.
#[export] Program Instance sample_documents : CudaDocuments SampleDevice := {
  healthy := sd_healthy;
  allocated := sd_allocated;
}.
Next Obligation. intros. apply length_replicate. Qed.
Next Obligation. by intros. Qed.
Next Obligation.
  intros k grid block out d H. split; [exact H|]. intros _. exists (reverse (threads_of grid block)).
  split; [apply reverse_Permutation|done].
Qed.
Solve Obligations with (by intros) || (intros; apply sample_malloc_takes).

(** The workload on three elements; and on a device where the third allocation
    fails, which leaves the two host buffers behind. *)
Example run_cuda_work_spec_witness : exists r d' r2 d2,
  run_cuda_work 12345 3 (mkSampleDevice ∅ 4) = (r, d') /\
  (parity_ok r, kernel_sum r, sd_allocated d') = (true, 2639, ∅) /\
  run_cuda_work 12345 3 (mkSampleDevice ∅ 2) = (r2, d2) /\
  (parity_ok r2, kernel_sum r2) = (false, 0) /\ base.size (sd_allocated d2) = 2%nat.
Proof.
  destruct (run_cuda_work 12345 3 (mkSampleDevice ∅ 4)) as [r d'] eqn:E.
  destruct (run_cuda_work 12345 3 (mkSampleDevice ∅ 2)) as [r2 d2] eqn:E2.
  assert (healthy d' = true) as Hh by (vm_compute in E; by injection E as <- <-).
  assert (0 < 3 /\ 3 + 255 < 2 ^ 31) as [H0 H1] by lia.
  pose proof (run_cuda_work_spec 12345 3 _ _ _ H0 H1 E) as [H _].
  pose proof (run_cuda_work_spec 12345 3 _ _ _ H0 H1 E2) as [H2 _].
  vm_compute in H. destruct H as [_ H]. destruct (H Hh) as (Hk & Hp & Ha).
  vm_compute in H2. destruct H2 as (Hp2 & Hk2 & Ha2 & _).
  exists r, d', r2, d2. split; [reflexivity|]. destruct r, d', r2, d2. cbn in *. subst.
  split; [reflexivity|]. split; [reflexivity|]. split; reflexivity.
Defined.
