(* ===== verification/Programs.v ===== *)
(** * Programs: the example, the tool, the consumer and the benchmark

    The programs of examples/, tools/ and benchmarks/ that drive one [Scheduler]
    by its public interface, as computations over the scheduler, its recording
    fabric, what was printed and the number of failed checks.  The iteration
    orders of the hash maps are parameters, so what is proved of a program holds
    for every implementation of [std::unordered_map]. *)
From S2P Require Import Prelude Enums Identity Error Float64 Domain Lifecycle Conflict State.
From S2P Require Import Eligibility Ranking Schedule Ports Operations Worker.

(** ** A main function *)

(** It ends by an exception, or does what C++ leaves undefined (indexing an empty
    vector, dereferencing an empty optional). *)
Inductive stop : Set :=
  | Thrown (e : scheduler_error)
  | Undefined.
(** What [printf] is given: the conversions of numbers are left to it, and
    elapsed time is not modelled. *)
Inductive item : Set := Text (s : string) | Num (n : Z) | Real (d : double) | Elapsed.
#[export] Instance item_eq_dec : EqDecision item.
Proof. solve_decision. Defined.

Section program.
Context {X : Type}.
(** The scheduler, the fabric, an external device, the output and [g_fail]. *)
Record Prog : Type := mkProg {
  pr_scheduler : Impl;
  pr_fabric : RecordingCollectiveFabric;
  pr_device : X;
  pr_out : list (list item);
  pr_fail : Z;
}.
#[global] Instance Prog_eta : Eta Prog := fun p =>
  mkProg (pr_scheduler p) (pr_fabric p) (pr_device p) (pr_out p) (pr_fail p).
Abbreviation PM := (M stop Prog).

Definition call {A} (m : M scheduler_error (Impl * RecordingCollectiveFabric) A) : PM A := fun p =>
  let '(x, (s, w)) := m (pr_scheduler p, pr_fabric p) in
  (match x with Ok a => Ok a | Throw e => Throw (Thrown e) end, p <| pr_scheduler := s |> <| pr_fabric := w |>).
Definition op {A} (m : SM A) : PM A := call (locked m).
Definition printf (l : list item) : PM unit := fun p => (Ok tt, p <| pr_out ::= fun o => o ++ [l] |>).
Definition on_device {A} (f : X -> A * X) : PM A := fun p =>
  let '(a, x) := f (pr_device p) in (Ok a, p <| pr_device := x |>).
(** [v\[0\]] and [*o]. *)
Definition first {A} (v : list A) : PM A := match v with x :: _ => mret x | [] => throw Undefined end.
Definition deref {A} (o : option A) : PM A := match o with Some x => mret x | None => throw Undefined end.
(** [try { m } catch (...) {}]. *)
Definition try_catch (m : PM unit) : PM unit := fun p =>
  match m p with
  | (Throw (Thrown _), p') => (Ok tt, p')
  | x => x
  end.
(** [static void report(bool ok, const char* what)]. *)
Definition report (ok : bool) (what : string) : PM unit := fun p =>
  (Ok tt, p <| pr_out ::= fun o => o ++ [[Text (if ok then "[OK] " else "[FAIL] ")%string; Text what]] |>
            <| pr_fail ::= fun n => if ok then n else n + 1 |>).
(** [Scheduler s;]. *)
Definition new_scheduler : PM unit := fun p =>
  (Ok tt, p <| pr_scheduler := Scheduler_default |> <| pr_fabric := fabric_default |>).
Definition started_program (x : X) : Prog := mkProg Scheduler_default fabric_default x [] 0.

Variable ord : Impl -> list CollectiveRequestId.
Variable gord : Impl -> list CollectiveGrantId.
Definition do_schedule : PM ScheduleDecision := fun p =>
  call (schedule (ord (pr_scheduler p)) (gord (pr_scheduler p))) p.
Definition grant_by_id (id : CollectiveGrantId) : PM (option CollectiveGrant) := fun p =>
  (Ok (grantById (pr_scheduler p) id), p).
End program.
Arguments Prog X : clear implicits.

(** The participant, plan and request the programs build. *)
Definition mk (id : Z) : Participant := own_participant 1 11 id.
Definition mk_plan (id : Z) (ps : list Z) : CommunicationPlan :=
  CommunicationPlan_default
    <| pl_id := mkId id |> <| pl_gen := mkGen 1 |> <| pl_kind := CollectiveKind.ALL_REDUCE |>
    <| pl_topology_gen := mkGen 1 |> <| pl_participants := mkId <$> ps |> <| pl_valid := true |>
    <| pl_provenance := ProvenanceStatus.SYNTHETIC |>.
Definition mk_request (c : Z) (ps : list Z) (plan : Z) : CollectiveRequest :=
  CollectiveRequest_default
    <| rq_collective := mkId c |> <| rq_collective_gen := mkGen 1 |>
    <| rq_kind := CollectiveKind.ALL_REDUCE |>
    <| rq_participants := mkId <$> ps |> <| rq_participant_gens := replicate (length ps) (mkGen 1) |>
    <| rq_plan_id := mkId plan |> <| rq_plan_gen := mkGen 1 |> <| rq_workload_gen := mkGen 1 |>
    <| rq_priority ::= fun p => p <| prio_gen := mkGen 1 |> <| prio_authoritative := true |> |>
    <| rq_window ::= fun w => w <| w_expected_duration_ns := 1000 |> |>.

Section mains.
Context {X : Type}.
Variable ord : Impl -> list CollectiveRequestId.
Variable gord : Impl -> list CollectiveGrantId.
Abbreviation PM := (M stop (Prog X)).
Abbreviation schedule := (do_schedule ord gord).

(** tools/consumer/main.cpp; the declarations are those of basic_schedule.cpp
    too. *)
Definition declare_collectives : PM (CollectiveRequestId * CollectiveRequestId) :=
  mfor (fun i => op (publishParticipant (mk i))) [1; 2; 3];;
  op (publishPlan (mk_plan 1 [1; 2]));; op (publishPlan (mk_plan 2 [2; 3]));;
  c1 ← op (submit (mk_request 1 [1; 2] 1));
  c2 ← op (submit (mk_request 2 [2; 3] 2));
  mret (c1, c2).
Definition consumer_fail (what : string) : PM Z :=
  printf [Text "CONSUMER FAIL: "%string; Text what];; mret 1.
Definition consumer_main : PM Z :=
  '(c1, c2) ← declare_collectives;
  dec1 ← schedule;
  if negb (Z.of_nat (length (dec_selected dec1)) =? 1) then consumer_fail "expected 1 selected" else
  gid1 ← first (dec_grants dec1); g1 ← grant_by_id gid1;
  match g1 with None => consumer_fail "no grant" | Some g1 =>
  handed1 ← call (handoff g1);
  if negb handed1 then consumer_fail "handoff" else
  done1 ← call (complete g1 (mkId 11) (mkId 100));
  if negb done1 then consumer_fail "complete" else
  dec2 ← schedule;
  wrong ← (if negb (Z.of_nat (length (dec_selected dec2)) =? 1) then mret true else
           id ← first (dec_selected dec2); mret (negb (id_value id =? id_value c2)));
  if (wrong : bool) then consumer_fail "second grant" else
  gid2 ← first (dec_grants dec2); g2 ← grant_by_id gid2;
  handed2 ← (match g2 with None => mret false | Some g2 => call (handoff g2) end);
  if negb handed2 then consumer_fail "handoff2" else
  printf [Text "CONSUMER OK: deterministic order, conflict serialized, C1 completed, C2 granted"%string];;
  mret 0
  end.

(** examples/basic_schedule.cpp. *)
Definition num_of_bool (b : bool) : item := Num (if b then 1 else 0).
Definition basic_schedule_main : PM Z :=
  '(c1, c2) ← declare_collectives;
  dec1 ← schedule;
  printf [Text "first schedule selected "%string; Num (Z.of_nat (length (dec_selected dec1))); Text " collective(s)"%string];;
  gid1 ← first (dec_grants dec1); g1 ← grant_by_id gid1;
  match g1 with
  | None => mret tt
  | Some g =>
      handed ← call (handoff g);
      printf [Text "handoff C"%string; Num (id_value (g_collective g)); Text " accepted="%string; num_of_bool handed];;
      done ← call (complete g (mkId 11) (mkId 100));
      printf [Text "complete C"%string; Num (id_value (g_collective g)); Text " ok="%string; num_of_bool done]
  end;;
  dec2 ← schedule;
  printf [Text "second schedule selected "%string; Num (Z.of_nat (length (dec_selected dec2))); Text " collective(s)"%string];;
  gid2 ← first (dec_grants dec2); g2 ← grant_by_id gid2;
  match g2 with
  | None => mret tt
  | Some g =>
      handed ← call (handoff g);
      printf [Text "handoff C"%string; Num (id_value (g_collective g)); Text " accepted="%string; num_of_bool handed]
  end;;
  printf [Text "example complete"%string];;
  mret 0.

(** tools/cs_inspect.cpp. *)
Definition inspect_main : PM Z :=
  mfor (fun i => op (publishParticipant (mk i))) (seqZ 1 4);;
  op (publishPlan (mk_plan 1 [1; 2]));;
  mfor (fun c => _ ← op (submit (mk_request c [c; c mod 4 + 1] 1)); mret tt) (seqZ 1 3);;
  p ← get_state;
  let inf := info (pr_scheduler p) (ord (pr_scheduler p)) in
  printf [Text "records="%string; Num (inf_records inf); Text " participants="%string; Num (inf_participants inf);
          Text " plans="%string; Num (inf_plans inf); Text " active_grants="%string; Num (inf_active_grants inf);
          Text " epoch="%string; Num (gen_value (inf_epoch inf))];;
  printf (Text "next_eligible: "%string :: flat_map (fun id => [Num (id_value id); Text " "%string]) (inf_next_eligible inf));;
  dec ← schedule;
  printf ([Text "selected (schedule gen "%string; Num (gen_value (dec_gen dec)); Text "): "%string] ++
          flat_map (fun id => [Num (id_value id); Text " "%string]) (dec_selected dec));;
  printf (Text "ranking factors (top): "%string ::
          flat_map (fun f => [Text (SchedulingFactorKind.name_of (fv_kind f)); Text "="%string; Real (fv_value f);
                              Text " "%string]) (dec_ranking_factors dec));;
  mret 0.

(** benchmarks/bench.cpp: [mk], [submit_n], [main]. *)
Definition bench_mk (nparts : Z) : PM unit := mfor (fun i => op (publishParticipant (mk i))) (seqZ 1 nparts).
Definition bench_request (c nparts : Z) : CollectiveRequest :=
  mk_request (100000 + c) [1 + c mod (nparts - 1); nparts] 1
    <| rq_priority ::= fun p => p <| prio_value := c mod 10 |> |>.
Definition submit_n (n nparts : Z) : PM unit :=
  mfor (fun c => try_catch (_ ← op (submit (bench_request c nparts)); mret tt)) (seqZ 0 n).
Definition bench_round (n nparts : Z) : PM unit :=
  new_scheduler;; bench_mk nparts;;
  op (publishPlan (mk_plan 1 [1; nparts]));;
  submit_n n nparts;;
  mfor (fun _ => _ ← schedule; mret tt) (seqZ 0 50);;
  printf [Text "n="%string; Num n; Text "  ingest="%string; Elapsed; Text "ms  schedule(x50)="%string; Elapsed; Text "ms"%string].
Definition bench_contended (nparts : Z) : PM unit :=
  new_scheduler;; bench_mk nparts;;
  op (publishPlan (mk_plan 1 [1; 2]));;
  submit_n 1000 nparts;;
  _ ← schedule;
  printf [Text "contended n=1000 schedule="%string; Elapsed; Text "ms"%string].
Definition bench_main : PM Z :=
  let nparts := 256 in
  mfor (fun n => bench_round n nparts) [100; 1000; 10000];;
  bench_contended nparts;;
  mret 0.
End mains.


(** ** Running a program *)

(** The iteration order of the grants only shows in the priority inversions, and
    the default ports do nothing with those. *)
Lemma round_inversions ord gord s dec s' : schedule_round ord [] s = (Ok dec, s') ->
  exists pi, schedule_round ord gord s = (Ok (dec <| dec_priority_inversions := pi |>), s').
Proof.
  unfold schedule_round. rewrite !bind_get, !bind_put. unfold mbind, M_bind, put_state, get_state, mret, M_ret.
  destruct (refresh_loop ord _) as [[cs|] s1]; [|done]. destruct (create_grants _ _ _) as [[gs|] s2]; [|done].
  destruct (form_group _ s2) as [[grp|] s3]; [|done]. intros [= <- <-]. by eexists.
Qed.
Lemma notify_all {A} (evs : list A) f (s : Impl) (w : RecordingCollectiveFabric) :
  (forall ev w, f ev w = w) -> mfor (fun ev => notify (f ev)) evs (s, w) = (Ok tt, (s, w)).
Proof.
  intros Hf. induction evs as [|ev evs IH]; [done|]. cbn [mfor].
  assert (notify (f ev) (s, w) = (Ok tt, (s, w))) as E by (unfold notify, on_port; by rewrite Hf).
  by rewrite (bind_ok _ _ _ _ _ E).
Qed.
Lemma do_schedule_ok {X B} ord gord (p : Prog X) dec s' (k : ScheduleDecision -> M stop (Prog X) B) :
  enumerates (ord (pr_scheduler p)) (im_records (pr_scheduler p)) ->
  (forall o, o ∈ permutations (keys (im_records (pr_scheduler p))) -> schedule_round o [] (pr_scheduler p) = (Ok dec, s')) ->
  exists pi, (do_schedule ord gord ≫= k) p = k (dec <| dec_priority_inversions := pi |>) (p <| pr_scheduler := s' |>).
Proof.
  intros [Hn Ho] Hr. destruct (keys_enumerates (im_records (pr_scheduler p))) as [Hn' Ho'].
  destruct (round_inversions (ord (pr_scheduler p)) (gord (pr_scheduler p)) (pr_scheduler p) dec s') as [pi E].
  { apply Hr, permutations_Permutation, NoDup_Permutation; [done|done|]. intros r. by rewrite Ho, Ho'. }
  exists pi. apply bind_ok. unfold do_schedule, call, Operations.schedule.
  assert (locked (schedule_round (ord (pr_scheduler p)) (gord (pr_scheduler p))) (pr_scheduler p, pr_fabric p) =
    (Ok (dec <| dec_priority_inversions := pi |>), (s', pr_fabric p))) as E2 by (unfold locked; by rewrite E).
  rewrite (bind_ok _ _ _ _ _ E2), (bind_ok _ _ _ _ _ (notify_all _ _ _ _ (fun _ _ => eq_refl))). by destruct p.
Qed.
(** What holds of the outcome of a run. *)
Definition ends {X A} (P : result stop A -> Prog X -> Prop) (x : result stop A * Prog X) : Prop := P x.1 x.2.
Lemma ends_bind {X A B} P (m : M stop (Prog X) A) (k : A -> M stop (Prog X) B) p a :
  eval m p = Ok a -> ends P (k a (exec m p)) -> ends P ((m ≫= k) p).
Proof. unfold eval, exec, mbind, M_bind. destruct (m p) as [r p']. cbn. by intros ->. Qed.

(** Before the first round no collective is eligible. *)
Lemma info_nothing s ord : map_Forall (fun _ r => waits_for_grant r = false) (im_records s) ->
  inf_next_eligible (info s ord) = [].
Proof.
  intros Hs. unfold info. cbn [inf_next_eligible].
  assert (List.filter (fun id => waits_for_grant (record_at s id)) ord = []) as ->; [|done].
  induction ord as [|id ord IH]; [done|]. cbn [List.filter].
  assert (waits_for_grant (record_at s id) = false) as ->; [|done].
  unfold record_at. destruct (im_records s !! id) as [r|] eqn:Hr; [exact (Hs id r Hr)|done].
Qed.

(** Evaluates the next call of a program, from a state kept as the calls that led
    to it. *)
Ltac step :=
  lazymatch goal with
  | |- ends _ (mbind ?k (do_schedule ?ord ?gord) ?p) =>
      let o := constr:(keys (im_records (pr_scheduler p))) in
      let o := eval vm_compute in o in
      let r := eval vm_compute in (eval (schedule_round o []) (pr_scheduler p)) in
      lazymatch r with
      | Ok ?dec =>
          let pi := fresh "pi" in
          let E := fresh "E" in
          destruct (do_schedule_ok ord gord p dec (exec (schedule_round o []) (pr_scheduler p)) k) as [pi E];
          [ auto
          | let o := fresh "o" in let Ho := fresh "Ho" in
            intros o Ho; vm_compute in Ho;
            repeat (apply elem_of_cons in Ho as [->|Ho]; [vm_compute; reflexivity|]);
            by apply not_elem_of_nil in Ho
          | refine (eq_ind_r (ends _) _ E); clear E; cbv beta iota ]
      end
  | |- ends ?P (mbind ?k get_state ?p) => change (ends P (k p p)); cbv beta
  | |- ends _ (mbind ?k ?m ?p) =>
      let r := eval vm_compute in (eval m p) in
      lazymatch r with
      | Ok ?a => refine (ends_bind _ m k p a _ _); [vm_compute; reflexivity|cbv beta iota]
      end
  | |- ends _ ((if ?b then _ else _) _) => let v := eval vm_compute in b in change b with v; cbv iota
  end.
Ltac runs := repeat step; repeat split; vm_compute; reflexivity.

Section runs.
Context {X : Type} (x : X).
Variable ord : Impl -> list CollectiveRequestId.
Variable gord : Impl -> list CollectiveGrantId.
Hypothesis Hord : forall s, enumerates (ord s) (im_records s).

(** The programs do what they announce, whatever the iteration order of the
    hash maps: the consumer passes all its checks and exits with 0; the example
    grants, completes and grants the second collective only after the first; the
    inspection tool shows no eligible collective (none is before a round) and
    selects the first. *)
Theorem programs_announce :
  ends (fun r p => r = Ok 0 /\ (g_collective <$> accepted (pr_fabric p)) = [mkId 1; mkId 2] /\ pr_out p =
      [ [Text "CONSUMER OK: deterministic order, conflict serialized, C1 completed, C2 granted"%string] ])
    (consumer_main ord gord (started_program x)) /\
  ends (fun r p => r = Ok 0 /\ pr_out p =
      [ [Text "first schedule selected "%string; Num 1; Text " collective(s)"%string];
        [Text "handoff C"%string; Num 1; Text " accepted="%string; Num 1];
        [Text "complete C"%string; Num 1; Text " ok="%string; Num 1];
        [Text "second schedule selected "%string; Num 1; Text " collective(s)"%string];
        [Text "handoff C"%string; Num 2; Text " accepted="%string; Num 1];
        [Text "example complete"%string] ])
    (basic_schedule_main ord gord (started_program x)) /\
  ends (fun r p => r = Ok 0 /\ take 3 (pr_out p) =
      [ [Text "records="%string; Num 3; Text " participants="%string; Num 4; Text " plans="%string; Num 1;
         Text " active_grants="%string; Num 0; Text " epoch="%string; Num 1];
        [Text "next_eligible: "%string];
        [Text "selected (schedule gen "%string; Num 1; Text "): "%string; Num 1; Text " "%string] ])
    (inspect_main ord gord (started_program x)).
Proof using Hord.
  split; [unfold consumer_main; runs|]. split; [unfold basic_schedule_main; runs|]. unfold inspect_main.
  do 4 step. cbv zeta. rewrite info_nothing by (apply (bool_decide_unpack _); vm_compute; exact I). cbn [flat_map].
  runs.
Qed.
End runs.

Example programs_announce_witness :
  ends (fun r p => r = Ok 0 /\ (g_collective <$> accepted (pr_fabric p)) = [mkId 1; mkId 2] /\ pr_out p =
      [ [Text "CONSUMER OK: deterministic order, conflict serialized, C1 completed, C2 granted"%string] ])
    (consumer_main (fun s => keys (im_records s)) (fun s => keys (im_grants s)) (started_program tt)).
Proof. exact (proj1 (programs_announce tt _ _ (fun s => keys_enumerates (im_records s)))). Defined.
(** Every submission of a small benchmark is accepted; its rounds grant one
    collective each, although all ten share the last participant: a collective
    that is granted but not handed over stands in nobody's way. *)
Example bench_small :
  ends (fun r p => (r, base.size (im_records (pr_scheduler p)), base.size (im_grants (pr_scheduler p))) =
      (Ok tt, 10%nat, 10%nat))
    (bench_round (fun s => keys (im_records s)) (fun s => keys (im_grants s)) 10 5 (started_program tt)).
Proof. vm_compute. reflexivity. Qed.
