(* ===== verification/GatingProof.v ===== *)
(** * GatingProof: the schedule-gating proof (schedule_gating_proof.cpp)

    [gating_main] runs two conflicting collectives through a scheduler and runs
    the CUDA workload between hand-off and completion of each; its exit code says
    whether all its checks passed. *)
From S2P Require Import Prelude Enums Identity Error Float64 Domain Lifecycle Conflict Codec Serialize.
From S2P Require Import Protocol State Eligibility Ranking Schedule Ports Operations Persistence Coordinator Worker.
From S2P Require Import CudaExecutor Programs.

(** The static helpers [P], [Plan] and [Req]. *)
Definition P (id : Z) : Participant := mk id.
Definition Plan (id : Z) : CommunicationPlan := mk_plan id [1; 2].
Definition Req (c : Z) : CollectiveRequest := mk_request c [1; 2] 1.

(** [const std::size_t N = 1 << 20;] *)
Definition N : Z := Z.shiftl 1 20.
(** [r.total_memory_after <= r.total_memory_before + (64u * 1024u * 1024u)]. *)
Definition memory_back (r : CudaWorkResult) : bool :=
  total_memory_after r <=? add64 (total_memory_before r) (64 * 1024 * 1024).

Section gating.
Context {D : Type} `{!CudaRuntime D}.
Variable ord : Impl -> list CollectiveRequestId.
Variable gord : Impl -> list CollectiveGrantId.
Abbreviation PM := (M stop (Prog D)).
Abbreviation schedule := (do_schedule ord gord).

Definition is_selected (c : CollectiveRequestId) (dec : ScheduleDecision) : bool :=
  existsb (fun id => id_value id =? id_value c) (dec_selected dec).
Definition hand_over (g : option CollectiveGrant) : PM bool :=
  match g with Some g => call (handoff g) | None => mret false end.
Definition accepted_count : PM Z := fun p => (Ok (Z.of_nat (length (accepted (pr_fabric p)))), p).
Definition fail_count : PM Z := fun p => (Ok (pr_fail p), p).

Definition gating_main : PM Z :=
  op (publishParticipant (P 1));; op (publishParticipant (P 2));;
  op (publishPlan (Plan 1));;
  c1 ← op (submit (Req 1));
  c2 ← op (submit (Req 2));
  dec1 ← schedule;
  report (Z.of_nat (length (dec_selected dec1)) =? 1) "only one collective granted in first schedule";;
  report (is_selected c1 dec1) "C1 (collective 1) is the granted collective";;
  gid1 ← first (dec_grants dec1); g1 ← grant_by_id gid1;
  report (bool_decide (is_Some g1)) "C1 grant exists";;
  accepted1 ← hand_over g1;
  report accepted1 "C1 valid grant reached the collective fabric";;
  n1 ← accepted_count;
  report (n1 =? 1) "exactly C1's grant reached the execution adapter";;
  r1 ← on_device (run_cuda_work 12345 N);
  report (parity_ok r1) "C1 real CUDA work CPU parity passed";;
  report (1 <=? device_count r1) "CUDA device count detected (RTX 5090)";;
  printf [Text "[INFO] device cc="%string; Num (cc_major r1); Text "."%string; Num (cc_minor r1)];;
  report (memory_back r1) "device memory returned to baseline after C1";;
  g1' ← deref g1;
  completed1 ← call (complete g1' (mkId 11) (mkId 100));
  report completed1 "C1 completed authoritatively";;
  dec2 ← schedule;
  report (Z.of_nat (length (dec_selected dec2)) =? 1) "C2 selected in second schedule";;
  report (is_selected c2 dec2) "C2 (collective 2) granted after C1 completed";;
  gid2 ← first (dec_grants dec2); g2 ← grant_by_id gid2;
  report (bool_decide (is_Some g2)) "C2 grant exists";;
  accepted2 ← hand_over g2;
  report accepted2 "C2 valid grant reached the collective fabric";;
  n2 ← accepted_count;
  report (n2 =? 2) "both valid grants reached the execution adapter in order";;
  r2 ← on_device (run_cuda_work 67890 N);
  report (parity_ok r2) "C2 real CUDA work CPU parity passed";;
  report (memory_back r2) "device memory returned to baseline after C2";;
  g2' ← deref g2;
  completed2 ← call (complete g2' (mkId 11) (mkId 100));
  report completed2 "C2 completed authoritatively";;
  again ← call (complete g1' (mkId 11) (mkId 100));
  report (negb again) "duplicate/stale C1 completion rejected";;
  fails ← fail_count;
  printf [Text "CUDA schedule-gating proof "%string; Text (if fails =? 0 then "PASSED"%string else "FAILED"%string)];;
  mret (if fails =? 0 then 0 else 1).

(** The workload is a step whose result is not known. *)
Lemma ends_device {B} Q (f : D -> CudaWorkResult * D) (k : CudaWorkResult -> PM B) (p : Prog D) :
  (forall r d, f (pr_device p) = (r, d) -> ends Q (k r (p <| pr_device := d |>))) ->
  ends Q ((on_device f ≫= k) p).
Proof.
  intros H. unfold mbind, M_bind, on_device. destruct (f (pr_device p)) as [r d] eqn:E. by apply H.
Qed.

Hypothesis Hord : forall s, enumerates (ord s) (im_records s).
(** What the program checks of the two results. *)
Definition good1 (r : CudaWorkResult) : bool := parity_ok r && (1 <=? device_count r) && memory_back r.
Definition good2 (r : CudaWorkResult) : bool := parity_ok r && memory_back r.
Lemma gating_exit d : let '(r1, d1) := run_cuda_work 12345 N d in let '(r2, d2) := run_cuda_work 67890 N d1 in
  ends (fun r p => (r, g_collective <$> accepted (pr_fabric p)) =
      (Ok (if good1 r1 && good2 r2 then 0 else 1), [mkId 1; mkId 2]))
    (gating_main (started_program d)).
Proof using Hord.
  destruct (run_cuda_work 12345 N d) as [r1 d1] eqn:E1. destruct (run_cuda_work 67890 N d1) as [r2 d2] eqn:E2.
  unfold gating_main, good1, good2.
  do 15 step. apply ends_device. intros r d' E.
  match type of E with run_cuda_work _ _ (pr_device ?p) = _ =>
    assert (pr_device p = d) as Ed by (vm_compute; reflexivity) end.
  rewrite Ed, E1 in E. clear Ed. injection E as <- <-.
  do 17 step. apply ends_device. intros r d' E.
  match type of E with run_cuda_work _ _ (pr_device ?p) = _ =>
    assert (pr_device p = d1) as Ed by (vm_compute; reflexivity) end.
  rewrite Ed, E2 in E. clear Ed. injection E as <- <-.
  do 7 step.
  destruct (parity_ok r1), (1 <=? device_count r1), (memory_back r1), (parity_ok r2), (memory_back r2);
    do 2 step; vm_compute; reflexivity.
Qed.

Lemma N_bounds : 0 < N /\ N + 255 < 2 ^ 31.
Proof. by vm_compute. Qed.
(** On a device that does what is documented, a workload without errors agrees
    with the CPU. *)
Lemma work_agrees `{!CudaDocuments D} seed (d d' : D) r : run_cuda_work seed N d = (r, d') ->
  is_Some (allocate (mul64 N 4) (queries d).2).1 -> healthy d' = true ->
  parity_ok r = true /\ device_count r = default 0 (cudaGetDeviceCount d).1 /\ allocated d' = allocated d.
Proof.
  intros E Ha Hh. apply run_cuda_work_parts in E. pose proof (queries_spec d) as Hq.
  destruct (queries d) as [r0 d0]. destruct Hq as (_ & _ & Hc0 & Ha0). destruct (work seed N r0 d0) as [r1 d1] eqn:Ew.
  destruct E as (-> & _ & -> & Ed & Hb). destruct (work_spec _ _ _ _ _ _ (proj1 N_bounds) (proj2 N_bounds) Ew) as [Hc Hw].
  cbn [snd] in Ha. destruct (allocate _ d0) as [[x|] d2]; [|by destruct Ha].
  destruct Hw as [Hp Hs]. destruct (Hs (Hb Hh)) as [Es Em]. rewrite Hp, Es.
  split_and!; [by apply Z.eqb_refl|congruence..].
Qed.

(** The schedule-gating program lets the device decide: its scheduler checks
    all pass whatever the iteration orders, so it exits with 0 exactly when both
    workloads agree with the CPU, the memory readings after them are within the
    slack of those before, and a device is there.  On a device that does what the
    runtime documents, on which the allocations succeed and no error is recorded,
    the workloads agree and free what they took, and the verdict is that of the
    readings. *)
Theorem gating_verdict d : let '(r1, d1) := run_cuda_work 12345 N d in let '(r2, d2) := run_cuda_work 67890 N d1 in
  ends (fun r p => r = Ok (if good1 r1 && good2 r2 then 0 else 1) /\
      (g_collective <$> accepted (pr_fabric p)) = [mkId 1; mkId 2])
    (gating_main (started_program d)) /\
  (forall (A : CudaDocuments D), healthy d1 = true -> healthy d2 = true ->
   is_Some (allocate (mul64 N 4) (queries d).2).1 -> is_Some (allocate (mul64 N 4) (queries d1).2).1 ->
   1 <= default 0 (cudaGetDeviceCount d).1 ->
   good1 r1 && good2 r2 = memory_back r1 && memory_back r2 /\ allocated d2 = allocated d).
Proof using Hord.
  pose proof (gating_exit d) as He.
  destruct (run_cuda_work 12345 N d) as [r1 d1] eqn:E1. destruct (run_cuda_work 67890 N d1) as [r2 d2] eqn:E2.
  split; [by apply pair_equal_spec in He|]. intros A Hh1 Hh2 Ha1 Ha2 Hc.
  destruct (work_agrees _ _ _ _ E1 Ha1 Hh1) as (P1 & C1 & M1).
  destruct (work_agrees _ _ _ _ E2 Ha2 Hh2) as (P2 & _ & M2).
  split; [|congruence]. unfold good1, good2. rewrite P1, P2, C1.
  by rewrite (proj2 (Z.leb_le 1 (default 0 (cudaGetDeviceCount d).1)) Hc).
Qed.
End gating.

(** On the sample device, with room for the eight allocations: the million
    elements are never computed, only what the device is left with and reports. *)
Lemma sample_device_left seed elements : let x := run_cuda_work seed elements (mkSampleDevice ∅ 8) in
  x.2 = mkDevice ∅ 4 4 true /\ memory_back x.1 = true.
Proof. vm_compute. split; reflexivity. Qed.
Lemma sample_device_after seed elements : let x := run_cuda_work seed elements (mkDevice ∅ 4 4 true) in
  x.2 = mkDevice ∅ 0 8 true /\ memory_back x.1 = true.
Proof. vm_compute. split; reflexivity. Qed.
Example gating_verdict_witness :
  ends (fun r p => r = Ok 0 /\ (g_collective <$> accepted (pr_fabric p)) = [mkId 1; mkId 2])
    (gating_main (fun s => keys (im_records s)) (fun _ => []) (started_program (mkSampleDevice ∅ 8))).
Proof.
  pose proof (gating_verdict (fun s => keys (im_records s)) (fun _ => []) (fun s => keys_enumerates (im_records s))
    (mkSampleDevice ∅ 8)) as H.
  pose proof (sample_device_left 12345 N) as [E1 B1]. pose proof (sample_device_after 67890 N) as [E2 B2].
  destruct (run_cuda_work 12345 N (mkSampleDevice ∅ 8)) as [r1 d1]. cbn [fst snd] in E1, B1. subst d1.
  destruct (run_cuda_work 67890 N (mkDevice ∅ 4 4 true)) as [r2 d2]. cbn [fst snd] in E2, B2. subst d2. destruct H as [He Hg].
  destruct (Hg sample_documents) as [G _].
  - reflexivity.
  - reflexivity.
  - eexists. vm_compute. reflexivity.
  - eexists. vm_compute. reflexivity.
  - vm_compute. discriminate.
  - rewrite G, B1, B2 in He. exact He.
Defined.
