(* ===== verification/CudaWorker.v ===== *)
(** * CudaWorker: the worker process that runs the CUDA workload (cuda_worker.cpp)

    As Worker, but a grant of one of its participants runs [run_cuda_work] with
    the boot as seed, and is answered by a COMPLETE alone, whatever the workload
    returned. *)
From S2P Require Import Prelude Enums Identity Error Float64 Domain Lifecycle Conflict Codec Serialize.
From S2P Require Import Protocol State Samples Eligibility Ranking Schedule Ports Operations.
From S2P Require Import Persistence Coordinator Worker System CudaExecutor Programs.

Section cuda_worker.
Context {D : Type} `{!CudaRuntime D}.
(** [--worker], [--boot], [--participant ...]. *)
Variables (worker boot : Z) (participants : list Z).

(** The variables of [main], the device and what was printed. *)
Record CudaWorker : Type := mkCudaWorker {
  cw_worker : Worker;
  cw_device : D;
  cw_out : list (list item);
}.
#[global] Instance CudaWorker_eta : Eta CudaWorker := fun w => mkCudaWorker (cw_worker w) (cw_device w) (cw_out w).
Abbreviation CW := (M scheduler_error CudaWorker).

(** What it has in common with the reference worker. *)
Definition at_worker {A} (m : M scheduler_error Worker A) : CW A := fun w =>
  let '(x, wk) := m (cw_worker w) in (x, w <| cw_worker := wk |>).
Definition cuda_printf (l : list item) : CW unit := fun w => (Ok tt, w <| cw_out ::= fun o => o ++ [l] |>).
Definition workload : CW CudaWorkResult := fun w =>
  let '(r, d) := run_cuda_work boot (Z.shiftl 1 20) (cw_device w) in (Ok r, w <| cw_device := d |>).

(** [am && !g.terminal]. *)
Definition executes (g : CollectiveGrant) : bool := am_participant participants g && negb (g_terminal g).
(** The body of the message loop. *)
Definition cuda_handle (m : Msg) : CW unit :=
  match m_type m with
  | MsgType.GRANT =>
      g ← lift (parse_all deserialize_grant (m_payload m));
      if executes g then
        cuda_printf [Text "[cuda_worker] executing grant for collective "%string; Num (id_value (g_collective g));
          Text " on worker "%string; Num worker; Text " boot "%string; Num boot];;
        res ← workload;
        cuda_printf [Text "[cuda_worker] parity="%string; Text (if parity_ok res then "OK"%string else "BAD"%string);
          Text " device_count="%string; Num (device_count res); Text " cc="%string; Num (cc_major res);
          Text "."%string; Num (cc_minor res)];;
        at_worker (send MsgType.COMPLETE (add64 (m_seq m) 1) (serialize_grant g ++ w_u64 boot ++ w_u64 100))
      else mret tt
  | MsgType.SHUTDOWN => at_worker (fun w => (Ok tt, w <| wk_quit := true |>))
  | _ => mret tt
  end.
Definition cuda_quit (w : CudaWorker) : bool := wk_quit (cw_worker w).
(** [main] after the connection. *)
Definition cuda_main (chunks : list (list Z)) : CW unit :=
  at_worker (startup worker boot participants);;
  receive cuda_quit cuda_handle [] chunks;;
  at_worker (send MsgType.SHUTDOWN 999 []).

(** ** What it sends and runs *)

(** The grants received, with their sequence numbers. *)
Definition grant_msgs (gs : list (Z * CollectiveGrant)) : list Msg :=
  (fun sg => mkMsg MsgType.GRANT sg.1 (serialize_grant sg.2)) <$> gs.
Definition own (gs : list (Z * CollectiveGrant)) : list (Z * CollectiveGrant) :=
  List.filter (fun sg => executes sg.2) gs.
Definition completions (gs : list (Z * CollectiveGrant)) : list Msg :=
  (fun sg => mkMsg MsgType.COMPLETE (add64 sg.1 1) (complete_payload sg.2 (mkId boot) (mkId 100))) <$> own gs.
Definition cuda_conversation (gs : list (Z * CollectiveGrant)) : list Msg :=
  greeting worker boot participants ++ completions gs ++ [mkMsg MsgType.SHUTDOWN 999 []].
Definition worked (d : D) : D := (run_cuda_work boot (Z.shiftl 1 20) d).2.

Lemma cuda_handle_grant seq g w : fits CollectiveGrant_ok serialize_grant g ->
  let '(x, w') := cuda_handle (mkMsg MsgType.GRANT seq (serialize_grant g)) w in
  x = Ok tt /\ cw_worker w' = says (cw_worker w) (completions [(seq, g)]) /\
  cw_device w' = Nat.iter (length (own [(seq, g)])) worked (cw_device w).
Proof.
  intros Hg. unfold cuda_handle. cbn [m_type m_payload m_seq].
  rewrite bind_lift, (parse_fits CollectiveGrant_ok serialize_grant deserialize_grant g Hg).
  unfold completions, own. cbn [List.filter snd]. destruct (executes g).
  - unfold workload, worked, mbind, M_bind, cuda_printf. cbn [cw_device set fmap list_fmap length Nat.iter fst snd].
    destruct w as [[q sent] d out]. cbn [cw_device cw_worker set].
    destruct (run_cuda_work boot (Z.shiftl 1 20) d) as [res d'] eqn:E.
    split_and!; [reflexivity..|]. cbn. by rewrite E.
  - split; [done|]. split; [|done]. destruct (cw_worker w) as [q sent]. unfold says, set. cbn. by rewrite app_nil_r.
Qed.
Lemma own_cons sg gs : own (sg :: gs) = own [sg] ++ own gs.
Proof. unfold own. cbn [List.filter]. by destruct (executes _). Qed.
Lemma cuda_handle_grants gs w : Forall (fun sg => fits CollectiveGrant_ok serialize_grant sg.2) gs ->
  wk_quit (cw_worker w) = false ->
  keeps_on cuda_quit cuda_handle (grant_msgs gs) w /\
  exists w', mfor cuda_handle (grant_msgs gs) w = (Ok tt, w') /\
    cw_worker w' = says (cw_worker w) (completions gs) /\
    cw_device w' = Nat.iter (length (own gs)) worked (cw_device w).
Proof.
  intros Hgs. revert w. induction Hgs as [|[seq g] gs Hg Hgs IH]; intros w Hq.
  - split; [done|]. exists w. split_and!; [done| |done].
    destruct (cw_worker w) as [q sent]. unfold says, set. cbn. by rewrite app_nil_r.
  - pose proof (cuda_handle_grant seq g w Hg) as H. unfold grant_msgs. cbn [fmap list_fmap fst snd mfor keeps_on].
    fold (@fmap list _ _ _ (fun sg : Z * CollectiveGrant => mkMsg MsgType.GRANT sg.1 (serialize_grant sg.2))) (grant_msgs gs).
    unfold exec. destruct (cuda_handle _ w) as [x w1] eqn:E. destruct H as (-> & Hw & Hd). cbn [snd] in *.
    destruct (IH w1) as (Hk & w' & Em & Hw' & Hd'); [by rewrite Hw|].
    split; [split; [done|exact Hk]|]. exists w'. rewrite (bind_ok _ _ _ _ _ E). split_and!; [done| |].
    + rewrite Hw', Hw, says_app. unfold completions. by rewrite (own_cons (seq, g) gs), fmap_app.
    + rewrite Hd', Hd, (own_cons (seq, g) gs), length_app, Nat.add_comm. by rewrite Nat.iter_add.
Qed.

(** ** The session with the coordinator *)

Context {W : Type} `{!Ports W}.
Variable ord : Impl -> list CollectiveRequestId.
Variable gord : Impl -> list CollectiveGrantId.
Variable persists : bool.
Abbreviation Co := (Coordinator (W := W)).

Definition all_completed (gs : list (Z * CollectiveGrant)) (c : Co) : Co :=
  foldl (fun c sg => completed sg.2 (mkId boot) (mkId 100) c) c gs.
Lemma own_fits gs : Forall (fun sg => fits CollectiveGrant_ok serialize_grant sg.2) gs ->
  Forall (fun sg => fits CollectiveGrant_ok serialize_grant sg.2) (own gs).
Proof.
  rewrite !Forall_forall. intros H sg. unfold own. rewrite list_elem_of_In, filter_In, <- list_elem_of_In.
  intros [Hin _]. by apply H.
Qed.
Lemma completions_handled fd gs (c : Co) : u64 boot ->
  Forall (fun sg => fits CollectiveGrant_ok serialize_grant sg.2) gs -> Forall msg_ok (completions gs) ->
  mfor (handle_message ord gord persists fd) (completions gs) c = (Ok tt, all_completed (own gs) c).
Proof.
  intros Hb Hgs. unfold completions. generalize (own_fits gs Hgs). clear Hgs. generalize (own gs) as l.
  intros l Hl. revert c. induction Hl as [|[seq g] l [Hg _] Hl IH]; intros c Hok; [done|].
  cbn [fmap list_fmap fst snd mfor] in *. apply Forall_cons in Hok as [(_ & _ & Hlen) Hok].
  assert (Z.of_nat (length (complete_payload g (mkId boot) (mkId 100))) < 2 ^ 63) as H63
    by (cbn [m_payload] in Hlen; unfold CS_MAX_PROTOCOL_PAYLOAD in Hlen; lia).
  rewrite (bind_ok _ _ _ _ _ (complete_delivers ord gord persists fd _ g (mkId boot) (mkId 100) c Hg Hb ltac:(done) H63)).
  by apply IH.
Qed.

(** C33: the CUDA worker over one connection.  Whatever grants reach it, cut
    anyhow, it runs the workload once for each that is not terminal and takes one
    of its participants in, and sends its greeting, one COMPLETE for each of
    those in order and SHUTDOWN: the same frames whatever the device returned, so
    a workload that failed is reported as completed.  The coordinator that
    receives those bytes, cut anyhow, has published the participants, called
    [complete] for each grant, and stopped. *)
Theorem cuda_worker_session fd gs chunks cchunks d (c : Co) :
  u64 worker -> u64 boot -> Forall u64 participants ->
  Forall (fun sg => fits CollectiveGrant_ok serialize_grant sg.2) gs ->
  Forall msg_ok (grant_msgs gs) -> Forall msg_ok (cuda_conversation gs) ->
  concat chunks = encode_all (grant_msgs gs) -> Forall (fun ch => ch <> []) chunks ->
  exists w, cuda_main chunks (mkCudaWorker (mkWorker false []) d []) = (Ok tt, w) /\
    wk_sent (cw_worker w) = encode_msg <$> cuda_conversation gs /\
    cw_device w = Nat.iter (length (own gs)) worked d /\
    (concat cchunks = concat (wk_sent (cw_worker w)) -> Forall (fun ch => ch <> []) cchunks -> co_running c = true ->
     session_loop ord gord persists fd cchunks c =
     (Ok tt, shut_down (all_completed (own gs) (published (own_participant worker boot <$> participants)
       (sends fd [encode_frame MsgType.HELLO 0 []; encode_frame MsgType.HELLO 1 []] c))))).
Proof.
  intros Hw Hb Hps Hgs Hm Hok Ec Hne.
  set (w0 := mkCudaWorker (says (mkWorker false []) (greeting worker boot participants)) d []).
  assert (at_worker (startup worker boot participants) (mkCudaWorker (mkWorker false []) d []) = (Ok tt, w0)) as E0
    by (unfold at_worker; cbn [cw_worker]; by rewrite startup_says).
  destruct (cuda_handle_grants gs w0 Hgs eq_refl) as (Hk & w1 & E1 & Hw1 & Hd1).
  exists (w1 <| cw_worker := says (cw_worker w1) [mkMsg MsgType.SHUTDOWN 999 []] |>).
  assert (says (cw_worker w1) [mkMsg MsgType.SHUTDOWN 999 []] =
    mkWorker false (encode_msg <$> cuda_conversation gs)) as Hs.
  { rewrite Hw1. unfold w0, cuda_conversation, says, set. cbn. by rewrite !fmap_app, <- app_assoc. }
  cbn [cw_worker cw_device set wk_sent]. rewrite Hs. cbn [wk_sent]. split_and!; [|done|done|].
  - unfold cuda_main. rewrite (bind_ok _ _ _ _ _ E0).
    rewrite <- (receive_any_cut cuda_quit cuda_handle (grant_msgs gs) chunks w0 Hm Hk Ec Hne) in E1.
    rewrite (bind_ok _ _ _ _ _ E1), <- Hs. reflexivity.
  - intros Ecc Hnec Hrun. unfold session_loop. unfold cuda_conversation in Hok.
    unfold cuda_conversation in Ecc. rewrite app_assoc in Hok, Ecc.
    rewrite (receive_any_cut _ _ _ cchunks c Hok); [| |by rewrite Ecc|done].
    + rewrite <- app_assoc. erewrite mfor_ok_app; [|by apply greeting_handled].
      rewrite !Forall_app in Hok. destruct Hok as [[_ Hok] _].
      erewrite mfor_ok_app; [|by apply completions_handled]. done.
    + apply keeps_on_last; [|done]. apply Forall_app_2; [by apply greeting_not_shutdown|].
      apply Forall_fmap, Forall_forall. by intros.
Qed.
End cuda_worker.
Arguments CudaWorker D : clear implicits.

(** On a device where the third allocation fails: of a live and a terminal grant
    the first is executed, reported as completed, and two buffers are left. *)
Example cuda_worker_session_witness :
  let gs := [(9, wire_grant); (10, wire_grant <| g_terminal := true |>)] in
  exists w, cuda_main 7 70 [1; 2] [encode_all (grant_msgs gs)] (mkCudaWorker (mkWorker false []) (mkSampleDevice ∅ 2) []) =
    (Ok tt, w) /\ length (wk_sent (cw_worker w)) = 6%nat /\ base.size (sd_allocated (cw_device w)) = 2%nat.
Proof.
  intros gs.
  assert (fits CollectiveGrant_ok serialize_grant wire_grant) as Hg by (split; [concrete_ok|by vm_compute]).
  assert (fits CollectiveGrant_ok serialize_grant (wire_grant <| g_terminal := true |>)) as Ht
    by (split; [concrete_ok|by vm_compute]).
  destruct (cuda_worker_session 7 70 [1; 2] record_order grant_order false 3 gs [encode_all (grant_msgs gs)] []
    (mkSampleDevice ∅ 2) sample_coordinator) as (w & E & Hs & Hd & _).
  - by vm_compute.
  - by vm_compute.
  - by repeat constructor.
  - constructor; [exact Hg|]. constructor; [exact Ht|]. constructor.
  - apply msgs_okb_ok. by vm_compute.
  - apply msgs_okb_ok. by vm_compute.
  - cbn [concat]. apply app_nil_r.
  - repeat constructor. by vm_compute.
  - exists w. split; [exact E|]. split; [rewrite Hs; vm_compute; reflexivity|].
    rewrite Hd. vm_compute. reflexivity.
Defined.
