(* ===== verification/CommandLine.v ===== *)
(** * CommandLine: the arguments of the executables (coordinator_main.cpp, worker.cpp, cuda_worker.cpp)

    The three programs read their options by the same loop over [argv] and with
    [atoi], [atoll] and [strtoull], which are defined here as the C standard has
    them; a result the standard leaves undefined is [None].  [to_string] is
    [std::to_string], with which the programs that start others print numbers. *)
From S2P Require Import Prelude Enums Identity Error Float64 Domain Lifecycle Conflict Codec Serialize.
From S2P Require Import Protocol State Eligibility Ranking Schedule Ports Operations Persistence Coordinator Worker Server.
From Stdlib Require Import Ascii.

(** ** Numbers in decimal *)

Definition is_space (c : ascii) : bool := let n := Z.of_N (N_of_ascii c) in (n =? 32) || ((9 <=? n) && (n <=? 13)).
Definition digit (c : ascii) : option Z :=
  let n := Z.of_N (N_of_ascii c) - 48 in if (0 <=? n) && (n <=? 9) then Some n else None.
Fixpoint magnitude (s : string) (acc : Z) : Z :=
  match s with
  | String c s' => match digit c with Some d => magnitude s' (10 * acc + d) | None => acc end
  | EmptyString => acc
  end.
Fixpoint skip_spaces (s : string) : string :=
  match s with
  | String c s' => if is_space c then skip_spaces s' else s
  | EmptyString => EmptyString
  end.
(** The sign and the magnitude of the number a string begins with. *)
Definition signed (s : string) : bool * Z :=
  match skip_spaces s with
  | String "-" s' => (true, magnitude s' 0)
  | String "+" s' => (false, magnitude s' 0)
  | s' => (false, magnitude s' 0)
  end.
Definition strtoull (s : string) : Z :=
  let '(neg, n) := signed s in
  if n <=? U64_MAX then (if neg then wrap64 (- n) else n) else U64_MAX.
Definition ato (bits : Z) (s : string) : option Z :=
  let '(neg, n) := signed s in
  let v := if neg then - n else n in
  if (- 2 ^ (bits - 1) <=? v) && (v <? 2 ^ (bits - 1)) then Some v else None.
Definition atoi : string -> option Z := ato 32.
Definition atoll : string -> option Z := ato 64.

(** ** The loop over [argv] *)

(** What an option does with its value; [None] is not an option.  The option
    itself does nothing when no argument follows it. *)
Fixpoint read_args {O} (table : string -> option (string -> O -> option O)) (args : list string) (o : O) : option O :=
  match args with
  | [] => Some o
  | a :: rest =>
      match table a, rest with
      | Some set_option, v :: rest' => o' ← set_option v o; read_args table rest' o'
      | _, _ => read_args table rest o
      end
  end.

(** [Coordinator::Options] and [main] of coordinator_main.cpp. *)
Record CoordinatorOptions : Set := mkCoordinatorOptions {
  op_port : Z;
  op_persist_file : string;
  op_epoch : CoordinatorEpoch;
}.
#[export] Instance CoordinatorOptions_eta : Eta CoordinatorOptions := fun o =>
  mkCoordinatorOptions (op_port o) (op_persist_file o) (op_epoch o).
Definition CoordinatorOptions_default : CoordinatorOptions := mkCoordinatorOptions 0 "" (mkGen 1).
Definition coordinator_option (a : string) : option (string -> CoordinatorOptions -> option CoordinatorOptions) :=
  if (a =? "--port")%string then Some (fun v o => n ← atoi v; Some (o <| op_port := n |>))
  else if (a =? "--persist")%string then Some (fun v o => Some (o <| op_persist_file := v |>))
  else if (a =? "--epoch")%string then Some (fun v o => n ← atoll v; Some (o <| op_epoch := mkGen (wrap64 n) |>))
  else None.
Definition coordinator_args (args : list string) : option CoordinatorOptions :=
  read_args coordinator_option args CoordinatorOptions_default.
(** [opts_.persist_file] is not empty. *)
Definition persisting (o : CoordinatorOptions) : bool := negb (op_persist_file o =? "")%string.
(** The port [run] binds to: [static_cast<unsigned short>]. *)
Definition bound_port (o : CoordinatorOptions) : Z := op_port o mod 2 ^ 16.

(** The options of the workers. *)
Record WorkerOptions : Set := mkWorkerOptions {
  op_worker_port : Z;
  op_worker : Z;
  op_boot : Z;
  op_participants : list Z;
}.
#[export] Instance WorkerOptions_eta : Eta WorkerOptions := fun o =>
  mkWorkerOptions (op_worker_port o) (op_worker o) (op_boot o) (op_participants o).
Definition WorkerOptions_default : WorkerOptions := mkWorkerOptions 0 0 0 [].
Definition worker_option (a : string) : option (string -> WorkerOptions -> option WorkerOptions) :=
  if (a =? "--port")%string then Some (fun v o => n ← atoi v; Some (o <| op_worker_port := n |>))
  else if (a =? "--worker")%string then Some (fun v o => Some (o <| op_worker := strtoull v |>))
  else if (a =? "--boot")%string then Some (fun v o => Some (o <| op_boot := strtoull v |>))
  else if (a =? "--participant")%string then Some (fun v o => Some (o <| op_participants ::= fun l => l ++ [strtoull v] |>))
  else None.
Definition worker_args (args : list string) : option WorkerOptions :=
  read_args worker_option args WorkerOptions_default.

(** ** From the arguments to the loops *)

(** What the socket calls before the loops return: [WSAStartup] (on Windows),
    [socket], [bind] and [connect] by port, [listen]. *)
Record Network : Type := mkNetwork {
  net_init : bool;
  net_socket : bool;
  net_bind : Z -> bool;
  net_listen : bool;
  net_connect : Z -> bool;
}.
Section launch.
Context {W : Type} `{!Ports W}.
Abbreviation Co := (Coordinator (W := W)).
(** [Coordinator::run] up to the accept loop: an exit code or the loop's state. *)
Definition run_coordinator (net : Network) (o : CoordinatorOptions) (c : Co) : Z + Server (W := W) :=
  if negb (net_init net) then inl 1
  else if negb (net_socket net) then inl 1
  else if negb (net_bind net (bound_port o)) then inl 1
  else if negb (net_listen net) then inl 1
  else inr (started (exec (Coordinator.startup (persisting o) (op_epoch o)) c)).
Definition coordinator_main (net : Network) (args : list string) (c : Co) : option (Z + Server (W := W)) :=
  o ← coordinator_args args; Some (run_coordinator net o c).
(** [main] of worker.cpp: an exit code, or an exception, and what was sent; the
    result of [socket] is not looked at. *)
Definition worker_main (net : Network) (args : list string) (chunks : list (list Z)) : option (res Z * list (list Z)) :=
  o ← worker_args args;
  Some (if negb (net_init net) then (Ok 1, [])
        else if negb (net_connect net (op_worker_port o mod 2 ^ 16)) then (Ok 2, [])
        else let '(x, w) := Worker.main (op_worker o) (op_boot o) (op_participants o) chunks (mkWorker false []) in
             (match x with Ok _ => Ok 0 | Throw e => Throw e end, wk_sent w)).
End launch.

(** ** Printing *)

(** [std::to_string] of an unsigned number. *)
Definition digit_char (d : Z) : ascii := ascii_of_N (Z.to_N (48 + d)).
Fixpoint to_digits (fuel : nat) (n : Z) (acc : string) : string :=
  match fuel with
  | O => acc
  | S fuel =>
      let acc := String (digit_char (n mod 10)) acc in
      if n <? 10 then acc else to_digits fuel (n / 10) acc
  end.
Definition to_string (n : Z) : string := to_digits 20 n "".

Lemma digit_char_digit d : 0 <= d < 10 -> digit (digit_char d) = Some d.
Proof.
  intros Hd. assert (d ∈ seqZ 0 10) as Hin by (apply elem_of_seqZ; lia).
  assert (Forall (fun d => digit (digit_char d) = Some d) (seqZ 0 10)) as H by (repeat constructor).
  rewrite Forall_forall in H. by apply H.
Qed.
Lemma mod10 n : 0 <= n mod 10 < 10.
Proof. apply Z.mod_pos_bound. lia. Qed.
Lemma to_digits_magnitude fuel n acc : 0 <= n < 10 ^ Z.of_nat fuel -> magnitude (to_digits fuel n acc) 0 = magnitude acc n.
Proof.
  revert n acc. induction fuel as [|fuel IH]; intros n acc Hn.
  - assert (n = 0) as -> by (cbn in Hn; lia). done.
  - rewrite Nat2Z.inj_succ, Z.pow_succ_r in Hn by lia. cbn [to_digits]. cbv zeta.
    destruct (Z.ltb_spec n 10).
    + cbn [magnitude]. rewrite digit_char_digit by apply mod10. f_equal. rewrite Z.mod_small; lia.
    + rewrite IH.
      * cbn [magnitude]. rewrite digit_char_digit by apply mod10. f_equal. symmetry. apply Z.div_mod. lia.
      * split; [apply Z.div_pos; lia|]. apply Z.div_lt_upper_bound; lia.
Qed.
(** A printed number begins with a digit. *)
Lemma to_digits_head fuel n acc : exists d s, 0 <= d < 10 /\ to_digits (S fuel) n acc = String (digit_char d) s.
Proof.
  revert n acc. induction fuel as [|fuel IH]; intros n acc.
  - exists (n mod 10), acc. split; [apply mod10|]. cbn. by destruct (n <? 10).
  - cbn [to_digits]. cbv zeta. destruct (n <? 10); [|apply IH]. eexists _, _. split; [apply (mod10 n)|done].
Qed.
Lemma signed_digit d s : 0 <= d < 10 -> signed (String (digit_char d) s) = (false, magnitude (String (digit_char d) s) 0).
Proof.
  intros Hd. assert (d ∈ seqZ 0 10) as Hin by (apply elem_of_seqZ; lia).
  assert (Forall (fun d => forall s, signed (String (digit_char d) s) = (false, magnitude (String (digit_char d) s) 0))
    (seqZ 0 10)) as H by (repeat constructor).
  rewrite Forall_forall in H. by apply H.
Qed.
Lemma to_string_signed n : u64 n -> signed (to_string n) = (false, n).
Proof.
  intros Hn. unfold to_string. pose proof (to_digits_magnitude 20 n "") as Hm.
  destruct (to_digits_head 19 n "") as (d & s & Hd & E). rewrite E in *. rewrite signed_digit by done.
  rewrite Hm by (unfold u64 in Hn; lia). done.
Qed.
Lemma strtoull_to_string n : u64 n -> strtoull (to_string n) = n.
Proof. intros Hn. unfold strtoull. rewrite to_string_signed by done. unfold U64_MAX, u64 in *. destruct (Z.leb_spec n (2 ^ 64 - 1)); lia. Qed.
Lemma ato_to_string bits n : 1 <= bits <= 65 -> 0 <= n < 2 ^ (bits - 1) -> ato bits (to_string n) = Some n.
Proof.
  intros Hb Hn. assert (2 ^ (bits - 1) <= 2 ^ 64) by (apply Z.pow_le_mono_r; lia).
  unfold ato. rewrite to_string_signed by (unfold u64; lia).
  destruct (Z.leb_spec (- 2 ^ (bits - 1)) n), (Z.ltb_spec n (2 ^ (bits - 1))); by try lia.
Qed.

(** ** Arguments and options *)

(** An argument that names no option, or an option with the value it sets. *)
Inductive argument (O : Type) : Type :=
  | Word (a : string)
  | Setting (a v : string) (set_option : O -> O).
Arguments Word {O}. Arguments Setting {O}.
Definition words {O} (x : argument O) : list string :=
  match x with Word a => [a] | Setting a v _ => [a; v] end.
Definition put {O} (o : O) (x : argument O) : O := match x with Word _ => o | Setting _ _ f => f o end.
Definition reads_as {O} (table : string -> option (string -> O -> option O)) (x : argument O) : Prop :=
  match x with
  | Word a => table a = None
  | Setting a v f => exists g, table a = Some g /\ forall o, g v o = Some (f o)
  end.
Lemma read_args_settings {O} table (l : list (argument O)) last o : Forall (reads_as table) l ->
  read_args table (flat_map words l) o = Some (foldl put o l) /\
  read_args table (flat_map words l ++ [last]) o = Some (foldl put o l).
Proof.
  intros Hl. revert o. induction Hl as [|x l Hx Hl IH]; intros o.
  - split; [done|]. cbn. by destruct (table last).
  - destruct x as [a|a v f].
    + change (flat_map words (Word a :: l)) with (a :: flat_map words l). cbn [read_args app foldl put reads_as] in *.
      rewrite Hx. apply IH.
    + change (flat_map words (Setting a v f :: l)) with (a :: v :: flat_map words l).
      cbn [read_args app foldl put reads_as] in *. destruct Hx as (g & -> & Hg). cbn [read_args]. rewrite Hg. apply IH.
Qed.

(** The options of the programs, printed. *)
Definition set_port (n : Z) : argument CoordinatorOptions :=
  Setting "--port" (to_string n) (fun o => o <| op_port := n |>).
Definition set_persist (file : string) : argument CoordinatorOptions :=
  Setting "--persist" file (fun o => o <| op_persist_file := file |>).
Definition set_epoch (n : Z) : argument CoordinatorOptions :=
  Setting "--epoch" (to_string n) (fun o => o <| op_epoch := mkGen n |>).
Definition set_worker_port (n : Z) : argument WorkerOptions :=
  Setting "--port" (to_string n) (fun o => o <| op_worker_port := n |>).
Definition set_worker (n : Z) : argument WorkerOptions :=
  Setting "--worker" (to_string n) (fun o => o <| op_worker := n |>).
Definition set_boot (n : Z) : argument WorkerOptions :=
  Setting "--boot" (to_string n) (fun o => o <| op_boot := n |>).
Definition add_participant (n : Z) : argument WorkerOptions :=
  Setting "--participant" (to_string n) (fun o => o <| op_participants ::= fun l => l ++ [n] |>).
(** The arguments that are read back. *)
Inductive coordinator_argument : argument CoordinatorOptions -> Prop :=
  | ca_port n : 0 <= n < 2 ^ 31 -> coordinator_argument (set_port n)
  | ca_persist file : coordinator_argument (set_persist file)
  | ca_epoch n : 0 <= n < 2 ^ 63 -> coordinator_argument (set_epoch n)
  | ca_word a : coordinator_option a = None -> coordinator_argument (Word a).
Inductive worker_argument : argument WorkerOptions -> Prop :=
  | wa_port n : 0 <= n < 2 ^ 31 -> worker_argument (set_worker_port n)
  | wa_worker n : u64 n -> worker_argument (set_worker n)
  | wa_boot n : u64 n -> worker_argument (set_boot n)
  | wa_participant n : u64 n -> worker_argument (add_participant n)
  | wa_word a : worker_option a = None -> worker_argument (Word a).
Lemma coordinator_argument_reads x : coordinator_argument x -> reads_as coordinator_option x.
Proof.
  intros [n Hn|file|n Hn|a Ha]; [| | |done]; eexists; (split; [reflexivity|]); intros o; [|done|].
  - cbv beta. unfold atoi. by rewrite ato_to_string by lia.
  - cbv beta. unfold atoll. rewrite ato_to_string by lia. cbn. by rewrite wrap64_small by (unfold u64; lia).
Qed.
Lemma worker_argument_reads x : worker_argument x -> reads_as worker_option x.
Proof.
  intros [n Hn|n Hn|n Hn|n Hn|a Ha]; [| | | |done]; eexists; (split; [reflexivity|]); intros o.
  2-4: cbv beta; by rewrite strtoull_to_string.
  cbv beta. unfold atoi. by rewrite ato_to_string by lia.
Qed.

(** The executables read back the options they are started with: from any
    sequence of options with printed numbers and of words that are no options,
    each option is set to its value, the last one where it is repeated, the
    participants in order; an option without a value at the end changes nothing. *)
Theorem arguments_read_back cl wl last : Forall coordinator_argument cl -> Forall worker_argument wl ->
  coordinator_args (flat_map words cl) = Some (foldl put CoordinatorOptions_default cl) /\
  coordinator_args (flat_map words cl ++ [last]) = Some (foldl put CoordinatorOptions_default cl) /\
  worker_args (flat_map words wl) = Some (foldl put WorkerOptions_default wl) /\
  worker_args (flat_map words wl ++ [last]) = Some (foldl put WorkerOptions_default wl).
Proof.
  intros Hc Hw. unfold coordinator_args, worker_args.
  destruct (read_args_settings coordinator_option cl last CoordinatorOptions_default) as [? ?];
    [by eapply Forall_impl; [exact Hc|apply coordinator_argument_reads]|].
  destruct (read_args_settings worker_option wl last WorkerOptions_default) as [? ?];
    [by eapply Forall_impl; [exact Hw|apply worker_argument_reads]|]. done.
Qed.
(** The command line with which integrated_cuda_proof.cpp starts its workers. *)
Example arguments_read_back_witness :
  worker_args (flat_map words [set_worker_port 7001; set_worker 1; set_boot 11; add_participant 1; add_participant 2]) =
  Some (mkWorkerOptions 7001 1 11 [1; 2]).
Proof.
  apply (arguments_read_back [] [set_worker_port 7001; set_worker 1; set_boot 11; add_participant 1; add_participant 2] "").
  - constructor.
  - repeat constructor; (unfold u64; lia).
Defined.

(** What is not a printed number in range: a minus sign wraps, a large value
    saturates or is undefined, letters end the number. *)
Example strtoull_odd : strtoull " -1" = U64_MAX /\ strtoull "18446744073709551616" = U64_MAX /\ strtoull "12ab" = 12 /\
  strtoull "ab" = 0 /\ atoi "2147483648" = None /\ atoll "-1" = Some (-1).
Proof. by vm_compute. Qed.
(** A port of more than 16 bits names another port; a negative epoch the largest. *)
Example coordinator_args_odd : coordinator_args ["--port"; "70000"; "--epoch"; "-1"; "--persist"]%string =
    Some (mkCoordinatorOptions 70000 "" (mkGen U64_MAX)) /\
  bound_port (mkCoordinatorOptions 70000 "" (mkGen U64_MAX)) = 4464.
Proof. by vm_compute. Qed.

Lemma add_participants port worker boot l pids :
  foldl put (mkWorkerOptions port worker boot l) (add_participant <$> pids) = mkWorkerOptions port worker boot (l ++ pids).
Proof.
  revert l. induction pids as [|pid pids IH]; intros l; [by rewrite app_nil_r|].
  change (foldl put (mkWorkerOptions port worker boot (l ++ [pid])) (add_participant <$> pids) =
    mkWorkerOptions port worker boot (l ++ pid :: pids)). by rewrite IH, <- app_assoc.
Qed.
(** A coordinator and a worker started with the same printed port meet: when the
    sockets work there, the coordinator is at its accept loop with the epoch and
    file it was told, and the worker plays its session as [Worker.main] says. *)
Lemma started_processes {W : Type} `{!Ports W} port worker boot pids file epoch net chunks (c : Coordinator (W := W)) :
  0 <= port < 2 ^ 16 -> u64 worker -> u64 boot -> Forall u64 pids -> 0 <= epoch < 2 ^ 63 ->
  net_init net && net_socket net && net_bind net port && net_listen net && net_connect net port = true ->
  let '(x, w) := Worker.main worker boot pids chunks (mkWorker false []) in
  coordinator_main net (flat_map words [set_port port; set_persist file; set_epoch epoch]) c =
    Some (inr (started (exec (Coordinator.startup (negb (file =? "")%string) (mkGen epoch)) c))) /\
  worker_main net (flat_map words ([set_worker_port port; set_worker worker; set_boot boot] ++ (add_participant <$> pids))) chunks =
    Some (match x with Ok _ => Ok 0 | Throw e => Throw e end, wk_sent w).
Proof.
  intros Hport Hw Hb Hps He Hnet. repeat (apply andb_true_iff in Hnet as [Hnet ?]).
  destruct (Worker.main worker boot pids chunks (mkWorker false [])) as [x w] eqn:Ew.
  destruct (read_args_settings coordinator_option [set_port port; set_persist file; set_epoch epoch] "" CoordinatorOptions_default)
    as [Ec _].
  { repeat constructor; apply coordinator_argument_reads; constructor; lia. }
  destruct (read_args_settings worker_option ([set_worker_port port; set_worker worker; set_boot boot] ++ (add_participant <$> pids))
    "" WorkerOptions_default) as [Ea _].
  { apply Forall_app_2; [repeat constructor; apply worker_argument_reads; constructor; (done || lia)|].
    apply Forall_fmap. eapply Forall_impl; [exact Hps|]. intros pid Hp. by apply worker_argument_reads; constructor. }
  unfold coordinator_main, worker_main, coordinator_args, worker_args. rewrite Ec, Ea. cbn [mbind option_bind].
  assert (foldl put WorkerOptions_default ([set_worker_port port; set_worker worker; set_boot boot] ++ (add_participant <$> pids)) =
    mkWorkerOptions port worker boot pids) as -> by (rewrite foldl_app; apply add_participants).
  unfold run_coordinator, bound_port, persisting. cbn [foldl put set_port set_persist set_epoch op_port op_persist_file op_epoch
    op_worker_port op_worker op_boot op_participants set CoordinatorOptions_default].
  rewrite Z.mod_small by lia. rewrite Ew. split.
  - by repeat match goal with H : ?x = true |- _ => rewrite H; clear H end.
  - by repeat match goal with H : ?x = true |- _ => rewrite H; clear H end.
Qed.
