(* ===== verification/IntegratedProof.v ===== *)
(** * IntegratedProof: the driver of the worker-death scenario (integrated_cuda_proof.cpp)

    [integrated_main] starts a coordinator and CUDA workers, talks to the
    coordinator as one more client, kills a worker, starts it again with a new
    boot, sends a stale completion and restarts the coordinator.  Processes,
    sockets and time are the class [Lab]; [Testbed] is an instance made of the
    models of the coordinator and of the CUDA worker.  This is the Windows branch
    of the source: on other systems no process is started. *)
From S2P Require Import Prelude Enums Identity Error Float64 Domain Lifecycle Conflict Codec Serialize.
From S2P Require Import Protocol State Eligibility Ranking Schedule Ports Operations Persistence Coordinator Worker.
From S2P Require Import CudaExecutor Programs CudaWorker CommandLine.

(** What the driver asks of the system.  A process is named by the variable that
    holds it, a socket by its client. *)
Class Lab (E : Type) := {
  free_port : E -> Z * E;
  start_process : Z -> string -> string -> string -> E -> bool * E;  (* executable, arguments, directory *)
  kill_process : Z -> E -> E;
  alive : Z -> E -> bool;
  connect_to : Z -> Z -> E -> bool * E;
  send_bytes : Z -> list Z -> E -> E;
  recv_for : Z -> Z -> E -> list (list Z) * E;   (* the chunks [recv] returns within the time *)
  sleep_for : Z -> E -> E;
}.
Definition COORDINATOR : Z := 0.
Definition WORKER_A : Z := 1.
Definition WORKER_A2 : Z := 2.
Definition COORDINATOR2 : Z := 3.
Definition CTL : Z := 0.
Definition CTL2 : Z := 1.

(** The loop of [Client::recv_msgs]: a chunk after which [decode_frames] fails
    adds no message. *)
Fixpoint collect_msgs (buf : list Z) (out : list Msg) (chunks : list (list Z)) : list Msg :=
  match chunks with
  | [] => out
  | chunk :: chunks' =>
      match decode_frames (buf ++ chunk) [] with
      | (true, buf', ms) => collect_msgs buf' (out ++ ms) chunks'
      | (false, buf', _) => collect_msgs buf' out chunks'
      end
  end.

Section driver.
Context {E : Type} `{!Lab E}.
Abbreviation PM := (M stop (Prog E)).

Definition starts (who : Z) (exe args cwd : string) : PM bool := on_device (start_process who exe args cwd).
Definition act (f : E -> E) : PM unit := on_device (fun e => (tt, f e)).
Definition sleep (ms : Z) : PM unit := act (sleep_for ms).
Definition send_to (client : Z) (type : MsgType.t) (seq : Z) (payload : list Z) : PM unit :=
  act (send_bytes client (encode_frame type seq payload)).
Definition recv_msgs (client ms : Z) : PM (list Msg) := on_device (fun e =>
  let '(chunks, e) := recv_for client ms e in (collect_msgs [] [] chunks, e)).
(** A reader over the payload, outside any [try]. *)
Definition read_payload {A} (rd : R A) (payload : list Z) : PM A :=
  let len := Z.of_nat (length payload) in
  match eval rd (make_reader payload len len) with
  | Ok a => mret a
  | Throw e => throw (Thrown e)
  end.
(** The loops over the messages received: the last grant of the collective, and
    the rejections of the last summary. *)
Fixpoint find_grant (c : Z) (ms : list Msg) (found : option CollectiveGrant) : PM (option CollectiveGrant) :=
  match ms with
  | [] => mret found
  | m :: ms' =>
      match m_type m with
      | MsgType.GRANT =>
          g ← read_payload deserialize_grant (m_payload m);
          find_grant c ms' (if id_value (g_collective g) =? c then Some g else found)
      | _ => find_grant c ms' found
      end
  end.
Fixpoint find_stale (ms : list Msg) (stale : Z) : PM Z :=
  match ms with
  | [] => mret stale
  | m :: ms' =>
      match m_type m, m_payload m with
      | MsgType.HELLO, _ :: _ =>
          n ← read_payload (_ ← r_u64; _ ← r_u64; r_u64) (m_payload m); find_stale ms' n
      | _, _ => find_stale ms' stale
      end
  end.
Definition submit_collective (c : Z) : PM unit :=
  send_to CTL MsgType.SUBMIT_COLLECTIVE (10 + c) (serialize_request (mk_request c [1; 2] 1)).

Definition worker_command (port : Z) (boot : string) : string :=
  "--port " ++ to_string port ++ " --worker 1 --boot " ++ boot ++ " --participant 1 --participant 2".
Definition coordinator_command (port : Z) (persist epoch : string) : string :=
  "--port " ++ to_string port ++ " --persist " ++ persist ++ " --epoch " ++ epoch.

(** [main] after [WSAStartup]; [exe_dir] is its argument. *)
Definition integrated_main (exe_dir : string) : PM Z :=
  port ← on_device free_port;
  let persist := ("cs_cuda_proof_" ++ to_string port ++ ".cspersist")%string in
  let coord := (exe_dir ++ "\cs_coordinator.exe")%string in
  let cuda_worker := (exe_dir ++ "\cuda\cuda_worker.exe")%string in
  up ← starts COORDINATOR coord (coordinator_command port persist "1") exe_dir;
  report up "coordinator started";;
  sleep 300;;
  up ← starts WORKER_A cuda_worker (worker_command port "11") exe_dir;
  report up "CUDA worker A started";;
  sleep 700;;
  connected ← on_device (connect_to CTL port);
  report connected "controller connected";;
  send_to CTL MsgType.HELLO 0 [];;
  sleep 100;;
  send_to CTL MsgType.UPDATE_PLAN 1 (serialize_plan (mk_plan 1 [1; 2]));;
  sleep 100;;
  submit_collective 1;;
  sleep 200;;
  send_to CTL MsgType.QUERY_SCHEDULE 100 [];;
  msgs1 ← recv_msgs CTL 1500;
  c1 ← find_grant 1 msgs1 None;
  let c1_grant := default CollectiveGrant_default c1 in
  report (bool_decide (is_Some c1)) "C1 granted to CUDA worker A";;
  sleep 400;;
  act (kill_process WORKER_A);;
  p ← get_state;
  report (negb (alive WORKER_A (pr_device p))) "CUDA worker A terminated as a real OS process";;
  send_to CTL MsgType.FENCE_WORKER 200 (w_u64 1 ++ w_u64 11);;
  up ← starts WORKER_A2 cuda_worker (worker_command port "12") exe_dir;
  report up "CUDA worker A' reincarnated with fresh boot";;
  sleep 700;;
  submit_collective 2;;
  sleep 100;;
  send_to CTL MsgType.QUERY_SCHEDULE 300 [];;
  msgs2 ← recv_msgs CTL 1500;
  c2 ← find_grant 2 msgs2 None;
  report (bool_decide (is_Some c2)) "fresh schedule granted C2 to A' after reincarnation";;
  sleep 500;;
  send_to CTL MsgType.COMPLETE 305 (serialize_grant c1_grant ++ w_u64 11 ++ w_u64 100);;
  sleep 100;;
  send_to CTL MsgType.QUERY_SCHEDULE 310 [];;
  msgs3 ← recv_msgs CTL 900;
  stale ← find_stale msgs3 0;
  report (0 <? stale) "stale completion from fenced CUDA worker boot was rejected";;
  send_to CTL MsgType.SAVE 400 [];; sleep 200;;
  act (kill_process COORDINATOR);; sleep 200;;
  up ← starts COORDINATOR2 coord (coordinator_command port persist "2") exe_dir;
  report up "coordinator restarted with advanced epoch";;
  sleep 400;;
  connected ← on_device (connect_to CTL2 port);
  report connected "controller reconnected after restart";;
  send_to CTL2 MsgType.QUERY_SCHEDULE 500 [];;
  _ ← recv_msgs CTL2 1500;
  report true "epoch-advanced CUDA coordinator served a fresh schedule query";;
  send_to CTL MsgType.SHUTDOWN 999 [];;
  sleep 200;;
  act (kill_process COORDINATOR2);; act (kill_process WORKER_A2);;
  p ← get_state;
  printf [Text "integrated CUDA worker-death proof "%string; Text (if pr_fail p =? 0 then "PASSED"%string else "FAILED"%string)];;
  mret (if pr_fail p =? 0 then 0 else 1).
End driver.

(** ** A testbed *)

(** One coordinator at a time, the live workers and the clients' unread bytes.
    Every message is handled at once: the sleeps are long enough.  [room] is the
    number of allocations the device of a worker serves. *)
Abbreviation Co := (Coordinator (W := RecordingCollectiveFabric)).
Record LabWorker : Type := mkLabWorker {
  lw_who : Z;
  lw_fd : Z;
  lw_options : WorkerOptions;
  lw_state : CudaWorker SampleDevice;
}.
#[export] Instance LabWorker_eta : Eta LabWorker := fun w =>
  mkLabWorker (lw_who w) (lw_fd w) (lw_options w) (lw_state w).
Record Testbed : Type := mkTestbed {
  tb_room : nat;
  tb_co : option (Z * CoordinatorOptions * Co);
  tb_file : option (list Z);
  tb_workers : list LabWorker;
  tb_clients : list (Z * Z);          (* client, socket *)
  tb_inbox : gmap Z (list (list Z));  (* by socket *)
  tb_next_fd : Z;
  tb_past : list Co;                  (* the coordinators that were killed *)
  tb_past_workers : list LabWorker;   (* and the workers *)
}.
#[export] Instance Testbed_eta : Eta Testbed := fun t =>
  mkTestbed (tb_room t) (tb_co t) (tb_file t) (tb_workers t) (tb_clients t) (tb_inbox t) (tb_next_fd t)
    (tb_past t) (tb_past_workers t).
Definition testbed (room : nat) : Testbed := mkTestbed room None None [] [] ∅ 1 [] [].

(** A worker reads a frame; what it sends goes to the coordinator. *)
Definition worker_reads (frame : list Z) (w : LabWorker) : LabWorker * list (list Z) :=
  let o := lw_options w in
  let st := exec (receive cuda_quit (cuda_handle (op_worker o) (op_boot o) (op_participants o)) [] [frame])
              (lw_state w <| cw_worker ::= fun k => k <| wk_sent := [] |> |>) in
  (w <| lw_state := st |>, wk_sent (cw_worker st)).
Definition deliver_worker (fd : Z) (frame : list Z) (ws : list LabWorker) : list LabWorker * list (Z * list Z) :=
  foldr (fun w acc => if lw_fd w =? fd then let '(w', sent) := worker_reads frame w in
                        (w' :: acc.1, ((fun f => (fd, f)) <$> sent) ++ acc.2)
                      else (w :: acc.1, acc.2)) ([], []) ws.
(** A frame arrives at the coordinator, and everything that follows from it. *)
Fixpoint arrive (fuel : nat) (fd : Z) (frame : list Z) (t : Testbed) : Testbed :=
  match fuel, tb_co t with
  | S fuel, Some (who, o, c) =>
      let c := exec (session_loop record_order grant_order (persisting o) fd [frame]) c in
      let sent := co_sent c in
      let t := t <| tb_co := Some (who, o, c <| co_sent := [] |>) |> in
      foldl (fun t ff =>
        let t := t <| tb_inbox ::= fun i => <[ff.1 := default [] (i !! ff.1) ++ [ff.2]]> i |> in
        let '(ws, answers) := deliver_worker ff.1 ff.2 (tb_workers t) in
        foldl (fun t ff => arrive fuel ff.1 ff.2 t) (t <| tb_workers := ws |>) answers) t sent
  | _, _ => t
  end.
(** A new connection to the coordinator at the port. *)
Definition new_socket (port : Z) (t : Testbed) : option (Z * Testbed) :=
  match tb_co t with
  | Some (who, o, c) =>
      if bound_port o =? port mod 2 ^ 16 then
        let fd := tb_next_fd t in
        Some (fd, t <| tb_next_fd := fd + 1 |> <| tb_co := Some (who, o, c <| co_sessions ::= fun l => l ++ [fd] |>) |>)
      else None
  | None => None
  end.

Definition start_coordinator (who : Z) (args : string) (t : Testbed) : bool * Testbed :=
  match coordinator_args (String.words args) with
  | Some o =>
      let c := mkCoordinator Scheduler_default fabric_default [] true 0 0 (tb_file t) [] in
      (true, t <| tb_co := Some (who, o, exec (Coordinator.startup (persisting o) (op_epoch o)) c) |>)
  | None => (false, t)
  end.
Definition start_worker (who : Z) (args : string) (t : Testbed) : bool * Testbed :=
  match worker_args (String.words args) with
  | Some o =>
      match new_socket (op_worker_port o) t with
      | Some (fd, t) =>
          let wk := exec (Worker.startup (op_worker o) (op_boot o) (op_participants o)) (mkWorker false []) in
          let w := mkLabWorker who fd o (mkCudaWorker wk (mkSampleDevice ∅ (tb_room t)) []) in
          (true, foldl (fun t frame => arrive 3 fd frame t) (t <| tb_workers ::= fun l => l ++ [w] |>) (wk_sent wk))
      | None => (true, t)    (* the process is there, and exits with 2 *)
      end
  | None => (false, t)
  end.
Definition testbed_kill (who : Z) (t : Testbed) : Testbed :=
  match tb_co t with
  | Some (who', o, c) =>
      if who' =? who then t <| tb_co := None |> <| tb_file := co_file c |> <| tb_workers := [] |> <| tb_clients := [] |>
        <| tb_past ::= fun l => l ++ [c] |> <| tb_past_workers ::= fun l => l ++ tb_workers t |>
      else match List.find (fun w => lw_who w =? who) (tb_workers t) with
      | Some w => t <| tb_workers ::= List.filter (fun w => negb (lw_who w =? who)) |>
                    <| tb_past_workers ::= fun l => l ++ [w] |>
                    <| tb_co := Some (who', o, c <| co_sessions ::= List.filter (fun fd => negb (fd =? lw_fd w)) |>) |>
      | None => t
      end
  | None => t
  end.
Definition socket_of (client : Z) (t : Testbed) : option Z := snd <$> List.find (fun cf => cf.1 =? client) (tb_clients t).
#[export] Instance testbed_lab : Lab Testbed := {
  free_port t := (7001, t);
  start_process who exe args cwd t :=
    if (who =? COORDINATOR) || (who =? COORDINATOR2) then start_coordinator who args t else start_worker who args t;
  kill_process := testbed_kill;
  alive who t := existsb (fun w => lw_who w =? who) (tb_workers t);
  connect_to client port t :=
    match new_socket port t with
    | Some (fd, t) => (true, t <| tb_clients ::= fun l => l ++ [(client, fd)] |>)
    | None => (false, t)
    end;
  send_bytes client frame t := match socket_of client t with Some fd => arrive 3 fd frame t | None => t end;
  recv_for client ms t :=
    match socket_of client t with
    | Some fd => (default [] (tb_inbox t !! fd), t <| tb_inbox ::= delete fd |>)
    | None => ([], t)
    end;
  sleep_for ms t := t;
}.
(** ** What the driver's verdict says *)

(** Grants the worker reports as executed, and workloads it reports as good. *)
Definition printed (what : string) (w : LabWorker) : nat :=
  length (List.filter (fun l => existsb (fun i => bool_decide (i = Text what)) l) (cw_out (lw_state w))).
Definition lifecycles (c : Co) : list LifecycleState.t := (fun kv => rec_lifecycle kv.2) <$> map_to_list (im_records (co_scheduler c)).

(** The driver passes without any work done.  On devices where an allocation
    fails, with the coordinator and the workers of the sources, every check of the
    scenario is printed as passed and the exit code is 0; yet both workers
    reported their workload as BAD, neither collective completed, and the
    rejections the driver takes for the stale completion are all three
    completions, the two genuine ones included. *)
Theorem integrated_proof_blind exe_dir room : (room < 4)%nat ->
  ends (fun r p => r = Ok 0 /\ pr_fail p = 0 /\
      (fun w => (printed "[cuda_worker] executing grant for collective " w, printed "OK" w, printed "BAD" w)) <$>
        tb_past_workers (pr_device p) = [(1, 0, 1); (1, 0, 1)]%nat /\
      (fun c => (co_stale_rejections c, lifecycles c)) <$> tb_past (pr_device p) =
        [ (3, [LifecycleState.GRANTED; LifecycleState.REVALIDATION_REQUIRED]);
          (0, [LifecycleState.REVALIDATION_REQUIRED; LifecycleState.REVALIDATION_REQUIRED]) ])
    (integrated_main exe_dir (started_program (testbed room))).
Proof.
  intros Hr. do 4 (destruct room as [|room]; [vm_compute; by split_and!|]). lia.
Qed.
Example integrated_proof_blind_witness :
  exists p, integrated_main "." (started_program (testbed 2)) = (Ok 0, p) /\ pr_fail p = 0.
Proof.
  assert (2 < 4)%nat as Hr by lia. pose proof (integrated_proof_blind "." 2 Hr) as H. unfold ends in H.
  destruct (integrated_main "." (started_program (testbed 2))) as [r p]. cbn [fst snd] in H.
  destruct H as (-> & Hf & _). exists p. exact (conj eq_refl Hf).
Defined.
